(** * Command-log buffer of the default engine (engines/default/cmdlogbuf.c)

    A shallow embedding of the log buffer, its flush-request queue, the
    three log sequence numbers and the two-file handover, followed by the
    properties established about them.

    Conventions of the embedding.
    - Every public operation runs under [log_flush_lock] and/or
      [log_write_lock]; an operation is embedded as one atomic state
      transformer (the interleavings of the lock-free windows are not
      modelled).
    - A failing [assert] (and the fatal I/O errors that end in one) is the
      outcome [AssertFail].  Loops that wait for another thread are given
      fuel; running out of it is the outcome [OutOfFuel].
    - [uint32_t], [uint16_t], [int32_t] and [size_t] arithmetic is written
      out with its wrap-around.
    - The bytes of [data] are not represented: a write to a file is
      recorded as the buffer range it was taken from. *)

From Stdlib Require Import ZArith List Bool Lia.
From Stdlib Require Strings.Byte.
Import ListNotations.
Open Scope Z_scope.

(** ** Constants *)

Definition CMDLOG_BUFFER_SIZE : Z := 100 * 1024 * 1024.
Definition CMDLOG_FLUSH_AUTO_SIZE : Z := 32 * 1024.
Definition CMDLOG_RECORD_MIN_SIZE : Z := 16.

(** Modelled from the spec: [LogHdr] is declared in cmdlogrec.h; the spec
    gives headers of 8 bytes ("8 bytes header + 8 bytes body"). *)
Definition sizeof_LogHdr : Z := 8.

(** ** Machine integers *)

Definition u16 (x : Z) : Z := x mod 2 ^ 16.
Definition u32 (x : Z) : Z := x mod 2 ^ 32.
Definition u64 (x : Z) : Z := x mod 2 ^ 64.
Definition s32 (x : Z) : Z :=
  if u32 x <? 2 ^ 31 then u32 x else u32 x - 2 ^ 32.

(** ** Outcomes *)

Inductive outcome (A : Type) : Type :=
| Ret (a : A)
| AssertFail
| OutOfFuel.
Arguments Ret {A} a.
Arguments AssertFail {A}.
Arguments OutOfFuel {A}.

Definition bind {A B : Type} (m : outcome A) (f : A -> outcome B) : outcome B :=
  match m with
  | Ret a => f a
  | AssertFail => AssertFail
  | OutOfFuel => OutOfFuel
  end.

Notation "x <- m ;; k" := (bind m (fun x => k))
  (at level 61, m at next level, right associativity).

Definition assert (b : bool) : outcome unit :=
  if b then Ret tt else AssertFail.

(** ** Data *)

(** Modelled from the spec: [LogSN] is declared in cmdlogrec.h; a pair
    (filenum : u32, roffset : u64), compared lexicographically.  The
    increment of [filenum] is written with its wrap-around; [roffset], the
    count of the bytes of one file, is taken without overflow. *)
Record LogSN : Type := mkLogSN { filenum : Z; roffset : Z }.

Definition LOGSN_IS_LE (a b : LogSN) : bool :=
  (filenum a <? filenum b) ||
  ((filenum a =? filenum b) && (roffset a <=? roffset b)).

Definition LOGSN_IS_GT (a b : LogSN) : bool := negb (LOGSN_IS_LE a b).

Definition lsn_le (a b : LogSN) : Prop :=
  filenum a < filenum b \/ (filenum a = filenum b /\ roffset a <= roffset b).

Definition lsn_lt (a b : LogSN) : Prop :=
  filenum a < filenum b \/ (filenum a = filenum b /\ roffset a < roffset b).

(** log file state *)
Record log_FSTATE : Type := mkFSTATE {
  fd : Z;                 (* -1: absent *)
  fsync_ongoing : bool;
  fsize : Z               (* [size] of the C struct *)
}.

(** flush request *)
Record log_FREQ : Type := mkFREQ {
  nflush : Z;             (* uint16_t *)
  dual_write : bool
}.

Definition freq_zero : log_FREQ := mkFREQ 0 false.

(** log buffer, with its flush request queue; [fque] is the array of
    [fqsz] requests, indexed from 0. *)
Record log_BUFFER : Type := mkBUFFER {
  size : Z;
  head : Z;
  tail : Z;
  last : Z;               (* int32_t, -1: not wrapped *)
  fque : Z -> log_FREQ;
  fqsz : Z;
  fbgn : Z;
  fend : Z;
  dw_end : Z              (* int32_t, -1: no cleanup window *)
}.

(** What reaches the operating system and the codec. *)
Inductive io_event : Type :=
| IoWrite (f : Z) (off len : Z)   (* disk_byte_write(f, &data[off], len) *)
| IoFsync (f : Z)
| IoClose (f : Z)
| BufStore (off len : Z).         (* lrec_write_to_buffer(_, &data[off]) *)

Record log_global : Type := mkGLOBAL {
  curr : log_FSTATE;
  next : log_FSTATE;
  log_buffer : log_BUFFER;
  nxt_write_lsn : LogSN;
  nxt_flush_lsn : LogSN;
  nxt_fsync_lsn : LogSN;
  initialized : bool;
  io : list io_event      (* most recent event last *)
}.

(** Field updates. *)
Definition upd (q : Z -> log_FREQ) (i : Z) (r : log_FREQ) : Z -> log_FREQ :=
  fun j => if j =? i then r else q j.

Definition set_head (b : log_BUFFER) (v : Z) : log_BUFFER :=
  mkBUFFER (size b) v (tail b) (last b) (fque b) (fqsz b) (fbgn b) (fend b) (dw_end b).
Definition set_tail (b : log_BUFFER) (v : Z) : log_BUFFER :=
  mkBUFFER (size b) (head b) v (last b) (fque b) (fqsz b) (fbgn b) (fend b) (dw_end b).
Definition set_last (b : log_BUFFER) (v : Z) : log_BUFFER :=
  mkBUFFER (size b) (head b) (tail b) v (fque b) (fqsz b) (fbgn b) (fend b) (dw_end b).
Definition set_fque (b : log_BUFFER) (v : Z -> log_FREQ) : log_BUFFER :=
  mkBUFFER (size b) (head b) (tail b) (last b) v (fqsz b) (fbgn b) (fend b) (dw_end b).
Definition set_fbgn (b : log_BUFFER) (v : Z) : log_BUFFER :=
  mkBUFFER (size b) (head b) (tail b) (last b) (fque b) (fqsz b) v (fend b) (dw_end b).
Definition set_fend (b : log_BUFFER) (v : Z) : log_BUFFER :=
  mkBUFFER (size b) (head b) (tail b) (last b) (fque b) (fqsz b) (fbgn b) v (dw_end b).
Definition set_dw_end (b : log_BUFFER) (v : Z) : log_BUFFER :=
  mkBUFFER (size b) (head b) (tail b) (last b) (fque b) (fqsz b) (fbgn b) (fend b) v.

Definition set_curr (g : log_global) (v : log_FSTATE) : log_global :=
  mkGLOBAL v (next g) (log_buffer g) (nxt_write_lsn g) (nxt_flush_lsn g)
           (nxt_fsync_lsn g) (initialized g) (io g).
Definition set_next (g : log_global) (v : log_FSTATE) : log_global :=
  mkGLOBAL (curr g) v (log_buffer g) (nxt_write_lsn g) (nxt_flush_lsn g)
           (nxt_fsync_lsn g) (initialized g) (io g).
Definition set_buffer (g : log_global) (v : log_BUFFER) : log_global :=
  mkGLOBAL (curr g) (next g) v (nxt_write_lsn g) (nxt_flush_lsn g)
           (nxt_fsync_lsn g) (initialized g) (io g).
Definition set_write_lsn (g : log_global) (v : LogSN) : log_global :=
  mkGLOBAL (curr g) (next g) (log_buffer g) v (nxt_flush_lsn g)
           (nxt_fsync_lsn g) (initialized g) (io g).
Definition set_flush_lsn (g : log_global) (v : LogSN) : log_global :=
  mkGLOBAL (curr g) (next g) (log_buffer g) (nxt_write_lsn g) v
           (nxt_fsync_lsn g) (initialized g) (io g).
Definition set_fsync_lsn (g : log_global) (v : LogSN) : log_global :=
  mkGLOBAL (curr g) (next g) (log_buffer g) (nxt_write_lsn g) (nxt_flush_lsn g)
           v (initialized g) (io g).
Definition emit (g : log_global) (e : io_event) : log_global :=
  mkGLOBAL (curr g) (next g) (log_buffer g) (nxt_write_lsn g) (nxt_flush_lsn g)
           (nxt_fsync_lsn g) (initialized g) (io g ++ [e]).

(** [if ((++x) == fqsz) x = 0;] *)
Definition ring_next (b : log_BUFFER) (i : Z) : Z :=
  if u32 (i + 1) =? fqsz b then 0 else u32 (i + 1).

(** ** Static functions *)

(** [do_log_file_write]: the buffer range goes to [curr.fd], and to
    [next.fd] as well under [dual_write] when a next file is there.  A
    short [disk_byte_write] is fatal, so only the complete write returns. *)
Definition do_log_file_write (off len : Z) (dual : bool) (g : log_global)
  : outcome log_global :=
  _ <- assert (negb (fd (curr g) =? -1)) ;;
  let g1 := emit g (IoWrite (fd (curr g)) off len) in
  let g2 := set_curr g1 (mkFSTATE (fd (curr g1)) (fsync_ongoing (curr g1))
                                  (u64 (fsize (curr g1) + len))) in
  if dual && negb (fd (next g2) =? -1) then
    let g3 := emit g2 (IoWrite (fd (next g2)) off len) in
    Ret (set_next g3 (mkFSTATE (fd (next g3)) (fsync_ongoing (next g3))
                               (u64 (fsize (next g3) + len))))
  else Ret g2.

(** [if (head == last) { last = -1; head = 0; }]: the upper region is
    drained, the ring is no longer wrapped. *)
Definition reclaim (b : log_BUFFER) : log_BUFFER :=
  if head b =? u32 (last b) then set_head (set_last b (-1)) 0 else b.

(** [do_log_buff_flush], first critical section: what to flush. *)
Record flush_plan : Type := mkPlan {
  fp_nflush : Z;
  fp_dual : bool;           (* dual_write_flag *)
  fp_next_fhlsn : bool;     (* next_fhlsn_flag *)
  fp_cleanup : bool         (* cleanup_process *)
}.

Definition flush_select (flush_all : bool) (b : log_BUFFER)
  : outcome (log_BUFFER * flush_plan) :=
  let cleanup := negb (dw_end b =? -1) in
  let nextfh := fbgn b =? u32 (dw_end b) in
  let b1 := if nextfh then set_dw_end b (-1) else b in
  r <- (if negb (fbgn b1 =? fend b1) then
          let n := nflush (fque b1 (fbgn b1)) in
          _ <- assert (n >? 0) ;;
          Ret (b1, n, dual_write (fque b1 (fbgn b1)))
        else if flush_all && (nflush (fque b1 (fend b1)) >? 0) then
          Ret (set_fend b1 (ring_next b1 (fend b1)),
               nflush (fque b1 (fend b1)), dual_write (fque b1 (fend b1)))
        else Ret (b1, 0, false)) ;;
  let '(b2, n, d) := r in
  let b3 := if n >? 0 then reclaim b2 else b2 in
  Ret (b3, mkPlan n d nextfh cleanup).

(** [do_log_buff_flush], last critical section: next flush position. *)
Definition flush_commit (n : Z) (b : log_BUFFER) : log_BUFFER :=
  let b1 := set_head b (u32 (head b + n)) in
  let b2 := reclaim b1 in
  let b3 := set_fque b2 (upd (fque b2) (fbgn b2) freq_zero) in
  set_fbgn b3 (ring_next b3 (fbgn b3)).

(** [filenum += 1; roffset = 0;] *)
Definition bump_filenum (l : LogSN) : LogSN := mkLogSN (u32 (filenum l + 1)) 0.
Definition add_roffset (l : LogSN) (n : Z) : LogSN :=
  mkLogSN (filenum l) (roffset l + n).

Definition do_log_buff_flush (flush_all : bool) (g : log_global)
  : outcome (log_global * Z) :=
  sel <- flush_select flush_all (log_buffer g) ;;
  let '(b1, p) := sel in
  let g1 := set_buffer g b1 in
  let g2 := if fp_next_fhlsn p
            then set_flush_lsn g1 (bump_filenum (nxt_flush_lsn g1)) else g1 in
  if fp_nflush p >? 0 then
    g3 <- (if fp_cleanup p then
             (* Cleanup process: skip if requested by old cmdlog file only. *)
             if fp_dual p
             then do_log_file_write (head (log_buffer g2)) (fp_nflush p) false g2
             else Ret g2
           else do_log_file_write (head (log_buffer g2)) (fp_nflush p)
                                  (fp_dual p) g2) ;;
    let g4 := set_flush_lsn g3 (add_roffset (nxt_flush_lsn g3) (fp_nflush p)) in
    Ret (set_buffer g4 (flush_commit (fp_nflush p) (log_buffer g4)), fp_nflush p)
  else Ret (g2, 0).

(** Modelled from the spec: [LogRec] is declared in cmdlogrec.h; of a
    record only [header.body_length] (a [uint32_t]) matters here. *)
Record LogRec : Type := mkLogRec { body_length : Z }.

(** The wrap of the ring: [last = tail; tail = 0;] and the non-empty tail
    request is closed, to keep the data of a request contiguous. *)
Definition wrap_ring (b : log_BUFFER) : log_BUFFER :=
  let b1 := set_tail (set_last b (s32 (tail b))) 0 in
  if nflush (fque b1 (fend b1)) >? 0
  then set_fend b1 (ring_next b1 (fend b1)) else b1.

(** One pass of the search loop of [do_log_buff_write]: [true] when the
    loop breaks with enough space at [tail]. *)
Definition find_space (total : Z) (b : log_BUFFER) : outcome (bool * log_BUFFER) :=
  if head b <=? tail b then
    _ <- assert (last b =? -1) ;;
    if total <? u32 (size b - tail b) then Ret (true, b)
    else if head b >? 0 then
      let b2 := wrap_ring b in Ret (total <? head b2, b2)
    else Ret (false, b)
  else
    _ <- assert (negb (last b =? -1)) ;;
    Ret (total <? u32 (head b - tail b), b).

(** The search loop; lacking space it flushes ([flush_all = false]) and
    tries again. *)
Fixpoint acquire (fuel : nat) (total : Z) (g : log_global) : outcome log_global :=
  r <- find_space total (log_buffer g) ;;
  let '(ok, b1) := r in
  let g1 := set_buffer g b1 in
  if ok then Ret g1
  else match fuel with
       | O => OutOfFuel
       | S k => r2 <- do_log_buff_flush false g1 ;; acquire k total (fst r2)
       end.

(** Closing the tail request when its flag differs from the record's. *)
Definition close_on_mismatch (dual : bool) (b : log_BUFFER) : log_BUFFER :=
  if (nflush (fque b (fend b)) >? 0) &&
     negb (Bool.eqb (dual_write (fque b (fend b))) dual)
  then set_fend b (ring_next b (fend b)) else b.

(** [while (total_length > 0)]: spreading the record over flush requests. *)
Fixpoint enqueue (fuel : nat) (total : Z) (dual : bool) (b : log_BUFFER)
  : outcome log_BUFFER :=
  if total >? 0 then
    match fuel with
    | O => OutOfFuel
    | S k =>
        let spare0 := u32 (CMDLOG_FLUSH_AUTO_SIZE - nflush (fque b (fend b))) in
        let spare := if spare0 >=? total then total else spare0 in
        let r := mkFREQ (u16 (nflush (fque b (fend b)) + spare)) dual in
        let b1 := set_fque b (upd (fque b) (fend b) r) in
        let b2 := if nflush r =? CMDLOG_FLUSH_AUTO_SIZE
                  then set_fend b1 (ring_next b1 (fend b1)) else b1 in
        enqueue k (u32 (total - spare)) dual b2
    end
  else Ret b.

(** [do_log_buff_write]; the waiter's stamp is returned with the state. *)
Definition do_log_buff_write (fuel : nat) (logrec : LogRec) (waiter dual : bool)
           (g : log_global) : outcome (log_global * option LogSN) :=
  let total := u32 (sizeof_LogHdr + body_length logrec) in
  _ <- assert (total <? size (log_buffer g)) ;;
  let stamp := if waiter then Some (nxt_write_lsn g) else None in
  g1 <- acquire fuel total g ;;
  let g2 := emit g1 (BufStore (tail (log_buffer g1)) total) in
  let g3 := set_buffer g2 (set_tail (log_buffer g2)
                                    (u32 (tail (log_buffer g2) + total))) in
  let g4 := set_write_lsn g3 (add_roffset (nxt_write_lsn g3) total) in
  b5 <- enqueue (Z.to_nat total) total dual
                (close_on_mismatch dual (log_buffer g4)) ;;
  Ret (set_buffer g4 b5, stamp).

(** ** External functions *)

Definition set_ongoing (s : log_FSTATE) (v : bool) : log_FSTATE :=
  mkFSTATE (fd s) v (fsize s).

(** [do_log_file_sync]: a failing fsync or close is fatal. *)
Definition do_log_file_sync (f : Z) (close : bool) (g : log_global) : log_global :=
  let g1 := emit g (IoFsync f) in
  if close then emit g1 (IoClose f) else g1.

(** [log_file_sync], up to the release of the flush lock: the snapshot
    (now_flush_lsn, fd, next_fd). *)
Definition log_file_sync_begin (g : log_global) : log_global * (LogSN * Z * Z) :=
  let now := nxt_flush_lsn g in
  let f := fd (curr g) in
  let nf := fd (next g) in
  let g1 := set_curr g (set_ongoing (curr g) true) in
  let g2 := if negb (nf =? -1) then set_next g1 (set_ongoing (next g1) true)
            else g1 in
  (g2, (now, f, nf)).

(** [log_file_sync], from the fsync calls on. *)
Definition log_file_sync_end (snap : LogSN * Z * Z) (g : log_global)
  : outcome log_global :=
  let '(now, f, nf) := snap in
  _ <- assert (negb (f =? -1)) ;;
  let g1 := do_log_file_sync f false g in
  let g2 := if negb (nf =? -1) then do_log_file_sync nf false g1 else g1 in
  let g3 := set_fsync_lsn g2 now in
  let g4 := if f =? fd (curr g3)
            then set_curr g3 (set_ongoing (curr g3) false)
            else emit g3 (IoClose f) in
  let g5 := if negb (nf =? -1) then
              if nf =? fd (curr g4)
              then set_curr g4 (set_ongoing (curr g4) false)
              else if nf =? fd (next g4)
                   then set_next g4 (set_ongoing (next g4) false)
                   else emit g4 (IoClose nf)
            else g4 in
  Ret g5.

Definition log_file_sync (g : log_global) : outcome log_global :=
  let '(g1, snap) := log_file_sync_begin g in log_file_sync_end snap g1.

(** [log_buffer_flush]: the do-while loop, one pass per unit of fuel. *)
Fixpoint log_buffer_flush (fuel : nat) (upto : LogSN) (g : log_global)
  : outcome log_global :=
  if LOGSN_IS_LE (nxt_flush_lsn g) upto then
    r <- do_log_buff_flush true g ;;
    let '(g1, n) := r in
    _ <- assert (n >? 0) ;;
    if LOGSN_IS_GT (nxt_flush_lsn g1) upto then Ret g1
    else match fuel with
         | O => OutOfFuel
         | S k => log_buffer_flush k upto g1
         end
  else Ret g.

Definition log_record_write (fuel : nat) (logrec : LogRec) (waiter dual : bool)
           (g : log_global) : outcome (log_global * option LogSN) :=
  do_log_buff_write fuel logrec waiter dual g.

Definition log_get_flush_lsn (g : log_global) : LogSN := nxt_flush_lsn g.
Definition log_get_fsync_lsn (g : log_global) : LogSN := nxt_fsync_lsn g.

(** [cmdlog_complete_dual_write(false)]: resetting the flags of the
    non-empty requests from [fbgn] on. *)
Fixpoint reset_dual (fuel : nat) (index : Z) (b : log_BUFFER) : outcome log_BUFFER :=
  if nflush (fque b index) >? 0 then
    match fuel with
    | O => OutOfFuel
    | S k =>
        let b1 := if dual_write (fque b index)
                  then set_fque b (upd (fque b) index
                                       (mkFREQ (nflush (fque b index)) false))
                  else b in
        reset_dual k (ring_next b1 index) b1
    end
  else Ret b.

Definition no_file : log_FSTATE := mkFSTATE (-1) false 0.

Definition cmdlog_complete_dual_write (fuel : nat) (success : bool) (g : log_global)
  : outcome log_global :=
  if fd (next g) =? -1 then Ret g
  else
    r <- (if success then
            let b := log_buffer g in
            let b1 := if nflush (fque b (fend b)) >? 0
                      then set_fend b (ring_next b (fend b)) else b in
            _ <- assert (dw_end b1 =? -1) ;;
            let b2 := set_dw_end b1 (s32 (fend b1)) in
            let g1 := set_write_lsn (set_buffer g b2)
                                    (bump_filenum (nxt_write_lsn g)) in
            let prev := curr g1 in
            let g2 := set_next (set_curr g1 (next g1)) no_file in
            Ret (g2, fd prev, fsync_ongoing prev)
          else
            b1 <- reset_dual fuel (s32 (fbgn (log_buffer g))) (log_buffer g) ;;
            let g1 := set_buffer g b1 in
            let prev := next g1 in
            Ret (set_next g1 no_file, fd prev, fsync_ongoing prev)) ;;
    let '(g3, prev_fd, prev_ongoing) := r in
    if negb (prev_fd =? -1) && negb prev_ongoing
    then Ret (emit g3 (IoClose prev_fd)) else Ret g3.

(** [cmdlog_file_prepare]; [newfd] is what [disk_open] returned. *)
Definition cmdlog_file_prepare (newfd : Z) (g : log_global) : log_global * Z :=
  if newfd <? 0 then (g, -1)
  else if fd (curr g) =? -1
       then (set_curr g (mkFSTATE newfd false 0), 0)
       else (set_next g (mkFSTATE newfd false 0), 0).

Definition cmdlog_file_getsize (g : log_global) : Z :=
  if dw_end (log_buffer g) =? -1 then fsize (curr g) else 0.

(** [cmdlog_buf_init], both allocations succeeding. *)
Definition cmdlog_buf_init : log_global :=
  let l := mkLogSN 1 0 in
  mkGLOBAL no_file no_file
           (mkBUFFER CMDLOG_BUFFER_SIZE 0 0 (-1) (fun _ => freq_zero)
                     (u32 (CMDLOG_BUFFER_SIZE / CMDLOG_RECORD_MIN_SIZE)) 0 0 (-1))
           l l l true [].

(** ** Recovery: [cmdlog_file_apply] *)

Inductive ENGINE_ERROR_CODE : Type :=
| ENGINE_SUCCESS
| ENGINE_ENOMEM
| ENGINE_FAILED.            (* any other failure *)

(** The file behind [curr.fd]: its bytes and the file offset. *)
Record log_fd : Type := mkFd { content : list Byte.byte; pos : Z }.

(** [read(fd, buf, n)]: the bytes from the offset on, [n] at most. *)
Definition read (f : log_fd) (n : Z) : list Byte.byte * log_fd :=
  let bytes := firstn (Z.to_nat n) (skipn (Z.to_nat (pos f)) (content f)) in
  (bytes, mkFd (content f) (pos f + Z.of_nat (length bytes))).

(** [lseek(fd, d, SEEK_CUR)]: the new offset, or -1 with the offset
    unchanged. *)
Definition lseek_cur (f : log_fd) (d : Z) : log_fd * Z :=
  if pos f + d <? 0 then (f, -1)
  else (mkFd (content f) (pos f + d), pos f + d).

(** A record as read back: header image and body. *)
Definition LogImg : Type := (list Byte.byte * list Byte.byte)%type.

Record apply_out : Type := mkOut {
  ao_ret : Z;                 (* 0 | -1 *)
  ao_size : Z;                (* curr.size on return *)
  ao_fd : log_fd;
  ao_redone : list LogImg;    (* the calls of lrec_redo_from_record *)
  ao_closed : bool            (* close(curr.fd) was called *)
}.

Section Recovery.

(** From cmdlogrec.h, not part of this file: the record size limit, the
    [body_length] field of a header image, and the redo hook. *)
Variable MAX_LOG_RECORD_SIZE : Z.
Variable body_length_of : list Byte.byte -> Z.
Variable lrec_redo_from_record : LogImg -> ENGINE_ERROR_CODE.

(** The [while] loop; [seek] is [seek_offset], an [int]: it is converted
    to [size_t] where it meets [curr.size], and it wraps where it is
    assigned (the [+=] of an [ssize_t], the [off_t] that [lseek] returns).
    [fsz] is [curr.size] as [fstat] gave it.  The result is ([ret],
    [seek_offset], file, redo calls). *)
Fixpoint apply_loop (fuel : nat) (initd : bool) (fsz : Z) (f : log_fd)
         (seek : Z) (done : list LogImg)
  : outcome (Z * Z * log_fd * list LogImg) :=
  if initd && (u64 seek <? fsz) then
    match fuel with
    | O => OutOfFuel
    | S k =>
        if u64 (fsz - seek) <? sizeof_LogHdr then Ret (0, seek, f, done)
        else
          let '(hdr, f1) := read f sizeof_LogHdr in
          let nread := Z.of_nat (length hdr) in
          if negb (nread =? sizeof_LogHdr) then Ret (-1, seek, f1, done)
          else
            let seek1 := s32 (seek + nread) in
            let blen := body_length_of hdr in
            if u64 (fsz - seek1) <? blen then
              let '(f2, off) := lseek_cur f1 (- nread) in
              let seek2 := s32 off in
              Ret (if seek2 <? 0 then -1 else 0, seek2, f2, done)
            else if blen >? 0 then
              if u32 (MAX_LOG_RECORD_SIZE - nread) <? blen
              then Ret (-1, seek1, f1, done)
              else
                let '(body, f2) := read f1 blen in
                let nread2 := Z.of_nat (length body) in
                if negb (nread2 =? blen) then Ret (-1, seek1, f2, done)
                else
                  let seek2 := s32 (seek1 + nread2) in
                  match lrec_redo_from_record (hdr, body) with
                  | ENGINE_ENOMEM => Ret (-1, seek2, f2, done ++ [(hdr, body)])
                  | _ => apply_loop k initd fsz f2 seek2 (done ++ [(hdr, body)])
                  end
            else apply_loop k initd fsz f1 seek1 done
    end
  else Ret (0, seek, f, done).

(** [cmdlog_file_apply]; [curr_fd] is [curr.fd], [f] the file behind it.
    Every pass of the loop that goes on has read a header, so one unit of
    fuel per byte is enough.  On success [curr.size], a [size_t], takes the
    value of [seek_offset]. *)
Definition cmdlog_file_apply (initd : bool) (curr_fd : Z) (f : log_fd)
  : outcome apply_out :=
  _ <- assert (curr_fd >? 0) ;;
  let fsz := Z.of_nat (length (content f)) in
  if fsz =? 0 then Ret (mkOut 0 fsz f [] false)
  else
    r <- apply_loop (S (length (content f))) initd fsz f 0 [] ;;
    let '(ret, seek, f', done) := r in
    if ret <? 0 then Ret (mkOut ret fsz f' done true)
    else Ret (mkOut ret (u64 seek) f' done false).

(** A log file as the writer leaves it: complete records, then possibly
    a torn one. *)
Definition complete (r : LogImg) : Prop :=
  Z.of_nat (length (fst r)) = sizeof_LogHdr /\
  body_length_of (fst r) = Z.of_nat (length (snd r)).

Definition encode (recs : list LogImg) : list Byte.byte :=
  concat (map (fun r => fst r ++ snd r) recs).

Definition torn (t : list Byte.byte) : Prop :=
  Z.of_nat (length t) < sizeof_LogHdr \/
  exists h p, t = h ++ p /\ Z.of_nat (length h) = sizeof_LogHdr /\
              Z.of_nat (length p) < body_length_of h.

(** The records that reach the redo hook: those with a body. *)
Definition with_body (recs : list LogImg) : list LogImg :=
  filter (fun r => negb (Nat.eqb (length (snd r)) 0)) recs.

(** A record the loop passes over: complete, within the size limit, and
    redone without running out of memory. *)
Definition passes (r : LogImg) : Prop :=
  complete r /\
  body_length_of (fst r) <= MAX_LOG_RECORD_SIZE - sizeof_LogHdr /\
  (0 < body_length_of (fst r) -> lrec_redo_from_record r <> ENGINE_ENOMEM).

End Recovery.

(** ** Scenario S1 *)

(** Bytes handed to [write] for descriptor [f]. *)
Fixpoint file_bytes (f : Z) (evs : list io_event) : Z :=
  match evs with
  | [] => 0
  | IoWrite f' _ len :: r => (if f' =? f then len else 0) + file_bytes f r
  | _ :: r => file_bytes f r
  end.

Definition write_rec (fuel : nat) (body : Z) (dual : bool) (g : log_global)
  : outcome log_global :=
  r <- log_record_write fuel (mkLogRec body) true dual g ;; Ret (fst r).

(** Init, one prepared file (descriptor [f]), three records of body
    lengths 8, 16 and 32. *)
Definition S1_written (fuel : nat) (f : Z) : outcome log_global :=
  g1 <- write_rec fuel 8 false (fst (cmdlog_file_prepare f cmdlog_buf_init)) ;;
  g2 <- write_rec fuel 16 false g1 ;;
  write_rec fuel 32 false g2.

(** ... then [log_buffer_flush(upto)] and [log_file_sync]. *)
Definition S1 (fuel : nat) (f : Z) (upto : LogSN) : outcome log_global :=
  g3 <- S1_written fuel f ;;
  g4 <- log_buffer_flush fuel upto g3 ;;
  log_file_sync g4.

(** ** Reading the flush-request queue *)

(** The request [do_log_buff_flush] takes up: the one at [fbgn] when the
    queue holds a closed request, else under [flush_all] the non-empty
    tail request. *)
Definition selected (flush_all : bool) (b : log_BUFFER) : option log_FREQ :=
  if negb (fbgn b =? fend b) then Some (fque b (fbgn b))
  else if flush_all && (nflush (fque b (fend b)) >? 0)
       then Some (fque b (fend b)) else None.

(** The buffer after the first critical section took up a request. *)
Definition close_dw (b : log_BUFFER) : log_BUFFER :=
  if fbgn b =? u32 (dw_end b) then set_dw_end b (-1) else b.
Definition close_tail (b : log_BUFFER) : log_BUFFER :=
  if fbgn b =? fend b then set_fend b (ring_next b (fend b)) else b.

(** [nxt_flush_lsn] once [next_fhlsn_flag] has been honoured. *)
Definition flush_lsn_base (g : log_global) : LogSN :=
  if fbgn (log_buffer g) =? u32 (dw_end (log_buffer g))
  then bump_filenum (nxt_flush_lsn g) else nxt_flush_lsn g.

(** The [write] calls made for request [r] found at offset [off]. *)
Definition flush_writes (g : log_global) (r : log_FREQ) (off : Z) : list io_event :=
  if negb (dw_end (log_buffer g) =? -1) then
    if dual_write r then [IoWrite (fd (curr g)) off (nflush r)] else []
  else
    IoWrite (fd (curr g)) off (nflush r) ::
    (if dual_write r && negb (fd (next g) =? -1)
     then [IoWrite (fd (next g)) off (nflush r)] else []).

(** ** States used as instances *)

(** At a concrete state: descriptor 3 current, 4 next, 24 bytes in the tail
    request. *)
Definition rot_state : log_global :=
  mkGLOBAL (mkFSTATE 3 false 0) (mkFSTATE 4 false 0)
           (mkBUFFER CMDLOG_BUFFER_SIZE 0 24 (-1)
                     (upd (fun _ => freq_zero) 0 (mkFREQ 24 true))
                     (u32 (CMDLOG_BUFFER_SIZE / CMDLOG_RECORD_MIN_SIZE)) 0 0 (-1))
           (mkLogSN 1 24) (mkLogSN 1 0) (mkLogSN 1 0) true [BufStore 0 24].


Definition state_of (o : outcome log_global) : log_global :=
  match o with Ret g => g | _ => cmdlog_buf_init end.

Definition two_files : log_global :=
  fst (cmdlog_file_prepare 4 (fst (cmdlog_file_prepare 3 cmdlog_buf_init))).

(** Descriptors 3 and 4 prepared, one record of body length 16 written
    under dual write, rotation completed: a cleanup window with one
    dual-write request. *)
Definition cleanup_dual : log_global :=
  state_of (g <- write_rec 1 16 true two_files ;;
            cmdlog_complete_dual_write 0 true g).

(** Descriptor 3 prepared, one record of body length 16 written for the old
    file only, descriptor 4 prepared, rotation completed: a cleanup window
    with one request of the old file only. *)
Definition cleanup_old_only : log_global :=
  state_of (g <- write_rec 1 16 false (fst (cmdlog_file_prepare 3 cmdlog_buf_init)) ;;
            cmdlog_complete_dual_write 0 true (fst (cmdlog_file_prepare 4 g))).

(** Descriptors 3 and 4 prepared, a record of body length 16 written under
    dual write, the rotation completed and that record flushed by the
    flusher; then a record of body length 16 written for one file only.
    [fbgn = dw_end = fend = 1]: the next flush is the one that ends the
    cleanup window, and the request it finds is the one written after the
    rotation. *)
Definition cleanup_boundary : log_global :=
  state_of (g1 <- write_rec 1 16 true two_files ;;
            g2 <- cmdlog_complete_dual_write 0 true g1 ;;
            r3 <- do_log_buff_flush false g2 ;;
            write_rec 1 16 false (fst r3)).

(** ** The invariant tying queue, ring and sequence numbers *)

Fixpoint sumf (l : list log_FREQ) : Z :=
  match l with
  | [] => 0
  | r :: l' => nflush r + sumf l'
  end.

(** The request [k] places after [fbgn]. *)
Definition slot (b : log_BUFFER) (k : Z) : log_FREQ :=
  fque b ((fbgn b + k) mod fqsz b).

(** [l] lists the closed requests, from [fbgn] up to (not including)
    [fend]; the request at [fend] is open, those beyond it are empty. *)
Record queue_inv (b : log_BUFFER) (l : list log_FREQ) : Prop := mkQueueInv {
  qi_size : 2 <= fqsz b < 2 ^ 31;
  qi_fbgn : 0 <= fbgn b < fqsz b;
  qi_len : Z.of_nat (length l) < fqsz b;
  qi_fend : fend b = (fbgn b + Z.of_nat (length l)) mod fqsz b;
  qi_closed : forall k r, nth_error l k = Some r ->
                slot b (Z.of_nat k) = r /\
                0 < nflush r <= CMDLOG_FLUSH_AUTO_SIZE;
  qi_open : 0 <= nflush (fque b (fend b)) < CMDLOG_FLUSH_AUTO_SIZE;
  qi_free : forall k, Z.of_nat (length l) < k < fqsz b ->
                nflush (slot b k) = 0
}.

(** Sequence numbers against the queue: the file number of
    [nxt_write_lsn] is a [uint32_t]; outside a cleanup window the pending
    bytes separate [nxt_flush_lsn] from [nxt_write_lsn]; inside one, [d]
    closed requests are left before [dw_end] and the requests from
    [dw_end] on hold the bytes of the new file. *)
Definition lsn_inv (g : log_global) (l : list log_FREQ) (d : nat) : Prop :=
  let b := log_buffer g in
  let o := fque b (fend b) in
  lsn_le (nxt_fsync_lsn g) (nxt_flush_lsn g) /\
  0 <= roffset (nxt_flush_lsn g) /\
  0 <= filenum (nxt_write_lsn g) < 2 ^ 32 /\
  ((dw_end b = -1 /\
    filenum (nxt_flush_lsn g) = filenum (nxt_write_lsn g) /\
    roffset (nxt_flush_lsn g) + sumf l + nflush o = roffset (nxt_write_lsn g))
   \/
   (dw_end b = (fbgn b + Z.of_nat d) mod fqsz b /\
    (d <= length l)%nat /\
    filenum (nxt_flush_lsn g) + 1 = filenum (nxt_write_lsn g) /\
    sumf (skipn d l) + nflush o = roffset (nxt_write_lsn g))).

(** The ring against the queue: unwrapped, the pending bytes are
    [head .. tail); wrapped, the first [u] closed requests cover
    [head .. last) and the rest [0 .. tail). *)
Definition buf_inv (b : log_BUFFER) (l : list log_FREQ) (u : nat) : Prop :=
  let o := fque b (fend b) in
  0 < size b < 2 ^ 31 /\
  ((last b = -1 /\ 0 <= head b <= tail b /\ tail b < size b /\
    sumf l + nflush o = tail b - head b)
   \/
   (0 <= tail b < head b /\ head b <= last b < size b /\
    (u <= length l)%nat /\
    sumf (firstn u l) = last b - head b /\
    sumf (skipn u l) + nflush o = tail b)).

Definition Inv (g : log_global) : Prop :=
  exists l d u,
    queue_inv (log_buffer g) l /\ lsn_inv g l d /\ buf_inv (log_buffer g) l u.

(** [head] and [last] after a flush of [n] bytes: reclamation, advance,
    reclamation. *)
Definition ring_after (h l n : Z) : Z * Z :=
  let h0 := if h =? u32 l then 0 else h in
  let l0 := if h =? u32 l then -1 else l in
  let h1 := u32 (h0 + n) in
  if h1 =? u32 l0 then (0, -1) else (h1, l0).

(** Two files prepared and the rotation completed at once, nothing
    written: [nxt_write_lsn] is (2, 0), [nxt_flush_lsn] still (1, 0). *)
Definition rotated_empty : log_global :=
  state_of (cmdlog_complete_dual_write 0 true two_files).

(** One prepared file and the three records of scenario S1. *)
Definition three_records : log_global := state_of (S1_written 1 3).

(** Descriptor 3 current; 104857 records of 1000 bytes written and
    flushed: the ring is empty, 600 bytes short of its end. *)
Definition near_end : log_global :=
  mkGLOBAL (mkFSTATE 3 false 104857000) no_file
           (mkBUFFER CMDLOG_BUFFER_SIZE 104857000 104857000 (-1)
                     (fun _ => freq_zero)
                     (u32 (CMDLOG_BUFFER_SIZE / CMDLOG_RECORD_MIN_SIZE))
                     104857 104857 (-1))
           (mkLogSN 1 104857000) (mkLogSN 1 104857000) (mkLogSN 1 104857000)
           true [].

Definition ret_of {A : Type} (d : A) (o : outcome A) : A :=
  match o with Ret a => a | _ => d end.

Definition one_file : log_global := fst (cmdlog_file_prepare 3 cmdlog_buf_init).

(** Room for [total] bytes at [tail], short of the pending bytes and of the
    end of the ring. *)
Definition space_ok (total : Z) (b : log_BUFFER) : Prop :=
  (last b = -1 /\ 0 <= head b <= tail b /\ tail b + total < size b) \/
  (0 <= tail b /\ tail b + total < head b /\ head b <= last b < size b).

(** A wrapped ring without room for [total] and with [fbgn = fend]: the
    search loop flushes nothing and turns forever. *)
Definition stuck (total : Z) (b : log_BUFFER) : Prop :=
  fbgn b = fend b /\ 0 <= tail b < head b /\ head b < 2 ^ 31 /\
  head b - tail b <= total /\ last b <> -1.

(** An instance of what cmdlogrec.h leaves open: [body_length] as the
    first four bytes of the header, little-endian; a limit of 2 MiB; a redo
    hook that always succeeds. *)
Definition le32 (h : list Byte.byte) : Z :=
  match h with
  | b0 :: b1 :: b2 :: b3 :: _ =>
      Z.of_N (Strings.Byte.to_N b0) + 256 * Z.of_N (Strings.Byte.to_N b1) +
      65536 * Z.of_N (Strings.Byte.to_N b2) + 16777216 * Z.of_N (Strings.Byte.to_N b3)
  | _ => 0
  end.

Definition max_2MiB : Z := 2 * 1024 * 1024.
Definition redo_ok (r : LogImg) : ENGINE_ERROR_CODE := ENGINE_SUCCESS.

Definition hdr_of (n : Byte.byte) : list Byte.byte :=
  [n; Byte.x00; Byte.x00; Byte.x00; Byte.x01; Byte.x00; Byte.x00; Byte.x00].

(** A header announcing 0xffffffff bytes of body. *)
Definition hdr_huge : list Byte.byte :=
  [Byte.xff; Byte.xff; Byte.xff; Byte.xff; Byte.x01; Byte.x00; Byte.x00; Byte.x00].

(** ** Runs of the subsystem *)

(** A record as the codec makes it: not below CMDLOG_RECORD_MIN_SIZE
    (8 bytes of header, 8 of body at least), its length a [uint32_t]. *)
Definition record_ok (r : LogRec) : Prop :=
  CMDLOG_RECORD_MIN_SIZE <= sizeof_LogHdr + body_length r < 2 ^ 32.

(** One operation: the public functions, and [do_log_buff_flush(false)]
    as the flusher thread calls it ([do_log_buff_flush(true)] is called by
    [log_buffer_flush] only). *)
Inductive step : log_global -> log_global -> Prop :=
| step_record_write fuel r waiter dual g g' stamp :
    record_ok r ->
    log_record_write fuel r waiter dual g = Ret (g', stamp) -> step g g'
| step_flush_once g g' n :
    do_log_buff_flush false g = Ret (g', n) -> step g g'
| step_buffer_flush fuel upto g g' :
    log_buffer_flush fuel upto g = Ret g' -> step g g'
| step_file_sync g g' :
    log_file_sync g = Ret g' -> step g g'
| step_complete_dual_write fuel success g g' :
    cmdlog_complete_dual_write fuel success g = Ret g' -> step g g'
| step_file_prepare newfd g :
    step g (fst (cmdlog_file_prepare newfd g)).

Inductive reachable : log_global -> Prop :=
| reach_init : reachable cmdlog_buf_init
| reach_step g g' : reachable g -> step g g' -> reachable g'.

(** ** A run that fills the flush-request queue *)

(** Two files prepared; a record of 17 bytes under dual write, a record of
    32782 bytes for the old file only (it fills one request and leaves 14
    bytes in the next); the flusher takes the first two requests. *)
Definition run_base : log_global :=
  state_of (g1 <- write_rec 0 9 true two_files ;;
            g2 <- write_rec 0 32774 false g1 ;;
            r3 <- do_log_buff_flush false g2 ;;
            r4 <- do_log_buff_flush false (fst r3) ;;
            Ret (fst r4)).

Definition QSZ : Z := 6553600.            (* fqsz *)
Definition upper_count : Z := 6551550.    (* records up to the end of the ring *)
Definition all_count : Z := 6553599.      (* ... and up to one byte below head *)

(** Then [n] records of 16 bytes follow, each with the [dual_write] flag
    the one before did not have.  Record [n] lands in the request at
    [slot_index n]; the ring of bytes wraps after [upper_count] of them. *)
Definition slot_index (n : Z) : Z := (2 + n) mod QSZ.

Definition alt_flag (n : Z) : bool := Z.odd (slot_index n).

Definition alt_filled (n j : Z) : bool :=
  ((3 <=? j) && (j <? 3 + n) && (j <? QSZ)) ||
  ((0 <=? j) && (j <? 3 + n - QSZ)).

Definition alt_que (n j : Z) : log_FREQ :=
  if j =? 2 then mkFREQ 14 false
  else if alt_filled n j then mkFREQ 16 (Z.odd j) else freq_zero.

Definition alt_tail (n : Z) : Z :=
  if n <=? upper_count then 32799 + 16 * n else 16 * (n - upper_count).

Definition alt_last (n : Z) : Z :=
  if n <=? upper_count then -1 else CMDLOG_BUFFER_SIZE - 1.

Definition alt_state (n : Z) (g : log_global) : Prop :=
  let b := log_buffer g in
  size b = CMDLOG_BUFFER_SIZE /\ fqsz b = QSZ /\ head b = 32785 /\
  tail b = alt_tail n /\ last b = alt_last n /\
  fbgn b = 2 /\ fend b = slot_index n /\ dw_end b = -1 /\
  nxt_write_lsn g = mkLogSN 1 (32799 + 16 * n) /\
  nxt_flush_lsn g = mkLogSN 1 32785 /\
  fd (curr g) = 3 /\ fd (next g) = 4 /\
  forall j, fque b j = alt_que n j.

(** After the run: the rotation completed with the queue full, and [k] + 1
    requests flushed since.  [fbgn = fend], as in an empty queue, while the
    requests from [fend] on still hold the pending bytes. *)
Definition late_que (k j : Z) : log_FREQ :=
  if (2 <=? j) && (j <? 3 + k) then freq_zero else alt_que all_count j.

Definition late_state (k : Z) (g : log_global) : Prop :=
  let b := log_buffer g in
  size b = CMDLOG_BUFFER_SIZE /\ fqsz b = QSZ /\ head b = 32799 + 16 * k /\
  tail b = 32784 /\ last b = CMDLOG_BUFFER_SIZE - 1 /\
  fbgn b = 3 + k /\ fend b = 3 + k /\ dw_end b = -1 /\
  nxt_write_lsn g = mkLogSN 2 0 /\
  nxt_flush_lsn g = mkLogSN 2 (14 + 16 * k) /\
  fd (curr g) = 4 /\ fd (next g) = -1 /\
  forall j, fque b j = late_que k j.

(** ** Bounds of the flush-request queue *)

(** The indices into [fque] are within the array, and no request counts
    more than CMDLOG_FLUSH_AUTO_SIZE bytes. *)
Definition queue_bounded (b : log_BUFFER) : Prop :=
  0 < fqsz b < 2 ^ 31 /\
  0 <= fbgn b < fqsz b /\ 0 <= fend b < fqsz b /\
  (dw_end b = -1 \/ 0 <= dw_end b < fqsz b) /\
  forall j, 0 <= nflush (fque b j) <= CMDLOG_FLUSH_AUTO_SIZE.

(** Descriptors 3 and 4 prepared and one record of body length 16 written
    under dual write: 24 bytes in the tail request, nothing closed. *)
Definition dual_pending : log_global :=
  state_of (write_rec 1 16 true two_files).

(** ** [log_file_sync] with a rotation in between *)

(** [log_file_sync] releases the flush lock between taking its snapshot and
    looking at the files again; [op] is an operation of another thread that
    takes the lock in that gap. *)
Definition sync_around (op : log_global -> outcome log_global) (g : log_global)
  : outcome log_global :=
  let '(g1, snap) := log_file_sync_begin g in
  g2 <- op g1 ;; log_file_sync_end snap g2.

(** ** The disk helpers *)

(** A system call as the environment answers it: the value returned and
    [errno].  The answers to the successive calls of one helper are given as
    a list; a helper that needs one more answer than the list holds is
    [OutOfFuel]. *)
Definition sys_answer : Type := (Z * Z)%type.

Definition EINTR : Z := 4.

Definition s64 (x : Z) : Z :=
  if u64 x <? 2 ^ 63 then u64 x else u64 x - 2 ^ 64.

(** One call of [write]: the offset of [bfptr] from [buf], the length asked
    for, and the value returned. *)
Record write_call : Type := mkCall { wc_off : Z; wc_len : Z; wc_ret : Z }.

(** The loop of [disk_byte_write]: [nleft] bytes are left, [ptr] is
    [bfptr - buf]. *)
Fixpoint byte_write_loop (answers : list sys_answer) (count nleft ptr : Z)
         (calls : list write_call) : outcome (Z * list write_call) :=
  if nleft >? 0 then
    match answers with
    | [] => OutOfFuel
    | (nwrite, errno) :: rest =>
        let calls' := calls ++ [mkCall ptr nleft nwrite] in
        if nwrite =? 0 then Ret (s64 (u64 (count - nleft)), calls')
        else if nwrite <? 0 then
          if errno =? EINTR then byte_write_loop rest count nleft ptr calls'
          else Ret (nwrite, calls')
        else byte_write_loop rest count (nleft - nwrite) (ptr + nwrite) calls'
    end
  else Ret (s64 (u64 (count - nleft)), calls).

(** [disk_byte_write(fd, buf, count)]: the value returned and the calls of
    [write] made. *)
Definition disk_byte_write (answers : list sys_answer) (count : Z)
  : outcome (Z * list write_call) :=
  byte_write_loop answers count (s64 count) 0 [].

(** [disk_open]: the descriptor returned, and how many times [open] was
    called. *)
Fixpoint disk_open (answers : list sys_answer) : outcome (Z * nat) :=
  match answers with
  | [] => OutOfFuel
  | (f, errno) :: rest =>
      if (f =? -1) && (errno =? EINTR)
      then r <- disk_open rest ;; Ret (fst r, S (snd r))
      else Ret (f, 1%nat)
  end.

Definition disk_fsync (answer : sys_answer) : Z :=
  if negb (fst answer =? 0) then -1 else 0.

(** [disk_close]: 0 or -1, and how many times [close] was called. *)
Fixpoint disk_close (answers : list sys_answer) : outcome (Z * nat) :=
  match answers with
  | [] => OutOfFuel
  | (r, errno) :: rest =>
      if negb (r =? 0) then
        if errno =? EINTR
        then r' <- disk_close rest ;; Ret (fst r', S (snd r'))
        else Ret (-1, 1%nat)
      else Ret (0, 1%nat)
  end.

(** What the kernel promises of [write]: it returns -1 or a count of at
    most the length asked for. *)
Fixpoint write_contract (answers : list sys_answer) (nleft : Z) : Prop :=
  match answers with
  | [] => True
  | (nwrite, _) :: rest =>
      (nwrite = -1 \/ 0 <= nwrite <= nleft) /\
      write_contract rest (if 0 <? nwrite then nleft - nwrite else nleft)
  end.

(** The bytes the calls wrote in all. *)
Fixpoint accepted (calls : list write_call) : Z :=
  match calls with
  | [] => 0
  | c :: rest => (if 0 <? wc_ret c then wc_ret c else 0) + accepted rest
  end.

(** Every call starts where the bytes written so far end, and asks for all
    that is left of [count]. *)
Fixpoint resumed (count acc : Z) (calls : list write_call) : Prop :=
  match calls with
  | [] => True
  | c :: rest =>
      wc_off c = acc /\ wc_len c = count - acc /\
      resumed count (if 0 <? wc_ret c then acc + wc_ret c else acc) rest
  end.

(** An interrupted call. *)
Definition interrupted (a : sys_answer) : bool :=
  (fst a <? 0) && (snd a =? EINTR).

(** The answers on which [disk_open] and [disk_close] call again. *)
Definition open_again (a : sys_answer) : bool :=
  (fst a =? -1) && (snd a =? EINTR).
Definition close_again (a : sys_answer) : bool :=
  negb (fst a =? 0) && (snd a =? EINTR).

(** ** Shutdown: [cmdlog_buf_final] *)

(** The two allocations of [cmdlog_buf_init]: whether [data] and [fque]
    are still allocated ([NULL] once freed). *)
Record log_memory : Type := mkMem { data_alloc : bool; fque_alloc : bool }.

Definition set_initialized (g : log_global) (v : bool) : log_global :=
  mkGLOBAL (curr g) (next g) (log_buffer g) (nxt_write_lsn g) (nxt_flush_lsn g)
           (nxt_fsync_lsn g) v (io g).

(** [cmdlog_file_final]; the results of [disk_fsync] and [disk_close] are
    discarded. *)
Definition cmdlog_file_final (g : log_global) : outcome log_global :=
  _ <- assert (fd (next g) =? -1) ;;
  if negb (fd (curr g) =? -1) then
    let g1 := emit (emit g (IoFsync (fd (curr g)))) (IoClose (fd (curr g))) in
    Ret (set_curr g1 (mkFSTATE (-1) (fsync_ongoing (curr g1)) (fsize (curr g1))))
  else Ret g.

Definition cmdlog_buf_final (m : log_memory) (g : log_global)
  : outcome (log_memory * log_global) :=
  if negb (initialized g) then Ret (m, g)
  else
    let m1 := mkMem false false in
    g1 <- cmdlog_file_final g ;;
    Ret (m1, set_initialized g1 false).

(** ** The flush thread: [log_flush_thread_main] *)

(** The deadline handed to [pthread_cond_timedwait]: 10 ms after the time
    [gettimeofday] gave, as (tv_sec, tv_nsec). *)
Definition sleep_deadline (tv_sec tv_usec : Z) : Z * Z :=
  if tv_usec + 10000 <? 1000000
  then (tv_sec, (tv_usec + 10000) * 1000)
  else (tv_sec + 1, 0).

Inductive flusher_event : Type :=
| Flushed (n : Z)               (* a pass that flushed [n] bytes *)
| Slept (tv_sec tv_nsec : Z).   (* a pass that found nothing, and its deadline *)

(** The loop of the thread, running with no other thread in between.  Each
    pass is given what it reads from outside: [reqstop], and the time of
    day in case it goes to sleep. *)
Fixpoint log_flush_thread_main (passes : list (bool * (Z * Z))) (g : log_global)
         (tr : list flusher_event) : outcome (log_global * list flusher_event) :=
  match passes with
  | [] => OutOfFuel
  | (reqstop, (tv_sec, tv_usec)) :: rest =>
      if reqstop then Ret (g, tr)
      else
        r <- do_log_buff_flush false g ;;
        let '(g1, nflush) := r in
        if nflush =? 0 then
          let '(s, ns) := sleep_deadline tv_sec tv_usec in
          log_flush_thread_main rest g1 (tr ++ [Slept s ns])
        else log_flush_thread_main rest g1 (tr ++ [Flushed nflush])
  end.

(** Descriptors 3 and 4 prepared; a record of body length 16 written under
    dual write, then one for the old file only: one closed request of 24
    bytes, and 24 bytes in the open one. *)
Definition two_requests : log_global :=
  state_of (g1 <- write_rec 1 16 true two_files ;; write_rec 1 16 false g1).

(** ** Flushing up to a waiter's stamp *)

(** Everything written has been flushed: the ring and the queue are empty,
    no cleanup window is open, and a current file is there. *)
Definition drained (g : log_global) : Prop :=
  let b := log_buffer g in
  2 <= fqsz b < 2 ^ 31 /\ 0 <= fbgn b < fqsz b /\ fbgn b = fend b /\
  (forall j, nflush (fque b j) = 0) /\
  dw_end b = -1 /\ last b = -1 /\ head b = tail b /\
  0 <= tail b < size b /\ size b < 2 ^ 31 /\
  nxt_flush_lsn g = nxt_write_lsn g /\ fd (curr g) <> -1.

(** ** Recovery on any file *)

(** A record that fits [buf] of [cmdlog_file_apply]: a whole header, then
    a non-empty body of the length the header announces, of at most
    [max] bytes together. *)
Definition fits_buffer (max : Z) (body_length_of : list Byte.byte -> Z)
           (r : LogImg) : Prop :=
  Z.of_nat (length (fst r)) = sizeof_LogHdr /\
  Z.of_nat (length (snd r)) = body_length_of (fst r) /\
  0 < body_length_of (fst r) <= max - sizeof_LogHdr.

(** ** Room in the flush-request queue *)

(** The closed requests number [(fend - fbgn) mod fqsz]; a record of [T]
    bytes fills up the open request and as many further ones as it takes.
    [room k b T]: that many places and [k] more are left. *)
Definition room (k : Z) (b : log_BUFFER) (T : Z) : Prop :=
  (fend b - fbgn b) mod fqsz b +
  (nflush (fque b (fend b)) + T) / CMDLOG_FLUSH_AUTO_SIZE + k < fqsz b.

(** The state as it was before the last [T] bytes of a record were put at
    [tail] and counted in [nxt_write_lsn]. *)
Definition back (T : Z) (g : log_global) : log_global :=
  set_write_lsn
    (set_buffer g (set_tail (log_buffer g) (tail (log_buffer g) - T)))
    (add_roffset (nxt_write_lsn g) (- T)).

(** The invariant with its three lists named. *)
Definition InvL (g : log_global) (l : list log_FREQ) (d u : nat) : Prop :=
  queue_inv (log_buffer g) l /\ lsn_inv g l d /\ buf_inv (log_buffer g) l u.

(** Places left for a record of [T] bytes, one more while the open request
    may still have to be closed ahead of it. *)
Definition room_for (b : log_BUFFER) (l : list log_FREQ) (T : Z) : Prop :=
  let o := nflush (fque b (fend b)) in
  Z.of_nat (length l) + (o + T) / CMDLOG_FLUSH_AUTO_SIZE + 1 < fqsz b /\
  (0 < o ->
   Z.of_nat (length l) + (o + T) / CMDLOG_FLUSH_AUTO_SIZE + 2 < fqsz b).

(** ** Runs that find room in the queue *)

(** The states reached from [cmdlog_buf_init] by the operations of the
    module, each write and each completed rotation starting with places left
    in the flush-request queue, and each completed rotation with a file
    number left below the largest [uint32_t]. *)
Inductive roomy : log_global -> Prop :=
| roomy_init : roomy cmdlog_buf_init
| roomy_write fuel r waiter dual g g' stamp :
    roomy g -> record_ok r ->
    room 2 (log_buffer g) (sizeof_LogHdr + body_length r) ->
    log_record_write fuel r waiter dual g = Ret (g', stamp) -> roomy g'
| roomy_flush_once g g' n :
    roomy g -> do_log_buff_flush false g = Ret (g', n) -> roomy g'
| roomy_buffer_flush fuel upto g g' :
    roomy g -> log_buffer_flush fuel upto g = Ret g' -> roomy g'
| roomy_file_sync g g' :
    roomy g -> log_file_sync g = Ret g' -> roomy g'
| roomy_rotation fuel g g' :
    roomy g -> room 1 (log_buffer g) 0 ->
    filenum (nxt_write_lsn g) < 2 ^ 32 - 1 ->
    cmdlog_complete_dual_write fuel true g = Ret g' -> roomy g'
| roomy_abandon fuel g g' :
    roomy g -> cmdlog_complete_dual_write fuel false g = Ret g' -> roomy g'
| roomy_prepare newfd g :
    roomy g -> roomy (fst (cmdlog_file_prepare newfd g)).

(** One prepared file and one record of 16 bytes. *)
Definition one_record : log_global :=
  fst (ret_of (one_file, None)
              (log_record_write 0 (mkLogRec 8) true false one_file)).

(** A run with a rotation: one prepared file and a record of 16 bytes;
    descriptor 4 prepared and the rotation completed; one pass of the
    flusher; a second record of 16 bytes; [log_file_sync]. *)
Definition rotated_run : log_global :=
  state_of (g2 <- cmdlog_complete_dual_write
                    0 true (fst (cmdlog_file_prepare 4 one_record)) ;;
            r3 <- do_log_buff_flush false g2 ;;
            g4 <- write_rec 0 8 false (fst r3) ;;
            log_file_sync g4).

(** ** [cmdlog_buf_init] with the outcome of its allocations *)

(** [data_ok] and [fque_ok]: whether the two calls of [malloc] succeed.  The
    state starts as [memset] leaves it (all zero); a failed allocation
    returns at once, after freeing [data] if it is [fque] that failed. *)
Definition cmdlog_buf_init_alloc (data_ok fque_ok : bool)
  : ENGINE_ERROR_CODE * log_memory * log_global :=
  let l := mkLogSN 1 0 in
  let b0 := mkBUFFER CMDLOG_BUFFER_SIZE 0 0 0 (fun _ => freq_zero) 0 0 0 0 in
  let g0 := mkGLOBAL no_file no_file b0 l l l false [] in
  if negb data_ok then (ENGINE_ENOMEM, mkMem false false, g0)
  else
    let b1 := set_last b0 (-1) in
    let b2 := mkBUFFER (size b1) (head b1) (tail b1) (last b1) (fque b1)
                       (u32 (size b1 / CMDLOG_RECORD_MIN_SIZE))
                       (fbgn b1) (fend b1) (dw_end b1) in
    if negb fque_ok then (ENGINE_ENOMEM, mkMem false false, set_buffer g0 b2)
    else
      let b3 := set_dw_end b2 (-1) in
      (ENGINE_SUCCESS, mkMem true true,
       set_initialized (set_buffer g0 b3) true).

(** A queue of two places, both in use, with a next file. *)
Definition both_in_use : log_global :=
  mkGLOBAL (mkFSTATE 3 false 0) (mkFSTATE 4 false 0)
           (mkBUFFER 64 0 48 (-1) (fun _ => mkFREQ 24 true) 2 0 1 (-1))
           (mkLogSN 1 48) (mkLogSN 1 0) (mkLogSN 1 0) true [].

(** Descriptors 3 and 4 prepared; a record of body length 16 written for
    the old file only and flushed, then one under dual write: [head] is at
    24 with 24 bytes in the open request. *)
Definition dual_at_24 : log_global :=
  state_of (g1 <- write_rec 0 16 false two_files ;;
            r2 <- log_buffer_flush 0 (mkLogSN 1 0) g1 ;;
            write_rec 0 16 true r2).

(** ** The ring as the write path expects it *)

(** Unwrapped with [last = -1], or wrapped with [tail < head <= last]; the
    index of the open request within the queue. *)
Definition ring_ok (b : log_BUFFER) : Prop :=
  0 < size b < 2 ^ 31 /\ 2 <= fqsz b < 2 ^ 31 /\ 0 <= fend b < fqsz b /\
  ((last b = -1 /\ 0 <= head b <= tail b /\ tail b < size b) \/
   (0 <= tail b < head b /\ head b <= last b < size b)).

(** [near_end] with a record of 100 bytes written: the open request counts
    100 bytes, and 500 bytes are left up to the end of the ring. *)
Definition near_end_pending : log_global :=
  mkGLOBAL (mkFSTATE 3 false 104857000) no_file
           (mkBUFFER CMDLOG_BUFFER_SIZE 104857000 104857100 (-1)
                     (upd (fun _ => freq_zero) 104857 (mkFREQ 100 false))
                     (u32 (CMDLOG_BUFFER_SIZE / CMDLOG_RECORD_MIN_SIZE))
                     104857 104857 (-1))
           (mkLogSN 1 104857100) (mkLogSN 1 104857000) (mkLogSN 1 104857000)
           true [BufStore 104857000 100].

(** ** Positions of the log that have been written *)

(** The bytes counted by [k] requests from index [i] on. *)
Fixpoint sum_slots (b : log_BUFFER) (i : Z) (k : nat) : Z :=
  match k with
  | O => 0
  | S k' => nflush (fque b i) + sum_slots b (ring_next b i) k'
  end.

(** In a cleanup window: the bytes of the old file still in the buffer,
    counted by the requests from [fbgn] up to [dw_end]. *)
Definition window_bytes (b : log_BUFFER) : Z :=
  sum_slots b (fbgn b) (Z.to_nat ((dw_end b - fbgn b) mod fqsz b)).

(** [upto] names a byte that has been written to the log: it is below
    [nxt_write_lsn], and when it lies in the file a cleanup window is still
    draining, it is below the end of that file.  The stamp a waiter gets
    from [log_record_write] names the first byte of its record. *)
Definition written (g : log_global) (upto : LogSN) : Prop :=
  0 <= roffset upto /\
  lsn_lt upto (nxt_write_lsn g) /\
  (dw_end (log_buffer g) <> -1 ->
   filenum upto = filenum (nxt_flush_lsn g) ->
   roffset upto < roffset (nxt_flush_lsn g) + window_bytes (log_buffer g)).

(** ** Cleanup windows along a run *)

(** The states of a run that lie in the cleanup window of one rotation:
    [cmdlog_complete_dual_write(true)] opened it on a reachable state whose
    current file was [fo] and whose next file was [fn], and no operation
    since has closed it. *)
Inductive in_window (fo fn : Z) : log_global -> Prop :=
| window_opened fuel g g' :
    reachable g -> fd (curr g) = fo -> fd (next g) = fn -> fn <> -1 ->
    cmdlog_complete_dual_write fuel true g = Ret g' -> in_window fo fn g'
| window_step g g' :
    in_window fo fn g -> step g g' -> dw_end (log_buffer g') <> -1 ->
    in_window fo fn g'.

(** Descriptors 3 and 4 prepared; a record of body length 16 written for
    the old file only, then one under dual write; the rotation completed,
    and one pass of the flusher: the first request has been passed over,
    [head] is at 24, and the request under dual write is next. *)
Definition cleanup_second : log_global :=
  state_of (g1 <- write_rec 0 16 false two_files ;;
            g2 <- write_rec 0 16 true g1 ;;
            g3 <- cmdlog_complete_dual_write 0 true g2 ;;
            r4 <- do_log_buff_flush false g3 ;;
            Ret (fst r4)).

(** * Properties *)

(** ** Well-formed queue indices *)

Definition queue_wf (b : log_BUFFER) : Prop :=
  0 < fqsz b < 2 ^ 31 /\ 0 <= fbgn b < fqsz b /\ 0 <= fend b < fqsz b.

Lemma u32_small x : 0 <= x < 2 ^ 32 -> u32 x = x.
Proof. intros H. unfold u32. apply Z.mod_small. exact H. Qed.

Lemma u64_small x : 0 <= x < 2 ^ 64 -> u64 x = x.
Proof. intros H. unfold u64. apply Z.mod_small. exact H. Qed.

Lemma u16_small x : 0 <= x < 2 ^ 16 -> u16 x = x.
Proof. intros H. unfold u16. apply Z.mod_small. exact H. Qed.

Lemma s32_small x : 0 <= x < 2 ^ 31 -> s32 x = x.
Proof.
  intros H. unfold s32. rewrite u32_small by lia.
  destruct (x <? 2 ^ 31) eqn:E; [reflexivity | apply Z.ltb_ge in E; lia].
Qed.

Lemma u32_m1 : u32 (-1) = 2 ^ 32 - 1.
Proof. reflexivity. Qed.

Lemma ring_next_range b i :
  0 < fqsz b < 2 ^ 31 -> 0 <= i < fqsz b -> 0 <= ring_next b i < fqsz b.
Proof.
  intros Hq Hi. unfold ring_next. rewrite u32_small by lia.
  destruct (i + 1 =? fqsz b) eqn:E; [lia | apply Z.eqb_neq in E; lia].
Qed.

Lemma ring_next_eq b i :
  0 < fqsz b < 2 ^ 31 -> 0 <= i < fqsz b ->
  ring_next b i = (i + 1) mod fqsz b.
Proof.
  intros Hq Hi. unfold ring_next. rewrite u32_small by lia.
  destruct (i + 1 =? fqsz b) eqn:E.
  - apply Z.eqb_eq in E. rewrite E, Z.mod_same by lia. reflexivity.
  - apply Z.eqb_neq in E. rewrite Z.mod_small by lia. reflexivity.
Qed.

(** ** Rotation: [cmdlog_complete_dual_write(true)] *)

(** C3.  A successful completion with a next file present and no cleanup
    window open closes the non-empty tail request, marks [dw_end] with the
    resulting [fend], moves [nxt_write_lsn] to (filenum + 1, 0) (the
    increment of a [uint32_t]: filenum + 1 itself below the largest file
    number), installs [next] as [curr], clears [next], and closes the
    previous current descriptor at once exactly when it was not under
    fsync. *)
Theorem complete_dual_write_success (fuel : nat) (g : log_global) :
  queue_wf (log_buffer g) ->
  fd (next g) <> -1 ->
  fd (curr g) <> -1 ->
  dw_end (log_buffer g) = -1 ->
  exists g',
    cmdlog_complete_dual_write fuel true g = Ret g' /\
    let b := log_buffer g in
    let fend' := if nflush (fque b (fend b)) >? 0
                 then ring_next b (fend b) else fend b in
    fend (log_buffer g') = fend' /\
    dw_end (log_buffer g') = fend' /\
    nxt_write_lsn g' = mkLogSN (u32 (filenum (nxt_write_lsn g) + 1)) 0 /\
    (0 <= filenum (nxt_write_lsn g) < 2 ^ 32 - 1 ->
     nxt_write_lsn g' = mkLogSN (filenum (nxt_write_lsn g) + 1) 0) /\
    curr g' = next g /\
    fd (next g') = -1 /\ fsize (next g') = 0 /\
    io g' = io g ++ (if fsync_ongoing (curr g) then []
                     else [IoClose (fd (curr g))]) /\
    (In (IoClose (fd (curr g))) (if fsync_ongoing (curr g) then []
                                 else [IoClose (fd (curr g))])
     <-> fsync_ongoing (curr g) = false).
Proof.
  intros (Hq & Hb & He) Hn Hc Hd.
  unfold cmdlog_complete_dual_write.
  destruct (fd (next g) =? -1) eqn:En; [apply Z.eqb_eq in En; contradiction|].
  set (b := log_buffer g).
  set (b1 := if nflush (fque b (fend b)) >? 0
             then set_fend b (ring_next b (fend b)) else b).
  assert (Hd1 : dw_end b1 = -1).
  { subst b1. destruct (nflush (fque b (fend b)) >? 0); simpl; exact Hd. }
  assert (Hr : 0 <= fend b1 < fqsz b).
  { subst b1. destruct (nflush (fque b (fend b)) >? 0); simpl;
      [apply ring_next_range; assumption | assumption]. }
  cbn [bind]. rewrite Hd1. cbn [Z.eqb assert bind Pos.eqb].
  destruct (fd (curr g) =? -1) eqn:Ec; [apply Z.eqb_eq in Ec; contradiction|].
  cbn [set_write_lsn set_buffer set_curr set_next curr next fd fsync_ongoing
       negb andb].
  assert (Hs : s32 (fend b1) = fend b1) by (apply s32_small; unfold b in Hr; lia).
  assert (Hf : fend b1 = if nflush (fque b (fend b)) >? 0
                         then ring_next b (fend b) else fend b).
  { subst b1. destruct (nflush (fque b (fend b)) >? 0); reflexivity. }
  destruct (fsync_ongoing (curr g)) eqn:Eo; rewrite ?Ec; cbn [negb andb];
    eexists; (split; [reflexivity|]); cbn; rewrite ?Hs, ?app_nil_r;
    repeat split; try exact Hf; try reflexivity;
    try (destruct (next g); reflexivity);
    try (intros Hr'; unfold bump_filenum; rewrite u32_small by lia; reflexivity);
    try (intro; congruence); try (intros []); auto.
Qed.

Lemma complete_dual_write_success_witness :
  exists g',
    cmdlog_complete_dual_write 0 true rot_state = Ret g' /\
    fend (log_buffer g') = 1 /\ dw_end (log_buffer g') = 1 /\
    nxt_write_lsn g' = mkLogSN 2 0 /\ fd (curr g') = 4 /\
    io g' = [BufStore 0 24; IoClose 3].
Proof.
  destruct (complete_dual_write_success 0 rot_state) as (g' & E & H).
  - unfold queue_wf. vm_compute. intuition discriminate.
  - vm_compute. discriminate.
  - vm_compute. discriminate.
  - reflexivity.
  - exists g'. split; [exact E|].
    cbv zeta in H. destruct H as (H1 & H2 & H3 & _ & H4 & _ & _ & H7 & _).
    rewrite H1, H2, H3, H4, H7. vm_compute. repeat split.
Defined.

(** ** Scenario S1 *)

(** C9 (as amended).  From a fresh init with descriptor 3 prepared, the
    records of body lengths 8, 16 and 32 with their 8-byte headers take
    16 + 24 + 40 = 80 bytes; after [log_buffer_flush] up to (1, 72) and
    [log_file_sync], [nxt_fsync_lsn] is (1, 80) and the file holds 80
    bytes. *)
Theorem S1_fsync_lsn_and_size (fuel : nat) :
  exists g,
    S1 fuel 3 (mkLogSN 1 72) = Ret g /\
    nxt_fsync_lsn g = mkLogSN 1 80 /\
    nxt_flush_lsn g = mkLogSN 1 80 /\
    fsize (curr g) = 80 /\
    file_bytes 3 (io g) = 80 /\
    cmdlog_file_getsize g = 80.
Proof.
  destruct fuel as [|k].
  - eexists. split; [vm_compute; reflexivity|]. vm_compute. repeat split.
  - eexists. split; [vm_compute; reflexivity|]. vm_compute. repeat split.
Qed.

(** C9 fails as stated: the run ends with [nxt_fsync_lsn] = (1, 80) and 80
    bytes in the file, not (1, 72) and 72. *)
Lemma S1_not_72 :
  exists g,
    S1 4 3 (mkLogSN 1 72) = Ret g /\
    nxt_fsync_lsn g <> mkLogSN 1 72 /\
    fsize (curr g) <> 72 /\
    file_bytes 3 (io g) <> 72.
Proof.
  eexists. split; [vm_compute; reflexivity|].
  vm_compute. repeat split; discriminate.
Qed.

(** ** The flusher: [do_log_buff_flush] *)

Lemma flush_select_inv flush_all b b' p :
  flush_select flush_all b = Ret (b', p) ->
  fp_cleanup p = negb (dw_end b =? -1) /\
  fp_next_fhlsn p = (fbgn b =? u32 (dw_end b)) /\
  match selected flush_all b with
  | Some r => fp_nflush p = nflush r /\ 0 < nflush r /\
              fp_dual p = dual_write r /\
              b' = reclaim (close_tail (close_dw b))
  | None => fp_nflush p = 0 /\ b' = close_dw b
  end.
Proof.
  unfold flush_select, selected, close_tail, close_dw.
  destruct (fbgn b =? u32 (dw_end b)) eqn:Ed; cbn [fbgn fend fque set_dw_end];
    (destruct (fbgn b =? fend b) eqn:Ef; cbn [negb];
     [ destruct flush_all; cbn [andb];
       [ destruct (nflush (fque b (fend b)) >? 0) eqn:En | ]
     | destruct (nflush (fque b (fbgn b)) >? 0) eqn:En ]);
    cbn [bind assert]; rewrite ?En; intros H; inversion H; subst; cbn;
    rewrite ?Ef; repeat split; try reflexivity; try (apply Z.gtb_lt; assumption).
Qed.

Lemma flush_select_some flush_all b r :
  selected flush_all b = Some r -> 0 < nflush r ->
  flush_select flush_all b =
  Ret (reclaim (close_tail (close_dw b)),
       mkPlan (nflush r) (dual_write r) (fbgn b =? u32 (dw_end b))
              (negb (dw_end b =? -1))).
Proof.
  unfold flush_select, selected, close_tail, close_dw. intros H Hr.
  apply Z.gtb_lt in Hr.
  destruct (fbgn b =? u32 (dw_end b)) eqn:Ed; cbn [fbgn fend fque set_dw_end] in *;
    (destruct (fbgn b =? fend b) eqn:Ef; cbn [negb] in *;
     [ destruct flush_all; cbn [andb] in *; [|discriminate];
       destruct (nflush (fque b (fend b)) >? 0) eqn:En; [|discriminate]
     | ]);
    inversion H; subst; cbn [bind assert]; rewrite ?Hr; cbn [bind assert];
    rewrite ?Hr; reflexivity.
Qed.

Lemma flush_select_none flush_all b :
  selected flush_all b = None ->
  flush_select flush_all b =
  Ret (close_dw b,
       mkPlan 0 false (fbgn b =? u32 (dw_end b)) (negb (dw_end b =? -1))).
Proof.
  unfold flush_select, selected, close_dw. intros H.
  destruct (fbgn b =? u32 (dw_end b)) eqn:Ed; cbn [fbgn fend fque set_dw_end] in *;
    (destruct (fbgn b =? fend b) eqn:Ef; cbn [negb] in *; [|discriminate];
     destruct (flush_all && (nflush (fque b (fend b)) >? 0)); [discriminate|]);
    reflexivity.
Qed.

Lemma do_log_file_write_inv off len dual g g' :
  do_log_file_write off len dual g = Ret g' ->
  fd (curr g) <> -1 /\
  log_buffer g' = log_buffer g /\
  nxt_write_lsn g' = nxt_write_lsn g /\
  nxt_flush_lsn g' = nxt_flush_lsn g /\
  nxt_fsync_lsn g' = nxt_fsync_lsn g /\
  fd (curr g') = fd (curr g) /\ fd (next g') = fd (next g) /\
  fsync_ongoing (curr g') = fsync_ongoing (curr g) /\
  fsync_ongoing (next g') = fsync_ongoing (next g) /\
  fsize (curr g') = u64 (fsize (curr g) + len) /\
  fsize (next g') = (if dual && negb (fd (next g) =? -1)
                     then u64 (fsize (next g) + len) else fsize (next g)) /\
  io g' = io g ++ IoWrite (fd (curr g)) off len ::
          (if dual && negb (fd (next g) =? -1)
           then [IoWrite (fd (next g)) off len] else []).
Proof.
  unfold do_log_file_write.
  destruct (fd (curr g) =? -1) eqn:Ec; cbn [negb assert bind]; [discriminate|].
  apply Z.eqb_neq in Ec.
  cbn [next set_curr emit fd].
  destruct (dual && negb (fd (next g) =? -1)); intros H; inversion H; subst;
    cbn; rewrite <- ?app_assoc; repeat split; auto.
Qed.

Lemma do_log_file_write_ok off len dual g :
  fd (curr g) <> -1 -> exists g', do_log_file_write off len dual g = Ret g'.
Proof.
  intros Hc. unfold do_log_file_write.
  apply Z.eqb_neq in Hc. rewrite Hc. cbn [negb assert bind].
  destruct (dual && _); eexists; reflexivity.
Qed.

(** What one call of [do_log_buff_flush] does, by the request taken up. *)
Lemma do_log_buff_flush_inv flush_all g g' n :
  do_log_buff_flush flush_all g = Ret (g', n) ->
  nxt_write_lsn g' = nxt_write_lsn g /\
  nxt_fsync_lsn g' = nxt_fsync_lsn g /\
  fd (curr g') = fd (curr g) /\ fd (next g') = fd (next g) /\
  fsync_ongoing (curr g') = fsync_ongoing (curr g) /\
  fsync_ongoing (next g') = fsync_ongoing (next g) /\
  match selected flush_all (log_buffer g) with
  | None =>
      n = 0 /\ log_buffer g' = close_dw (log_buffer g) /\
      nxt_flush_lsn g' = flush_lsn_base g /\ io g' = io g /\
      curr g' = curr g /\ next g' = next g
  | Some r =>
      let b1 := reclaim (close_tail (close_dw (log_buffer g))) in
      n = nflush r /\ 0 < n /\
      log_buffer g' = flush_commit n b1 /\
      nxt_flush_lsn g' = add_roffset (flush_lsn_base g) n /\
      io g' = io g ++ flush_writes g r (head b1) /\
      fsize (curr g') =
        (if negb (dw_end (log_buffer g) =? -1) && negb (dual_write r)
         then fsize (curr g) else u64 (fsize (curr g) + n)) /\
      fsize (next g') =
        (if (dw_end (log_buffer g) =? -1) && dual_write r &&
            negb (fd (next g) =? -1)
         then u64 (fsize (next g) + n) else fsize (next g))
  end.
Proof.
  unfold do_log_buff_flush. intros H.
  destruct (flush_select flush_all (log_buffer g)) as [[b1 p]| |] eqn:Es;
    cbn [bind] in H; try discriminate.
  apply flush_select_inv in Es. destruct Es as (Hc & Hf & Hs).
  unfold flush_lsn_base, flush_writes.
  destruct (selected flush_all (log_buffer g)) as [r|].
  - destruct Hs as (Hn & Hpos & Hd & Hb). rewrite Hn in H.
    assert (Hg : (nflush r >? 0) = true) by (apply Z.gtb_lt; exact Hpos).
    rewrite Hg in H. rewrite Hc, Hf, Hd in H. rewrite <- Hb. clear Hc Hf Hd Hn.
    destruct (dw_end (log_buffer g) =? -1);
      destruct (fbgn (log_buffer g) =? u32 (dw_end (log_buffer g)));
      destruct (dual_write r);
      cbn [negb andb bind set_buffer set_flush_lsn log_buffer] in H |- *;
      try (match type of H with
           | context [do_log_file_write ?o ?l ?d ?x] =>
               destruct (do_log_file_write o l d x) as [g3| |] eqn:Ew;
               cbn [bind] in H; try discriminate;
               apply do_log_file_write_inv in Ew; cbn in Ew;
               destruct Ew as (_ & E1 & E2 & E3 & E4 & E5 & E6 & E7 & E8 & Ea & Eb & E9)
           end);
      inversion H; subst; cbn;
      rewrite ?E1, ?E2, ?E3, ?E4, ?E5, ?E6, ?E7, ?E8, ?E9, ?Ea, ?Eb;
      cbn; rewrite ?app_nil_r; repeat split; auto.
  - destruct Hs as (Hn & Hb). rewrite Hn in H. cbn in H. rewrite Hf in H.
    destruct (fbgn (log_buffer g) =? u32 (dw_end (log_buffer g)));
      inversion H; subst; cbn; repeat split; auto.
Qed.

Lemma dw_end_flush_commit n b : dw_end (flush_commit n b) = dw_end b.
Proof.
  unfold flush_commit, reclaim. cbn [head last set_head].
  destruct (_ =? _); reflexivity.
Qed.

Lemma dw_end_reclaim b : dw_end (reclaim b) = dw_end b.
Proof. unfold reclaim. destruct (_ =? _); reflexivity. Qed.

Lemma dw_end_close_tail b : dw_end (close_tail b) = dw_end b.
Proof. unfold close_tail. destruct (_ =? _); reflexivity. Qed.

Lemma dw_end_after_flush n b :
  dw_end (flush_commit n (reclaim (close_tail (close_dw b)))) = dw_end (close_dw b).
Proof. now rewrite dw_end_flush_commit, dw_end_reclaim, dw_end_close_tail. Qed.

Ltac by_cases_on_ifs :=
  repeat match goal with
         | |- context [if ?c then _ else _] => destruct c; cbn
         end; reflexivity.

Lemma reclaim_queue b :
  fque (reclaim b) = fque b /\ fqsz (reclaim b) = fqsz b /\
  fbgn (reclaim b) = fbgn b /\ fend (reclaim b) = fend b /\
  size (reclaim b) = size b /\ tail (reclaim b) = tail b.
Proof. unfold reclaim. repeat split; by_cases_on_ifs. Qed.

Lemma close_tail_fields b :
  fque (close_tail b) = fque b /\ fqsz (close_tail b) = fqsz b /\
  fbgn (close_tail b) = fbgn b /\ head (close_tail b) = head b /\
  last (close_tail b) = last b /\ size (close_tail b) = size b /\
  tail (close_tail b) = tail b.
Proof. unfold close_tail. repeat split; by_cases_on_ifs. Qed.

Lemma close_dw_fields b :
  fque (close_dw b) = fque b /\ fqsz (close_dw b) = fqsz b /\
  fbgn (close_dw b) = fbgn b /\ fend (close_dw b) = fend b /\
  head (close_dw b) = head b /\ last (close_dw b) = last b /\
  size (close_dw b) = size b /\ tail (close_dw b) = tail b.
Proof. unfold close_dw. repeat split; by_cases_on_ifs. Qed.

Lemma selected_fields flush_all b :
  fque (reclaim (close_tail (close_dw b))) = fque b /\
  fqsz (reclaim (close_tail (close_dw b))) = fqsz b /\
  fbgn (reclaim (close_tail (close_dw b))) = fbgn b /\
  size (reclaim (close_tail (close_dw b))) = size b /\
  tail (reclaim (close_tail (close_dw b))) = tail b /\
  (selected flush_all b <> None ->
   fend (reclaim (close_tail (close_dw b))) =
   if fbgn b =? fend b then ring_next b (fend b) else fend b).
Proof.
  destruct (reclaim_queue (close_tail (close_dw b))) as (A1 & A2 & A3 & A4 & A5 & A6).
  destruct (close_tail_fields (close_dw b)) as (B1 & B2 & B3 & B4 & B5 & B6 & B7).
  destruct (close_dw_fields b) as (C1 & C2 & C3 & C4 & C5 & C6 & C7 & C8).
  repeat split; try congruence.
  intros _. rewrite A4. unfold close_tail. rewrite C3. rewrite C4 at 1.
  destruct (fbgn b =? fend b); cbn; [|exact C4].
  unfold ring_next. rewrite C2, C4. reflexivity.
Qed.

Lemma flush_commit_fields n b :
  fqsz (flush_commit n b) = fqsz b /\
  fend (flush_commit n b) = fend b /\
  fbgn (flush_commit n b) = ring_next b (fbgn b) /\
  fque (flush_commit n b) = upd (fque b) (fbgn b) freq_zero /\
  size (flush_commit n b) = size b /\ tail (flush_commit n b) = tail b /\
  head (flush_commit n b) = head (reclaim (set_head b (u32 (head b + n)))) /\
  last (flush_commit n b) = last (reclaim (set_head b (u32 (head b + n)))).
Proof.
  unfold flush_commit. cbn.
  destruct (reclaim_queue (set_head b (u32 (head b + n)))) as (A1 & A2 & A3 & A4 & A5 & A6).
  cbn in *. unfold ring_next. cbn. rewrite A1, A2, A3, A4, A5, A6.
  repeat split; reflexivity.
Qed.

(** ** Arithmetic of the two rings *)

Lemma reclaim_head_last b :
  head (reclaim b) = (if head b =? u32 (last b) then 0 else head b) /\
  last (reclaim b) = (if head b =? u32 (last b) then -1 else last b).
Proof. unfold reclaim. destruct (head b =? u32 (last b)); cbn; auto. Qed.

(** Where the bytes of the request taken up lie: at [head], or at 0 when
    [head] had reached [last]. *)
Lemma flush_offset b :
  head (reclaim (close_tail (close_dw b))) =
  if head b =? u32 (last b) then 0 else head b.
Proof.
  destruct (reclaim_head_last (close_tail (close_dw b))) as (R & _).
  destruct (close_tail_fields (close_dw b)) as (_ & _ & _ & B4 & B5 & _).
  destruct (close_dw_fields b) as (_ & _ & _ & _ & C5 & C6 & _).
  rewrite R, B4, B5, C5, C6. reflexivity.
Qed.

Lemma ring_after_spec n b :
  let b' := flush_commit n (reclaim (close_tail (close_dw b))) in
  head b' = fst (ring_after (head b) (last b) n) /\
  last b' = snd (ring_after (head b) (last b) n).
Proof.
  cbv zeta.
  destruct (flush_commit_fields n (reclaim (close_tail (close_dw b))))
    as (_ & _ & _ & _ & _ & _ & F7 & F8).
  rewrite F7, F8. clear F7 F8.
  destruct (close_tail_fields (close_dw b)) as (_ & _ & _ & B4 & B5 & _).
  destruct (close_dw_fields b) as (_ & _ & _ & _ & C5 & C6 & _).
  destruct (reclaim_head_last (close_tail (close_dw b))) as (H1 & H2).
  rewrite B4, B5, C5, C6 in H1, H2.
  match goal with
  | |- head (reclaim ?x) = _ /\ _ =>
      destruct (reclaim_head_last x) as (H3 & H4)
  end.
  cbn [head last set_head] in H3, H4. rewrite H3, H4, H1, H2.
  unfold ring_after.
  destruct (head b =? u32 (last b));
    match goal with
    | |- context [if ?c then _ else _] => destruct c
    end; cbn; auto.
Qed.

Lemma ring_after_unwrapped h n :
  0 <= h -> 0 <= n -> h + n < 2 ^ 31 -> ring_after h (-1) n = (h + n, -1).
Proof.
  intros. unfold ring_after. rewrite u32_m1.
  destruct (h =? 2 ^ 32 - 1) eqn:E; [apply Z.eqb_eq in E; lia|].
  rewrite u32_m1, u32_small by lia.
  destruct (h + n =? 2 ^ 32 - 1) eqn:E'; [apply Z.eqb_eq in E'; lia|].
  reflexivity.
Qed.

Lemma ring_after_upper h l n :
  0 <= h -> h < l -> l < 2 ^ 31 -> 0 < n -> h + n <= l ->
  ring_after h l n = if h + n =? l then (0, -1) else (h + n, l).
Proof.
  intros. unfold ring_after. rewrite (u32_small l) by lia.
  destruct (h =? l) eqn:E; [apply Z.eqb_eq in E; lia|].
  rewrite (u32_small l), u32_small by lia. reflexivity.
Qed.

Lemma ring_after_drained l n :
  0 <= l < 2 ^ 31 -> 0 < n < 2 ^ 31 -> ring_after l l n = (n, -1).
Proof.
  intros. unfold ring_after. rewrite (u32_small l) by lia.
  rewrite Z.eqb_refl, u32_m1, u32_small by lia.
  destruct (0 + n =? 2 ^ 32 - 1) eqn:E; [apply Z.eqb_eq in E; lia|].
  reflexivity.
Qed.

Lemma mod_add_self a k q :
  0 <= a < q -> 0 <= k < q -> (a + k) mod q = a -> k = 0.
Proof.
  intros Ha Hk H.
  destruct (Z_lt_ge_dec (a + k) q) as [Hlt|Hge].
  - rewrite Z.mod_small in H by lia. lia.
  - replace (a + k) with ((a + k - q) + 1 * q) in H by lia.
    rewrite Z.mod_add, Z.mod_small in H by lia. lia.
Qed.

Lemma mod_succ_shift a k q :
  0 < q -> ((a + 1) mod q + k) mod q = (a + (k + 1)) mod q.
Proof.
  intros. rewrite Z.add_mod_idemp_l by lia. f_equal; lia.
Qed.

Lemma mod_inj_range a j k q :
  0 <= a < q -> 0 <= j < q -> 0 <= k < q ->
  (a + j) mod q = (a + k) mod q -> j = k.
Proof.
  intros Ha Hj Hk H.
  destruct (Z_lt_ge_dec (a + j) q), (Z_lt_ge_dec (a + k) q).
  - rewrite !Z.mod_small in H by lia. lia.
  - rewrite (Z.mod_small (a + j)) in H by lia.
    replace (a + k) with ((a + k - q) + 1 * q) in H by lia.
    rewrite Z.mod_add, Z.mod_small in H by lia. lia.
  - rewrite (Z.mod_small (a + k)) in H by lia.
    replace (a + j) with ((a + j - q) + 1 * q) in H by lia.
    rewrite Z.mod_add, Z.mod_small in H by lia. lia.
  - replace (a + j) with ((a + j - q) + 1 * q) in H by lia.
    replace (a + k) with ((a + k - q) + 1 * q) in H by lia.
    rewrite !Z.mod_add, !Z.mod_small in H by lia. lia.
Qed.

Lemma sumf_app l1 l2 : sumf (l1 ++ l2) = sumf l1 + sumf l2.
Proof. induction l1 as [|r l1 IH]; cbn; [reflexivity | rewrite IH; lia]. Qed.

Lemma sumf_split n l : sumf l = sumf (firstn n l) + sumf (skipn n l).
Proof. rewrite <- sumf_app, firstn_skipn. reflexivity. Qed.

Lemma sumf_nonneg l :
  (forall k r, nth_error l k = Some r -> 0 < nflush r) -> 0 <= sumf l.
Proof.
  induction l as [|r l IH]; intros H; cbn; [lia|].
  assert (0 < nflush r) by (apply (H 0%nat); reflexivity).
  assert (0 <= sumf l) by (apply IH; intros k r' E; apply (H (S k)); exact E).
  lia.
Qed.

Lemma nth_error_firstn_some {A} (l : list A) n k r :
  nth_error (firstn n l) k = Some r -> nth_error l k = Some r.
Proof.
  revert n k. induction l as [|a l IH]; intros [|n] [|k]; cbn; try discriminate; auto.
  apply IH.
Qed.

Lemma nth_error_skipn_some {A} (l : list A) n k r :
  nth_error (skipn n l) k = Some r -> nth_error l (n + k) = Some r.
Proof.
  revert l. induction n as [|n IH]; intros [|a l]; cbn; auto.
  destruct k; discriminate.
Qed.

(** ** The queue under its operations *)

Lemma queue_inv_fbgn_fend b l :
  queue_inv b l -> (fbgn b = fend b <-> l = []).
Proof.
  intros Q. destruct Q as [Hq Hb Hl He _ _ _]. split.
  - intros E. rewrite He in E. symmetry in E.
    apply mod_add_self in E; [|lia|lia].
    destruct l; [reflexivity | cbn in E; lia].
  - intros ->. cbn in He. rewrite Z.add_0_r, Z.mod_small in He by lia. auto.
Qed.

Lemma queue_inv_fend_range b l : queue_inv b l -> 0 <= fend b < fqsz b.
Proof.
  intros Q. destruct Q as [Hq Hb Hl He _ _ _]. rewrite He.
  apply Z.mod_pos_bound. lia.
Qed.

Lemma upd_same q i r : upd q i r i = r.
Proof. unfold upd. rewrite Z.eqb_refl. reflexivity. Qed.

Lemma upd_other q i r j : j <> i -> upd q i r j = q j.
Proof. intros H. unfold upd. apply Z.eqb_neq in H. rewrite H. reflexivity. Qed.

Lemma queue_inv_pop b b' r l :
  queue_inv b (r :: l) ->
  fqsz b' = fqsz b -> fend b' = fend b ->
  fbgn b' = ring_next b (fbgn b) ->
  fque b' = upd (fque b) (fbgn b) freq_zero ->
  queue_inv b' l.
Proof.
  intros Q Hq' He' Hb' Hf'.
  pose proof (queue_inv_fend_range _ _ Q) as Hfe.
  destruct Q as [Hq Hb Hl He Hc Ho Hfr].
  cbn [length] in *. rewrite Nat2Z.inj_succ in *.
  assert (Hrn : ring_next b (fbgn b) = (fbgn b + 1) mod fqsz b)
    by (apply ring_next_eq; lia).
  assert (Hneq : forall k, 0 < k < fqsz b ->
                 (fbgn b + k) mod fqsz b <> fbgn b).
  { intros k Hk E. apply mod_add_self in E; lia. }
  constructor.
  - rewrite Hq'. exact Hq.
  - rewrite Hb', Hq', Hrn. apply Z.mod_pos_bound. lia.
  - rewrite Hq'. lia.
  - rewrite He', Hb', Hq', Hrn, He, mod_succ_shift by lia. f_equal; lia.
  - intros k r0 E. destruct (Hc (S k) r0 E) as (E1 & E2). split; [|exact E2].
    assert (Hk : Z.of_nat k < Z.of_nat (length l)).
    { apply Nat2Z.inj_lt. apply nth_error_Some. congruence. }
    unfold slot in *. rewrite Hf', Hb', Hq', Hrn, mod_succ_shift by lia.
    rewrite upd_other by (apply Hneq; lia).
    rewrite Nat2Z.inj_succ in E1. rewrite <- E1. f_equal; f_equal; lia.
  - rewrite He', Hf', upd_other; [exact Ho|].
    rewrite He. apply Hneq. lia.
  - intros k Hk. rewrite Hq' in Hk. unfold slot in *.
    rewrite Hf', Hb', Hq', Hrn, mod_succ_shift by lia.
    destruct (Z.eq_dec (k + 1) (fqsz b)) as [E|E].
    + rewrite E. replace (fbgn b + fqsz b) with (fbgn b + 1 * fqsz b) by lia.
      rewrite Z.mod_add, Z.mod_small by lia. rewrite upd_same. reflexivity.
    + rewrite upd_other by (apply Hneq; lia). apply Hfr. lia.
Qed.

Lemma queue_inv_pop_open b b' :
  queue_inv b [] ->
  fqsz b' = fqsz b -> fend b' = ring_next b (fend b) ->
  fbgn b' = ring_next b (fbgn b) ->
  fque b' = upd (fque b) (fbgn b) freq_zero ->
  queue_inv b' [].
Proof.
  intros Q Hq' He' Hb' Hf'.
  assert (Hbe : fbgn b = fend b) by (apply (queue_inv_fbgn_fend _ _ Q); reflexivity).
  destruct Q as [Hq Hb Hl He Hc Ho Hfr]. cbn [length] in *.
  assert (Hrn : ring_next b (fbgn b) = (fbgn b + 1) mod fqsz b)
    by (apply ring_next_eq; lia).
  assert (Hneq : forall k, 0 < k < fqsz b ->
                 (fbgn b + k) mod fqsz b <> fbgn b).
  { intros k Hk E. apply mod_add_self in E; lia. }
  assert (Hfree : forall k, 0 < k < fqsz b ->
                  nflush (fque b' ((fbgn b + (k + 1)) mod fqsz b)) = 0).
  { intros k Hk. rewrite Hf'.
    destruct (Z.eq_dec (k + 1) (fqsz b)) as [E|E].
    - rewrite E. replace (fbgn b + fqsz b) with (fbgn b + 1 * fqsz b) by lia.
      rewrite Z.mod_add, Z.mod_small by lia. rewrite upd_same. reflexivity.
    - rewrite upd_other by (apply Hneq; lia). apply (Hfr (k + 1)). lia. }
  constructor.
  - rewrite Hq'. exact Hq.
  - rewrite Hb', Hq', Hrn. apply Z.mod_pos_bound. lia.
  - rewrite Hq'. cbn. lia.
  - rewrite He', Hb', <- Hbe, Hq', Hrn. cbn. rewrite Z.add_0_r.
    rewrite Z.mod_mod by lia. reflexivity.
  - intros [|k] r0 E; discriminate.
  - rewrite He', <- Hbe, Hrn, Hf', upd_other by (apply Hneq; lia).
    pose proof (Hfr 1) as H1. unfold slot in H1. rewrite H1; cbn; lia.
  - intros k Hk. rewrite Hq' in Hk. cbn in Hk. unfold slot.
    rewrite Hb', Hq', Hrn, mod_succ_shift by lia. apply Hfree. lia.
Qed.

Lemma selected_cases flush_all b l :
  queue_inv b l ->
  match selected flush_all b with
  | None => l = [] /\ fbgn b = fend b /\
            (flush_all = true -> nflush (fque b (fend b)) = 0)
  | Some r => (exists l', l = r :: l' /\ fbgn b <> fend b /\ r = fque b (fbgn b)) \/
              (l = [] /\ fbgn b = fend b /\ r = fque b (fend b) /\
               0 < nflush r /\ flush_all = true)
  end.
Proof.
  intros Q. pose proof (queue_inv_fbgn_fend _ _ Q) as Hbe.
  unfold selected. destruct (fbgn b =? fend b) eqn:E; cbn [negb].
  - apply Z.eqb_eq in E. assert (l = []) by (apply Hbe; exact E). subst l.
    destruct flush_all; cbn [andb].
    + destruct (nflush (fque b (fend b)) >? 0) eqn:En.
      * right. apply Z.gtb_lt in En. repeat split; auto.
      * pose proof (qi_open _ _ Q). repeat split; auto. intros _.
        rewrite Z.gtb_ltb in En. apply Z.ltb_ge in En. lia.
    + repeat split; auto; discriminate.
  - apply Z.eqb_neq in E. left. destruct l as [|r l'].
    + exfalso. apply E. apply Hbe. reflexivity.
    + destruct (qi_closed _ _ Q 0%nat r eq_refl) as (Hs & _).
      unfold slot in Hs. cbn in Hs.
      rewrite Z.add_0_r, Z.mod_small in Hs by apply (qi_fbgn _ _ Q).
      exists l'. repeat split; auto; congruence.
Qed.

Lemma dw_test_no_window b l :
  queue_inv b l -> dw_end b = -1 -> (fbgn b =? u32 (dw_end b)) = false.
Proof.
  intros Q E. rewrite E, u32_m1. apply Z.eqb_neq.
  pose proof (qi_fbgn _ _ Q). pose proof (qi_size _ _ Q). lia.
Qed.

Lemma dw_test_window b l (d : nat) :
  queue_inv b l -> (d <= length l)%nat ->
  dw_end b = (fbgn b + Z.of_nat d) mod fqsz b ->
  u32 (dw_end b) = dw_end b /\ dw_end b <> -1 /\
  (fbgn b = dw_end b <-> d = 0%nat).
Proof.
  intros Q Hd E.
  pose proof (qi_fbgn _ _ Q). pose proof (qi_size _ _ Q).
  pose proof (qi_len _ _ Q).
  assert (0 <= dw_end b < fqsz b) by (rewrite E; apply Z.mod_pos_bound; lia).
  split; [apply u32_small; lia|]. split; [lia|]. split.
  - intros E'. rewrite E in E'. symmetry in E'. apply mod_add_self in E'; lia.
  - intros ->. rewrite E. cbn. rewrite Z.add_0_r, Z.mod_small; lia.
Qed.

Lemma dw_end_close_dw b :
  dw_end (close_dw b) = if fbgn b =? u32 (dw_end b) then -1 else dw_end b.
Proof. unfold close_dw. destruct (_ =? _); reflexivity. Qed.

Lemma flush_some_fields n b :
  let b' := flush_commit n (reclaim (close_tail (close_dw b))) in
  fqsz b' = fqsz b /\ size b' = size b /\ tail b' = tail b /\
  fend b' = (if fbgn b =? fend b then ring_next b (fend b) else fend b) /\
  fbgn b' = ring_next b (fbgn b) /\
  fque b' = upd (fque b) (fbgn b) freq_zero /\
  dw_end b' = (if fbgn b =? u32 (dw_end b) then -1 else dw_end b) /\
  head b' = fst (ring_after (head b) (last b) n) /\
  last b' = snd (ring_after (head b) (last b) n).
Proof.
  cbv zeta.
  destruct (flush_commit_fields n (reclaim (close_tail (close_dw b))))
    as (F1 & F2 & F3 & F4 & F5 & F6 & _ & _).
  destruct (reclaim_queue (close_tail (close_dw b))) as (A1 & A2 & A3 & A4 & A5 & A6).
  destruct (close_tail_fields (close_dw b)) as (B1 & B2 & B3 & _ & _ & B6 & B7).
  destruct (close_dw_fields b) as (C1 & C2 & C3 & C4 & _ & _ & C7 & C8).
  destruct (ring_after_spec n b) as (R1 & R2).
  rewrite dw_end_after_flush, dw_end_close_dw.
  repeat split; try congruence.
  - rewrite F2, A4. unfold close_tail. rewrite C3, C4.
    destruct (fbgn b =? fend b); cbn; [|exact C4].
    unfold ring_next. rewrite C2. reflexivity.
  - rewrite F3. unfold ring_next. rewrite A2, A3, B2, B3, C2, C3. reflexivity.
Qed.

Lemma queue_inv_ext b b' l :
  queue_inv b l ->
  fqsz b' = fqsz b -> fbgn b' = fbgn b -> fend b' = fend b -> fque b' = fque b ->
  queue_inv b' l.
Proof.
  intros [Hq Hb Hl He Hc Ho Hfr] E1 E2 E3 E4.
  constructor; unfold slot in *; rewrite ?E1, ?E2, ?E3, ?E4; auto.
Qed.

Lemma sumf_closed_nonneg b l : queue_inv b l -> 0 <= sumf l.
Proof.
  intros Q. apply sumf_nonneg. intros k r E.
  apply (qi_closed _ _ Q k r E).
Qed.

Lemma sumf_skipn_nonneg b l n : queue_inv b l -> 0 <= sumf (skipn n l).
Proof.
  intros Q. apply sumf_nonneg. intros k r E.
  apply nth_error_skipn_some in E. apply (qi_closed _ _ Q _ r E).
Qed.

Lemma sumf_firstn_nonneg b l n : queue_inv b l -> 0 <= sumf (firstn n l).
Proof.
  intros Q. apply sumf_nonneg. intros k r E.
  apply nth_error_firstn_some in E. apply (qi_closed _ _ Q _ r E).
Qed.

(** ** Requests skipped in a cleanup window *)

(** C10.  In a cleanup window a request whose [dual_write] flag is clear
    is written to no file (no [write], both file sizes unchanged), yet
    [nxt_flush_lsn.roffset] grows by its [nflush] bytes, [head] moves on by
    them from where the bytes of the request lie (going back to 0 on
    reaching [last]), and the request is cleared with [fbgn] moved on.  The
    call that finds [fbgn = dw_end] follows the same rules: the request it
    takes up, the first past the boundary, is skipped all the same, its
    bytes counted from roffset 0 of the next file number (the increment of
    a [uint32_t]). *)
Theorem cleanup_skips_old_only (flush_all : bool) (g g' : log_global)
        (n : Z) (r : log_FREQ) :
  0 <= dw_end (log_buffer g) < 2 ^ 31 ->
  selected flush_all (log_buffer g) = Some r ->
  dual_write r = false ->
  do_log_buff_flush flush_all g = Ret (g', n) ->
  let b := log_buffer g in
  let h0 := if head b =? u32 (last b) then 0 else head b in
  let l0 := if head b =? u32 (last b) then -1 else last b in
  n = nflush r /\ 0 < n /\
  io g' = io g /\
  fsize (curr g') = fsize (curr g) /\ fsize (next g') = fsize (next g) /\
  nxt_flush_lsn g' =
    (if fbgn b =? dw_end b
     then mkLogSN (u32 (filenum (nxt_flush_lsn g) + 1)) (0 + n)
     else mkLogSN (filenum (nxt_flush_lsn g)) (roffset (nxt_flush_lsn g) + n)) /\
  head (log_buffer g') = (if u32 (h0 + n) =? u32 l0 then 0 else u32 (h0 + n)) /\
  fque (log_buffer g') (fbgn b) = freq_zero /\
  fbgn (log_buffer g') = (if u32 (fbgn b + 1) =? fqsz b then 0 else u32 (fbgn b + 1)) /\
  dw_end (log_buffer g') = (if fbgn b =? dw_end b then -1 else dw_end b).
Proof.
  intros Hd Hs Hdual H b h0 l0.
  apply do_log_buff_flush_inv in H.
  destruct H as (_ & _ & _ & _ & _ & _ & H). rewrite Hs in H.
  cbv zeta in H. fold b in H.
  destruct H as (Hn & Hpos & Hb & Hl & Hio & Hc & Hx).
  assert (Hne : (dw_end b =? -1) = false) by (apply Z.eqb_neq; unfold b; lia).
  assert (Hu : u32 (dw_end b) = dw_end b) by (apply u32_small; unfold b; lia).
  unfold flush_writes in Hio. fold b in Hio, Hc, Hx.
  rewrite Hne, Hdual in Hio, Hc, Hx. cbn [negb andb] in Hio, Hc, Hx.
  rewrite app_nil_r in Hio.
  destruct (flush_some_fields n b) as (F1 & F2 & F3 & F4 & F5 & F6 & F7 & F8 & F9).
  rewrite <- Hb in F1, F2, F3, F4, F5, F6, F7, F8, F9.
  repeat split; auto.
  - rewrite Hl. unfold flush_lsn_base. fold b. rewrite Hu.
    destruct (fbgn b =? dw_end b); reflexivity.
  - rewrite F8. unfold ring_after, h0, l0.
    destruct (head b =? u32 (last b));
      match goal with
      | |- context [if ?c then _ else _] => destruct c
      end; reflexivity.
  - rewrite F6. unfold upd. rewrite Z.eqb_refl. reflexivity.
  - rewrite F7, Hu. reflexivity.
Qed.

Lemma cleanup_skips_old_only_witness :
  exists g',
    selected true (log_buffer cleanup_boundary) = Some (mkFREQ 24 false) /\
    fbgn (log_buffer cleanup_boundary) = dw_end (log_buffer cleanup_boundary) /\
    do_log_buff_flush true cleanup_boundary = Ret (g', 24) /\
    io g' = io cleanup_boundary /\
    nxt_flush_lsn cleanup_boundary = mkLogSN 1 24 /\
    nxt_flush_lsn g' = mkLogSN 2 24 /\
    head (log_buffer cleanup_boundary) = 24 /\
    head (log_buffer g') = 48.
Proof.
  pose (res := ret_of (cleanup_boundary, 0)
                      (do_log_buff_flush true cleanup_boundary)).
  assert (E : do_log_buff_flush true cleanup_boundary = Ret (fst res, 24))
    by (vm_compute; reflexivity).
  destruct (cleanup_skips_old_only true cleanup_boundary (fst res) 24
              (mkFREQ 24 false))
    as (_ & _ & H1 & _ & _ & H2 & H3 & _).
  - vm_compute. split; [discriminate | reflexivity].
  - vm_compute. reflexivity.
  - reflexivity.
  - exact E.
  - exists (fst res). split; [vm_compute; reflexivity|]. split; [reflexivity|].
    split; [exact E|]. split; [exact H1|]. split; [reflexivity|].
    split; [rewrite H2; vm_compute; reflexivity|].
    split; [reflexivity|]. rewrite H3. vm_compute. reflexivity.
Defined.

(** ** [do_log_buff_flush] keeps the invariant *)

Lemma flush_queue_inv flush_all g g' n l :
  queue_inv (log_buffer g) l ->
  do_log_buff_flush flush_all g = Ret (g', n) ->
  queue_inv (log_buffer g') (List.tl l).
Proof.
  intros Q H. apply do_log_buff_flush_inv in H.
  destruct H as (_ & _ & _ & _ & _ & _ & H).
  pose proof (selected_cases flush_all _ _ Q) as SC.
  destruct (selected flush_all (log_buffer g)) as [r|].
  - cbv zeta in H. destruct H as (Hn & Hpos & Hb & _).
    destruct (flush_some_fields n (log_buffer g))
      as (F1 & _ & _ & F4 & F5 & F6 & _).
    rewrite <- Hb in F1, F4, F5, F6.
    destruct SC as [(l' & -> & Hne & Hr) | (-> & He & Hr & Hp & _)].
    + apply Z.eqb_neq in Hne. rewrite Hne in F4.
      apply (queue_inv_pop _ _ _ _ Q); assumption.
    + apply Z.eqb_eq in He. rewrite He in F4.
      apply (queue_inv_pop_open _ _ Q); assumption.
  - destruct H as (_ & Hb & _). destruct SC as (-> & _).
    destruct (close_dw_fields (log_buffer g)) as (C1 & C2 & C3 & C4 & _).
    rewrite <- Hb in C1, C2, C3, C4.
    apply (queue_inv_ext _ _ _ Q); assumption.
Qed.

Lemma pop_keeps_open b b' r l :
  queue_inv b (r :: l) ->
  fend b' = fend b -> fque b' = upd (fque b) (fbgn b) freq_zero ->
  fque b' (fend b') = fque b (fend b).
Proof.
  intros Q He Hf. rewrite He, Hf. apply upd_other.
  intros E. symmetry in E. apply (queue_inv_fbgn_fend _ _ Q) in E. discriminate.
Qed.

Lemma pop_open_empties b b' :
  queue_inv b [] ->
  fend b' = ring_next b (fend b) -> fque b' = upd (fque b) (fbgn b) freq_zero ->
  nflush (fque b' (fend b')) = 0.
Proof.
  intros Q He Hf.
  assert (Hbe : fbgn b = fend b) by (apply (queue_inv_fbgn_fend _ _ Q); reflexivity).
  pose proof (qi_size _ _ Q) as Hq. pose proof (qi_fbgn _ _ Q) as Hb.
  rewrite He, Hf, <- Hbe, ring_next_eq by lia.
  rewrite upd_other.
  - apply (qi_free _ _ Q 1). cbn. lia.
  - intros E. apply mod_add_self in E; lia.
Qed.

Lemma bump_small l :
  0 <= filenum l + 1 < 2 ^ 32 -> bump_filenum l = mkLogSN (filenum l + 1) 0.
Proof. intros H. unfold bump_filenum. rewrite u32_small by exact H. reflexivity. Qed.

Lemma flush_lsn_inv flush_all g g' n l d :
  queue_inv (log_buffer g) l -> lsn_inv g l d ->
  do_log_buff_flush flush_all g = Ret (g', n) ->
  lsn_inv g' (List.tl l) (Nat.pred d) /\
  lsn_le (nxt_flush_lsn g) (nxt_flush_lsn g') /\
  (0 < n -> lsn_lt (nxt_flush_lsn g) (nxt_flush_lsn g')).
Proof.
  intros Q L H. apply do_log_buff_flush_inv in H.
  destruct H as (Hw & Hs & _ & _ & _ & _ & H).
  pose proof (selected_cases flush_all _ _ Q) as SC.
  pose proof (qi_size _ _ Q) as Hq. pose proof (qi_fbgn _ _ Q) as Hfb.
  pose proof (qi_len _ _ Q) as Hlen. pose proof (qi_open _ _ Q) as Hop.
  unfold lsn_inv in *. cbv zeta in L. destruct L as (Lf & Lr & Lw & L).
  rewrite Hw, Hs. unfold lsn_le, lsn_lt in *.
  assert (Hbump : filenum (nxt_flush_lsn g) + 1 = filenum (nxt_write_lsn g) ->
                  bump_filenum (nxt_flush_lsn g) =
                  mkLogSN (filenum (nxt_flush_lsn g) + 1) 0)
    by (intros E; apply bump_small; lia).
  destruct (selected flush_all (log_buffer g)) as [r|].
  - cbv zeta in H. destruct H as (Hn & Hpos & Hb & Hl & _).
    destruct (flush_some_fields n (log_buffer g))
      as (F1 & _ & _ & F4 & F5 & F6 & F7 & _).
    rewrite <- Hb in F1, F4, F5, F6, F7.
    rewrite Hl, F1, F5, F7. unfold flush_lsn_base, add_roffset.
    rewrite ring_next_eq by lia.
    assert (Ho' : sumf (List.tl l) +
                  nflush (fque (log_buffer g') (fend (log_buffer g'))) =
                  sumf l + nflush (fque (log_buffer g) (fend (log_buffer g)))
                  - n /\ 0 <= sumf (List.tl l)).
    { destruct SC as [(l' & -> & Hne & Hr) | (-> & He & Hr & Hp & _)].
      - apply Z.eqb_neq in Hne. rewrite Hne in F4.
        rewrite (pop_keeps_open _ _ _ _ Q F4 F6). cbn.
        assert (Qt : queue_inv (log_buffer g') l')
          by (apply (queue_inv_pop _ _ _ _ Q); assumption).
        pose proof (sumf_closed_nonneg _ _ Qt). lia.
      - apply Z.eqb_eq in He. rewrite He in F4.
        rewrite (pop_open_empties _ _ Q F4 F6). cbn. subst r. lia. }
    destruct Ho' as (Ho' & Hnn).
    destruct L as [(Ld & Lfn & Lro) | (Ld & Ldl & Lfn & Lro)].
    + rewrite (dw_test_no_window _ _ Q Ld). cbn [filenum roffset].
      split; [|split; [lia|lia]].
      split; [lia|]. split; [lia|]. split; [exact Lw|]. left. rewrite Ld.
      split; [reflexivity|]. split; [lia|]. lia.
    + destruct (dw_test_window _ _ d Q Ldl Ld) as (Hu & Hne & Hd0).
      rewrite Hu. destruct (fbgn (log_buffer g) =? dw_end (log_buffer g)) eqn:Et.
      * apply Z.eqb_eq in Et. apply Hd0 in Et. subst d.
        rewrite (Hbump Lfn). cbn [filenum roffset].
        split; [|split; [lia|lia]].
        split; [lia|]. split; [lia|]. split; [exact Lw|]. left.
        split; [reflexivity|]. split; [lia|].
        cbn in Lro. lia.
      * apply Z.eqb_neq in Et. cbn [filenum roffset].
        split; [|split; [lia|lia]].
        split; [lia|]. split; [lia|]. split; [exact Lw|]. right.
        destruct d as [|d']; [exfalso; apply Et, Hd0; reflexivity|].
        destruct SC as [(l' & -> & Hne' & Hr) | (-> & _)]; [|cbn in Ldl; lia].
        cbn [List.tl Nat.pred length skipn] in *.
        apply Z.eqb_neq in Hne'. rewrite Hne' in F4.
        rewrite (pop_keeps_open _ _ _ _ Q F4 F6).
        split; [|split; [lia|split; [lia|exact Lro]]].
        rewrite Ld, mod_succ_shift by lia. f_equal; lia.
  - destruct H as (Hn & Hb & Hl & _). destruct SC as (-> & Hbe & _).
    destruct (close_dw_fields (log_buffer g)) as (C1 & C2 & C3 & C4 & _).
    rewrite <- Hb in C1, C2, C3, C4.
    rewrite Hl, C1, C2, C3, C4, Hb, dw_end_close_dw.
    unfold flush_lsn_base. cbn [List.tl].
    destruct L as [(Ld & Lfn & Lro) | (Ld & Ldl & Lfn & Lro)].
    + rewrite (dw_test_no_window _ _ Q Ld).
      split; [|split; [lia|lia]].
      split; [lia|]. split; [lia|]. split; [exact Lw|]. left. auto.
    + destruct (dw_test_window _ _ d Q Ldl Ld) as (Hu & Hne & Hd0).
      cbn in Ldl. assert (d = 0%nat) by lia. subst d.
      assert (Et : fbgn (log_buffer g) = dw_end (log_buffer g)) by (apply Hd0; reflexivity).
      rewrite Hu. apply Z.eqb_eq in Et. rewrite Et.
      rewrite (Hbump Lfn). cbn [filenum roffset].
      split; [|split; [lia|lia]].
      split; [lia|]. split; [lia|]. split; [exact Lw|]. left. cbn in Lro |- *.
      split; [reflexivity|]. split; lia.
Qed.

Lemma flush_buf_inv flush_all g g' n l u :
  queue_inv (log_buffer g) l -> buf_inv (log_buffer g) l u ->
  do_log_buff_flush flush_all g = Ret (g', n) ->
  buf_inv (log_buffer g') (List.tl l) (Nat.pred u).
Proof.
  intros Q B H.
  pose proof (flush_queue_inv _ _ _ _ _ Q H) as Qt.
  apply do_log_buff_flush_inv in H.
  destruct H as (_ & _ & _ & _ & _ & _ & H).
  pose proof (selected_cases flush_all _ _ Q) as SC.
  pose proof (qi_open _ _ Q) as Hop.
  unfold buf_inv in *. cbv zeta in B. destruct B as (Hsz & B).
  destruct (selected flush_all (log_buffer g)) as [r|].
  - cbv zeta in H. destruct H as (Hn & Hpos & Hb & _).
    destruct (flush_some_fields n (log_buffer g))
      as (F1 & F2 & F3 & F4 & F5 & F6 & F7 & F8 & F9).
    rewrite <- Hb in F1, F2, F3, F4, F5, F6, F7, F8, F9.
    rewrite F2, F3, F8, F9. split; [exact Hsz|].
    destruct SC as [(l' & -> & Hne & Hr) | (-> & He & Hr & Hp & _)].
    + apply Z.eqb_neq in Hne. rewrite Hne in F4.
      rewrite (pop_keeps_open _ _ _ _ Q F4 F6).
      cbn [List.tl] in *.
      pose proof (sumf_closed_nonneg _ _ Qt) as Hnn.
      destruct (qi_closed _ _ Q 0%nat r eq_refl) as (_ & Hrb).
      unfold CMDLOG_FLUSH_AUTO_SIZE in *.
      destruct B as [(Bl & Bh & Bt & Bs) | (Bt & Bh & Bu & Bf & Bs)].
      * cbn in Bs. rewrite Bl, ring_after_unwrapped by lia. cbn [fst snd].
        left. repeat split; lia.
      * destruct u as [|u'].
        -- cbn in Bf, Bs. assert (Ehl : head (log_buffer g) = last (log_buffer g)) by lia.
           rewrite Ehl, ring_after_drained by lia. cbn [fst snd].
           left. repeat split; lia.
        -- cbn [firstn skipn sumf length Nat.pred] in *.
           pose proof (sumf_firstn_nonneg _ _ u' Qt) as Hfn.
           rewrite ring_after_upper by lia.
           destruct (head (log_buffer g) + n =? last (log_buffer g)) eqn:E;
             cbn [fst snd].
           ++ apply Z.eqb_eq in E. left.
              rewrite (sumf_split u' l'). repeat split; lia.
           ++ apply Z.eqb_neq in E. right. repeat split; lia.
    + apply Z.eqb_eq in He. rewrite He in F4.
      rewrite (pop_open_empties _ _ Q F4 F6). subst r.
      unfold CMDLOG_FLUSH_AUTO_SIZE in *. cbn [List.tl sumf] in *.
      destruct B as [(Bl & Bh & Bt & Bs) | (Bt & Bh & Bu & Bf & Bs)].
      * rewrite Bl, ring_after_unwrapped by lia. cbn [fst snd].
        left. repeat split; lia.
      * cbn in Bu. assert (u = 0%nat) by lia. subst u. cbn in Bf, Bs.
        assert (Ehl : head (log_buffer g) = last (log_buffer g)) by lia.
        rewrite Ehl, ring_after_drained by lia. cbn [fst snd].
        left. repeat split; lia.
  - destruct H as (_ & Hb & _). destruct SC as (-> & _).
    destruct (close_dw_fields (log_buffer g))
      as (C1 & C2 & C3 & C4 & C5 & C6 & C7 & C8).
    rewrite <- Hb in C1, C2, C3, C4, C5, C6, C7, C8.
    rewrite C1, C4, C5, C6, C7, C8. cbn [List.tl]. split; [exact Hsz|].
    destruct B as [B | (Bt & Bh & Bu & Bf & Bs)]; [left; exact B|].
    right. cbn in Bu. assert (u = 0%nat) by lia. subst u. cbn in *. auto.
Qed.

(** One call of [do_log_buff_flush] keeps the invariant. *)
Lemma flush_preserves_Inv flush_all g g' n :
  Inv g -> do_log_buff_flush flush_all g = Ret (g', n) -> Inv g'.
Proof.
  intros (l & d & u & Q & L & B) H.
  exists (List.tl l), (Nat.pred d), (Nat.pred u).
  split; [eapply flush_queue_inv; eauto|].
  split; [eapply flush_lsn_inv; eauto|].
  eapply flush_buf_inv; eauto.
Qed.

(** ** [log_buffer_flush] *)

Lemma LOGSN_IS_LE_true a b : LOGSN_IS_LE a b = true <-> lsn_le a b.
Proof.
  unfold LOGSN_IS_LE, lsn_le.
  rewrite orb_true_iff, andb_true_iff, Z.ltb_lt, Z.eqb_eq, Z.leb_le. tauto.
Qed.

Lemma LOGSN_IS_LE_false a b : LOGSN_IS_LE a b = false <-> lsn_lt b a.
Proof.
  unfold LOGSN_IS_LE, lsn_lt.
  rewrite orb_false_iff, andb_false_iff, Z.ltb_ge, Z.eqb_neq, Z.leb_gt. lia.
Qed.

Lemma LOGSN_IS_GT_true a b : LOGSN_IS_GT a b = true <-> lsn_lt b a.
Proof.
  unfold LOGSN_IS_GT. rewrite negb_true_iff. apply LOGSN_IS_LE_false.
Qed.

Lemma do_log_buff_flush_ok flush_all g r :
  selected flush_all (log_buffer g) = Some r -> 0 < nflush r ->
  fd (curr g) <> -1 ->
  exists g', do_log_buff_flush flush_all g = Ret (g', nflush r).
Proof.
  intros Hs Hr Hc. unfold do_log_buff_flush.
  rewrite (flush_select_some _ _ _ Hs Hr). cbn [bind fp_nflush fp_dual
    fp_next_fhlsn fp_cleanup].
  assert (Hg : (nflush r >? 0) = true) by (apply Z.gtb_lt; exact Hr).
  rewrite Hg.
  match goal with
  | |- context [bind ?m _] =>
      assert (Hm : exists g3, m = Ret g3)
  end.
  { destruct (negb (dw_end (log_buffer g) =? -1)).
    - destruct (dual_write r); [|eexists; reflexivity].
      apply do_log_file_write_ok.
      destruct (fbgn (log_buffer g) =? u32 (dw_end (log_buffer g))); exact Hc.
    - apply do_log_file_write_ok.
      destruct (fbgn (log_buffer g) =? u32 (dw_end (log_buffer g))); exact Hc. }
  destruct Hm as (g3 & ->). cbn [bind]. eexists. reflexivity.
Qed.

(** [log_buffer_flush] returns only with [nxt_flush_lsn] beyond [upto]. *)
Lemma log_buffer_flush_returns_beyond fuel upto g g' :
  log_buffer_flush fuel upto g = Ret g' -> lsn_lt upto (nxt_flush_lsn g').
Proof.
  revert g. induction fuel as [|k IH]; intros g; cbn [log_buffer_flush];
    (destruct (LOGSN_IS_LE (nxt_flush_lsn g) upto) eqn:E;
     [| intros H; inversion H; subst; apply LOGSN_IS_LE_false; exact E]);
    (destruct (do_log_buff_flush true g) as [[g1 n]| |]; cbn [bind];
     try discriminate);
    (destruct (assert (n >? 0)); cbn [bind]; try discriminate);
    (destruct (LOGSN_IS_GT (nxt_flush_lsn g1) upto) eqn:E1;
     [ intros H; inversion H; subst; apply LOGSN_IS_GT_true; exact E1 | ]).
  - discriminate.
  - apply IH.
Qed.

Lemma window_dw_nonneg g l d :
  queue_inv (log_buffer g) l -> lsn_inv g l d ->
  dw_end (log_buffer g) = -1 ->
  filenum (nxt_flush_lsn g) = filenum (nxt_write_lsn g) /\
  roffset (nxt_flush_lsn g) + sumf l +
    nflush (fque (log_buffer g) (fend (log_buffer g))) =
  roffset (nxt_write_lsn g).
Proof.
  intros Q (_ & _ & _ & [(_ & H1 & H2) | (Hd & _)]) E; [auto|].
  pose proof (qi_size _ _ Q).
  assert (0 <= dw_end (log_buffer g)) by (rewrite Hd; apply Z.mod_pos_bound; lia).
  lia.
Qed.

(** Outside a cleanup window, with [nxt_flush_lsn <= upto < nxt_write_lsn],
    a flush with [flush_all] takes up a request. *)
Lemma flush_all_progress g upto :
  Inv g -> dw_end (log_buffer g) = -1 -> fd (curr g) <> -1 ->
  lsn_le (nxt_flush_lsn g) upto -> lsn_lt upto (nxt_write_lsn g) ->
  exists g' n,
    do_log_buff_flush true g = Ret (g', n) /\ 0 < n /\
    lsn_lt (nxt_flush_lsn g) (nxt_flush_lsn g') /\
    Inv g' /\ dw_end (log_buffer g') = -1 /\
    fd (curr g') = fd (curr g) /\ nxt_write_lsn g' = nxt_write_lsn g.
Proof.
  intros HI Hd Hc Hle Hlt. pose proof HI as (l & d & u & Q & L & B).
  destruct (window_dw_nonneg _ _ _ Q L Hd) as (Hfn & Hro).
  pose proof (sumf_closed_nonneg _ _ Q) as Hnn.
  pose proof (qi_open _ _ Q) as Hop.
  assert (Hpend : 0 < sumf l + nflush (fque (log_buffer g) (fend (log_buffer g)))).
  { unfold lsn_le, lsn_lt in *. lia. }
  pose proof (selected_cases true _ _ Q) as SC.
  destruct (selected true (log_buffer g)) as [r|] eqn:Es.
  - assert (Hr : 0 < nflush r).
    { destruct SC as [(l' & -> & _) | (_ & _ & _ & Hp & _)]; [|exact Hp].
      apply (qi_closed _ _ Q 0%nat r eq_refl). }
    destruct (do_log_buff_flush_ok true g r Es Hr Hc) as (g' & Hf).
    exists g', (nflush r). split; [exact Hf|]. split; [exact Hr|].
    destruct (flush_lsn_inv _ _ _ _ _ _ Q L Hf) as (_ & _ & Hadv).
    split; [apply Hadv; exact Hr|].
    split; [eapply flush_preserves_Inv; eauto|].
    apply do_log_buff_flush_inv in Hf. rewrite Es in Hf. cbv zeta in Hf.
    destruct Hf as (Hw & _ & Hfd & _ & _ & _ & _ & _ & Hb & _).
    rewrite Hb, dw_end_after_flush, dw_end_close_dw,
      (dw_test_no_window _ _ Q Hd). auto.
  - destruct SC as (-> & _ & Ho). cbn in Hpend. rewrite Ho in Hpend by reflexivity.
    lia.
Qed.

Lemma Inv_flush_le_write g :
  Inv g -> lsn_le (nxt_fsync_lsn g) (nxt_flush_lsn g) /\
           lsn_le (nxt_flush_lsn g) (nxt_write_lsn g).
Proof.
  intros (l & d & u & Q & L & B).
  pose proof (sumf_closed_nonneg _ _ Q). pose proof (qi_open _ _ Q).
  destruct L as (Lf & Lr & Lw & [(_ & H1 & H2) | (_ & _ & H1 & _)]);
    split; auto; unfold lsn_le; lia.
Qed.

Lemma log_buffer_flush_runs k :
  forall g l d u upto,
    queue_inv (log_buffer g) l -> lsn_inv g l d -> buf_inv (log_buffer g) l u ->
    (length l <= k)%nat ->
    dw_end (log_buffer g) = -1 -> fd (curr g) <> -1 ->
    lsn_lt upto (nxt_write_lsn g) ->
    exists g', log_buffer_flush k upto g = Ret g' /\ Inv g' /\
               dw_end (log_buffer g') = -1.
Proof.
  induction k as [|k IH]; intros g l d u upto Q L B Hk Hd Hc Hlt;
    cbn [log_buffer_flush];
    (destruct (LOGSN_IS_LE (nxt_flush_lsn g) upto) eqn:E;
     [| exists g; split; [reflexivity|]; split; [exists l, d, u; auto | exact Hd]]);
    apply LOGSN_IS_LE_true in E;
    (assert (HI : Inv g) by (exists l, d, u; auto));
    destruct (flush_all_progress g upto HI Hd Hc E Hlt)
      as (g1 & n & Hf & Hn & Hadv & HI1 & Hd1 & Hc1 & Hw1);
    rewrite Hf; cbn [bind];
    (assert (Hg : (n >? 0) = true) by (apply Z.gtb_lt; exact Hn));
    rewrite Hg; cbn [assert bind];
    (destruct (LOGSN_IS_GT (nxt_flush_lsn g1) upto) eqn:E1;
     [exists g1; auto|]);
    unfold LOGSN_IS_GT in E1; apply negb_false_iff, LOGSN_IS_LE_true in E1;
    pose proof (flush_queue_inv _ _ _ _ _ Q Hf) as Q1;
    destruct (flush_lsn_inv _ _ _ _ _ _ Q L Hf) as (L1 & _);
    pose proof (flush_buf_inv _ _ _ _ _ _ Q B Hf) as B1.
  - (* no fuel left: the queue held nothing closed, and is drained *)
    exfalso. destruct l; [|cbn in Hk; lia]. cbn [List.tl] in *.
    apply do_log_buff_flush_inv in Hf.
    pose proof (selected_cases true _ _ Q) as SC.
    destruct (selected true (log_buffer g)) as [r|].
    + destruct SC as [(l' & Hl' & _) | (_ & He & Hr & Hp & _)]; [discriminate|].
      destruct (window_dw_nonneg _ _ _ Q1 L1 Hd1) as (F1 & F2).
      cbv zeta in Hf. destruct Hf as (_ & _ & _ & _ & _ & _ & _ & _ & Hb & _).
      destruct (flush_some_fields n (log_buffer g)) as (_ & _ & _ & F4 & _ & F6 & _).
      rewrite <- Hb in F4, F6.
      apply Z.eqb_eq in He. rewrite He in F4.
      rewrite (pop_open_empties _ _ Q F4 F6) in F2. cbn in F2.
      rewrite Hw1 in F1, F2. unfold lsn_le, lsn_lt in *. lia.
    + destruct Hf as (_ & _ & _ & _ & _ & _ & Hn0 & _). lia.
  - apply (IH g1 (List.tl l) (Nat.pred d) (Nat.pred u)); auto.
    + destruct l; cbn in *; lia.
    + congruence.
    + congruence.
Qed.

Lemma log_buffer_flush_no_assert k :
  forall g upto,
    Inv g -> dw_end (log_buffer g) = -1 -> fd (curr g) <> -1 ->
    lsn_lt upto (nxt_write_lsn g) ->
    log_buffer_flush k upto g <> AssertFail.
Proof.
  induction k as [|k IH]; intros g upto HI Hd Hc Hlt; cbn [log_buffer_flush];
    (destruct (LOGSN_IS_LE (nxt_flush_lsn g) upto) eqn:E; [|discriminate]);
    apply LOGSN_IS_LE_true in E;
    destruct (flush_all_progress g upto HI Hd Hc E Hlt)
      as (g1 & n & Hf & Hn & Hadv & HI1 & Hd1 & Hc1 & Hw1);
    rewrite Hf; cbn [bind];
    (assert (Hg : (n >? 0) = true) by (apply Z.gtb_lt; exact Hn));
    rewrite Hg; cbn [assert bind];
    (destruct (LOGSN_IS_GT (nxt_flush_lsn g1) upto); [discriminate|]).
  - discriminate.
  - apply IH; auto; congruence.
Qed.

(** A state whose queue holds the open request only. *)
Lemma Inv_open_only g :
  let b := log_buffer g in
  2 <= fqsz b < 2 ^ 31 -> fbgn b = fend b -> 0 <= fbgn b < fqsz b ->
  0 <= nflush (fque b (fend b)) < CMDLOG_FLUSH_AUTO_SIZE ->
  (forall j, j <> fend b -> nflush (fque b j) = 0) ->
  dw_end b = -1 ->
  filenum (nxt_flush_lsn g) = filenum (nxt_write_lsn g) ->
  roffset (nxt_flush_lsn g) + nflush (fque b (fend b)) = roffset (nxt_write_lsn g) ->
  0 <= roffset (nxt_flush_lsn g) ->
  0 <= filenum (nxt_write_lsn g) < 2 ^ 32 ->
  lsn_le (nxt_fsync_lsn g) (nxt_flush_lsn g) ->
  0 < size b < 2 ^ 31 -> last b = -1 ->
  0 <= head b <= tail b -> tail b < size b ->
  nflush (fque b (fend b)) = tail b - head b ->
  Inv g.
Proof.
  cbv zeta. intros Hq Hbe Hb Ho Hz Hd Hfn Hro Hr0 Hw0 Hfs Hsz Hl Hht Hts Hs.
  exists [], 0%nat, 0%nat. split; [|split].
  - constructor; cbn [length].
    + exact Hq.
    + exact Hb.
    + cbn. lia.
    + cbn. rewrite Z.add_0_r, Z.mod_small by lia. auto.
    + intros [|k] r E; discriminate.
    + exact Ho.
    + intros k Hk. cbn in Hk. unfold slot. apply Hz. rewrite <- Hbe. intros E.
      apply mod_add_self in E; lia.
  - unfold lsn_inv. cbn [sumf]. split; [exact Hfs|]. split; [exact Hr0|].
    split; [exact Hw0|]. left. repeat split; auto; lia.
  - unfold buf_inv. cbn [sumf]. split; [exact Hsz|]. left.
    repeat split; auto; lia.
Qed.

Lemma Inv_three_records : Inv three_records.
Proof.
  apply Inv_open_only; try (vm_compute; intuition congruence).
  intros j Hj. vm_compute in Hj. vm_compute.
  destruct j; try reflexivity. contradiction.
Qed.

(** ** The write path: [do_log_buff_write] *)

Lemma enqueue_ring fuel :
  forall total dual b b',
    enqueue fuel total dual b = Ret b' ->
    size b' = size b /\ head b' = head b /\ tail b' = tail b /\
    last b' = last b /\ fqsz b' = fqsz b /\ fbgn b' = fbgn b /\
    dw_end b' = dw_end b.
Proof.
  induction fuel as [|k IH]; intros total dual b b'; cbn [enqueue];
    destruct (total >? 0); try discriminate;
    try (intros H; inversion H; subst; repeat split; reflexivity).
  intros H. apply IH in H.
  match type of H with
  | context [nflush ?r =? CMDLOG_FLUSH_AUTO_SIZE] =>
      destruct (nflush r =? CMDLOG_FLUSH_AUTO_SIZE)
  end; cbn in H; exact H.
Qed.

Lemma close_on_mismatch_ring dual b :
  let b' := close_on_mismatch dual b in
  size b' = size b /\ head b' = head b /\ tail b' = tail b /\
  last b' = last b /\ fqsz b' = fqsz b /\ fbgn b' = fbgn b /\
  dw_end b' = dw_end b /\ fque b' = fque b.
Proof.
  cbv zeta. unfold close_on_mismatch. destruct (_ && _); cbn; repeat split.
Qed.

(** What one pass of the search does to the ring. *)
Lemma find_space_ring total b ok b1 :
  find_space total b = Ret (ok, b1) ->
  size b1 = size b /\ head b1 = head b /\ fqsz b1 = fqsz b /\
  fbgn b1 = fbgn b /\ dw_end b1 = dw_end b /\ fque b1 = fque b /\
  (tail b1 = tail b \/ tail b1 = 0).
Proof.
  unfold find_space.
  destruct (head b <=? tail b).
  - destruct (last b =? -1); cbn [assert bind]; [|discriminate].
    destruct (total <? u32 (size b - tail b)).
    + intros H; inversion H; subst. repeat split; auto.
    + destruct (head b >? 0).
      * unfold wrap_ring. cbn [fque fend set_tail set_last].
        destruct (nflush (fque b (fend b)) >? 0); intros H; inversion H; subst;
          cbn; repeat split; auto.
      * intros H; inversion H; subst. repeat split; auto.
  - destruct (negb (last b =? -1)); cbn [assert bind]; [|discriminate].
    intros H; inversion H; subst. repeat split; auto.
Qed.

Lemma acquire_ring fuel :
  forall total g g1,
    acquire fuel total g = Ret g1 ->
    nxt_write_lsn g1 = nxt_write_lsn g /\
    size (log_buffer g1) = size (log_buffer g) /\
    (tail (log_buffer g1) = tail (log_buffer g) \/ tail (log_buffer g1) = 0).
Proof.
  induction fuel as [|k IH]; intros total g g1; cbn [acquire];
    (destruct (find_space total (log_buffer g)) as [[ok b1]| |] eqn:Ef;
     cbn [bind]; try discriminate);
    apply find_space_ring in Ef;
    destruct Ef as (E1 & E2 & E3 & E4 & E5 & E6 & E7);
    (destruct ok;
     [intros H; inversion H; subst; cbn; repeat split; auto|]);
    try discriminate.
  destruct (do_log_buff_flush false (set_buffer g b1)) as [[g2 n]| |] eqn:Efl;
    cbn [bind fst]; try discriminate.
  intros H. apply IH in H. destruct H as (H1 & H2 & H3).
  apply do_log_buff_flush_inv in Efl.
  destruct Efl as (Hw & _ & _ & _ & _ & _ & Hm).
  cbn [nxt_write_lsn set_buffer log_buffer] in *.
  assert (Hts : size (log_buffer g2) = size b1 /\ tail (log_buffer g2) = tail b1).
  { destruct (selected false b1).
    - cbv zeta in Hm. destruct Hm as (_ & _ & Hb & _).
      destruct (flush_some_fields n b1) as (_ & F2 & F3 & _).
      rewrite Hb. auto.
    - destruct Hm as (_ & Hb & _).
      destruct (close_dw_fields b1) as (_ & _ & _ & _ & _ & _ & C7 & C8).
      rewrite Hb. auto. }
  destruct Hts as (Hs & Ht).
  split; [congruence|]. split; [congruence|].
  destruct H3 as [H3|H3]; [|right; exact H3].
  rewrite H3, Ht. exact E7.
Qed.


(** Closing the open request, the queue having a free place left. *)
Lemma queue_inv_close b b' l :
  queue_inv b l ->
  0 < nflush (fque b (fend b)) ->
  Z.of_nat (length l) + 1 < fqsz b ->
  fqsz b' = fqsz b -> fbgn b' = fbgn b -> fque b' = fque b ->
  fend b' = ring_next b (fend b) ->
  queue_inv b' (l ++ [fque b (fend b)]) /\
  nflush (fque b' (fend b')) = 0.
Proof.
  intros Q Hpos Hroom Hq' Hb' Hf' He'.
  pose proof (queue_inv_fend_range _ _ Q) as Hfe.
  destruct Q as [Hq Hb Hl He Hc Ho Hfr].
  assert (Hrn : fend b' = (fbgn b + (Z.of_nat (length l) + 1)) mod fqsz b).
  { rewrite He', ring_next_eq, He by lia.
    rewrite Z.add_mod_idemp_l by lia. f_equal; lia. }
  assert (Hz : nflush (fque b' (fend b')) = 0).
  { rewrite Hrn, Hf'. apply (Hfr (Z.of_nat (length l) + 1)). lia. }
  split; [|exact Hz].
  constructor; rewrite ?Hq', ?Hb', ?length_app; cbn [length];
    rewrite ?Nat2Z.inj_add; change (Z.of_nat 1) with 1.
  - exact Hq.
  - exact Hb.
  - lia.
  - rewrite Hrn. reflexivity.
  - intros k r E. unfold slot. rewrite Hf', Hb', Hq'.
    destruct (Nat.lt_ge_cases k (length l)) as [Hk|Hk].
    + rewrite nth_error_app1 in E by exact Hk. apply (Hc k r E).
    + rewrite nth_error_app2 in E by exact Hk.
      destruct (k - length l)%nat as [|j] eqn:Ej; cbn in E;
        [|destruct j; discriminate].
      inversion E; subst r. assert (k = length l) by lia. subst k.
      rewrite <- He. split; [reflexivity|].
      unfold CMDLOG_FLUSH_AUTO_SIZE in *. lia.
  - rewrite Hz. unfold CMDLOG_FLUSH_AUTO_SIZE. lia.
  - intros k Hk. unfold slot. rewrite Hf', Hb', Hq'. apply Hfr.
    cbn in Hk. lia.
Qed.

Lemma skipn_app_le {A} (l1 l2 : list A) n :
  (n <= length l1)%nat -> skipn n (l1 ++ l2) = skipn n l1 ++ l2.
Proof.
  revert n. induction l1 as [|a l1 IH]; intros [|n] H; cbn in *; auto; try lia.
  apply IH. lia.
Qed.

(** The sequence numbers after the open request has been closed. *)
Lemma lsn_inv_close g g' l d :
  queue_inv (log_buffer g) l -> lsn_inv g l d ->
  nxt_write_lsn g' = nxt_write_lsn g -> nxt_flush_lsn g' = nxt_flush_lsn g ->
  nxt_fsync_lsn g' = nxt_fsync_lsn g ->
  fqsz (log_buffer g') = fqsz (log_buffer g) ->
  fbgn (log_buffer g') = fbgn (log_buffer g) ->
  dw_end (log_buffer g') = dw_end (log_buffer g) ->
  nflush (fque (log_buffer g') (fend (log_buffer g'))) = 0 ->
  lsn_inv g' (l ++ [fque (log_buffer g) (fend (log_buffer g))]) d.
Proof.
  intros Q (Lf & Lr & Lw & L) Hw Hfl Hfs Hq Hb Hd Hz.
  unfold lsn_inv. rewrite Hw, Hfl, Hfs, Hq, Hb, Hd, Hz, sumf_app. cbn [sumf].
  split; [exact Lf|]. split; [exact Lr|]. split; [exact Lw|].
  destruct L as [(L1 & L2 & L3) | (L1 & L2 & L3 & L4)].
  - left. repeat split; auto. lia.
  - right. rewrite length_app, skipn_app_le, sumf_app by exact L2. cbn.
    repeat split; auto; lia.
Qed.

Lemma wrap_ring_fields b :
  0 <= tail b < 2 ^ 31 ->
  let b2 := wrap_ring b in
  size b2 = size b /\ head b2 = head b /\ tail b2 = 0 /\ last b2 = tail b /\
  fqsz b2 = fqsz b /\ fbgn b2 = fbgn b /\ dw_end b2 = dw_end b /\
  fque b2 = fque b /\
  fend b2 = (if nflush (fque b (fend b)) >? 0
             then ring_next b (fend b) else fend b).
Proof.
  intros Ht. cbv zeta. unfold wrap_ring. cbn [fque fend set_tail set_last].
  rewrite s32_small by exact Ht.
  destruct (nflush (fque b (fend b)) >? 0); cbn; repeat split; reflexivity.
Qed.

(** The wrap keeps the invariant, unless closing the tail request used up
    the last place of the queue. *)
Lemma wrap_Inv g :
  Inv g -> last (log_buffer g) = -1 -> 0 < head (log_buffer g) ->
  let g2 := set_buffer g (wrap_ring (log_buffer g)) in
  Inv g2 \/ fbgn (log_buffer g2) = fend (log_buffer g2).
Proof.
  intros (l & d & u & Q & L & B) Hl Hh. cbv zeta.
  destruct B as (Hsz & [(Bl & Bh & Bt & Bs) | (Bt & Bh & _)]); [|lia].
  destruct (wrap_ring_fields (log_buffer g))
    as (W1 & W2 & W3 & W4 & W5 & W6 & W7 & W8 & W9); [lia|].
  pose proof (qi_open _ _ Q) as Hop. pose proof (qi_len _ _ Q) as Hlen.
  pose proof (qi_size _ _ Q) as Hq. pose proof (qi_fbgn _ _ Q) as Hfb.
  cbn [log_buffer set_buffer].
  destruct (nflush (fque (log_buffer g) (fend (log_buffer g))) >? 0) eqn:Eo.
  - apply Z.gtb_lt in Eo.
    destruct (Z_lt_ge_dec (Z.of_nat (length l) + 1) (fqsz (log_buffer g)))
      as [Hroom|Hfull].
    + left.
      destruct (queue_inv_close _ (wrap_ring (log_buffer g)) _ Q Eo Hroom
                  W5 W6 W8 W9) as (Q2 & Hz).
      exists (l ++ [fque (log_buffer g) (fend (log_buffer g))]), d,
             (length (l ++ [fque (log_buffer g) (fend (log_buffer g))])).
      split; [exact Q2|]. split.
      * apply (lsn_inv_close g); auto.
      * unfold buf_inv. cbn [log_buffer set_buffer].
        rewrite W1, W2, W3, W4, Hz, firstn_all, skipn_all, sumf_app.
        cbn [sumf]. split; [exact Hsz|]. right. repeat split; lia.
    + right. rewrite W6, W9, ring_next_eq, (qi_fend _ _ Q) by
        (try lia; apply (queue_inv_fend_range _ _ Q)).
      rewrite Z.add_mod_idemp_l by lia.
      replace (fbgn (log_buffer g) + Z.of_nat (length l) + 1)
        with (fbgn (log_buffer g) + 1 * fqsz (log_buffer g)) by lia.
      rewrite Z.mod_add, Z.mod_small by lia. reflexivity.
  - left. rewrite Z.gtb_ltb in Eo. apply Z.ltb_ge in Eo.
    assert (Ho0 : nflush (fque (log_buffer g) (fend (log_buffer g))) = 0) by lia.
    exists l, d, (length l). split; [|split].
    + apply (queue_inv_ext _ _ _ Q); auto.
    + unfold lsn_inv in *. cbn [log_buffer set_buffer nxt_write_lsn
        nxt_flush_lsn nxt_fsync_lsn]. rewrite W5, W6, W7, W8, W9. exact L.
    + unfold buf_inv. cbn [log_buffer set_buffer].
      rewrite W1, W2, W3, W4, W8, W9, firstn_all, skipn_all, Ho0.
      cbn [sumf]. split; [exact Hsz|]. right. repeat split; lia.
Qed.



(** One pass of the search on a state of the invariant. *)
Lemma find_space_Inv total g :
  0 < total -> Inv g ->
  exists ok b1,
    find_space total (log_buffer g) = Ret (ok, b1) /\
    size b1 = size (log_buffer g) /\ 0 < size b1 < 2 ^ 31 /\
    (ok = true -> space_ok total b1) /\
    (ok = false -> Inv (set_buffer g b1) \/ stuck total b1).
Proof.
  intros Ht HI. pose proof HI as (l & d & u & Q & L & (Hsz & B)).
  unfold find_space.
  destruct B as [(Bl & Bh & Bt & Bs) | (Bt & Bh & Bu & Bf & Bs)].
  - destruct (head (log_buffer g) <=? tail (log_buffer g)) eqn:E;
      [|apply Z.leb_gt in E; lia].
    rewrite Bl. cbn [Z.eqb assert bind]. rewrite u32_small by lia.
    destruct (total <? size (log_buffer g) - tail (log_buffer g)) eqn:E1.
    { apply Z.ltb_lt in E1. eexists. eexists. split; [reflexivity|].
      split; [reflexivity|]. split; [exact Hsz|]. split; [|discriminate].
      intros _. left. repeat split; lia. }
    apply Z.ltb_ge in E1.
    destruct (head (log_buffer g) >? 0) eqn:E2.
    + apply Z.gtb_lt in E2.
      destruct (wrap_ring_fields (log_buffer g))
        as (W1 & W2 & W3 & W4 & W5 & W6 & W7 & W8 & W9); [lia|].
      eexists. eexists. split; [reflexivity|].
      split; [exact W1|]. split; [rewrite W1; exact Hsz|]. rewrite W2. split.
      * intros E3. apply Z.ltb_lt in E3. right. rewrite W1, W2, W3, W4.
        repeat split; lia.
      * intros E3. apply Z.ltb_ge in E3.
        destruct (wrap_Inv g HI Bl E2) as [HI2|Hbe]; [left; exact HI2|].
        right. cbn [log_buffer set_buffer] in Hbe. unfold stuck.
        rewrite W2, W3, W4. repeat split; auto; lia.
    + eexists. eexists. split; [reflexivity|]. split; [reflexivity|].
      split; [exact Hsz|]. split; [discriminate|]. intros _. left. exact HI.
  - destruct (head (log_buffer g) <=? tail (log_buffer g)) eqn:E;
      [apply Z.leb_le in E; lia|].
    destruct (last (log_buffer g) =? -1) eqn:E0; [apply Z.eqb_eq in E0; lia|].
    cbn [negb assert bind]. rewrite u32_small by lia.
    eexists. eexists. split; [reflexivity|]. split; [reflexivity|].
    split; [exact Hsz|]. split.
    + intros E1. apply Z.ltb_lt in E1. right. repeat split; lia.
    + intros _. left. exact HI.
Qed.


Lemma Inv_size g : Inv g -> 0 < size (log_buffer g) < 2 ^ 31.
Proof. intros (l & d & u & _ & _ & (H & _)). exact H. Qed.


(** ** Recovery *)

Lemma read_exact pre x rest :
  read (mkFd (pre ++ x ++ rest) (Z.of_nat (length pre))) (Z.of_nat (length x)) =
  (x, mkFd (pre ++ x ++ rest) (Z.of_nat (length pre) + Z.of_nat (length x))).
Proof.
  unfold read. cbn [content pos]. rewrite !Nat2Z.id.
  assert (E : firstn (length x) (skipn (length pre) (pre ++ x ++ rest)) = x).
  { rewrite skipn_app, skipn_all, Nat.sub_diag. cbn [app skipn].
    rewrite firstn_app, firstn_all, Nat.sub_diag. cbn. apply app_nil_r. }
  rewrite E. reflexivity.
Qed.

Lemma read_length f n bytes f1 :
  read f n = (bytes, f1) -> 0 <= pos f ->
  content f1 = content f /\ pos f1 = pos f + Z.of_nat (length bytes) /\
  (0 < Z.of_nat (length bytes) -> pos f1 <= Z.of_nat (length (content f))).
Proof.
  unfold read. intros H Hp. inversion H; subst; clear H. cbn [content pos].
  split; [reflexivity|]. split; [reflexivity|].
  rewrite length_firstn, length_skipn. lia.
Qed.

(** One pass of the loop on a file of less than 2^31 bytes: [seek_offset]
    stays within the file, and none of its conversions changes a value. *)
Lemma apply_loop_small MAX body_length_of redo k initd fsz f seek done :
  fsz < 2 ^ 31 -> 0 <= seek <= fsz -> 0 <= pos f ->
  Z.of_nat (length (content f)) < 2 ^ 31 ->
  apply_loop MAX body_length_of redo (S k) initd fsz f seek done =
  if initd && (seek <? fsz) then
    if fsz - seek <? sizeof_LogHdr then Ret (0, seek, f, done)
    else
      let '(hdr, f1) := read f sizeof_LogHdr in
      let nread := Z.of_nat (length hdr) in
      if negb (nread =? sizeof_LogHdr) then Ret (-1, seek, f1, done)
      else
        let seek1 := seek + nread in
        let blen := body_length_of hdr in
        if fsz - seek1 <? blen then
          let '(f2, seek2) := lseek_cur f1 (- nread) in
          Ret (if seek2 <? 0 then -1 else 0, seek2, f2, done)
        else if blen >? 0 then
          if u32 (MAX - nread) <? blen
          then Ret (-1, seek1, f1, done)
          else
            let '(body, f2) := read f1 blen in
            let nread2 := Z.of_nat (length body) in
            if negb (nread2 =? blen) then Ret (-1, seek1, f2, done)
            else
              let seek2 := seek1 + nread2 in
              match redo (hdr, body) with
              | ENGINE_ENOMEM => Ret (-1, seek2, f2, done ++ [(hdr, body)])
              | _ => apply_loop MAX body_length_of redo k initd fsz f2 seek2
                                (done ++ [(hdr, body)])
              end
        else apply_loop MAX body_length_of redo k initd fsz f1 seek1 done
  else Ret (0, seek, f, done).
Proof.
  intros Hfsz Hseek Hpos Hlen. cbn [apply_loop].
  rewrite (u64_small seek) by lia.
  destruct (initd && (seek <? fsz)) eqn:Ego; [|reflexivity].
  apply andb_true_iff in Ego. destruct Ego as (_ & Ego). apply Z.ltb_lt in Ego.
  rewrite (u64_small (fsz - seek)) by lia.
  unfold sizeof_LogHdr.
  destruct (Z.ltb_spec (fsz - seek) 8) as [Hshort|Hhdr]; [reflexivity|].
  destruct (read f 8) as [hdr f1] eqn:Er.
  destruct (read_length _ _ _ _ Er Hpos) as (Hc1 & Hp1 & Hin1).
  destruct (Z.eqb_spec (Z.of_nat (length hdr)) 8) as [E8|E8]; cbn [negb];
    [|reflexivity].
  rewrite E8 in *.
  rewrite (s32_small (seek + 8)) by lia.
  rewrite (u64_small (fsz - (seek + 8))) by lia.
  destruct (Z.ltb_spec (fsz - (seek + 8)) (body_length_of hdr)) as [Htorn|Hbody].
  - unfold lseek_cur.
    destruct (Z.ltb_spec (pos f1 + - (8)) 0) as [Hneg|Hok].
    + reflexivity.
    + rewrite s32_small by lia. reflexivity.
  - destruct (Z.gtb_spec (body_length_of hdr) 0) as [Hb|Hb]; [|reflexivity].
    destruct (u32 (MAX - 8) <? body_length_of hdr); [reflexivity|].
    destruct (read f1 (body_length_of hdr)) as [body f2].
    destruct (Z.eqb_spec (Z.of_nat (length body)) (body_length_of hdr)) as [Eb|Eb];
      cbn [negb]; [|reflexivity].
    rewrite Eb. rewrite (s32_small (seek + 8 + body_length_of hdr)) by lia.
    reflexivity.
Qed.

Section RecoveryProofs.

Variable MAX_LOG_RECORD_SIZE : Z.
Variable body_length_of : list Byte.byte -> Z.
Variable lrec_redo_from_record : LogImg -> ENGINE_ERROR_CODE.
Hypothesis MAX_range : sizeof_LogHdr <= MAX_LOG_RECORD_SIZE < 2 ^ 32.

Let loop := apply_loop MAX_LOG_RECORD_SIZE body_length_of lrec_redo_from_record.

Lemma encode_cons r recs :
  encode (r :: recs) = fst r ++ snd r ++ encode recs.
Proof. unfold encode. cbn. rewrite <- app_assoc. reflexivity. Qed.

Lemma apply_loop_skip recs :
  forall k pre done rest,
    Forall (passes MAX_LOG_RECORD_SIZE body_length_of lrec_redo_from_record) recs ->
    let c := pre ++ encode recs ++ rest in
    Z.of_nat (length c) < 2 ^ 31 ->
    loop (length recs + k)%nat true (Z.of_nat (length c))
         (mkFd c (Z.of_nat (length pre))) (Z.of_nat (length pre)) done =
    loop k true (Z.of_nat (length c))
         (mkFd c (Z.of_nat (length (pre ++ encode recs))))
         (Z.of_nat (length (pre ++ encode recs)))
         (done ++ with_body recs).
Proof.
  induction recs as [|[h b] recs IH]; intros k pre done rest HF; cbv zeta;
    intros Hsmall.
  - cbn [encode map concat app length Nat.add with_body filter].
    rewrite !app_nil_r. reflexivity.
  - inversion HF as [|r0 l0 (Hc & Hmax & Hredo) HF']; subst.
    destruct Hc as (Hh & Hb). cbn [fst snd] in *.
    rewrite encode_cons in Hsmall |- *. cbn [fst snd length Nat.add] in Hsmall |- *.
    set (c := pre ++ (h ++ b ++ encode recs) ++ rest) in *.
    assert (Ec : c = pre ++ h ++ (b ++ encode recs ++ rest)).
    { unfold c. rewrite <- !app_assoc. reflexivity. }
    assert (Hlen : Z.of_nat (length c) =
                   Z.of_nat (length pre) + sizeof_LogHdr + Z.of_nat (length b) +
                   Z.of_nat (length (encode recs ++ rest))).
    { rewrite Ec, !length_app, !Nat2Z.inj_add, <- Hh. lia. }
    unfold loop.
    rewrite apply_loop_small by (cbn [content pos]; unfold sizeof_LogHdr in *; lia).
    fold loop.
    assert (E1 : (Z.of_nat (length pre) <? Z.of_nat (length c)) = true).
    { apply Z.ltb_lt. unfold sizeof_LogHdr in *. lia. }
    rewrite E1. cbn [andb].
    assert (E2 : (Z.of_nat (length c) - Z.of_nat (length pre) <? sizeof_LogHdr)
                 = false).
    { apply Z.ltb_ge. lia. }
    rewrite E2. rewrite <- Hh at 1. rewrite Ec at 1. rewrite read_exact.
    rewrite <- Ec. rewrite Hh, Z.eqb_refl. cbn [negb].
    rewrite Hb.
    assert (E3 : (Z.of_nat (length c) - (Z.of_nat (length pre) + sizeof_LogHdr)
                  <? Z.of_nat (length b)) = false).
    { apply Z.ltb_ge. lia. }
    rewrite E3.
    assert (Epre : Z.of_nat (length pre) + sizeof_LogHdr =
                   Z.of_nat (length (pre ++ h))).
    { rewrite length_app, Nat2Z.inj_add. lia. }
    assert (Ec2 : c = (pre ++ h) ++ b ++ (encode recs ++ rest)).
    { rewrite Ec, <- !app_assoc. reflexivity. }
    assert (Ec3 : c = (pre ++ h ++ b) ++ encode recs ++ rest).
    { rewrite Ec, <- !app_assoc. reflexivity. }
    destruct (Z.of_nat (length b) >? 0) eqn:E4.
    + apply Z.gtb_lt in E4.
      rewrite u32_small by (unfold sizeof_LogHdr in *; lia).
      assert (E5 : (MAX_LOG_RECORD_SIZE - sizeof_LogHdr <? Z.of_nat (length b))
                   = false).
      { apply Z.ltb_ge. rewrite <- Hb. exact Hmax. }
      rewrite E5, Epre. rewrite Ec2 at 1. rewrite read_exact. rewrite <- Ec2.
      rewrite Z.eqb_refl. cbn [negb].
      assert (Epos : Z.of_nat (length (pre ++ h)) + Z.of_nat (length b) =
                     Z.of_nat (length (pre ++ h ++ b))).
      { rewrite !length_app, !Nat2Z.inj_add. lia. }
      rewrite Epos.
      assert (Ewb : with_body (@cons LogImg (h, b) recs)
                    = (h, b) :: with_body recs).
      { unfold with_body. cbn [filter snd].
        destruct (length b); [lia | reflexivity]. }
      rewrite Ewb.
      assert (Eskip :
        loop (length recs + k)%nat true (Z.of_nat (length c))
             (mkFd c (Z.of_nat (length (pre ++ h ++ b))))
             (Z.of_nat (length (pre ++ h ++ b))) (done ++ [(h, b)]) =
        loop k true (Z.of_nat (length c))
             (mkFd c (Z.of_nat (length (pre ++ h ++ b ++ encode recs))))
             (Z.of_nat (length (pre ++ h ++ b ++ encode recs)))
             (done ++ (h, b) :: with_body recs)).
      { pose proof (IH k (pre ++ h ++ b) (done ++ [(h, b)]) rest HF') as IH'.
        cbv zeta in IH'. rewrite <- Ec3 in IH'. specialize (IH' Hsmall).
        rewrite <- !app_assoc in IH'. cbn [app] in IH'. exact IH'. }
      assert (Hr : lrec_redo_from_record (h, b) <> ENGINE_ENOMEM)
        by (apply Hredo; lia).
      destruct (lrec_redo_from_record (h, b)); try contradiction; exact Eskip.
    + assert (length b = 0%nat) by (rewrite Z.gtb_ltb in E4; apply Z.ltb_ge in E4; lia).
      destruct b; [|discriminate]. cbn [length app] in *.
      rewrite Epre.
      assert (Ewb : with_body (@cons LogImg (h, []) recs) = with_body recs)
        by reflexivity.
      rewrite Ewb.
      pose proof (IH k (pre ++ h) done rest HF') as IH'.
      cbv zeta in IH'.
      assert (Ec4 : c = (pre ++ h) ++ encode recs ++ rest).
      { rewrite Ec, <- !app_assoc. reflexivity. }
      rewrite <- Ec4 in IH'. specialize (IH' Hsmall).
      rewrite <- !app_assoc in IH'. exact IH'.
Qed.

Lemma length_encode recs :
  Forall (complete body_length_of) recs ->
  (length recs <= length (encode recs))%nat.
Proof.
  induction 1 as [|[h b] recs (Hh & _) _ IH]; [cbn; lia|].
  rewrite encode_cons, !length_app. cbn [fst snd length] in *.
  unfold sizeof_LogHdr in Hh. lia.
Qed.

(** The loop at the end of the complete records. *)
Lemma apply_loop_tail k pre t done :
  t = [] \/ torn body_length_of t ->
  let c := pre ++ t in
  Z.of_nat (length c) < 2 ^ 31 ->
  loop (S k) true (Z.of_nat (length c))
       (mkFd c (Z.of_nat (length pre))) (Z.of_nat (length pre)) done =
  Ret (0, Z.of_nat (length pre), mkFd c (Z.of_nat (length pre)), done).
Proof.
  intros Ht. cbv zeta. intros Hsmall. unfold loop.
  rewrite apply_loop_small
    by (cbn [content pos]; rewrite ?length_app, ?Nat2Z.inj_add in *; lia).
  cbn [andb].
  destruct Ht as [-> | [Hsh | (h & p & -> & Hh & Hp)]].
  - rewrite app_nil_r, Z.ltb_irrefl. reflexivity.
  - rewrite length_app, Nat2Z.inj_add.
    destruct (Z.of_nat (length pre) <? Z.of_nat (length pre) + Z.of_nat (length t));
      [|reflexivity].
    replace (Z.of_nat (length pre) + Z.of_nat (length t) - Z.of_nat (length pre))
      with (Z.of_nat (length t)) by lia.
    apply Z.ltb_lt in Hsh. rewrite Hsh. reflexivity.
  - assert (Hlen : Z.of_nat (length (pre ++ h ++ p)) =
                   Z.of_nat (length pre) + sizeof_LogHdr + Z.of_nat (length p)).
    { rewrite !length_app, !Nat2Z.inj_add. lia. }
    assert (E1 : (Z.of_nat (length pre) <? Z.of_nat (length (pre ++ h ++ p)))
                 = true).
    { apply Z.ltb_lt. unfold sizeof_LogHdr in *. lia. }
    rewrite E1.
    assert (E2 : (Z.of_nat (length (pre ++ h ++ p)) - Z.of_nat (length pre)
                  <? sizeof_LogHdr) = false) by (apply Z.ltb_ge; lia).
    rewrite E2. rewrite <- Hh at 1. rewrite read_exact.
    rewrite Hh, Z.eqb_refl. cbn [negb].
    assert (E3 : (Z.of_nat (length (pre ++ h ++ p)) -
                  (Z.of_nat (length pre) + sizeof_LogHdr) <? body_length_of h)
                 = true) by (apply Z.ltb_lt; lia).
    rewrite E3. unfold lseek_cur. cbn [pos content].
    replace (Z.of_nat (length pre) + sizeof_LogHdr + - sizeof_LogHdr)
      with (Z.of_nat (length pre)) by lia.
    destruct (Z.of_nat (length pre) <? 0) eqn:E4; [apply Z.ltb_lt in E4; lia|].
    rewrite E4. reflexivity.
Qed.

(** The loop at a complete record beyond the size limit. *)
Lemma apply_loop_oversize k pre h b rest done :
  complete body_length_of (h, b) ->
  MAX_LOG_RECORD_SIZE - sizeof_LogHdr < body_length_of h ->
  let c := pre ++ h ++ b ++ rest in
  Z.of_nat (length c) < 2 ^ 31 ->
  exists sk f,
    loop (S k) true (Z.of_nat (length c))
         (mkFd c (Z.of_nat (length pre))) (Z.of_nat (length pre)) done =
    Ret (-1, sk, f, done).
Proof.
  intros (Hh & Hb) Hbig. cbn [fst snd] in *. cbv zeta. intros Hsmall.
  eexists. eexists. unfold loop.
  rewrite apply_loop_small
    by (cbn [content pos]; rewrite ?length_app, ?Nat2Z.inj_add in *; lia).
  cbn [andb].
  assert (Hlen : Z.of_nat (length (pre ++ h ++ b ++ rest)) =
                 Z.of_nat (length pre) + sizeof_LogHdr + Z.of_nat (length b) +
                 Z.of_nat (length rest)).
  { rewrite !length_app, !Nat2Z.inj_add. lia. }
  assert (E1 : (Z.of_nat (length pre) <? Z.of_nat (length (pre ++ h ++ b ++ rest)))
               = true).
  { apply Z.ltb_lt. unfold sizeof_LogHdr in *. lia. }
  rewrite E1.
  assert (E2 : (Z.of_nat (length (pre ++ h ++ b ++ rest)) - Z.of_nat (length pre)
                <? sizeof_LogHdr) = false) by (apply Z.ltb_ge; lia).
  rewrite E2. rewrite <- Hh at 1. rewrite read_exact.
  rewrite Hh, Z.eqb_refl. cbn [negb]. rewrite Hb.
  assert (E3 : (Z.of_nat (length (pre ++ h ++ b ++ rest)) -
                (Z.of_nat (length pre) + sizeof_LogHdr) <? Z.of_nat (length b))
               = false) by (apply Z.ltb_ge; lia).
  rewrite E3.
  assert (E4 : (Z.of_nat (length b) >? 0) = true)
    by (apply Z.gtb_lt; unfold sizeof_LogHdr in *; lia).
  rewrite E4. rewrite u32_small by (unfold sizeof_LogHdr in *; lia).
  assert (E5 : (MAX_LOG_RECORD_SIZE - sizeof_LogHdr <? Z.of_nat (length b))
               = true) by (apply Z.ltb_lt; lia).
  rewrite E5. reflexivity.
Qed.

(** The loop at a complete record whose redo runs out of memory. *)
Lemma apply_loop_enomem k pre h b rest done :
  complete body_length_of (h, b) ->
  0 < body_length_of h <= MAX_LOG_RECORD_SIZE - sizeof_LogHdr ->
  lrec_redo_from_record (h, b) = ENGINE_ENOMEM ->
  let c := pre ++ h ++ b ++ rest in
  Z.of_nat (length c) < 2 ^ 31 ->
  exists sk f,
    loop (S k) true (Z.of_nat (length c))
         (mkFd c (Z.of_nat (length pre))) (Z.of_nat (length pre)) done =
    Ret (-1, sk, f, done ++ [(h, b)]).
Proof.
  intros (Hh & Hb) Hlim Hredo. cbn [fst snd] in *. cbv zeta. intros Hsmall.
  eexists. eexists. unfold loop.
  rewrite apply_loop_small
    by (cbn [content pos]; rewrite ?length_app, ?Nat2Z.inj_add in *; lia).
  cbn [andb].
  assert (Hlen : Z.of_nat (length (pre ++ h ++ b ++ rest)) =
                 Z.of_nat (length pre) + sizeof_LogHdr + Z.of_nat (length b) +
                 Z.of_nat (length rest)).
  { rewrite !length_app, !Nat2Z.inj_add. lia. }
  assert (E1 : (Z.of_nat (length pre) <? Z.of_nat (length (pre ++ h ++ b ++ rest)))
               = true).
  { apply Z.ltb_lt. unfold sizeof_LogHdr in *. lia. }
  rewrite E1.
  assert (E2 : (Z.of_nat (length (pre ++ h ++ b ++ rest)) - Z.of_nat (length pre)
                <? sizeof_LogHdr) = false) by (apply Z.ltb_ge; lia).
  rewrite E2. rewrite <- Hh at 1. rewrite read_exact.
  rewrite Hh, Z.eqb_refl. cbn [negb]. rewrite Hb.
  assert (E3 : (Z.of_nat (length (pre ++ h ++ b ++ rest)) -
                (Z.of_nat (length pre) + sizeof_LogHdr) <? Z.of_nat (length b))
               = false) by (apply Z.ltb_ge; lia).
  rewrite E3.
  assert (E4 : (Z.of_nat (length b) >? 0) = true) by (apply Z.gtb_lt; lia).
  rewrite E4. rewrite u32_small by (unfold sizeof_LogHdr in *; lia).
  assert (E5 : (MAX_LOG_RECORD_SIZE - sizeof_LogHdr <? Z.of_nat (length b))
               = false) by (apply Z.ltb_ge; lia).
  rewrite E5.
  assert (Epre : Z.of_nat (length pre) + sizeof_LogHdr =
                 Z.of_nat (length (pre ++ h))).
  { rewrite length_app, Nat2Z.inj_add. lia. }
  rewrite Epre.
  replace (pre ++ h ++ b ++ rest) with ((pre ++ h) ++ b ++ rest)
    by (rewrite <- app_assoc; reflexivity).
  rewrite read_exact, Z.eqb_refl. cbn [negb]. rewrite Hredo.
  reflexivity.
Qed.

Lemma apply_fuel (recs : list LogImg) (c : list Byte.byte) :
  (length recs <= length c)%nat ->
  S (length c) = (length recs + S (length c - length recs))%nat.
Proof. lia. Qed.

Lemma passes_complete recs :
  Forall (passes MAX_LOG_RECORD_SIZE body_length_of lrec_redo_from_record) recs -> Forall (complete body_length_of) recs.
Proof. apply Forall_impl. intros r (H & _). exact H. Qed.

(** C7 (as amended).  [cmdlog_file_apply] asserts [curr.fd > 0].  On a
    file of less than 2^31 bytes (so that the [int] [seek_offset] holds
    every offset) made of complete records and then nothing or a torn
    record (a short header, or a header with a short body), it hands each
    complete record with a non-empty body to the redo hook, in order, and
    returns 0, provided no body is longer than
    MAX_LOG_RECORD_SIZE - sizeof(LogHdr) and no redo runs out of memory; on
    return the file offset and [curr.size] are the end of the last
    complete record, which on a short body is the offset after the header
    moved back by the header length.  It returns -1, with the descriptor
    closed, at the first complete record whose body is longer than
    MAX_LOG_RECORD_SIZE - sizeof(LogHdr), and at the first whose redo
    reports out of memory. *)
Theorem file_apply_recovery (curr_fd : Z) (recs : list LogImg)
        (t : list Byte.byte) :
  0 < curr_fd ->
  Forall (complete body_length_of) recs ->
  t = [] \/ torn body_length_of t ->
  Z.of_nat (length (encode recs ++ t)) < 2 ^ 31 ->
  let apply := cmdlog_file_apply MAX_LOG_RECORD_SIZE body_length_of
                                 lrec_redo_from_record true curr_fd in
  let c := encode recs ++ t in
  let L := Z.of_nat (length (encode recs)) in
  (Forall (passes MAX_LOG_RECORD_SIZE body_length_of lrec_redo_from_record) recs ->
   apply (mkFd c 0) = Ret (mkOut 0 L (mkFd c L) (with_body recs) false)) /\
  (forall good bad more,
     recs = good ++ bad :: more -> Forall (passes MAX_LOG_RECORD_SIZE body_length_of lrec_redo_from_record) good ->
     MAX_LOG_RECORD_SIZE - sizeof_LogHdr < body_length_of (fst bad) ->
     exists out,
       apply (mkFd c 0) = Ret out /\ ao_ret out = -1 /\
       ao_closed out = true /\ ao_redone out = with_body good) /\
  (forall good bad more,
     recs = good ++ bad :: more -> Forall (passes MAX_LOG_RECORD_SIZE body_length_of lrec_redo_from_record) good ->
     0 < body_length_of (fst bad) <= MAX_LOG_RECORD_SIZE - sizeof_LogHdr ->
     lrec_redo_from_record bad = ENGINE_ENOMEM ->
     exists out,
       apply (mkFd c 0) = Ret out /\ ao_ret out = -1 /\
       ao_closed out = true /\ ao_redone out = with_body good ++ [bad]).
Proof.
  intros Hfd Hc Ht Hsmall. cbv zeta.
  assert (Efd : (curr_fd >? 0) = true) by (apply Z.gtb_lt; exact Hfd).
  split; [|split].
  - intros HF. unfold cmdlog_file_apply. rewrite Efd. cbn [assert bind content].
    pose proof (length_encode recs Hc) as Hle.
    destruct (Z.of_nat (length (encode recs ++ t)) =? 0) eqn:E0.
    + apply Z.eqb_eq in E0. rewrite length_app in E0.
      assert (length recs = 0)%nat by lia.
      destruct recs; [|discriminate]. cbn [encode map concat app] in *.
      destruct t; [|cbn in E0; lia]. reflexivity.
    + rewrite (apply_fuel recs) by (rewrite length_app; lia).
      pose proof (apply_loop_skip recs (S (length (encode recs ++ t) - length recs))
                    [] [] t HF) as Hs.
      cbv zeta in Hs. cbn [app length Z.of_nat] in Hs. fold loop.
      rewrite (Hs Hsmall).
      pose proof (apply_loop_tail (length (encode recs ++ t) - length recs)
                    (encode recs) t (with_body recs) Ht) as Htl.
      cbv zeta in Htl. rewrite (Htl Hsmall). cbn [bind].
      rewrite u64_small by (rewrite length_app in Hsmall; lia).
      reflexivity.
  - intros good [h b] more -> HF Hbig. cbn [fst] in Hbig.
    apply Forall_app in Hc. destruct Hc as (Hcg & Hcb).
    inversion Hcb as [|x y Hbad Hmore]; subst.
    pose proof (length_encode good Hcg) as Hle.
    assert (Ec : encode (good ++ (h, b) :: more) ++ t =
                 encode good ++ h ++ b ++ (encode more ++ t)).
    { unfold encode. rewrite map_app, concat_app. cbn [map concat fst snd].
      rewrite <- !app_assoc. reflexivity. }
    enough (Hrun : exists f,
              cmdlog_file_apply MAX_LOG_RECORD_SIZE body_length_of
                lrec_redo_from_record true curr_fd
                (mkFd (encode (good ++ (h, b) :: more) ++ t) 0) =
              Ret (mkOut (-1)
                     (Z.of_nat (length (encode (good ++ (h, b) :: more) ++ t)))
                     f (with_body good) true)).
    { destruct Hrun as (f & Hrun). eexists. split; [exact Hrun|].
      cbn. repeat split. }
    assert (Hsmall' : Z.of_nat (length (encode good ++ h ++ b ++ encode more ++ t))
                      < 2 ^ 31) by (rewrite <- Ec; exact Hsmall).
    clear Hsmall. rename Hsmall' into Hsmall. rewrite Ec.
    unfold cmdlog_file_apply. rewrite Efd. cbn [assert bind content].
    destruct Hbad as (Hh & Hb). cbn [fst snd] in Hh, Hb.
    destruct (Z.of_nat (length (encode good ++ h ++ b ++ encode more ++ t)) =? 0)
      eqn:E0.
    { apply Z.eqb_eq in E0. rewrite !length_app in E0.
      unfold sizeof_LogHdr in Hh. lia. }
    rewrite (apply_fuel good) by (rewrite length_app; lia).
    pose proof (apply_loop_skip good
                  (S (length (encode good ++ h ++ b ++ encode more ++ t)
                      - length good))
                  [] [] (h ++ b ++ encode more ++ t) HF) as Hs.
    cbv zeta in Hs. cbn [app length Z.of_nat] in Hs. fold loop.
    rewrite (Hs Hsmall).
    pose proof (apply_loop_oversize
                  (length (encode good ++ h ++ b ++ encode more ++ t) - length good)
                  (encode good) h b (encode more ++ t) (with_body good)
                  (conj Hh Hb) Hbig) as Ho.
    cbv zeta in Ho. destruct (Ho Hsmall) as (sk & f & Ho').
    rewrite Ho'. cbn [bind Z.ltb Z.compare].
    eexists. reflexivity.
  - intros good [h b] more -> HF Hlim Hredo. cbn [fst] in Hlim.
    apply Forall_app in Hc. destruct Hc as (Hcg & Hcb).
    inversion Hcb as [|x y Hbad Hmore]; subst.
    pose proof (length_encode good Hcg) as Hle.
    assert (Ec : encode (good ++ (h, b) :: more) ++ t =
                 encode good ++ h ++ b ++ (encode more ++ t)).
    { unfold encode. rewrite map_app, concat_app. cbn [map concat fst snd].
      rewrite <- !app_assoc. reflexivity. }
    enough (Hrun : exists f,
              cmdlog_file_apply MAX_LOG_RECORD_SIZE body_length_of
                lrec_redo_from_record true curr_fd
                (mkFd (encode (good ++ (h, b) :: more) ++ t) 0) =
              Ret (mkOut (-1)
                     (Z.of_nat (length (encode (good ++ (h, b) :: more) ++ t)))
                     f (with_body good ++ [(h, b)]) true)).
    { destruct Hrun as (f & Hrun). eexists. split; [exact Hrun|].
      cbn. repeat split. }
    assert (Hsmall' : Z.of_nat (length (encode good ++ h ++ b ++ encode more ++ t))
                      < 2 ^ 31) by (rewrite <- Ec; exact Hsmall).
    clear Hsmall. rename Hsmall' into Hsmall. rewrite Ec.
    unfold cmdlog_file_apply. rewrite Efd. cbn [assert bind content].
    pose proof Hbad as (Hh & Hb). cbn [fst snd] in Hh, Hb.
    destruct (Z.of_nat (length (encode good ++ h ++ b ++ encode more ++ t)) =? 0)
      eqn:E0.
    { apply Z.eqb_eq in E0. rewrite !length_app in E0.
      unfold sizeof_LogHdr in Hh. lia. }
    rewrite (apply_fuel good) by (rewrite length_app; lia).
    pose proof (apply_loop_skip good
                  (S (length (encode good ++ h ++ b ++ encode more ++ t)
                      - length good))
                  [] [] (h ++ b ++ encode more ++ t) HF) as Hs.
    cbv zeta in Hs. cbn [app length Z.of_nat] in Hs. fold loop.
    rewrite (Hs Hsmall).
    pose proof (apply_loop_enomem
                  (length (encode good ++ h ++ b ++ encode more ++ t) - length good)
                  (encode good) h b (encode more ++ t) (with_body good)
                  Hbad Hlim Hredo) as Ho.
    cbv zeta in Ho. destruct (Ho Hsmall) as (sk & f & Ho').
    rewrite Ho'. cbn [bind Z.ltb Z.compare].
    eexists. reflexivity.
Qed.

End RecoveryProofs.

Lemma file_apply_recovery_witness :
  cmdlog_file_apply max_2MiB le32 redo_ok true 3
    (mkFd (hdr_of Byte.x02 ++ [Byte.x61; Byte.x62] ++ hdr_of Byte.x05 ++ [Byte.x63]) 0)
  = Ret (mkOut 0 10
           (mkFd (hdr_of Byte.x02 ++ [Byte.x61; Byte.x62] ++ hdr_of Byte.x05 ++ [Byte.x63]) 10)
           [(hdr_of Byte.x02, [Byte.x61; Byte.x62])] false).
Proof.
  destruct (file_apply_recovery max_2MiB le32 redo_ok
              ltac:(vm_compute; split; [discriminate | reflexivity])
              3 [(hdr_of Byte.x02, [Byte.x61; Byte.x62])]
              (hdr_of Byte.x05 ++ [Byte.x63])) as (H & _).
  - lia.
  - constructor; [|constructor]. split; reflexivity.
  - right. right. exists (hdr_of Byte.x05), [Byte.x63].
    split; [reflexivity|]. split; [reflexivity|]. vm_compute. reflexivity.
  - vm_compute. reflexivity.
  - apply H. constructor; [|constructor].
    split; [split; reflexivity|]. split; [vm_compute; discriminate|].
    intros _. discriminate.
Defined.

(** C7 fails as stated on two counts.  A complete record with an empty
    body is passed over without a call of the redo hook; and a header whose
    [body_length] is beyond MAX_LOG_RECORD_SIZE, the body missing, is a
    torn record: the return value is 0, not -1, and nothing is closed. *)
Lemma file_apply_skips_empty_body :
  complete le32 (hdr_of Byte.x00, []) /\
  (exists out,
     cmdlog_file_apply max_2MiB le32 redo_ok true 3
       (mkFd (encode [(hdr_of Byte.x00, [])]) 0) = Ret out /\
     ao_ret out = 0 /\ ao_redone out = [] /\
     ao_redone out <> [(hdr_of Byte.x00, [])]) /\
  max_2MiB < le32 hdr_huge /\
  (exists out,
     cmdlog_file_apply max_2MiB le32 redo_ok true 3 (mkFd hdr_huge 0) = Ret out /\
     ao_ret out = 0 /\ ao_closed out = false).
Proof.
  split; [split; reflexivity|].
  split; [eexists; split; [vm_compute; reflexivity|];
          cbn; repeat split; discriminate|].
  split; [vm_compute; reflexivity|].
  eexists; split; [vm_compute; reflexivity|]. cbn. split; reflexivity.
Qed.

(** ** Single writes, computed *)

(** A write that finds room at the first pass. *)
Lemma write_direct fuel r waiter dual g b1 :
  let total := sizeof_LogHdr + body_length r in
  0 <= total < 2 ^ 32 -> total < size (log_buffer g) ->
  find_space total (log_buffer g) = Ret (true, b1) ->
  0 <= tail b1 -> tail b1 + total < 2 ^ 32 ->
  do_log_buff_write fuel r waiter dual g =
  (b5 <- enqueue (Z.to_nat total) total dual
                 (close_on_mismatch dual (set_tail b1 (tail b1 + total))) ;;
   Ret (set_buffer
          (set_write_lsn
             (set_buffer (emit (set_buffer g b1) (BufStore (tail b1) total))
                         (set_tail b1 (tail b1 + total)))
             (add_roffset (nxt_write_lsn g) total)) b5,
        if waiter then Some (nxt_write_lsn g) else None)).
Proof.
  cbv zeta. intros Ht Hs Hf Ht1 Ht2. unfold do_log_buff_write.
  rewrite (u32_small (sizeof_LogHdr + body_length r)) by lia.
  apply Z.ltb_lt in Hs. rewrite Hs. cbn [assert bind].
  assert (Ea : acquire fuel (sizeof_LogHdr + body_length r) g
               = Ret (set_buffer g b1)).
  { destruct fuel; cbn [acquire]; rewrite Hf; reflexivity. }
  rewrite Ea. cbn [bind log_buffer set_buffer emit nxt_write_lsn].
  rewrite u32_small by lia. reflexivity.
Qed.

(** The record goes whole into the open request, which stays open. *)
Lemma enqueue_fits total dual b :
  0 < total ->
  0 <= nflush (fque b (fend b)) ->
  nflush (fque b (fend b)) + total < CMDLOG_FLUSH_AUTO_SIZE ->
  enqueue (Z.to_nat total) total dual b =
  Ret (set_fque b (upd (fque b) (fend b)
                       (mkFREQ (nflush (fque b (fend b)) + total) dual))).
Proof.
  intros Ht Hn Hfit. unfold CMDLOG_FLUSH_AUTO_SIZE in *.
  destruct (Z.to_nat total) as [|k] eqn:Ek; [lia|]. cbn [enqueue].
  assert (E0 : (total >? 0) = true) by (apply Z.gtb_lt; lia). rewrite E0.
  unfold CMDLOG_FLUSH_AUTO_SIZE. cbv zeta.
  rewrite (u32_small (32 * 1024 - nflush (fque b (fend b)))) by lia.
  assert (E1 : (32 * 1024 - nflush (fque b (fend b)) >=? total) = true).
  { rewrite Z.geb_leb. apply Z.leb_le. lia. }
  rewrite E1. rewrite u16_small by lia. cbn [nflush].
  assert (E2 : (nflush (fque b (fend b)) + total =? 32 * 1024) = false)
    by (apply Z.eqb_neq; lia).
  rewrite E2. replace (total - total) with 0 by lia.
  change (u32 0) with 0. destruct k; reflexivity.
Qed.

(** The record fills the empty open request and goes on into the next. *)
Lemma enqueue_splits total dual b :
  CMDLOG_FLUSH_AUTO_SIZE < total < 2 * CMDLOG_FLUSH_AUTO_SIZE ->
  nflush (fque b (fend b)) = 0 ->
  ring_next b (fend b) <> fend b ->
  nflush (fque b (ring_next b (fend b))) = 0 ->
  enqueue (Z.to_nat total) total dual b =
  Ret (let b1 := set_fend (set_fque b (upd (fque b) (fend b)
                                           (mkFREQ CMDLOG_FLUSH_AUTO_SIZE dual)))
                          (ring_next b (fend b)) in
       set_fque b1 (upd (fque b1) (fend b1)
                        (mkFREQ (total - CMDLOG_FLUSH_AUTO_SIZE) dual))).
Proof.
  intros Ht Hn Hne Hn2. unfold CMDLOG_FLUSH_AUTO_SIZE in *.
  destruct (Z.to_nat total) as [|[|k]] eqn:Ek; [lia|lia|].
  assert (E0 : (total >? 0) = true) by (apply Z.gtb_lt; lia).
  assert (E1 : (32768 >=? total) = false).
  { rewrite Z.geb_leb. apply Z.leb_gt. lia. }
  assert (E3 : (total - 32768 >? 0) = true) by (apply Z.gtb_lt; lia).
  assert (E4 : (32768 >=? total - 32768) = true).
  { rewrite Z.geb_leb. apply Z.leb_le. lia. }
  assert (E5 : (total - 32768 =? 32768) = false) by (apply Z.eqb_neq; lia).
  assert (E6 : u32 (total - 32768) = total - 32768) by (apply u32_small; lia).
  assert (E7 : u16 (total - 32768) = total - 32768) by (apply u16_small; lia).
  (* first pass: the open request is filled and closed *)
  cbn [enqueue]. rewrite E0. unfold CMDLOG_FLUSH_AUTO_SIZE. cbv zeta.
  rewrite Hn. change (u32 (32 * 1024 - 0)) with 32768. rewrite E1.
  change (u16 (0 + 32768)) with 32768. cbn [nflush].
  change (32768 =? 32 * 1024) with true. cbv iota.
  rewrite E6, E3.
  (* second pass: the rest goes into the next request *)
  set (b1 := set_fend (set_fque b (upd (fque b) (fend b) (mkFREQ 32768 dual)))
                      (ring_next (set_fque b (upd (fque b) (fend b)
                                                  (mkFREQ 32768 dual)))
                                 (fend (set_fque b (upd (fque b) (fend b)
                                                        (mkFREQ 32768 dual)))))).
  assert (Eb1 : fend b1 = ring_next b (fend b)) by reflexivity.
  assert (Eq1 : nflush (fque b1 (fend b1)) = 0).
  { rewrite Eb1. unfold b1. cbn [fque set_fend set_fque].
    rewrite upd_other by exact Hne. exact Hn2. }
  rewrite Eq1. change (u32 (32 * 1024 - 0)) with 32768. rewrite E4.
  change (0 + (total - 32768)) with (total - 32768). rewrite E7. cbn [nflush].
  change (32 * 1024) with 32768. rewrite E5.
  replace (total - 32768 - (total - 32768)) with 0 by lia.
  change (u32 0) with 0. destruct k; reflexivity.
Qed.

(** ** The flush-request queue can be filled *)

Lemma slot_index_cases n :
  0 <= n <= all_count ->
  (n <= QSZ - 3 /\ slot_index n = 2 + n) \/
  (n = QSZ - 2 /\ slot_index n = 0) \/
  (n = QSZ - 1 /\ slot_index n = 1).
Proof.
  unfold slot_index, all_count, QSZ. intros H.
  destruct (Z_le_gt_dec n 6553597) as [H1|H1].
  - left. split; [lia|]. apply Z.mod_small. lia.
  - destruct (Z.eq_dec n 6553598) as [->|H2]; [right; left; split; reflexivity|].
    assert (n = 6553599) by lia. subst n. right; right; split; reflexivity.
Qed.

Lemma slot_index_range n :
  0 <= n <= all_count -> 0 <= slot_index n < QSZ.
Proof. intros _. unfold slot_index, QSZ. apply Z.mod_pos_bound. lia. Qed.

Lemma alt_flag_alternates n :
  0 <= n < all_count -> alt_flag n = negb (alt_flag (n + 1)).
Proof.
  intros H. unfold alt_flag.
  destruct (slot_index_cases n) as [(H1 & ->) | [(H1 & ->) | (H1 & ->)]];
    [unfold all_count in *; lia| | |];
    destruct (slot_index_cases (n + 1)) as [(H2 & ->) | [(H2 & ->) | (H2 & ->)]];
    try (unfold all_count, QSZ in *; lia).
  - replace (2 + (n + 1)) with (Z.succ (2 + n)) by lia.
    rewrite Z.odd_succ, <- Z.negb_odd, negb_involutive. reflexivity.
  - assert (n = 6553597) by (unfold QSZ in *; lia). subst n. reflexivity.
  - reflexivity.
Qed.

Lemma alt_que_next n j :
  0 <= n < all_count ->
  alt_que (n + 1) j =
  if j =? slot_index (n + 1) then mkFREQ 16 (alt_flag (n + 1)) else alt_que n j.
Proof.
  intros H. unfold alt_que, alt_filled, alt_flag.
  destruct (slot_index_cases (n + 1)) as [(H2 & E) | [(H2 & E) | (H2 & E)]];
    [unfold all_count in *; lia | | |]; rewrite E;
    unfold QSZ, all_count in *;
    destruct (Z.eqb_spec j 2); destruct (Z.leb_spec 3 j);
    destruct (Z.ltb_spec j (3 + (n + 1))); destruct (Z.ltb_spec j (3 + n));
    destruct (Z.ltb_spec j 6553600); destruct (Z.leb_spec 0 j);
    destruct (Z.ltb_spec j (3 + (n + 1) - 6553600));
    destruct (Z.ltb_spec j (3 + n - 6553600));
    cbn [andb orb];
    match goal with
    | |- context [j =? ?x] => destruct (Z.eqb_spec j x)
    end; subst; try reflexivity; try lia.
Qed.

Lemma alt_que_open n :
  0 <= n <= all_count ->
  0 < nflush (alt_que n (slot_index n)) < CMDLOG_FLUSH_AUTO_SIZE /\
  dual_write (alt_que n (slot_index n)) = alt_flag n.
Proof.
  intros H. unfold alt_que, alt_filled, alt_flag, CMDLOG_FLUSH_AUTO_SIZE.
  destruct (slot_index_cases n) as [(H2 & E) | [(H2 & E) | (H2 & E)]];
    [exact H | | |]; rewrite E; unfold QSZ, all_count in *.
  - destruct (Z.eqb_spec (2 + n) 2) as [E2|E2].
    + assert (n = 0) by lia. subst n. cbn. split; [lia | reflexivity].
    + destruct (Z.leb_spec 3 (2 + n)); [|lia].
      destruct (Z.ltb_spec (2 + n) (3 + n)); [|lia].
      destruct (Z.ltb_spec (2 + n) 6553600); [|lia].
      cbn. split; [lia | reflexivity].
  - subst n. cbn. split; [lia | reflexivity].
  - subst n. cbn. split; [lia | reflexivity].
Qed.

Lemma alt_que_fresh n :
  0 <= n < all_count ->
  nflush (alt_que n (slot_index (n + 1))) = 0 /\ slot_index (n + 1) <> slot_index n.
Proof.
  intros H. unfold alt_que, alt_filled.
  destruct (slot_index_cases (n + 1)) as [(H2 & E) | [(H2 & E) | (H2 & E)]];
    [unfold all_count in *; lia | | |]; rewrite E;
    destruct (slot_index_cases n) as [(H3 & E') | [(H3 & E') | (H3 & E')]];
    try (unfold all_count, QSZ in *; lia); rewrite E';
    unfold QSZ, all_count in *.
  - destruct (Z.eqb_spec (2 + (n + 1)) 2); [lia|].
    destruct (Z.ltb_spec (2 + (n + 1)) (3 + n)); [lia|].
    destruct (Z.ltb_spec (2 + (n + 1)) (3 + n - 6553600)); [lia|].
    split; [|lia]. rewrite !andb_false_r. reflexivity.
  - assert (n = 6553597) by lia. subst n. split; [reflexivity | discriminate].
  - assert (n = 6553598) by lia. subst n. split; [reflexivity | discriminate].
Qed.

Lemma ring_next_slot_index b n :
  fqsz b = QSZ -> 0 <= n < all_count ->
  ring_next b (slot_index n) = slot_index (n + 1).
Proof.
  intros Hq Hn. rewrite ring_next_eq.
  - rewrite Hq. unfold slot_index. rewrite Z.add_mod_idemp_l by (unfold QSZ; lia).
    f_equal; lia.
  - rewrite Hq. unfold QSZ. lia.
  - rewrite Hq. apply slot_index_range. unfold all_count in *. lia.
Qed.

(** The queue after one more record of the run: whether the open request
    is the one of record [n] (closed for its flag) or already the next
    (the wrap closed it), the record makes the request at
    [slot_index (n + 1)]. *)
Lemma alt_enqueue n bt :
  0 <= n < all_count ->
  fqsz bt = QSZ ->
  (forall j, fque bt j = alt_que n j) ->
  fend bt = slot_index n \/ fend bt = slot_index (n + 1) ->
  exists b5,
    enqueue (Z.to_nat 16) 16 (alt_flag (n + 1))
            (close_on_mismatch (alt_flag (n + 1)) bt) = Ret b5 /\
    size b5 = size bt /\ head b5 = head bt /\ tail b5 = tail bt /\
    last b5 = last bt /\ fqsz b5 = fqsz bt /\ fbgn b5 = fbgn bt /\
    dw_end b5 = dw_end bt /\ fend b5 = slot_index (n + 1) /\
    forall j, fque b5 j = alt_que (n + 1) j.
Proof.
  intros Hn Hq Hque Hfe.
  destruct (alt_que_fresh n Hn) as (Hfresh & Hne).
  assert (Hc : exists bc, close_on_mismatch (alt_flag (n + 1)) bt = bc /\
                 size bc = size bt /\ head bc = head bt /\ tail bc = tail bt /\
                 last bc = last bt /\ fqsz bc = fqsz bt /\ fbgn bc = fbgn bt /\
                 dw_end bc = dw_end bt /\ fque bc = fque bt /\
                 fend bc = slot_index (n + 1)).
  { unfold close_on_mismatch. destruct Hfe as [Hfe|Hfe]; rewrite Hfe, Hque.
    - destruct (alt_que_open n) as (Ho & Hfl); [unfold all_count in *; lia|].
      assert (E1 : (nflush (alt_que n (slot_index n)) >? 0) = true)
        by (apply Z.gtb_lt; lia).
      rewrite E1, Hfl, (alt_flag_alternates n Hn).
      destruct (alt_flag (n + 1)); cbn [negb Bool.eqb andb];
        (eexists; split; [reflexivity|]; cbn; repeat split;
         apply ring_next_slot_index; assumption).
    - rewrite Hfresh. cbn [Z.gtb Z.compare andb].
      eexists; split; [reflexivity|]. repeat split. exact Hfe. }
  destruct Hc as (bc & -> & C1 & C2 & C3 & C4 & C5 & C6 & C7 & C8 & C9).
  assert (Ho : nflush (fque bc (fend bc)) = 0) by (rewrite C8, C9, Hque; exact Hfresh).
  rewrite enqueue_fits by (rewrite ?Ho; unfold CMDLOG_FLUSH_AUTO_SIZE; lia).
  eexists. split; [reflexivity|]. cbn [size head tail last fqsz fbgn dw_end fend
    fque set_fque].
  repeat split; auto.
  intros j. rewrite Ho, C8, C9, (alt_que_next n j Hn). unfold upd.
  destruct (j =? slot_index (n + 1)); [reflexivity | apply Hque].
Qed.

(** The search for 16 bytes during the run: room at [tail], except at
    record [upper_count], where the ring wraps and the open request is
    closed. *)
Lemma alt_find_space n g :
  0 <= n < all_count -> alt_state n g ->
  exists b1,
    find_space 16 (log_buffer g) = Ret (true, b1) /\
    size b1 = CMDLOG_BUFFER_SIZE /\ fqsz b1 = QSZ /\ head b1 = 32785 /\
    fbgn b1 = 2 /\ dw_end b1 = -1 /\ fque b1 = fque (log_buffer g) /\
    0 <= tail b1 /\ tail b1 + 16 = alt_tail (n + 1) /\
    last b1 = alt_last (n + 1) /\
    (fend b1 = slot_index n \/ fend b1 = slot_index (n + 1)).
Proof.
  intros Hn (Hsz & Hq & Hh & Ht & Hl & Hfb & Hfe & Hdw & HW & HF & Hc & Hx & Hque).
  cbv zeta in *. unfold find_space. rewrite Hh, Ht, Hl, Hsz.
  unfold alt_tail, alt_last, CMDLOG_BUFFER_SIZE, upper_count, all_count in *.
  destruct (Z.leb_spec n 6551550) as [Hu|Hu].
  - destruct (Z.leb_spec 32785 (32799 + 16 * n)); [|lia].
    cbn [Z.eqb assert bind]. rewrite u32_small by lia.
    destruct (Z.ltb_spec 16 (100 * 1024 * 1024 - (32799 + 16 * n))) as [Hfit|Hfit].
    + exists (log_buffer g). split; [reflexivity|].
      destruct (Z.leb_spec (n + 1) 6551550); [|lia].
      repeat split; auto; try lia.
    + assert (n = 6551550) by lia. subst n.
      change (32785 >? 0) with true. cbv iota.
      destruct (wrap_ring_fields (log_buffer g))
        as (W1 & W2 & W3 & W4 & W5 & W6 & W7 & W8 & W9); [rewrite Ht; lia|].
      cbv zeta. rewrite W2, Hh. change (16 <? 32785) with true.
      exists (wrap_ring (log_buffer g)). split; [reflexivity|].
      rewrite W1, W2, W3, W4, W5, W6, W7, W8, W9, Hfe, Hque.
      destruct (alt_que_open 6551550) as (Ho & _); [unfold all_count; lia|].
      assert (E1 : (nflush (alt_que 6551550 (slot_index 6551550)) >? 0) = true)
        by (apply Z.gtb_lt; lia).
      rewrite E1, ring_next_slot_index by (auto; unfold all_count; lia).
      repeat split; auto; try lia; try reflexivity.
  - destruct (Z.leb_spec 32785 (16 * (n - 6551550))); [lia|].
    change (100 * 1024 * 1024 - 1 =? -1) with false. cbn [negb assert bind].
    rewrite u32_small by lia.
    destruct (Z.ltb_spec 16 (32785 - 16 * (n - 6551550))); [|lia].
    exists (log_buffer g). split; [reflexivity|].
    destruct (Z.leb_spec (n + 1) 6551550); [lia|].
    repeat split; auto; try lia.
Qed.

(** One more record of the run. *)
Lemma alt_step n g :
  0 <= n < all_count -> alt_state n g ->
  exists g', step g g' /\ alt_state (n + 1) g'.
Proof.
  intros Hn HS.
  destruct (alt_find_space n g Hn HS)
    as (b1 & Hf & B1 & B2 & B3 & B4 & B5 & B6 & B7 & B8 & B9 & B10).
  destruct HS as (Hsz & Hq & Hh & Ht & Hl & Hfb & Hfe & Hdw & HW & HF & Hc & Hx & Hque).
  cbv zeta in *.
  pose proof (write_direct 0 (mkLogRec 8) false (alt_flag (n + 1)) g b1) as Hw.
  cbv zeta in Hw. change (sizeof_LogHdr + body_length (mkLogRec 8)) with 16 in Hw.
  assert (Htail : tail b1 + 16 < 2 ^ 32).
  { rewrite B8. unfold alt_tail, upper_count, all_count in *.
    destruct (n + 1 <=? 6551550); lia. }
  specialize (Hw ltac:(lia) ltac:(rewrite Hsz; reflexivity) Hf B7 Htail).
  destruct (alt_enqueue n (set_tail b1 (tail b1 + 16)) Hn)
    as (b5 & He & E1 & E2 & E3 & E4 & E5 & E6 & E7 & E8 & E9).
  { exact B2. }
  { intros j. cbn [fque set_tail]. rewrite B6. apply Hque. }
  { exact B10. }
  rewrite He in Hw. cbn [bind] in Hw.
  eexists. split.
  - eapply step_record_write; [|exact Hw].
    unfold record_ok, CMDLOG_RECORD_MIN_SIZE, sizeof_LogHdr. cbn. lia.
  - unfold alt_state. cbn [log_buffer set_buffer nxt_write_lsn nxt_flush_lsn
      set_write_lsn emit curr next].
    cbn [size head tail last fqsz fbgn dw_end set_tail] in E1, E2, E3, E4, E5, E6, E7.
    rewrite E1, E2, E3, E4, E5, E6, E7, E8, HW, HF.
    unfold add_roffset. cbn [filenum roffset].
    repeat split; auto.
    f_equal; lia.
Qed.

Lemma run_base_que j :
  fque (log_buffer run_base) j =
  (if j =? 1 then freq_zero
   else if j =? 0 then freq_zero
   else if j =? 2 then mkFREQ 14 false
   else if j =? 1 then mkFREQ 32768 false
   else if j =? 0 then mkFREQ 17 true else freq_zero).
Proof. vm_compute. reflexivity. Qed.

Lemma alt_state_base : alt_state 0 run_base.
Proof.
  unfold alt_state. cbv zeta.
  repeat (split; [vm_compute; reflexivity|]).
  intros j. rewrite run_base_que. unfold alt_que, alt_filled, QSZ.
  destruct (Z.eqb_spec j 1); destruct (Z.eqb_spec j 0); destruct (Z.eqb_spec j 2);
    destruct (Z.leb_spec 3 j); destruct (Z.ltb_spec j (3 + 0));
    destruct (Z.ltb_spec j 6553600); destruct (Z.leb_spec 0 j);
    destruct (Z.ltb_spec j (3 + 0 - 6553600));
    cbn [andb orb]; try reflexivity; lia.
Qed.

Lemma reachable_two_files : reachable two_files.
Proof.
  unfold two_files.
  eapply reach_step; [eapply reach_step; [apply reach_init|]|];
    apply step_file_prepare.
Qed.

Lemma reachable_run_base : reachable run_base.
Proof.
  pose (g1 := state_of (write_rec 0 9 true two_files)).
  pose (g2 := state_of (write_rec 0 32774 false g1)).
  pose (g3 := fst (ret_of (g2, 0) (do_log_buff_flush false g2))).
  pose (g4 := fst (ret_of (g3, 0) (do_log_buff_flush false g3))).
  assert (R1 : reachable g1).
  { eapply reach_step; [apply reachable_two_files|].
    eapply (step_record_write 0 (mkLogRec 9) true true _ _ (Some (mkLogSN 1 0))).
    - unfold record_ok, CMDLOG_RECORD_MIN_SIZE, sizeof_LogHdr. cbn. lia.
    - vm_compute. reflexivity. }
  assert (R2 : reachable g2).
  { eapply reach_step; [exact R1|].
    eapply (step_record_write 0 (mkLogRec 32774) true false _ _ (Some (mkLogSN 1 17))).
    - unfold record_ok, CMDLOG_RECORD_MIN_SIZE, sizeof_LogHdr. cbn. lia.
    - vm_compute. reflexivity. }
  assert (R3 : reachable g3).
  { eapply reach_step; [exact R2|].
    eapply (step_flush_once _ _ 17). vm_compute. reflexivity. }
  assert (R4 : reachable g4).
  { eapply reach_step; [exact R3|].
    eapply (step_flush_once _ _ 32768). vm_compute. reflexivity. }
  replace run_base with g4; [exact R4|]. vm_compute. reflexivity.
Qed.

(** Every stage of the run is reached. *)
Lemma alt_reach n :
  0 <= n -> n <= all_count -> exists g, reachable g /\ alt_state n g.
Proof.
  intros Hn. pattern n. apply natlike_ind; [| |exact Hn]; clear n Hn.
  - intros _. exists run_base. split; [apply reachable_run_base | apply alt_state_base].
  - intros n Hn IH Hle.
    destruct IH as (g & Hr & Hs); [lia|].
    destruct (alt_step n g) as (g' & Hst & Hs'); [lia | exact Hs |].
    exists g'. split; [eapply reach_step; eauto|].
    replace (Z.succ n) with (n + 1) by lia. exact Hs'.
Qed.

(** [cmdlog_complete_dual_write(true)]: what it leaves untouched. *)
Lemma complete_dual_write_buffer fuel g :
  queue_wf (log_buffer g) -> fd (next g) <> -1 ->
  dw_end (log_buffer g) = -1 ->
  exists g',
    cmdlog_complete_dual_write fuel true g = Ret g' /\
    let b := log_buffer g in
    let b1 := if nflush (fque b (fend b)) >? 0
              then set_fend b (ring_next b (fend b)) else b in
    log_buffer g' = set_dw_end b1 (fend b1) /\
    nxt_write_lsn g' = bump_filenum (nxt_write_lsn g) /\
    nxt_flush_lsn g' = nxt_flush_lsn g /\
    nxt_fsync_lsn g' = nxt_fsync_lsn g /\
    fd (curr g') = fd (next g) /\ fd (next g') = -1.
Proof.
  intros (Hq & Hb & He) Hn Hd. unfold cmdlog_complete_dual_write.
  apply Z.eqb_neq in Hn. rewrite Hn.
  set (b := log_buffer g).
  set (b1 := if nflush (fque b (fend b)) >? 0
             then set_fend b (ring_next b (fend b)) else b).
  assert (Hd1 : dw_end b1 = -1).
  { subst b1. destruct (nflush (fque b (fend b)) >? 0); exact Hd. }
  assert (Hr : 0 <= fend b1 < 2 ^ 31).
  { subst b1. destruct (nflush (fque b (fend b)) >? 0); cbn [fend set_fend].
    - pose proof (ring_next_range b (fend b) Hq He). unfold b in *. lia.
    - unfold b in *. lia. }
  cbn [bind]. rewrite Hd1. cbn [Z.eqb assert bind Pos.eqb].
  rewrite (s32_small (fend b1)) by exact Hr.
  cbn [set_write_lsn set_buffer set_curr set_next curr next fd fsync_ongoing].
  destruct (negb (fd (curr g) =? -1) && negb (fsync_ongoing (curr g)));
    eexists; (split; [reflexivity|]); cbn; repeat split.
Qed.

(** The state after the rotation and one flush asked for by a waiter of
    the old file. *)
Lemma late_base : exists g, reachable g /\ late_state 0 g.
Proof.
  destruct (alt_reach all_count) as (g & Hr & HS);
    [unfold all_count; lia | lia |].
  destruct HS as (Hsz & Hq & Hh & Ht & Hl & Hfb & Hfe & Hdw & HW & HF & Hc & Hx & Hque).
  cbv zeta in *.
  assert (Hidx : slot_index all_count = 1) by reflexivity.
  rewrite Hidx in Hfe.
  assert (Hat : alt_tail all_count = 32784) by reflexivity.
  assert (Hal : alt_last all_count = CMDLOG_BUFFER_SIZE - 1) by reflexivity.
  rewrite Hat in Ht. rewrite Hal in Hl.
  (* the rotation completes *)
  destruct (complete_dual_write_buffer 0 g) as (gc & Hcd & Hb & Hw & Hf & _ & Hcf & Hcn).
  { unfold queue_wf. rewrite Hq, Hfb, Hfe. unfold QSZ. lia. }
  { rewrite Hx. discriminate. }
  { exact Hdw. }
  cbv zeta in Hb. rewrite Hfe, Hque in Hb.
  change (nflush (alt_que all_count 1) >? 0) with true in Hb. cbv iota in Hb.
  cbn [fend set_fend] in Hb.
  assert (Hrn : ring_next (log_buffer g) 1 = 2).
  { unfold ring_next. rewrite Hq. reflexivity. }
  rewrite Hrn in Hb.
  (* a waiter of the old file asks for its flush *)
  assert (Hsel : selected true (log_buffer gc) = Some (mkFREQ 14 false)).
  { unfold selected. rewrite Hb. cbn [fbgn fend fque set_dw_end set_fend].
    rewrite Hfb. cbn [Z.eqb Pos.eqb negb andb]. rewrite Hque. reflexivity. }
  destruct (do_log_buff_flush_ok true gc _ Hsel) as (gf & Hfl).
  { cbn. lia. }
  { rewrite Hcf, Hx. discriminate. }
  pose proof Hfl as Hinv. apply do_log_buff_flush_inv in Hinv.
  rewrite Hsel in Hinv. cbv zeta in Hinv.
  destruct Hinv as (Hw' & _ & Hfc & Hfn & _ & _ & _ & _ & Hbf & Hl' & _).
  assert (Hbase : flush_lsn_base gc = mkLogSN 2 0).
  { unfold flush_lsn_base. rewrite Hb. cbn [fbgn dw_end set_dw_end set_fend].
    rewrite Hfb. change (2 =? u32 2) with true. cbv iota.
    rewrite Hf, HF. reflexivity. }
  rewrite Hbase in Hl'. cbn [nflush] in Hl', Hbf. unfold add_roffset in Hl'.
  cbn in Hl'.
  assert (Hwf : nxt_write_lsn gf = mkLogSN 2 0).
  { rewrite Hw', Hw, HW. reflexivity. }
  assert (Hrun : log_buffer_flush 0 (mkLogSN 1 32799) gc = Ret gf).
  { cbn [log_buffer_flush]. rewrite Hf, HF.
    change (LOGSN_IS_LE (mkLogSN 1 32785) (mkLogSN 1 32799)) with true.
    cbv iota. rewrite Hfl. cbn [bind nflush]. cbn [assert Z.gtb Z.compare bind].
    rewrite Hl'. reflexivity. }
  exists gf. split.
  { eapply reach_step; [eapply reach_step; [exact Hr|]|].
    - eapply step_complete_dual_write. exact Hcd.
    - eapply step_buffer_flush. exact Hrun. }
  destruct (flush_some_fields 14 (log_buffer gc))
    as (F1 & F2 & F3 & F4 & F5 & F6 & F7 & F8 & F9).
  rewrite <- Hbf in F1, F2, F3, F4, F5, F6, F7, F8, F9.
  rewrite Hb in F1, F2, F3, F4, F5, F6, F7, F8, F9.
  cbn [size head tail last fqsz fbgn fend dw_end fque set_dw_end set_fend]
    in F1, F2, F3, F4, F5, F6, F7, F8, F9.
  rewrite Hfb in F4, F5, F6, F7. rewrite Hh, Hl in F8, F9.
  unfold ring_next in F4, F5. cbn [fqsz set_dw_end set_fend] in F4, F5.
  rewrite Hq in F4, F5.
  change (2 =? 2) with true in F4. change (2 =? u32 2) with true in F7.
  cbv iota in F4, F7.
  change (if u32 (2 + 1) =? QSZ then 0 else u32 (2 + 1)) with 3 in F4, F5.
  rewrite ring_after_upper in F8, F9
    by (unfold CMDLOG_BUFFER_SIZE; lia).
  change (32785 + 14 =? CMDLOG_BUFFER_SIZE - 1) with false in F8, F9.
  cbn [fst snd] in F8, F9.
  unfold late_state. cbv zeta.
  rewrite F1, F2, F3, F4, F5, F6, F7, F8, F9, Hsz, Hq, Ht, Hwf, Hl', Hfc, Hfn, Hcf, Hcn, Hx.
  repeat split; auto.
  intros j. unfold late_que, upd.
  rewrite Hque.
  destruct (Z.eqb_spec j 2); destruct (Z.leb_spec 2 j); destruct (Z.ltb_spec j (3 + 0));
    cbn [andb]; try reflexivity; try lia.
Qed.

(** C1: the ordering fails on a reachable state.  The run above leaves
    every request of the queue non-empty; [cmdlog_complete_dual_write(true)]
    closes the last one, which brings [fend] round to [fbgn]; a flush then
    takes the requests before the rotation for those after it, and
    [nxt_flush_lsn] = (2, 14) passes [nxt_write_lsn] = (2, 0). *)
Theorem lsn_order_broken_by_full_queue :
  exists g,
    reachable g /\
    nxt_flush_lsn g = mkLogSN 2 14 /\ nxt_write_lsn g = mkLogSN 2 0 /\
    ~ lsn_le (nxt_flush_lsn g) (nxt_write_lsn g).
Proof.
  destruct late_base as (g & Hr & HS).
  destruct HS as (_ & _ & _ & _ & _ & _ & _ & _ & HW & HF & _).
  exists g. split; [exact Hr|]. rewrite HW, HF.
  repeat split. unfold lsn_le. cbn. lia.
Qed.

(** * Further properties of the code *)

(** ** [do_log_buff_flush] on a state of the invariant *)

Lemma selected_positive flush_all b l r :
  queue_inv b l -> selected flush_all b = Some r ->
  0 < nflush r <= CMDLOG_FLUSH_AUTO_SIZE.
Proof.
  intros Q Hs. pose proof (selected_cases flush_all b l Q) as HC.
  rewrite Hs in HC. destruct HC as [(l' & El & _ & Er) | (_ & _ & Er & Hp & _)].
  - subst l. destruct (qi_closed b _ Q 0%nat r eq_refl) as (_ & H). exact H.
  - pose proof (qi_open b l Q) as Ho. subst r. lia.
Qed.

Lemma do_log_buff_flush_none flush_all g :
  selected flush_all (log_buffer g) = None ->
  exists g', do_log_buff_flush flush_all g = Ret (g', 0).
Proof.
  intros Hs. unfold do_log_buff_flush. rewrite (flush_select_none _ _ Hs).
  cbn [bind fp_nflush fp_next_fhlsn]. change (0 >? 0) with false. cbv iota.
  eexists. reflexivity.
Qed.

(** X1: from a state of the invariant with a current file,
    [do_log_buff_flush] returns (no assertion fails), with a byte count of
    at most CMDLOG_FLUSH_AUTO_SIZE; the state it leaves satisfies the
    invariant again, and there [nxt_fsync_lsn <= nxt_flush_lsn <=
    nxt_write_lsn]. *)
Theorem flush_once_keeps_invariant (flush_all : bool) (g : log_global) :
  Inv g -> fd (curr g) <> -1 ->
  exists g' n,
    do_log_buff_flush flush_all g = Ret (g', n) /\
    0 <= n <= CMDLOG_FLUSH_AUTO_SIZE /\
    Inv g' /\
    lsn_le (nxt_fsync_lsn g') (nxt_flush_lsn g') /\
    lsn_le (nxt_flush_lsn g') (nxt_write_lsn g').
Proof.
  intros HI Hc. pose proof HI as (l & d & u & Q & L & B).
  assert (Hrun : exists g' n, do_log_buff_flush flush_all g = Ret (g', n) /\
                              0 <= n <= CMDLOG_FLUSH_AUTO_SIZE).
  { destruct (selected flush_all (log_buffer g)) as [r|] eqn:Hs.
    - pose proof (selected_positive _ _ _ _ Q Hs) as Hr.
      destruct (do_log_buff_flush_ok flush_all g r Hs ltac:(lia) Hc) as (g' & Hf).
      exists g', (nflush r). split; [exact Hf | lia].
    - destruct (do_log_buff_flush_none flush_all g Hs) as (g' & Hf).
      exists g', 0. split; [exact Hf | unfold CMDLOG_FLUSH_AUTO_SIZE; lia]. }
  destruct Hrun as (g' & n & Hf & Hn).
  exists g', n. split; [exact Hf|]. split; [exact Hn|].
  pose proof (flush_preserves_Inv _ _ _ _ HI Hf) as HI'.
  split; [exact HI'|]. apply Inv_flush_le_write. exact HI'.
Qed.

Lemma flush_once_keeps_invariant_witness :
  exists g' n,
    do_log_buff_flush true three_records = Ret (g', n) /\
    0 <= n <= CMDLOG_FLUSH_AUTO_SIZE /\ Inv g'.
Proof.
  destruct (flush_once_keeps_invariant true three_records)
    as (g' & n & H1 & H2 & H3 & _).
  - exact Inv_three_records.
  - vm_compute. discriminate.
  - exists g', n. auto.
Defined.

(** The range a flush reads lies inside the pending bytes of the ring. *)
Lemma flush_range_inside flush_all b l u r :
  queue_inv b l -> buf_inv b l u -> selected flush_all b = Some r ->
  let off := head (reclaim (close_tail (close_dw b))) in
  0 <= off /\ off + nflush r <= size b /\
  (last b = -1 -> head b <= off /\ off + nflush r <= tail b).
Proof.
  intros Q B Hs. cbv zeta.
  pose proof (selected_cases flush_all b l Q) as SC. rewrite Hs in SC.
  pose proof (qi_open _ _ Q) as Hop.
  destruct (reclaim_head_last (close_tail (close_dw b))) as (R & _).
  destruct (close_tail_fields (close_dw b)) as (_ & _ & _ & B4 & B5 & _).
  destruct (close_dw_fields b) as (_ & _ & _ & _ & C5 & C6 & _).
  rewrite R, B4, B5, C5, C6. clear R B4 B5 C5 C6.
  destruct B as (Hsz & B).
  assert (Hr : 0 < nflush r) by (eapply selected_positive; eauto).
  destruct B as [(Bl & Bh & Bt & Bs) | (Bt & Bh & Bu & Bf & Bs)].
  - rewrite Bl, u32_m1.
    destruct (Z.eqb_spec (head b) (2 ^ 32 - 1)) as [E|E]; [lia|].
    assert (Hle : nflush r <= tail b - head b).
    { destruct SC as [(l' & -> & _ & _) | (-> & _ & -> & _ & _)].
      - assert (Q' : 0 <= sumf l').
        { apply sumf_nonneg. intros k r' E'.
          apply (qi_closed _ _ Q (S k) r' E'). }
        cbn [sumf] in Bs. lia.
      - cbn [sumf] in Bs. lia. }
    repeat split; lia.
  - rewrite u32_small by lia.
    destruct (Z.eqb_spec (head b) (last b)) as [E|E].
    + assert (Hle : nflush r <= tail b).
      { destruct SC as [(l' & -> & _ & _) | (-> & _ & -> & _ & _)].
        - destruct u as [|u'].
          + cbn [skipn sumf] in Bs.
            assert (Q' : 0 <= sumf l').
            { apply sumf_nonneg. intros k r' E'.
              apply (qi_closed _ _ Q (S k) r' E'). }
            lia.
          + cbn [firstn sumf] in Bf.
            assert (Q' : 0 <= sumf (firstn u' l')).
            { apply sumf_nonneg. intros k r' E'.
              apply nth_error_firstn_some in E'.
              apply (qi_closed _ _ Q (S k) r' E'). }
            lia.
        - destruct u; cbn [skipn sumf] in Bs; lia. }
      repeat split; lia.
    + assert (Hle : nflush r <= last b - head b).
      { destruct SC as [(l' & -> & _ & _) | (-> & _ & -> & _ & _)].
        - destruct u as [|u']; [cbn [firstn sumf] in Bf; lia|].
          cbn [firstn sumf] in Bf.
          assert (Q' : 0 <= sumf (firstn u' l')).
          { apply sumf_nonneg. intros k r' E'.
            apply nth_error_firstn_some in E'.
            apply (qi_closed _ _ Q (S k) r' E'). }
          lia.
        - destruct u; cbn [firstn sumf] in Bf; lia. }
      repeat split; lia.
Qed.

(** X2: from a state of the invariant, every range that
    [do_log_buff_flush] hands to [write] lies inside the buffer: it starts
    at a non-negative offset, has the length the call returns, and ends at
    or before [size]. *)
Theorem flush_reads_inside_buffer (flush_all : bool) (g g' : log_global) (n : Z) :
  Inv g -> do_log_buff_flush flush_all g = Ret (g', n) ->
  exists evs,
    io g' = io g ++ evs /\
    forall e, In e evs ->
      exists f off, e = IoWrite f off n /\
                    0 <= off /\ 0 < n /\ off + n <= size (log_buffer g).
Proof.
  intros (l & d & u & Q & L & B) H.
  apply do_log_buff_flush_inv in H.
  destruct H as (_ & _ & _ & _ & _ & _ & H).
  destruct (selected flush_all (log_buffer g)) as [r|] eqn:Hs.
  - cbv zeta in H. destruct H as (Hn & Hpos & _ & _ & Hio & _).
    destruct (flush_range_inside _ _ _ _ _ Q B Hs) as (H0 & H1 & _).
    eexists. split; [exact Hio|].
    intros e He. unfold flush_writes in He. subst n.
    destruct (negb (dw_end (log_buffer g) =? -1)).
    + destruct (dual_write r); [|contradiction].
      destruct He as [<-|[]]. eauto 8.
    + destruct He as [<-|He]; [eauto 8|].
      destruct (dual_write r && negb (fd (next g) =? -1)); [|contradiction].
      destruct He as [<-|[]]. eauto 8.
  - destruct H as (_ & _ & _ & Hio & _). exists []. split.
    + rewrite app_nil_r. exact Hio.
    + intros e [].
Qed.

Lemma flush_reads_inside_buffer_witness :
  exists g' evs,
    do_log_buff_flush true three_records = Ret (g', 80) /\
    io g' = io three_records ++ evs /\
    forall e, In e evs ->
      exists f off, e = IoWrite f off 80 /\
                    0 <= off /\ 0 < 80 /\
                    off + 80 <= size (log_buffer three_records).
Proof.
  eexists. 
  destruct (flush_reads_inside_buffer true three_records
              (fst (ret_of (three_records, 0) (do_log_buff_flush true three_records)))
              80) as (evs & H1 & H2).
  - exact Inv_three_records.
  - vm_compute. reflexivity.
  - exists evs. split; [vm_compute; reflexivity|]. split; [exact H1 | exact H2].
Defined.

(** ** Bounds kept by every operation *)

Lemma upd_bounded q i r :
  (forall j, 0 <= nflush (q j) <= CMDLOG_FLUSH_AUTO_SIZE) ->
  0 <= nflush r <= CMDLOG_FLUSH_AUTO_SIZE ->
  forall j, 0 <= nflush (upd q i r j) <= CMDLOG_FLUSH_AUTO_SIZE.
Proof. intros Hq Hr j. unfold upd. destruct (j =? i); auto. Qed.

Lemma flush_bounded flush_all g g' n :
  do_log_buff_flush flush_all g = Ret (g', n) ->
  queue_bounded (log_buffer g) -> queue_bounded (log_buffer g').
Proof.
  intros H (Hq & Hb & He & Hd & Hn).
  apply do_log_buff_flush_inv in H.
  destruct H as (_ & _ & _ & _ & _ & _ & H).
  destruct (selected flush_all (log_buffer g)).
  - cbv zeta in H. destruct H as (_ & _ & Hbuf & _).
    destruct (flush_some_fields n (log_buffer g))
      as (F1 & F2 & F3 & F4 & F5 & F6 & F7 & _).
    rewrite <- Hbuf in F1, F2, F3, F4, F5, F6, F7.
    unfold queue_bounded. rewrite F1, F4, F5, F6, F7.
    pose proof (ring_next_range _ _ Hq Hb). pose proof (ring_next_range _ _ Hq He).
    split; [exact Hq|]. split; [assumption|].
    split; [destruct (fbgn (log_buffer g) =? fend (log_buffer g)); assumption|].
    split; [destruct (fbgn (log_buffer g) =? u32 (dw_end (log_buffer g)));
            [left; reflexivity | exact Hd]|].
    apply upd_bounded; [exact Hn|]. cbn. unfold CMDLOG_FLUSH_AUTO_SIZE. lia.
  - destruct H as (_ & Hbuf & _).
    destruct (close_dw_fields (log_buffer g)) as (C1 & C2 & C3 & C4 & _).
    rewrite <- Hbuf in C1, C2, C3, C4.
    pose proof (dw_end_close_dw (log_buffer g)) as C5. rewrite <- Hbuf in C5.
    unfold queue_bounded. rewrite C1, C2, C3, C4, C5.
    repeat (split; [assumption|]).
    split; [destruct (fbgn (log_buffer g) =? u32 (dw_end (log_buffer g)));
            [left; reflexivity | exact Hd]|exact Hn].
Qed.

Lemma find_space_bounded total b ok b1 :
  find_space total b = Ret (ok, b1) -> queue_bounded b -> queue_bounded b1.
Proof.
  intros H HB. pose proof HB as (Hq & Hb & He & Hd & Hn).
  unfold find_space in H.
  destruct (head b <=? tail b).
  - destruct (last b =? -1); cbn [assert bind] in H; [|discriminate].
    destruct (total <? u32 (size b - tail b)).
    + inversion H; subst. exact HB.
    + destruct (head b >? 0).
      * unfold wrap_ring in H. cbn [fque fend set_tail set_last] in H.
        pose proof (ring_next_range (set_tail (set_last b (s32 (tail b))) 0)
                      (fend b) Hq He) as Hrn.
        cbn [fqsz set_tail set_last] in Hrn.
        destruct (nflush (fque b (fend b)) >? 0); inversion H; subst;
          unfold queue_bounded; cbn [fqsz fbgn fend dw_end fque set_fend
                                     set_tail set_last];
          repeat split; auto; try lia; apply Hn.
      * inversion H; subst. exact HB.
  - destruct (negb (last b =? -1)); cbn [assert bind] in H; [|discriminate].
    inversion H; subst. exact HB.
Qed.

Lemma acquire_bounded fuel :
  forall total g g1,
    acquire fuel total g = Ret g1 ->
    queue_bounded (log_buffer g) -> queue_bounded (log_buffer g1).
Proof.
  induction fuel as [|k IH]; intros total g g1; cbn [acquire];
    (destruct (find_space total (log_buffer g)) as [[ok b1]| |] eqn:Ef;
     cbn [bind]; try discriminate);
    (destruct ok;
     [intros H HB; inversion H; subst; cbn;
      eapply find_space_bounded; eauto|]);
    try discriminate.
  destruct (do_log_buff_flush false (set_buffer g b1)) as [[g2 n]| |] eqn:Efl;
    cbn [bind fst]; try discriminate.
  intros H HB. eapply IH; [exact H|].
  eapply flush_bounded; [exact Efl|]. cbn.
  eapply find_space_bounded; eauto.
Qed.

Lemma close_on_mismatch_bounded dual b :
  queue_bounded b -> queue_bounded (close_on_mismatch dual b).
Proof.
  intros HB. pose proof HB as (Hq & Hb & He & Hd & Hn).
  unfold close_on_mismatch. destruct (_ && _); [|exact HB].
  pose proof (ring_next_range _ _ Hq He).
  unfold queue_bounded. cbn. repeat split; auto; try lia; apply Hn.
Qed.

Lemma enqueue_bounded fuel :
  forall total dual b b',
    enqueue fuel total dual b = Ret b' ->
    queue_bounded b -> queue_bounded b'.
Proof.
  induction fuel as [|k IH]; intros total dual b b'; cbn [enqueue];
    destruct (total >? 0) eqn:Et; try discriminate;
    try (intros H HB; inversion H; subst; exact HB).
  intros H HB. eapply IH; [exact H|]. clear H IH.
  pose proof HB as (Hq & Hb & He & Hd & Hn).
  apply Z.gtb_lt in Et. pose proof (Hn (fend b)) as Hf.
  unfold CMDLOG_FLUSH_AUTO_SIZE in *.
  rewrite (u32_small (32 * 1024 - nflush (fque b (fend b)))) by lia.
  set (spare := if 32 * 1024 - nflush (fque b (fend b)) >=? total
                then total else 32 * 1024 - nflush (fque b (fend b))).
  assert (Hs : 0 <= spare <= 32 * 1024 - nflush (fque b (fend b))).
  { subst spare. rewrite Z.geb_leb.
    destruct (Z.leb_spec total (32 * 1024 - nflush (fque b (fend b)))); lia. }
  rewrite u16_small by lia.
  set (r := mkFREQ (nflush (fque b (fend b)) + spare) dual).
  assert (Hr : 0 <= nflush r <= 32 * 1024) by (subst r; cbn; lia).
  pose proof (ring_next_range (set_fque b (upd (fque b) (fend b) r))
                (fend b) Hq He) as Hrn.
  cbn [fqsz set_fque] in Hrn.
  assert (Hu : forall j, 0 <= nflush (upd (fque b) (fend b) r j) <= 32 * 1024).
  { intros j. unfold upd. destruct (j =? fend b); auto. }
  destruct (nflush r =? 32 * 1024); unfold queue_bounded;
    cbn [fqsz fbgn fend dw_end fque set_fend set_fque];
    repeat split; auto; try lia; apply Hu.
Qed.

Lemma write_bounded fuel r waiter dual g g' stamp :
  do_log_buff_write fuel r waiter dual g = Ret (g', stamp) ->
  queue_bounded (log_buffer g) -> queue_bounded (log_buffer g').
Proof.
  unfold do_log_buff_write. intros H HB.
  destruct (u32 (sizeof_LogHdr + body_length r) <? size (log_buffer g));
    cbn [assert bind] in H; [|discriminate].
  destruct (acquire fuel (u32 (sizeof_LogHdr + body_length r)) g)
    as [g1| |] eqn:Ea; cbn [bind] in H; try discriminate.
  apply acquire_bounded in Ea; [|exact HB].
  match type of H with
  | bind ?m _ = _ => destruct m as [b5| |] eqn:Ee; cbn [bind] in H;
                     try discriminate
  end.
  inversion H; subst. cbn [log_buffer set_buffer].
  eapply enqueue_bounded; [exact Ee|].
  apply close_on_mismatch_bounded.
  cbn [log_buffer set_buffer set_write_lsn emit].
  exact Ea.
Qed.

Lemma buffer_flush_bounded fuel :
  forall upto g g',
    log_buffer_flush fuel upto g = Ret g' ->
    queue_bounded (log_buffer g) -> queue_bounded (log_buffer g').
Proof.
  induction fuel as [|k IH]; intros upto g g'; cbn [log_buffer_flush];
    (destruct (LOGSN_IS_LE (nxt_flush_lsn g) upto);
     [|intros H HB; inversion H; subst; exact HB]);
    (destruct (do_log_buff_flush true g) as [[g1 n]| |] eqn:Ef;
     cbn [bind]; try discriminate);
    (destruct (n >? 0); cbn [assert bind]; try discriminate);
    (destruct (LOGSN_IS_GT (nxt_flush_lsn g1) upto);
     [intros H HB; inversion H; subst; eapply flush_bounded; eauto|]);
    try discriminate.
  intros H HB. eapply IH; [exact H|]. eapply flush_bounded; eauto.
Qed.

Lemma reset_dual_bounded fuel :
  forall index b b',
    reset_dual fuel index b = Ret b' -> queue_bounded b -> queue_bounded b'.
Proof.
  induction fuel as [|k IH]; intros index b b'; cbn [reset_dual];
    destruct (nflush (fque b index) >? 0); try discriminate;
    try (intros H HB; inversion H; subst; exact HB).
  intros H HB. eapply IH; [exact H|]. clear H IH.
  destruct (dual_write (fque b index)); [|exact HB].
  destruct HB as (Hq & Hb & He & Hd & Hn).
  unfold queue_bounded. cbn [fqsz fbgn fend dw_end fque set_fque].
  repeat (split; [assumption|]).
  apply upd_bounded; [exact Hn|]. cbn [nflush]. apply Hn.
Qed.

Lemma complete_dual_write_bounded fuel success g g' :
  cmdlog_complete_dual_write fuel success g = Ret g' ->
  queue_bounded (log_buffer g) -> queue_bounded (log_buffer g').
Proof.
  unfold cmdlog_complete_dual_write. intros H HB.
  destruct (fd (next g) =? -1); [inversion H; subst; exact HB|].
  destruct success.
  - cbv zeta in H.
    set (b := log_buffer g) in *.
    set (b1 := if nflush (fque b (fend b)) >? 0
               then set_fend b (ring_next b (fend b)) else b) in *.
    destruct (dw_end b1 =? -1); cbn [assert bind] in H; [|discriminate].
    assert (HB1 : queue_bounded b1).
    { subst b1. destruct (nflush (fque b (fend b)) >? 0); [|exact HB].
      destruct HB as (Hq & Hb & He & Hd & Hn).
      pose proof (ring_next_range _ _ Hq He).
      unfold queue_bounded. cbn [fqsz fbgn fend dw_end fque set_fend].
      repeat split; auto; try lia; apply Hn. }
    assert (HB2 : queue_bounded (set_dw_end b1 (s32 (fend b1)))).
    { destruct HB1 as (Hq & Hb & He & Hd & Hn).
      unfold queue_bounded. cbn [fqsz fbgn fend dw_end fque set_dw_end].
      rewrite s32_small by lia. repeat split; auto; try lia; apply Hn. }
    match type of H with
    | (if ?c then _ else _) = _ => destruct c
    end; inversion H; subst; exact HB2.
  - destruct (reset_dual fuel (s32 (fbgn (log_buffer g))) (log_buffer g))
      as [b1| |] eqn:Er; cbn [bind] in H; try discriminate.
    apply reset_dual_bounded in Er; [|exact HB].
    match type of H with
    | (if ?c then _ else _) = _ => destruct c
    end; inversion H; subst; exact Er.
Qed.

Lemma file_sync_buffer g g' :
  log_file_sync g = Ret g' -> log_buffer g' = log_buffer g.
Proof.
  unfold log_file_sync, log_file_sync_begin, log_file_sync_end.
  destruct (negb (fd (curr g) =? -1)); cbn [assert bind]; [|discriminate].
  intros H. inversion H; subst. clear H.
  repeat match goal with
         | |- context [if ?c then _ else _] => destruct c
         end; reflexivity.
Qed.

Lemma file_prepare_buffer newfd g :
  log_buffer (fst (cmdlog_file_prepare newfd g)) = log_buffer g.
Proof.
  unfold cmdlog_file_prepare.
  destruct (newfd <? 0); [reflexivity|].
  destruct (fd (curr g) =? -1); reflexivity.
Qed.

Lemma step_bounded g g' :
  step g g' -> queue_bounded (log_buffer g) -> queue_bounded (log_buffer g').
Proof.
  intros H HB. destruct H.
  - eapply write_bounded; eauto.
  - eapply flush_bounded; eauto.
  - eapply buffer_flush_bounded; eauto.
  - erewrite file_sync_buffer; eauto.
  - eapply complete_dual_write_bounded; eauto.
  - rewrite file_prepare_buffer. exact HB.
Qed.

Lemma reachable_bounded g : reachable g -> queue_bounded (log_buffer g).
Proof.
  induction 1 as [|g g' _ IH Hs].
  - unfold queue_bounded. cbn. repeat split; try lia; try discriminate.
  - eapply step_bounded; eauto.
Qed.

(** The dimensions of ring and queue never change. *)
Lemma flush_dims flush_all g g' n :
  do_log_buff_flush flush_all g = Ret (g', n) ->
  fqsz (log_buffer g') = fqsz (log_buffer g) /\
  size (log_buffer g') = size (log_buffer g).
Proof.
  intros H. apply do_log_buff_flush_inv in H.
  destruct H as (_ & _ & _ & _ & _ & _ & H).
  destruct (selected flush_all (log_buffer g)).
  - cbv zeta in H. destruct H as (_ & _ & Hbuf & _).
    destruct (flush_some_fields n (log_buffer g)) as (F1 & F2 & _).
    rewrite Hbuf. auto.
  - destruct H as (_ & Hbuf & _).
    destruct (close_dw_fields (log_buffer g)) as (_ & C2 & _ & _ & _ & _ & C7 & _).
    rewrite Hbuf. auto.
Qed.

Lemma acquire_dims fuel :
  forall total g g1,
    acquire fuel total g = Ret g1 ->
    fqsz (log_buffer g1) = fqsz (log_buffer g) /\
    size (log_buffer g1) = size (log_buffer g).
Proof.
  induction fuel as [|k IH]; intros total g g1; cbn [acquire];
    (destruct (find_space total (log_buffer g)) as [[ok b1]| |] eqn:Ef;
     cbn [bind]; try discriminate);
    apply find_space_ring in Ef; destruct Ef as (E1 & _ & E3 & _);
    (destruct ok; [intros H; inversion H; subst; cbn; auto|]);
    try discriminate.
  destruct (do_log_buff_flush false (set_buffer g b1)) as [[g2 n]| |] eqn:Efl;
    cbn [bind fst]; try discriminate.
  intros H. apply IH in H. apply flush_dims in Efl.
  cbn [log_buffer set_buffer] in Efl. destruct H, Efl. split; congruence.
Qed.

Lemma write_dims fuel r waiter dual g g' stamp :
  do_log_buff_write fuel r waiter dual g = Ret (g', stamp) ->
  fqsz (log_buffer g') = fqsz (log_buffer g) /\
  size (log_buffer g') = size (log_buffer g).
Proof.
  unfold do_log_buff_write. intros H.
  destruct (u32 (sizeof_LogHdr + body_length r) <? size (log_buffer g));
    cbn [assert bind] in H; [|discriminate].
  destruct (acquire fuel (u32 (sizeof_LogHdr + body_length r)) g)
    as [g1| |] eqn:Ea; cbn [bind] in H; try discriminate.
  apply acquire_dims in Ea.
  match type of H with
  | bind ?m _ = _ => destruct m as [b5| |] eqn:Ee; cbn [bind] in H;
                     try discriminate
  end.
  inversion H; subst. cbn [log_buffer set_buffer].
  apply enqueue_ring in Ee. destruct Ee as (E1 & _ & _ & _ & E5 & _).
  match type of E1 with
  | _ = size (close_on_mismatch ?d ?b) =>
      destruct (close_on_mismatch_ring d b) as (C1 & _ & _ & _ & C5 & _)
  end.
  rewrite E1, E5, C1, C5. cbn [log_buffer set_buffer set_write_lsn emit
                                fqsz size set_tail].
  exact Ea.
Qed.

Lemma buffer_flush_dims fuel :
  forall upto g g',
    log_buffer_flush fuel upto g = Ret g' ->
    fqsz (log_buffer g') = fqsz (log_buffer g) /\
    size (log_buffer g') = size (log_buffer g).
Proof.
  induction fuel as [|k IH]; intros upto g g'; cbn [log_buffer_flush];
    (destruct (LOGSN_IS_LE (nxt_flush_lsn g) upto);
     [|intros H; inversion H; subst; auto]);
    (destruct (do_log_buff_flush true g) as [[g1 n]| |] eqn:Ef;
     cbn [bind]; try discriminate);
    apply flush_dims in Ef;
    (destruct (n >? 0); cbn [assert bind]; try discriminate);
    (destruct (LOGSN_IS_GT (nxt_flush_lsn g1) upto);
     [intros H; inversion H; subst; exact Ef|]);
    try discriminate.
  intros H. apply IH in H. destruct H, Ef. split; congruence.
Qed.

Lemma reset_dual_dims fuel :
  forall index b b',
    reset_dual fuel index b = Ret b' -> fqsz b' = fqsz b /\ size b' = size b.
Proof.
  induction fuel as [|k IH]; intros index b b'; cbn [reset_dual];
    destruct (nflush (fque b index) >? 0); try discriminate;
    try solve [intros H; inversion H; subst; auto].
  intros H. apply IH in H.
  destruct (dual_write (fque b index)); exact H.
Qed.

Lemma complete_dual_write_dims fuel success g g' :
  cmdlog_complete_dual_write fuel success g = Ret g' ->
  fqsz (log_buffer g') = fqsz (log_buffer g) /\
  size (log_buffer g') = size (log_buffer g).
Proof.
  unfold cmdlog_complete_dual_write. intros H.
  destruct (fd (next g) =? -1); [inversion H; subst; auto|].
  destruct success.
  - cbv zeta in H.
    match type of H with
    | bind (bind (assert ?c) _) _ = _ =>
        destruct c; cbn [assert bind] in H; [|discriminate]
    end.
    match type of H with
    | (if ?c then _ else _) = _ => destruct c
    end; inversion H; subst; cbn;
      destruct (nflush _ >? 0); cbn; auto.
  - destruct (reset_dual fuel (s32 (fbgn (log_buffer g))) (log_buffer g))
      as [b1| |] eqn:Er; cbn [bind] in H; try discriminate.
    apply reset_dual_dims in Er.
    match type of H with
    | (if ?c then _ else _) = _ => destruct c
    end; inversion H; subst; exact Er.
Qed.

Lemma reachable_dims g :
  reachable g ->
  fqsz (log_buffer g) = CMDLOG_BUFFER_SIZE / CMDLOG_RECORD_MIN_SIZE /\
  size (log_buffer g) = CMDLOG_BUFFER_SIZE.
Proof.
  induction 1 as [|g g' _ IH Hs]; [split; reflexivity|].
  assert (E : fqsz (log_buffer g') = fqsz (log_buffer g) /\
              size (log_buffer g') = size (log_buffer g)).
  { destruct Hs.
    - eapply write_dims; eauto.
    - eapply flush_dims; eauto.
    - eapply buffer_flush_dims; eauto.
    - erewrite file_sync_buffer; eauto.
    - eapply complete_dual_write_dims; eauto.
    - rewrite file_prepare_buffer. auto. }
  destruct E, IH. split; congruence.
Qed.

(** X3: in every state reachable from [cmdlog_buf_init] the queue keeps
    the [size / CMDLOG_RECORD_MIN_SIZE] places it was allocated with, and
    [fbgn], [fend] and (when set) [dw_end] are indices into it: no
    operation reads or writes [fque] out of bounds. *)
Theorem queue_indices_in_bounds (g : log_global) :
  reachable g ->
  let b := log_buffer g in
  size b = CMDLOG_BUFFER_SIZE /\
  fqsz b = CMDLOG_BUFFER_SIZE / CMDLOG_RECORD_MIN_SIZE /\
  0 <= fbgn b < fqsz b /\ 0 <= fend b < fqsz b /\
  (dw_end b = -1 \/ 0 <= dw_end b < fqsz b).
Proof.
  intros Hr. cbv zeta.
  destruct (reachable_dims g Hr) as (Hq & Hs).
  destruct (reachable_bounded g Hr) as (_ & Hb & He & Hd & _).
  auto.
Qed.

Lemma queue_indices_in_bounds_witness :
  0 <= fbgn (log_buffer run_base) < fqsz (log_buffer run_base) /\
  0 <= fend (log_buffer run_base) < fqsz (log_buffer run_base).
Proof.
  destruct (queue_indices_in_bounds run_base reachable_run_base)
    as (_ & _ & Hb & He & _).
  split; [exact Hb | exact He].
Defined.

(** X4: in every reachable state every request of the queue counts
    between 0 and CMDLOG_FLUSH_AUTO_SIZE bytes, so the [uint16_t] counter
    [nflush] never wraps. *)
Theorem nflush_never_wraps (g : log_global) (j : Z) :
  reachable g ->
  0 <= nflush (fque (log_buffer g) j) <= CMDLOG_FLUSH_AUTO_SIZE /\
  u16 (nflush (fque (log_buffer g) j)) = nflush (fque (log_buffer g) j).
Proof.
  intros Hr. destruct (reachable_bounded g Hr) as (_ & _ & _ & _ & Hn).
  pose proof (Hn j) as H. split; [exact H|].
  apply u16_small. unfold CMDLOG_FLUSH_AUTO_SIZE in H. lia.
Qed.

Lemma nflush_never_wraps_witness :
  0 <= nflush (fque (log_buffer run_base) 2) <= CMDLOG_FLUSH_AUTO_SIZE.
Proof.
  destruct (nflush_never_wraps run_base 2 reachable_run_base) as (H & _).
  exact H.
Defined.

(** ** [log_file_sync] *)

(** X5: [log_file_sync] needs a current file (its assertion fails
    otherwise).  With one, it calls fsync on [curr.fd], then on [next.fd] if
    there is a next file, closes nothing, sets [nxt_fsync_lsn] to the
    [nxt_flush_lsn] found at entry, leaves buffer, files and the other two
    sequence numbers alone, and ends with [fsync_ongoing] cleared. *)
Theorem file_sync_effect (g : log_global) :
  (fd (curr g) = -1 -> log_file_sync g = AssertFail) /\
  (fd (curr g) <> -1 ->
   exists g',
     log_file_sync g = Ret g' /\
     nxt_fsync_lsn g' = nxt_flush_lsn g /\
     nxt_flush_lsn g' = nxt_flush_lsn g /\
     nxt_write_lsn g' = nxt_write_lsn g /\
     log_buffer g' = log_buffer g /\
     fd (curr g') = fd (curr g) /\ fd (next g') = fd (next g) /\
     fsize (curr g') = fsize (curr g) /\ fsize (next g') = fsize (next g) /\
     fsync_ongoing (curr g') = false /\
     (fd (next g) <> -1 -> fd (next g) <> fd (curr g) ->
      fsync_ongoing (next g') = false) /\
     io g' = io g ++ IoFsync (fd (curr g)) ::
             (if fd (next g) =? -1 then [] else [IoFsync (fd (next g))])).
Proof.
  split.
  - intros E. unfold log_file_sync, log_file_sync_begin, log_file_sync_end.
    rewrite E. reflexivity.
  - intros Hc. unfold log_file_sync, log_file_sync_begin, log_file_sync_end.
    apply Z.eqb_neq in Hc. rewrite Hc. cbn [negb assert bind].
    destruct (fd (next g) =? -1) eqn:En; cbn [negb].
    + unfold do_log_file_sync.
      cbn [fd curr set_curr set_ongoing set_fsync_lsn emit].
      rewrite Z.eqb_refl. eexists. split; [reflexivity|].
      cbn. repeat split; auto.
      intros Hn. apply Z.eqb_eq in En. contradiction.
    + unfold do_log_file_sync.
      cbn [fd curr next set_curr set_next set_ongoing set_fsync_lsn emit].
      rewrite Z.eqb_refl.
      cbn [fd curr next set_curr set_next set_ongoing set_fsync_lsn emit].
      destruct (fd (next g) =? fd (curr g)) eqn:Ecn.
      * eexists. split; [reflexivity|]. cbn. repeat split; auto.
        -- intros _ Hne. apply Z.eqb_eq in Ecn. contradiction.
        -- rewrite <- app_assoc. reflexivity.
      * rewrite Z.eqb_refl. eexists. split; [reflexivity|].
        cbn. repeat split; auto. rewrite <- app_assoc. reflexivity.
Qed.

Lemma file_sync_effect_witness :
  exists g',
    log_file_sync three_records = Ret g' /\
    nxt_fsync_lsn g' = nxt_flush_lsn three_records.
Proof.
  destruct (file_sync_effect three_records) as (_ & H).
  destruct H as (g' & H1 & H2 & _).
  - vm_compute. discriminate.
  - exists g'. split; [exact H1 | exact H2].
Defined.

(** ** [cmdlog_complete_dual_write(false)] *)

Lemma set_fque_same b : set_fque b (fque b) = b.
Proof. destruct b. reflexivity. Qed.

(** The reset loop over a run of [n] non-empty requests from [i] on. *)
Lemma reset_dual_run (n : nat) :
  forall i b,
    0 < fqsz b < 2 ^ 31 -> 0 <= i < fqsz b ->
    (forall k, 0 <= k < Z.of_nat n ->
               0 < nflush (fque b ((i + k) mod fqsz b))) ->
    nflush (fque b ((i + Z.of_nat n) mod fqsz b)) = 0 ->
    forall fuel, (n <= fuel)%nat ->
    exists b',
      reset_dual fuel i b = Ret b' /\
      b' = set_fque b (fque b') /\
      (forall j, nflush (fque b' j) = nflush (fque b j)) /\
      (forall j, dual_write (fque b' j) = true -> dual_write (fque b j) = true) /\
      (forall k, 0 <= k < Z.of_nat n ->
                 dual_write (fque b' ((i + k) mod fqsz b)) = false).
Proof.
  induction n as [|m IH]; intros i b Hq Hi Hrun Hend fuel Hf.
  - cbn [Z.of_nat] in Hend. rewrite Z.add_0_r, Z.mod_small in Hend by lia.
    exists b. split.
    + destruct fuel; cbn [reset_dual]; rewrite Hend; reflexivity.
    + split; [symmetry; apply set_fque_same|]. repeat split; auto. lia.
  - destruct fuel as [|f]; [lia|]. cbn [reset_dual].
    assert (H0 : 0 < nflush (fque b i)).
    { specialize (Hrun 0 ltac:(lia)).
      rewrite Z.add_0_r, Z.mod_small in Hrun by lia. exact Hrun. }
    assert (E0 : (nflush (fque b i) >? 0) = true) by (apply Z.gtb_lt; lia).
    rewrite E0.
    set (b1 := if dual_write (fque b i)
               then set_fque b (upd (fque b) i (mkFREQ (nflush (fque b i)) false))
               else b).
    assert (Hq1 : fqsz b1 = fqsz b) by (subst b1; destruct (dual_write _); reflexivity).
    assert (Hn1 : forall j, nflush (fque b1 j) = nflush (fque b j)).
    { intros j. subst b1. destruct (dual_write (fque b i)); [|reflexivity].
      cbn [fque set_fque]. unfold upd.
      destruct (Z.eqb_spec j i); [subst; reflexivity | reflexivity]. }
    assert (Hd1 : forall j, dual_write (fque b1 j) = true ->
                            dual_write (fque b j) = true).
    { intros j. subst b1. destruct (dual_write (fque b i)) eqn:Ed; [|auto].
      cbn [fque set_fque]. unfold upd.
      destruct (Z.eqb_spec j i); [cbn; discriminate | auto]. }
    assert (Hi1 : dual_write (fque b1 i) = false).
    { subst b1. destruct (dual_write (fque b i)) eqn:Ed; [|exact Ed].
      cbn [fque set_fque]. unfold upd. rewrite Z.eqb_refl. reflexivity. }
    assert (Hs1 : set_fque b1 = set_fque b).
    { subst b1. destruct (dual_write (fque b i)); reflexivity. }
    assert (Hrn : ring_next b1 i = (i + 1) mod fqsz b).
    { rewrite ring_next_eq by (rewrite ?Hq1; lia). rewrite Hq1. reflexivity. }
    rewrite Hrn.
    assert (Hsh : forall k, ((i + 1) mod fqsz b + k) mod fqsz b =
                            (i + (k + 1)) mod fqsz b).
    { intros k. rewrite Z.add_mod_idemp_l by lia. f_equal. lia. }
    destruct (IH ((i + 1) mod fqsz b) b1) with (fuel := f)
      as (b' & Hr & Hb' & Hn' & Hd' & Hk').
    + rewrite Hq1. exact Hq.
    + rewrite Hq1. apply Z.mod_pos_bound. lia.
    + intros k Hk. rewrite Hq1, Hsh, Hn1. apply Hrun. lia.
    + rewrite Hq1, Hsh, Hn1.
      replace (i + (Z.of_nat m + 1)) with (i + Z.of_nat (S m)) by lia.
      exact Hend.
    + lia.
    + exists b'. split; [exact Hr|].
      split; [rewrite <- Hs1; exact Hb'|].
      split; [intros j; rewrite Hn'; apply Hn1|].
      split; [intros j Hj; apply Hd1, Hd'; exact Hj|].
      intros k Hk. destruct (Z.eq_dec k 0) as [->|Hk0].
      * rewrite Z.add_0_r, Z.mod_small by lia.
        destruct (dual_write (fque b' i)) eqn:E; [|reflexivity].
        apply Hd' in E. congruence.
      * specialize (Hk' (k - 1) ltac:(lia)).
        rewrite Hq1, Hsh in Hk'.
        replace (k - 1 + 1) with k in Hk' by lia. exact Hk'.
Qed.

Lemma queue_inv_run b l :
  queue_inv b l ->
  Z.of_nat (length l) + 1 < fqsz b \/ nflush (fque b (fend b)) = 0 ->
  exists n : nat,
    (length l <= n <= S (length l))%nat /\
    (forall k, 0 <= k < Z.of_nat n ->
               0 < nflush (fque b ((fbgn b + k) mod fqsz b))) /\
    nflush (fque b ((fbgn b + Z.of_nat n) mod fqsz b)) = 0 /\
    (forall j, 0 <= j < fqsz b -> 0 < nflush (fque b j) ->
               exists k, 0 <= k < Z.of_nat n /\ j = (fbgn b + k) mod fqsz b).
Proof.
  intros Q Hroom.
  pose proof (qi_size _ _ Q) as Hq. pose proof (qi_fbgn _ _ Q) as Hb.
  pose proof (qi_len _ _ Q) as Hl. pose proof (qi_fend _ _ Q) as He.
  pose proof (qi_open _ _ Q) as Ho.
  assert (Hclosed : forall k, 0 <= k < Z.of_nat (length l) ->
                      0 < nflush (fque b ((fbgn b + k) mod fqsz b))).
  { intros k Hk.
    destruct (nth_error l (Z.to_nat k)) as [r|] eqn:E.
    - destruct (qi_closed _ _ Q _ _ E) as (Hs & Hr).
      unfold slot in Hs. rewrite Z2Nat.id in Hs by lia. rewrite Hs. lia.
    - apply nth_error_None in E. lia. }
  assert (Hback : forall j, 0 <= j < fqsz b ->
                    j = (fbgn b + (j - fbgn b) mod fqsz b) mod fqsz b).
  { intros j Hj. rewrite Z.add_mod_idemp_r by lia.
    replace (fbgn b + (j - fbgn b)) with j by lia.
    rewrite Z.mod_small by lia. reflexivity. }
  assert (Hfree : forall j, 0 <= j < fqsz b -> 0 < nflush (fque b j) ->
                    (j - fbgn b) mod fqsz b <= Z.of_nat (length l)).
  { intros j Hj Hp.
    pose proof (Z.mod_pos_bound (j - fbgn b) (fqsz b) ltac:(lia)) as Hm.
    destruct (Z_le_gt_dec ((j - fbgn b) mod fqsz b) (Z.of_nat (length l)))
      as [Hle|Hgt]; [exact Hle|].
    pose proof (qi_free _ _ Q ((j - fbgn b) mod fqsz b) ltac:(lia)) as Hz.
    unfold slot in Hz. rewrite <- Hback in Hz by exact Hj. lia. }
  destruct (Z.eq_dec (nflush (fque b (fend b))) 0) as [Hz|Hnz].
  - exists (length l). split; [lia|]. split; [exact Hclosed|].
    split; [rewrite <- He; exact Hz|].
    intros j Hj Hp. exists ((j - fbgn b) mod fqsz b).
    pose proof (Z.mod_pos_bound (j - fbgn b) (fqsz b) ltac:(lia)) as Hm.
    pose proof (Hfree j Hj Hp) as Hle.
    split; [|apply Hback; exact Hj].
    destruct (Z.eq_dec ((j - fbgn b) mod fqsz b) (Z.of_nat (length l))) as [E|E];
      [|lia].
    exfalso. rewrite (Hback j Hj), E, <- He in Hp. lia.
  - destruct Hroom as [Hroom|Hroom]; [|contradiction].
    exists (S (length l)). split; [lia|]. split; [|split].
    + intros k Hk.
      destruct (Z.eq_dec k (Z.of_nat (length l))) as [->|Hne].
      * rewrite <- He. lia.
      * apply Hclosed. lia.
    + pose proof (qi_free _ _ Q (Z.of_nat (S (length l))) ltac:(lia)) as Hz.
      exact Hz.
    + intros j Hj Hp. exists ((j - fbgn b) mod fqsz b).
      pose proof (Z.mod_pos_bound (j - fbgn b) (fqsz b) ltac:(lia)) as Hm.
      pose proof (Hfree j Hj Hp) as Hle.
      split; [lia | apply Hback; exact Hj].
Qed.

(** X6: [cmdlog_complete_dual_write(false)] with a next file, on a queue
    that is well formed and has a free place: the call returns; every
    non-empty request is left with [dual_write] cleared and its byte count
    as before; ring, indices, sequence numbers and the current file are
    untouched; [next] is cleared, and its descriptor closed at once unless
    an fsync of it is under way. *)
Theorem complete_dual_write_failure (g : log_global) (l : list log_FREQ) :
  let b := log_buffer g in
  queue_inv b l ->
  Z.of_nat (length l) + 1 < fqsz b \/ nflush (fque b (fend b)) = 0 ->
  fd (next g) <> -1 ->
  exists g',
    cmdlog_complete_dual_write (S (length l)) false g = Ret g' /\
    log_buffer g' = set_fque b (fque (log_buffer g')) /\
    (forall j, nflush (fque (log_buffer g') j) = nflush (fque b j)) /\
    (forall j, 0 <= j < fqsz b -> 0 < nflush (fque (log_buffer g') j) ->
               dual_write (fque (log_buffer g') j) = false) /\
    next g' = no_file /\ curr g' = curr g /\
    nxt_write_lsn g' = nxt_write_lsn g /\
    nxt_flush_lsn g' = nxt_flush_lsn g /\
    nxt_fsync_lsn g' = nxt_fsync_lsn g /\
    io g' = io g ++ (if fsync_ongoing (next g) then []
                     else [IoClose (fd (next g))]).
Proof.
  cbv zeta. intros Q Hroom Hn.
  pose proof (qi_size _ _ Q) as Hq. pose proof (qi_fbgn _ _ Q) as Hb.
  destruct (queue_inv_run _ _ Q Hroom) as (n & Hle & Hrun & Hend & Hall).
  destruct (reset_dual_run n (fbgn (log_buffer g)) (log_buffer g)
              ltac:(lia) Hb Hrun Hend (S (length l)) (proj2 Hle))
    as (b' & Hr & Hb' & Hn' & _ & Hk').
  unfold cmdlog_complete_dual_write.
  apply Z.eqb_neq in Hn. rewrite Hn.
  rewrite s32_small by lia. rewrite Hr. cbn [bind].
  cbn [fd next set_buffer fsync_ongoing]. rewrite Hn. cbn [negb andb].
  assert (Hclr : forall j, 0 <= j < fqsz (log_buffer g) ->
                   0 < nflush (fque b' j) -> dual_write (fque b' j) = false).
  { intros j Hj Hp. rewrite Hn' in Hp.
    destruct (Hall j Hj Hp) as (k & Hk & ->). apply Hk'. exact Hk. }
  destruct (fsync_ongoing (next g)); cbn [negb]; eexists;
    (split; [reflexivity|]); cbn; repeat split; auto.
  rewrite app_nil_r. reflexivity.
Qed.

Lemma queue_inv_open_only b :
  2 <= fqsz b < 2 ^ 31 -> fbgn b = fend b -> 0 <= fbgn b < fqsz b ->
  0 <= nflush (fque b (fend b)) < CMDLOG_FLUSH_AUTO_SIZE ->
  (forall j, j <> fend b -> nflush (fque b j) = 0) ->
  queue_inv b [].
Proof.
  intros Hq Hbe Hb Ho Hz. constructor; cbn [length].
  - exact Hq.
  - exact Hb.
  - cbn. lia.
  - cbn. rewrite Z.add_0_r, Z.mod_small by lia. auto.
  - intros [|k] r E; discriminate.
  - exact Ho.
  - intros k Hk. cbn in Hk. unfold slot. apply Hz. rewrite <- Hbe. intros E.
    apply mod_add_self in E; lia.
Qed.

Lemma queue_inv_dual_pending : queue_inv (log_buffer dual_pending) [].
Proof.
  apply queue_inv_open_only; try (vm_compute; intuition congruence).
  intros j Hj. vm_compute in Hj. vm_compute.
  destruct j; try reflexivity. contradiction.
Qed.

Lemma complete_dual_write_failure_witness :
  exists g',
    cmdlog_complete_dual_write 1 false dual_pending = Ret g' /\
    nflush (fque (log_buffer g') 0) = 24 /\
    dual_write (fque (log_buffer g') 0) = false /\
    io g' = io dual_pending ++ [IoClose 4].
Proof.
  destruct (complete_dual_write_failure dual_pending [])
    as (g' & H1 & _ & H3 & H4 & _ & _ & _ & _ & _ & H10).
  - exact queue_inv_dual_pending.
  - left. vm_compute. reflexivity.
  - vm_compute. discriminate.
  - exists g'. split; [exact H1|]. split; [rewrite H3; reflexivity|].
    split; [|exact H10].
    apply H4; [vm_compute; split; [discriminate | reflexivity]|].
    rewrite H3. vm_compute. reflexivity.
Defined.

Lemma reset_dual_full fuel :
  forall i b,
    0 < fqsz b < 2 ^ 31 -> 0 <= i < fqsz b ->
    (forall j, 0 <= j < fqsz b -> 0 < nflush (fque b j)) ->
    reset_dual fuel i b = OutOfFuel.
Proof.
  induction fuel as [|k IH]; intros i b Hq Hi Hall; cbn [reset_dual];
    (assert (E0 : (nflush (fque b i) >? 0) = true)
       by (apply Z.gtb_lt, Hall; exact Hi));
    rewrite E0; [reflexivity|].
  set (b1 := if dual_write (fque b i)
             then set_fque b (upd (fque b) i (mkFREQ (nflush (fque b i)) false))
             else b).
  assert (Hq1 : fqsz b1 = fqsz b) by (subst b1; destruct (dual_write _); reflexivity).
  apply IH.
  - rewrite Hq1. exact Hq.
  - pose proof (ring_next_range b1 i) as Hrn. rewrite Hq1 in Hrn.
    rewrite Hq1. apply Hrn; assumption.
  - intros j Hj. rewrite Hq1 in Hj. subst b1.
    destruct (dual_write (fque b i)); [|apply Hall; exact Hj].
    cbn [fque set_fque]. unfold upd.
    destruct (Z.eqb_spec j i); [subst; cbn; apply Hall; exact Hi|].
    apply Hall. exact Hj.
Qed.

Lemma alt_que_all_nonempty j :
  0 <= j < QSZ -> 0 < nflush (alt_que all_count j).
Proof.
  intros Hj. unfold alt_que, alt_filled, all_count, QSZ in *.
  destruct (Z.eqb_spec j 2); [cbn; lia|].
  destruct (Z.leb_spec 3 j); destruct (Z.ltb_spec j (3 + 6553599));
    destruct (Z.ltb_spec j 6553600); destruct (Z.leb_spec 0 j);
    destruct (Z.ltb_spec j (3 + 6553599 - 6553600));
    cbn [andb orb nflush]; lia.
Qed.

(** X7: when every request of the queue is non-empty, the reset loop of
    [cmdlog_complete_dual_write(false)] finds no empty request to stop at:
    with a next file present the call never returns, whatever the bound on
    its passes.  Such a state is reachable from [cmdlog_buf_init]. *)
Theorem complete_dual_write_failure_never_returns :
  (forall g,
     0 < fqsz (log_buffer g) < 2 ^ 31 ->
     0 <= fbgn (log_buffer g) < fqsz (log_buffer g) ->
     (forall j, 0 <= j < fqsz (log_buffer g) ->
                0 < nflush (fque (log_buffer g) j)) ->
     fd (next g) <> -1 ->
     forall fuel, cmdlog_complete_dual_write fuel false g = OutOfFuel) /\
  (exists g,
     reachable g /\
     0 < fqsz (log_buffer g) < 2 ^ 31 /\
     0 <= fbgn (log_buffer g) < fqsz (log_buffer g) /\
     (forall j, 0 <= j < fqsz (log_buffer g) ->
                0 < nflush (fque (log_buffer g) j)) /\
     fd (next g) <> -1).
Proof.
  split.
  - intros g Hq Hb Hall Hn fuel. unfold cmdlog_complete_dual_write.
    apply Z.eqb_neq in Hn. rewrite Hn.
    rewrite s32_small by lia.
    rewrite (reset_dual_full fuel _ _ Hq Hb Hall). reflexivity.
  - destruct (alt_reach all_count) as (g & Hr & HS);
      [unfold all_count; lia | lia |].
    destruct HS as (_ & Hq & _ & _ & _ & Hfb & _ & _ & _ & _ & _ & Hx & Hque).
    cbv zeta in *. exists g. split; [exact Hr|].
    rewrite Hq, Hfb, Hx. unfold QSZ.
    split; [lia|]. split; [lia|]. split; [|discriminate].
    intros j Hj. rewrite Hque. apply alt_que_all_nonempty. exact Hj.
Qed.

Lemma complete_dual_write_failure_never_returns_witness :
  cmdlog_complete_dual_write 1000 false both_in_use = OutOfFuel.
Proof.
  destruct complete_dual_write_failure_never_returns as (H & _).
  apply H.
  - vm_compute. split; reflexivity.
  - vm_compute. split; [discriminate | reflexivity].
  - intros j _. cbn. lia.
  - vm_compute. discriminate.
Defined.

(** ** A rotation completing while [log_file_sync] is under way *)

(** X8: when [cmdlog_complete_dual_write(true)] runs between the two
    critical sections of [log_file_sync], it does not close the retired
    descriptor (its fsync is under way); [log_file_sync] fsyncs both files
    and then closes the retired one itself, once, and the new current file
    is left with [fsync_ongoing] cleared.  Called on its own, the rotation
    closes the retired descriptor at once. *)
Theorem rotation_during_fsync (fuel : nat) (g : log_global) :
  queue_wf (log_buffer g) -> dw_end (log_buffer g) = -1 ->
  fd (curr g) <> -1 -> fd (next g) <> -1 -> fd (next g) <> fd (curr g) ->
  fsync_ongoing (curr g) = false ->
  (exists g',
     sync_around (cmdlog_complete_dual_write fuel true) g = Ret g' /\
     io g' = io g ++ [IoFsync (fd (curr g)); IoFsync (fd (next g));
                      IoClose (fd (curr g))] /\
     fd (curr g') = fd (next g) /\ fd (next g') = -1 /\
     fsync_ongoing (curr g') = false /\
     nxt_fsync_lsn g' = nxt_flush_lsn g) /\
  (exists g',
     cmdlog_complete_dual_write fuel true g = Ret g' /\
     io g' = io g ++ [IoClose (fd (curr g))]).
Proof.
  intros (Hq & Hb & He) Hd Hc Hn Hne Hoff.
  set (b := log_buffer g).
  set (b1 := if nflush (fque b (fend b)) >? 0
             then set_fend b (ring_next b (fend b)) else b).
  assert (Hd1 : dw_end b1 = -1).
  { subst b1. destruct (nflush (fque b (fend b)) >? 0); exact Hd. }
  apply Z.eqb_neq in Hc, Hn, Hne.
  assert (Hne' : (fd (curr g) =? fd (next g)) = false).
  { rewrite Z.eqb_sym. exact Hne. }
  split.
  - unfold sync_around, log_file_sync_begin. rewrite Hn. cbn [negb].
    unfold cmdlog_complete_dual_write.
    cbn [fd next curr set_next set_curr set_ongoing log_buffer nxt_write_lsn
         fsync_ongoing].
    rewrite Hn. fold b. fold b1. rewrite Hd1.
    cbn [Z.eqb Pos.eqb assert bind negb andb].
    rewrite andb_false_r. cbn [bind].
    unfold log_file_sync_end. rewrite Hc, Hn. cbn [negb assert bind].
    unfold do_log_file_sync.
    cbn [fd curr next set_curr set_next set_ongoing set_fsync_lsn emit
         set_write_lsn set_buffer no_file].
    rewrite Hne'. cbn [fd curr next set_curr set_next set_ongoing emit].
    rewrite Z.eqb_refl.
    eexists. split; [reflexivity|]. cbn. repeat split.
    rewrite <- !app_assoc. reflexivity.
  - unfold cmdlog_complete_dual_write. rewrite Hn. fold b. fold b1.
    rewrite Hd1. cbn [Z.eqb Pos.eqb assert bind].
    cbn [fd curr fsync_ongoing set_write_lsn set_buffer].
    rewrite Hc, Hoff. cbn [negb andb].
    eexists. split; reflexivity.
Qed.

Lemma rotation_during_fsync_witness :
  exists g',
    sync_around (cmdlog_complete_dual_write 0 true) dual_pending = Ret g' /\
    io g' = io dual_pending ++ [IoFsync 3; IoFsync 4; IoClose 3].
Proof.
  destruct (rotation_during_fsync 0 dual_pending) as ((g' & H1 & H2 & _) & _).
  - vm_compute. intuition congruence.
  - reflexivity.
  - vm_compute. discriminate.
  - vm_compute. discriminate.
  - vm_compute. discriminate.
  - reflexivity.
  - exists g'. split; [exact H1 | exact H2].
Defined.

(** ** The disk helpers *)

Lemma s64_small x : 0 <= x < 2 ^ 63 -> s64 x = x.
Proof.
  intros H. unfold s64. rewrite u64_small by lia.
  destruct (Z.ltb_spec x (2 ^ 63)); [reflexivity | lia].
Qed.

Lemma accepted_app l1 l2 : accepted (l1 ++ l2) = accepted l1 + accepted l2.
Proof. induction l1 as [|c l1 IH]; cbn; [reflexivity | rewrite IH; lia]. Qed.

Lemma resumed_app count l1 :
  forall acc l2,
    resumed count acc l1 -> resumed count (acc + accepted l1) l2 ->
    resumed count acc (l1 ++ l2).
Proof.
  induction l1 as [|c l1 IH]; intros acc l2 H1 H2; cbn in *.
  - rewrite Z.add_0_r in H2. exact H2.
  - destruct H1 as (Ho & Hl & H1). split; [exact Ho|]. split; [exact Hl|].
    apply IH; [exact H1|].
    destruct (0 <? wc_ret c); [|exact H2].
    replace (acc + wc_ret c + accepted l1)
      with (acc + (wc_ret c + accepted l1)) by lia.
    exact H2.
Qed.

Lemma byte_write_loop_spec answers :
  forall count nleft ptr calls r calls',
    0 <= count < 2 ^ 63 -> 0 <= nleft <= count -> ptr = count - nleft ->
    write_contract answers nleft ->
    accepted calls = count - nleft -> resumed count 0 calls ->
    byte_write_loop answers count nleft ptr calls = Ret (r, calls') ->
    resumed count 0 calls' /\ accepted calls' <= count /\
    (r = -1 \/ r = accepted calls') /\
    ((forall a, In a answers -> interrupted a = true \/ 0 < fst a) ->
     r = count).
Proof.
  induction answers as [|[nwrite errno] rest IH];
    intros count nleft ptr calls r calls' Hc Hn Hp Hk Ha Hr H;
    cbn [byte_write_loop] in H.
  - destruct (Z.gtb_spec nleft 0); [discriminate|].
    inversion H; subst. rewrite u64_small, s64_small by lia.
    repeat split; auto; try lia.
  - destruct (Z.gtb_spec nleft 0) as [Hpos|Hz].
    2:{ inversion H; subst. rewrite u64_small, s64_small by lia.
        repeat split; auto; try lia. }
    cbn [write_contract] in Hk. destruct Hk as (Hw & Hk).
    assert (Hr1 : resumed count 0 (calls ++ [mkCall ptr nleft nwrite])).
    { apply resumed_app; [exact Hr|]. cbn. repeat split; lia. }
    destruct (Z.eqb_spec nwrite 0) as [E0|E0].
    + inversion H; subst. rewrite u64_small, s64_small by lia.
      rewrite accepted_app. cbn. split; [exact Hr1|].
      split; [lia|]. split; [right; lia|].
      intros Hall. destruct (Hall (0, errno) (or_introl eq_refl)) as [Hi|Hi];
        cbn in Hi; [discriminate | lia].
    + destruct (Z.ltb_spec nwrite 0) as [Hneg|Hge].
      * assert (nwrite = -1) by lia. subst nwrite. cbn [Z.ltb Z.compare] in Hk.
        destruct (Z.eqb_spec errno EINTR) as [Ee|Ee].
        -- apply IH in H; auto.
           ++ destruct H as (A & B & C & D). repeat split; auto.
              intros Hall. apply D. intros a Ha'. apply Hall. right. exact Ha'.
           ++ rewrite accepted_app. cbn. lia.
        -- inversion H; subst. rewrite accepted_app. cbn.
           split; [exact Hr1|]. split; [lia|]. split; [left; reflexivity|].
           intros Hall.
           destruct (Hall (-1, errno) (or_introl eq_refl)) as [Hi|Hi];
             cbn in Hi; [|lia].
           apply Z.eqb_eq in Hi. contradiction.
      * assert (Hlt : (0 <? nwrite) = true) by (apply Z.ltb_lt; lia).
        rewrite Hlt in Hk.
        apply IH in H; auto; try lia.
        -- destruct H as (A & B & C & D). repeat split; auto.
           intros Hall. apply D. intros a Ha'. apply Hall. right. exact Ha'.
        -- rewrite accepted_app. cbn. rewrite Hlt. lia.
Qed.

(** X9: [disk_byte_write], the kernel keeping its promise on [write].
    Every call of [write] starts where the bytes written so far end and
    asks for all that is left; the bytes written never exceed [count]; and
    the value returned is either -1 or the number of bytes written. *)
Theorem disk_byte_write_accounts (answers : list sys_answer) (count r : Z)
        (calls : list write_call) :
  0 <= count < 2 ^ 63 -> write_contract answers count ->
  disk_byte_write answers count = Ret (r, calls) ->
  resumed count 0 calls /\ accepted calls <= count /\
  (r = -1 \/ r = accepted calls).
Proof.
  intros Hc Hk H. unfold disk_byte_write in H. rewrite s64_small in H by exact Hc.
  destruct (byte_write_loop_spec answers count count 0 [] r calls)
    as (A & B & C & _); auto; try lia.
  - cbn. lia.
  - exact I.
Qed.

(** X10: [disk_byte_write] under short writes and interrupts.  When every
    answer of [write] is either an interruption (EINTR) or a positive count,
    a call that returns returns [count]: all the bytes were written, however
    many calls it took. *)
Theorem disk_byte_write_completes (answers : list sys_answer) (count r : Z)
        (calls : list write_call) :
  0 <= count < 2 ^ 63 -> write_contract answers count ->
  (forall a, In a answers -> interrupted a = true \/ 0 < fst a) ->
  disk_byte_write answers count = Ret (r, calls) ->
  r = count /\ accepted calls = count.
Proof.
  intros Hc Hk Hall H. unfold disk_byte_write in H.
  rewrite s64_small in H by exact Hc.
  destruct (byte_write_loop_spec answers count count 0 [] r calls)
    as (_ & _ & C & D); auto; try lia.
  - cbn. lia.
  - exact I.
  - specialize (D Hall). split; [exact D|]. lia.
Qed.

Lemma disk_byte_write_accounts_witness :
  resumed 8 0 [mkCall 0 8 3; mkCall 3 5 (-1)] /\
  accepted [mkCall 0 8 3; mkCall 3 5 (-1)] <= 8 /\
  (-1 = -1 \/ -1 = accepted [mkCall 0 8 3; mkCall 3 5 (-1)]).
Proof.
  apply (disk_byte_write_accounts [(3, 0); (-1, 5)] 8 (-1)
           [mkCall 0 8 3; mkCall 3 5 (-1)]).
  - lia.
  - cbn. intuition lia.
  - reflexivity.
Defined.

Lemma disk_byte_write_completes_witness :
  8 = 8 /\ accepted [mkCall 0 8 3; mkCall 3 5 (-1); mkCall 3 5 5] = 8.
Proof.
  apply (disk_byte_write_completes [(3, 0); (-1, 4); (5, 0)] 8 8
           [mkCall 0 8 3; mkCall 3 5 (-1); mkCall 3 5 5]).
  - lia.
  - cbn. intuition lia.
  - intros a [<-|[<-|[<-|[]]]]; cbn; auto; right; lia.
  - reflexivity.
Defined.

(** X11: [disk_open] and [disk_close] call again for as long as the call
    is interrupted (EINTR), and return on the first call that is not:
    [disk_open] what [open] returned, [disk_close] 0 when [close] returned
    0 and -1 otherwise.  Neither returns while every call is interrupted. *)
Theorem disk_open_close_retry (pre : list sys_answer) (a : sys_answer)
        (rest : list sys_answer) :
  (Forall (fun x => open_again x = true) pre -> open_again a = false ->
   disk_open (pre ++ a :: rest) = Ret (fst a, S (length pre))) /\
  (Forall (fun x => close_again x = true) pre -> close_again a = false ->
   disk_close (pre ++ a :: rest) =
   Ret (if fst a =? 0 then 0 else -1, S (length pre))) /\
  (Forall (fun x => open_again x = true) pre -> disk_open pre = OutOfFuel) /\
  (Forall (fun x => close_again x = true) pre -> disk_close pre = OutOfFuel).
Proof.
  repeat split.
  - intros Hp Ha. induction Hp as [|[f e] pre Hx _ IH]; cbn [app disk_open length].
    + destruct a as [f e]. unfold open_again in Ha. cbn [fst snd] in *.
      rewrite Ha. reflexivity.
    + unfold open_again in Hx. cbn [fst snd] in Hx. rewrite Hx, IH. reflexivity.
  - intros Hp Ha. induction Hp as [|[f e] pre Hx _ IH]; cbn [app disk_close length].
    + destruct a as [f e]. unfold close_again in Ha. cbn [fst snd] in *.
      destruct (f =? 0); cbn [negb andb] in *; [reflexivity|].
      rewrite Ha. reflexivity.
    + unfold close_again in Hx. cbn [fst snd] in Hx.
      apply andb_true_iff in Hx. destruct Hx as (H1 & H2).
      rewrite H1, H2, IH. reflexivity.
  - intros Hp. induction Hp as [|[f e] pre Hx _ IH]; cbn [disk_open];
      [reflexivity|].
    unfold open_again in Hx. cbn [fst snd] in Hx. rewrite Hx, IH. reflexivity.
  - intros Hp. induction Hp as [|[f e] pre Hx _ IH]; cbn [disk_close];
      [reflexivity|].
    unfold close_again in Hx. cbn [fst snd] in Hx.
    apply andb_true_iff in Hx. destruct Hx as (H1 & H2).
    rewrite H1, H2, IH. reflexivity.
Qed.

Lemma disk_open_close_retry_witness :
  disk_close [(-1, 4); (-1, 4); (0, 0)] = Ret (0, 3%nat).
Proof.
  destruct (disk_open_close_retry [(-1, 4); (-1, 4)] (0, 0) []) as (_ & H & _).
  apply H; [repeat constructor | reflexivity].
Defined.

(** ** Shutdown *)

(** X12: [cmdlog_buf_final].  On a module that is not initialized it does
    nothing.  During a rotation (a next file present) its assertion fails.
    Otherwise it frees both allocations, fsyncs and closes the current
    descriptor if there is one, and clears [initialized]; it flushes
    nothing: no [write] is made, and the bytes still pending in the buffer
    ([nxt_flush_lsn] short of [nxt_write_lsn]) stay unwritten.  A second
    call changes nothing. *)
Theorem buf_final_effect (m : log_memory) (g : log_global) :
  (initialized g = false -> cmdlog_buf_final m g = Ret (m, g)) /\
  (initialized g = true -> fd (next g) <> -1 ->
   cmdlog_buf_final m g = AssertFail) /\
  (initialized g = true -> fd (next g) = -1 ->
   exists g',
     cmdlog_buf_final m g = Ret (mkMem false false, g') /\
     initialized g' = false /\ fd (curr g') = -1 /\
     io g' = io g ++ (if fd (curr g) =? -1 then []
                      else [IoFsync (fd (curr g)); IoClose (fd (curr g))]) /\
     (forall f, file_bytes f (io g') = file_bytes f (io g)) /\
     log_buffer g' = log_buffer g /\
     nxt_write_lsn g' = nxt_write_lsn g /\
     nxt_flush_lsn g' = nxt_flush_lsn g /\
     nxt_fsync_lsn g' = nxt_fsync_lsn g /\
     cmdlog_buf_final (mkMem false false) g' = Ret (mkMem false false, g')).
Proof.
  split; [|split].
  - intros Hi. unfold cmdlog_buf_final. rewrite Hi. reflexivity.
  - intros Hi Hn. unfold cmdlog_buf_final, cmdlog_file_final. rewrite Hi.
    apply Z.eqb_neq in Hn. rewrite Hn. reflexivity.
  - intros Hi Hn. unfold cmdlog_buf_final, cmdlog_file_final.
    rewrite Hi, Hn. cbn [negb Z.eqb Pos.eqb assert bind].
    destruct (Z.eqb_spec (fd (curr g)) (-1)) as [Hc|Hc]; cbn [negb bind].
    + eexists. split; [reflexivity|]. cbn. rewrite app_nil_r.
      repeat split; auto.
    + eexists. split; [reflexivity|]. cbn. repeat split; auto.
      * rewrite <- app_assoc. reflexivity.
      * intros f. rewrite <- app_assoc. cbn [app].
        induction (io g) as [|e evs IH]; cbn [app file_bytes]; [reflexivity|].
        destruct e; rewrite ?IH; reflexivity.
Qed.

Lemma buf_final_effect_witness :
  exists g',
    cmdlog_buf_final (mkMem true true) three_records =
    Ret (mkMem false false, g') /\
    io g' = io three_records ++ [IoFsync 3; IoClose 3] /\
    nxt_flush_lsn g' = mkLogSN 1 0 /\ nxt_write_lsn g' = mkLogSN 1 80.
Proof.
  destruct (buf_final_effect (mkMem true true) three_records) as (_ & _ & H).
  destruct H as (g' & H1 & _ & _ & H4 & _ & _ & H7 & H8 & _).
  - reflexivity.
  - reflexivity.
  - exists g'. split; [exact H1|]. split; [exact H4|].
    split; [rewrite H8 | rewrite H7]; reflexivity.
Defined.

(** ** The flush thread *)

(** X13: the deadline of the flush thread's sleep.  For a time of day
    with 0 <= tv_usec < 1000000 the deadline is a valid [timespec]
    (0 <= tv_nsec < 10^9), lies after the time read, and at most 10 ms
    after it: exactly 10 ms when tv_usec + 10000 stays below one second,
    and the start of the next second otherwise. *)
Theorem sleep_deadline_within_10ms (tv_sec tv_usec : Z) :
  0 <= tv_usec < 1000000 ->
  let now := tv_sec * 1000000000 + tv_usec * 1000 in
  let d := sleep_deadline tv_sec tv_usec in
  let at_ := fst d * 1000000000 + snd d in
  0 <= snd d < 1000000000 /\
  0 < at_ - now <= 10000000 /\
  (tv_usec + 10000 < 1000000 -> at_ - now = 10000000) /\
  (1000000 <= tv_usec + 10000 -> d = (tv_sec + 1, 0)).
Proof.
  intros H. cbv zeta. unfold sleep_deadline.
  destruct (Z.ltb_spec (tv_usec + 10000) 1000000); cbn [fst snd];
    repeat split; try lia; reflexivity.
Qed.

Lemma sleep_deadline_within_10ms_witness :
  sleep_deadline 7 995000 = (8, 0).
Proof.
  destruct (sleep_deadline_within_10ms 7 995000) as (_ & _ & _ & H).
  - lia.
  - apply H. lia.
Defined.

Lemma flusher_pass_closed g r l :
  queue_inv (log_buffer g) (r :: l) -> fd (curr g) <> -1 ->
  exists g1,
    do_log_buff_flush false g = Ret (g1, nflush r) /\ 0 < nflush r /\
    queue_inv (log_buffer g1) l /\
    fend (log_buffer g1) = fend (log_buffer g) /\
    fque (log_buffer g1) (fend (log_buffer g1)) =
      fque (log_buffer g) (fend (log_buffer g)) /\
    tail (log_buffer g1) = tail (log_buffer g) /\
    fd (curr g1) = fd (curr g) /\ nxt_write_lsn g1 = nxt_write_lsn g.
Proof.
  intros Q Hc.
  assert (Hne : fbgn (log_buffer g) <> fend (log_buffer g)).
  { intros E. apply (queue_inv_fbgn_fend _ _ Q) in E. discriminate. }
  destruct (qi_closed _ _ Q 0%nat r eq_refl) as (Hs & Hr).
  unfold slot in Hs. cbn [Z.of_nat] in Hs.
  pose proof (qi_size _ _ Q) as Hq. pose proof (qi_fbgn _ _ Q) as Hb.
  rewrite Z.add_0_r, Z.mod_small in Hs by lia.
  assert (Hsel : selected false (log_buffer g) = Some r).
  { unfold selected. apply Z.eqb_neq in Hne. rewrite Hne. cbn [negb].
    rewrite Hs. reflexivity. }
  destruct (do_log_buff_flush_ok false g r Hsel ltac:(lia) Hc) as (g1 & Hf).
  exists g1. split; [exact Hf|]. split; [lia|].
  pose proof (flush_queue_inv _ _ _ _ _ Q Hf) as Q1. cbn [List.tl] in Q1.
  split; [exact Q1|].
  pose proof Hf as Hinv. apply do_log_buff_flush_inv in Hinv.
  rewrite Hsel in Hinv. cbv zeta in Hinv.
  destruct Hinv as (Hw & _ & Hfc & _ & _ & _ & _ & _ & Hbuf & _).
  destruct (flush_some_fields (nflush r) (log_buffer g))
    as (_ & _ & F3 & F4 & _ & F6 & _).
  rewrite <- Hbuf in F3, F4, F6.
  apply Z.eqb_neq in Hne. rewrite Hne in F4.
  split; [exact F4|].
  split; [exact (pop_keeps_open _ _ _ _ Q F4 F6)|].
  auto.
Qed.

Lemma flusher_drains l :
  forall g tr times rest,
    queue_inv (log_buffer g) l -> fd (curr g) <> -1 ->
    length times = length l ->
    exists g1,
      log_flush_thread_main (map (fun t => (false, t)) times ++ rest) g tr =
      log_flush_thread_main rest g1
        (tr ++ map (fun r => Flushed (nflush r)) l) /\
      queue_inv (log_buffer g1) [] /\
      fend (log_buffer g1) = fend (log_buffer g) /\
      fque (log_buffer g1) (fend (log_buffer g1)) =
        fque (log_buffer g) (fend (log_buffer g)) /\
      tail (log_buffer g1) = tail (log_buffer g) /\
      fd (curr g1) = fd (curr g) /\ nxt_write_lsn g1 = nxt_write_lsn g.
Proof.
  induction l as [|r l IH]; intros g tr times rest Q Hc Hlen.
  - destruct times; [|discriminate]. exists g. cbn [map app].
    rewrite app_nil_r. split; [reflexivity|]. split; [exact Q|].
    repeat split; reflexivity.
  - destruct times as [|[s us] times]; [discriminate|].
    cbn [map app log_flush_thread_main].
    destruct (flusher_pass_closed g r l Q Hc)
      as (g1 & Hf & Hr & Q1 & E1 & E2 & E3 & E4 & E5).
    rewrite Hf. cbn [bind].
    destruct (Z.eqb_spec (nflush r) 0) as [E|_]; [lia|].
    destruct (IH g1 (tr ++ [Flushed (nflush r)]) times rest Q1)
      as (g2 & Hrun & Q2 & G1 & G2 & G3 & G4 & G5).
    + congruence.
    + cbn in Hlen. lia.
    + exists g2. rewrite Hrun, <- app_assoc. cbn [map app].
      split; [reflexivity|]. split; [exact Q2|].
      repeat split; congruence.
Qed.

(** X14: the flush thread left to itself.  With [k] closed requests in
    a well-formed queue and a current file, its next [k] passes flush these
    requests in order, one a pass; the pass after finds nothing and goes to
    sleep; the thread ends at the pass that sees [reqstop].  The open
    request at [fend] is not flushed: [fbgn] has come up to [fend], and
    [fend], [tail], the request at [fend] and [nxt_write_lsn] are as
    before. *)
Theorem flush_thread_drains_closed_requests
        (g : log_global) (l : list log_FREQ) (times : list (Z * Z))
        (t t' : Z * Z) :
  queue_inv (log_buffer g) l -> fd (curr g) <> -1 ->
  length times = length l ->
  exists g',
    log_flush_thread_main
      (map (fun x => (false, x)) times ++ [(false, t); (true, t')]) g [] =
    Ret (g', map (fun r => Flushed (nflush r)) l ++
             [Slept (fst (sleep_deadline (fst t) (snd t)))
                    (snd (sleep_deadline (fst t) (snd t)))]) /\
    fbgn (log_buffer g') = fend (log_buffer g') /\
    fend (log_buffer g') = fend (log_buffer g) /\
    fque (log_buffer g') (fend (log_buffer g')) =
      fque (log_buffer g) (fend (log_buffer g)) /\
    tail (log_buffer g') = tail (log_buffer g) /\
    nxt_write_lsn g' = nxt_write_lsn g.
Proof.
  intros Q Hc Hlen.
  destruct (flusher_drains l g [] times [(false, t); (true, t')] Q Hc Hlen)
    as (g1 & Hrun & Q1 & E1 & E2 & E3 & E4 & E5).
  rewrite Hrun. cbn [app]. destruct t as [s us].
  cbn [log_flush_thread_main fst snd].
  assert (Hbe : fbgn (log_buffer g1) = fend (log_buffer g1)).
  { apply (queue_inv_fbgn_fend _ _ Q1). reflexivity. }
  assert (Hsel : selected false (log_buffer g1) = None).
  { unfold selected. rewrite Hbe, Z.eqb_refl. reflexivity. }
  destruct (do_log_buff_flush_none false g1 Hsel) as (g2 & Hf).
  rewrite Hf. cbn [bind Z.eqb].
  pose proof Hf as Hinv. apply do_log_buff_flush_inv in Hinv.
  rewrite Hsel in Hinv. destruct Hinv as (Hw & _ & _ & _ & _ & _ & _ & Hbuf & _).
  destruct (close_dw_fields (log_buffer g1))
    as (C1 & _ & C3 & C4 & _ & _ & _ & C8).
  rewrite <- Hbuf in C1, C3, C4, C8.
  destruct (sleep_deadline s us) as [ds dns]. destruct t' as [s' us'].
  exists g2. split; [reflexivity|].
  rewrite C1, C3, C4, C8. repeat split; congruence.
Qed.

Lemma two_requests_buffer :
  log_buffer two_requests =
  mkBUFFER CMDLOG_BUFFER_SIZE 0 48 (-1)
           (upd (upd (fun _ => freq_zero) 0 (mkFREQ 24 true)) 1 (mkFREQ 24 false))
           6553600 0 1 (-1).
Proof. reflexivity. Qed.

Lemma queue_inv_two_requests :
  queue_inv (log_buffer two_requests) [mkFREQ 24 true].
Proof.
  rewrite two_requests_buffer.
  constructor; cbn [fqsz fbgn fend fque length Z.of_nat].
  - lia.
  - lia.
  - cbn. lia.
  - reflexivity.
  - intros [|[|k]] r E; cbn in E; try discriminate.
    inversion E; subst. split; [reflexivity | cbn; unfold CMDLOG_FLUSH_AUTO_SIZE; lia].
  - cbn. unfold CMDLOG_FLUSH_AUTO_SIZE. lia.
  - intros k Hk. unfold slot. cbn [fqsz fbgn fque].
    rewrite Z.add_0_l, Z.mod_small by (cbn in Hk; lia).
    unfold upd. cbn in Hk.
    destruct (Z.eqb_spec k 1); [lia|]. destruct (Z.eqb_spec k 0); [lia|].
    reflexivity.
Qed.

Lemma flush_thread_drains_closed_requests_witness :
  exists g',
    log_flush_thread_main [(false, (7, 0)); (false, (7, 995000)); (true, (8, 0))]
                          two_requests [] =
    Ret (g', [Flushed 24; Slept 8 0]) /\
    fbgn (log_buffer g') = fend (log_buffer g') /\
    fend (log_buffer g') = 1.
Proof.
  destruct (flush_thread_drains_closed_requests two_requests [mkFREQ 24 true]
              [(7, 0)] (7, 995000) (8, 0))
    as (g' & H1 & H2 & H3 & _).
  - exact queue_inv_two_requests.
  - vm_compute. discriminate.
  - reflexivity.
  - exists g'. split; [exact H1|]. split; [exact H2|]. rewrite H3. reflexivity.
Defined.

(** ** [log_buffer_flush] up to the stamp of a record *)

(** X15: [log_buffer_flush] up to a waiter's stamp flushes the request
    that holds the first byte of the waiter's record, not the whole record.
    On a drained buffer, a record longer than CMDLOG_FLUSH_AUTO_SIZE (and
    shorter than twice that) is spread over two requests; the flush up to
    its stamp writes the first, CMDLOG_FLUSH_AUTO_SIZE bytes, and returns
    with [nxt_flush_lsn] inside the record, the rest of it still pending in
    the open request. *)
Theorem flush_to_stamp_stops_inside_record (r : LogRec) (dual : bool)
        (g : log_global) :
  let total := sizeof_LogHdr + body_length r in
  drained g ->
  CMDLOG_FLUSH_AUTO_SIZE < total < 2 * CMDLOG_FLUSH_AUTO_SIZE ->
  tail (log_buffer g) + total < size (log_buffer g) ->
  exists g1 g2,
    log_record_write 0 r true dual g = Ret (g1, Some (nxt_write_lsn g)) /\
    log_buffer_flush 0 (nxt_write_lsn g) g1 = Ret g2 /\
    nxt_write_lsn g2 = add_roffset (nxt_write_lsn g) total /\
    nxt_flush_lsn g2 = add_roffset (nxt_write_lsn g) CMDLOG_FLUSH_AUTO_SIZE /\
    lsn_lt (nxt_flush_lsn g2) (nxt_write_lsn g2) /\
    nflush (fque (log_buffer g2) (fend (log_buffer g2))) =
      total - CMDLOG_FLUSH_AUTO_SIZE.
Proof.
  cbv zeta. remember (sizeof_LogHdr + body_length r) as total eqn:Etot.
  intros (Hq & Hb & Hbe & Hz & Hd & Hl & Hht & Ht & Hsz & Hfw & Hc) Htot Hfit.
  set (b := log_buffer g) in *.
  unfold CMDLOG_FLUSH_AUTO_SIZE in Htot.
  assert (Hfs : find_space total b = Ret (true, b)).
  { unfold find_space. rewrite Hht, Z.leb_refl, Hl. cbn [Z.eqb Pos.eqb assert bind].
    rewrite u32_small by lia.
    destruct (Z.ltb_spec total (size b - tail b)); [reflexivity | lia]. }
  pose proof (write_direct 0 r true dual g b) as Hw. cbv zeta in Hw.
  rewrite <- Etot in Hw.
  specialize (Hw ltac:(lia) ltac:(unfold b in *; lia) Hfs ltac:(lia) ltac:(lia)).
  set (bt := set_tail b (tail b + total)) in *.
  assert (Hcm : close_on_mismatch dual bt = bt).
  { unfold close_on_mismatch. subst bt. cbn [fque fend set_tail].
    rewrite Hz. reflexivity. }
  rewrite Hcm in Hw.
  assert (Hrn : ring_next bt (fend bt) <> fend bt).
  { subst bt. unfold ring_next. cbn [fqsz fend set_tail]. rewrite <- Hbe.
    rewrite u32_small by lia.
    destruct (Z.eqb_spec (fbgn b + 1) (fqsz b)); lia. }
  rewrite (enqueue_splits total dual bt) in Hw;
    [| unfold CMDLOG_FLUSH_AUTO_SIZE; lia
     | subst bt; cbn [fque set_tail]; apply Hz
     | exact Hrn
     | subst bt; cbn [fque set_tail]; apply Hz].
  cbv zeta in Hw. cbn [bind] in Hw.
  match type of Hw with _ = Ret (?x, _) => set (g1 := x) in * end.
  set (e1 := ring_next bt (fend bt)) in *.
  assert (Hb1 : fbgn (log_buffer g1) = fbgn b) by reflexivity.
  assert (He1 : fend (log_buffer g1) = e1) by reflexivity.
  assert (Hne : fbgn (log_buffer g1) <> fend (log_buffer g1)).
  { rewrite Hb1, He1, Hbe. subst e1 bt. cbn [fend set_tail] in *. auto. }
  assert (Hq0 : fque (log_buffer g1) (fbgn b) = mkFREQ CMDLOG_FLUSH_AUTO_SIZE dual).
  { subst g1. cbn [log_buffer set_buffer fque set_fque set_fend fend].
    unfold upd. fold e1. subst bt. cbn [fend set_tail fque] in *.
    rewrite <- Hbe in *.
    destruct (Z.eqb_spec (fbgn b) e1) as [E|_]; [congruence|].
    rewrite Z.eqb_refl. reflexivity. }
  assert (Hq1 : fque (log_buffer g1) e1 = mkFREQ (total - CMDLOG_FLUSH_AUTO_SIZE) dual).
  { subst g1. cbn [log_buffer set_buffer fque set_fque set_fend fend].
    unfold upd. fold e1. rewrite Z.eqb_refl. reflexivity. }
  assert (Hsel : selected true (log_buffer g1) =
                 Some (mkFREQ CMDLOG_FLUSH_AUTO_SIZE dual)).
  { unfold selected. apply Z.eqb_neq in Hne. rewrite Hne. cbn [negb].
    rewrite Hb1, Hq0. reflexivity. }
  destruct (do_log_buff_flush_ok true g1 _ Hsel) as (g2 & Hf).
  { cbn. unfold CMDLOG_FLUSH_AUTO_SIZE. lia. }
  { exact Hc. }
  cbn [nflush] in Hf.
  pose proof Hf as Hinv. apply do_log_buff_flush_inv in Hinv.
  rewrite Hsel in Hinv. cbv zeta in Hinv.
  destruct Hinv as (Hw2 & _ & _ & _ & _ & _ & _ & _ & Hbuf & Hl2 & _).
  assert (Hbase : flush_lsn_base g1 = nxt_write_lsn g).
  { unfold flush_lsn_base. rewrite Hb1.
    assert (Ed : dw_end (log_buffer g1) = -1) by exact Hd.
    rewrite Ed, u32_m1.
    destruct (Z.eqb_spec (fbgn b) (2 ^ 32 - 1)); [lia|]. exact Hfw. }
  rewrite Hbase in Hl2.
  assert (Hw1 : nxt_write_lsn g1 = add_roffset (nxt_write_lsn g) total)
    by reflexivity.
  destruct (flush_some_fields CMDLOG_FLUSH_AUTO_SIZE (log_buffer g1))
    as (_ & _ & _ & F4 & _ & F6 & _).
  rewrite <- Hbuf in F4, F6.
  pose proof Hne as Hne'. apply Z.eqb_neq in Hne'. rewrite Hne' in F4.
  exists g1, g2. split; [exact Hw|].
  split.
  { cbn [log_buffer_flush].
    assert (E1 : LOGSN_IS_LE (nxt_flush_lsn g1) (nxt_write_lsn g) = true).
    { apply LOGSN_IS_LE_true. change (nxt_flush_lsn g1) with (nxt_flush_lsn g).
      rewrite Hfw. right. split; [reflexivity | lia]. }
    rewrite E1, Hf. cbn [bind].
    change (CMDLOG_FLUSH_AUTO_SIZE >? 0) with true. cbn [assert bind].
    assert (E2 : LOGSN_IS_GT (nxt_flush_lsn g2) (nxt_write_lsn g) = true).
    { apply LOGSN_IS_GT_true. rewrite Hl2. right. cbn.
      unfold CMDLOG_FLUSH_AUTO_SIZE. split; [reflexivity | lia]. }
    rewrite E2. reflexivity. }
  split; [rewrite Hw2; exact Hw1|]. split; [exact Hl2|].
  split.
  { rewrite Hl2, Hw2, Hw1. right. cbn. unfold CMDLOG_FLUSH_AUTO_SIZE.
    split; [reflexivity | lia]. }
  rewrite F4, F6, He1. unfold upd. rewrite Hb1.
  destruct (Z.eqb_spec e1 (fbgn b)) as [E|_].
  { exfalso. apply Hne. rewrite Hb1, He1. auto. }
  rewrite Hq1. reflexivity.
Qed.

Lemma drained_one_file : drained one_file.
Proof.
  unfold drained. cbn. repeat split; try lia; try discriminate.
Qed.

Lemma flush_to_stamp_stops_inside_record_witness :
  exists g1 g2,
    log_record_write 0 (mkLogRec 40000) true false one_file =
      Ret (g1, Some (mkLogSN 1 0)) /\
    log_buffer_flush 0 (mkLogSN 1 0) g1 = Ret g2 /\
    nxt_write_lsn g2 = mkLogSN 1 40008 /\
    nxt_flush_lsn g2 = mkLogSN 1 32768.
Proof.
  destruct (flush_to_stamp_stops_inside_record (mkLogRec 40000) false one_file)
    as (g1 & g2 & H1 & H2 & H3 & H4 & _).
  - exact drained_one_file.
  - vm_compute. split; reflexivity.
  - vm_compute. reflexivity.
  - exists g1, g2. split; [exact H1|]. split; [exact H2|].
    split; [rewrite H3 | rewrite H4]; reflexivity.
Defined.

(** ** Recovery on any file *)

Lemma read_in_range c p n :
  0 <= p -> 0 <= n -> p + n <= Z.of_nat (length c) ->
  exists bytes,
    read (mkFd c p) n = (bytes, mkFd c (p + n)) /\ Z.of_nat (length bytes) = n.
Proof.
  intros Hp Hn Hle. unfold read. cbn [content pos].
  exists (firstn (Z.to_nat n) (skipn (Z.to_nat p) c)).
  assert (E : length (firstn (Z.to_nat n) (skipn (Z.to_nat p) c)) = Z.to_nat n).
  { apply firstn_length_le. rewrite length_skipn. lia. }
  rewrite E, Z2Nat.id by lia. split; reflexivity.
Qed.

Section ApplyAnyContent.

Variable MAX_LOG_RECORD_SIZE : Z.
Variable body_length_of : list Byte.byte -> Z.
Variable lrec_redo_from_record : LogImg -> ENGINE_ERROR_CODE.
Hypothesis MAX_range : sizeof_LogHdr <= MAX_LOG_RECORD_SIZE < 2 ^ 32.
Hypothesis body_length_range : forall h, 0 <= body_length_of h < 2 ^ 32.

Lemma apply_loop_any fuel :
  forall initd c p done,
    Z.of_nat (length c) < 2 ^ 31 ->
    0 <= p <= Z.of_nat (length c) ->
    (Z.to_nat (Z.of_nat (length c) - p) < fuel)%nat ->
    Forall (fits_buffer MAX_LOG_RECORD_SIZE body_length_of) done ->
    exists ret seek p' done',
      apply_loop MAX_LOG_RECORD_SIZE body_length_of lrec_redo_from_record
                 fuel initd (Z.of_nat (length c)) (mkFd c p) p done =
      Ret (ret, seek, mkFd c p', done') /\
      Forall (fits_buffer MAX_LOG_RECORD_SIZE body_length_of) done' /\
      ((ret = 0 /\ p' = seek /\ 0 <= seek <= Z.of_nat (length c)) \/ ret = -1).
Proof.
  unfold sizeof_LogHdr in *.
  induction fuel as [|k IH]; intros initd c p done Hsmall Hp Hfuel Hdone; [lia|].
  rewrite apply_loop_small by (cbn [content pos]; lia).
  set (fsz := Z.of_nat (length c)) in *.
  destruct (initd && (p <? fsz)) eqn:Ego.
  2:{ exists 0, p, p, done. split; [reflexivity|]. split; [exact Hdone|].
      left. repeat split; lia. }
  unfold sizeof_LogHdr.
  destruct (Z.ltb_spec (fsz - p) 8) as [Hshort|Hhdr].
  { exists 0, p, p, done. split; [reflexivity|]. split; [exact Hdone|].
    left. repeat split; lia. }
  destruct (read_in_range c p 8) as (hdr & Er & Hlh); try lia.
  rewrite Er. rewrite Hlh. cbn [Z.eqb Pos.eqb negb].
  pose proof (body_length_range hdr) as Hbl.
  destruct (Z.ltb_spec (fsz - (p + 8)) (body_length_of hdr)) as [Htorn|Hbody].
  { unfold lseek_cur. cbn [pos content].
    replace (p + 8 + - (8)) with p by lia.
    assert (E : (p <? 0) = false) by (apply Z.ltb_ge; lia).
    rewrite E. cbv iota beta. rewrite E.
    exists 0, p, p, done. split; [reflexivity|]. split; [exact Hdone|].
    left. repeat split; lia. }
  destruct (Z.gtb_spec (body_length_of hdr) 0) as [Hpos|Hzero].
  2:{ apply IH; [exact Hsmall | lia | lia | exact Hdone]. }
  rewrite u32_small by lia.
  destruct (Z.ltb_spec (MAX_LOG_RECORD_SIZE - 8) (body_length_of hdr)) as [Hbig|Hfit].
  { exists (-1), (p + 8), (p + 8), done. split; [reflexivity|].
    split; [exact Hdone | right; reflexivity]. }
  destruct (read_in_range c (p + 8) (body_length_of hdr)) as (body & Eb & Hlb);
    try lia.
  rewrite Eb. rewrite Hlb, Z.eqb_refl. cbn [negb].
  assert (Hdone' : Forall (fits_buffer MAX_LOG_RECORD_SIZE body_length_of)
                          (done ++ [(hdr, body)])).
  { apply Forall_app. split; [exact Hdone|]. constructor; [|constructor].
    unfold fits_buffer, sizeof_LogHdr. cbn [fst snd]. repeat split; lia. }
  destruct (lrec_redo_from_record (hdr, body)).
  - apply IH; [exact Hsmall | lia | lia | exact Hdone'].
  - exists (-1), (p + 8 + body_length_of hdr), (p + 8 + body_length_of hdr),
           (done ++ [(hdr, body)]).
    split; [reflexivity|]. split; [exact Hdone' | right; reflexivity].
  - apply IH; [exact Hsmall | lia | lia | exact Hdone'].
Qed.

(** X16: [cmdlog_file_apply] on a file of any content of less than 2^31
    bytes, called with [curr.fd > 0].  The call returns; every record it
    hands to the redo hook has a whole header and a non-empty body of the
    announced length, of at most MAX_LOG_RECORD_SIZE bytes together (it
    fits the buffer [buf]); on return 0 the descriptor is open, and the
    file offset and [curr.size] are the same position within the file; on
    return -1 the descriptor has been closed. *)
Theorem file_apply_any_content (initd : bool) (curr_fd : Z)
        (c : list Byte.byte) :
  0 < curr_fd ->
  Z.of_nat (length c) < 2 ^ 31 ->
  exists out,
    cmdlog_file_apply MAX_LOG_RECORD_SIZE body_length_of lrec_redo_from_record
                      initd curr_fd (mkFd c 0) = Ret out /\
    content (ao_fd out) = c /\
    Forall (fits_buffer MAX_LOG_RECORD_SIZE body_length_of) (ao_redone out) /\
    ((ao_ret out = 0 /\ ao_closed out = false /\
      pos (ao_fd out) = ao_size out /\
      0 <= ao_size out <= Z.of_nat (length c)) \/
     (ao_ret out = -1 /\ ao_closed out = true)).
Proof.
  intros Hfd Hsmall. unfold cmdlog_file_apply.
  assert (Efd : (curr_fd >? 0) = true) by (apply Z.gtb_lt; exact Hfd).
  rewrite Efd. cbn [assert bind content].
  destruct (Z.eqb_spec (Z.of_nat (length c)) 0) as [E0|E0].
  - eexists. split; [reflexivity|]. cbn. split; [reflexivity|].
    split; [constructor|]. left. repeat split; lia.
  - destruct (apply_loop_any (S (length c)) initd c 0 [])
      as (ret & seek & p' & done' & Hrun & Hd & Hres);
      [exact Hsmall | lia | lia | constructor |].
    rewrite Hrun. cbn [bind].
    destruct Hres as [(-> & -> & Hs) | ->].
    + cbn [Z.ltb Z.compare]. rewrite u64_small by lia.
      eexists. split; [reflexivity|]. cbn.
      split; [reflexivity|]. split; [exact Hd|]. left. repeat split; lia.
    + cbn [Z.ltb Z.compare]. eexists. split; [reflexivity|]. cbn.
      split; [reflexivity|]. split; [exact Hd|]. right. split; reflexivity.
Qed.

End ApplyAnyContent.

Lemma le32_range h : 0 <= le32 h < 2 ^ 32.
Proof.
  assert (B : forall b, 0 <= Z.of_N (Strings.Byte.to_N b) <= 255).
  { intros b. pose proof (Strings.Byte.to_N_bounded b). lia. }
  unfold le32. destruct h as [|b0 [|b1 [|b2 [|b3 h]]]]; try lia.
  pose proof (B b0). pose proof (B b1). pose proof (B b2). pose proof (B b3).
  lia.
Qed.

Lemma file_apply_any_content_witness :
  exists out,
    cmdlog_file_apply max_2MiB le32 redo_ok true 3
      (mkFd (hdr_of Byte.x02 ++ [Byte.x61; Byte.x62] ++ hdr_huge) 0) = Ret out /\
    Forall (fits_buffer max_2MiB le32) (ao_redone out).
Proof.
  destruct (file_apply_any_content max_2MiB le32 redo_ok
              ltac:(vm_compute; split; [discriminate | reflexivity])
              le32_range true 3
              (hdr_of Byte.x02 ++ [Byte.x61; Byte.x62] ++ hdr_huge))
    as (out & H1 & _ & H3 & _).
  - lia.
  - vm_compute. reflexivity.
  - exists out. split; [exact H1 | exact H3].
Defined.

(** ** [cmdlog_file_getsize] during a rotation *)

Lemma dw_end_of_flush flush_all g g' n :
  do_log_buff_flush flush_all g = Ret (g', n) ->
  dw_end (log_buffer g') =
  if fbgn (log_buffer g) =? u32 (dw_end (log_buffer g))
  then -1 else dw_end (log_buffer g).
Proof.
  intros H. apply do_log_buff_flush_inv in H.
  destruct H as (_ & _ & _ & _ & _ & _ & H).
  destruct (selected flush_all (log_buffer g)).
  - cbv zeta in H. destruct H as (_ & _ & Hb & _).
    rewrite Hb, dw_end_after_flush. apply dw_end_close_dw.
  - destruct H as (_ & Hb & _). rewrite Hb. apply dw_end_close_dw.
Qed.

(** X17: [cmdlog_file_getsize] reports 0 from the moment
    [cmdlog_complete_dual_write(true)] has completed a rotation, through
    every flush that finds [fbgn] short of [dw_end]; the flush that finds
    [fbgn = dw_end] closes the window, and from then on the size of the
    current file is reported again. *)
Theorem getsize_zero_until_cleanup_ends (fuel : nat) (g : log_global) :
  queue_wf (log_buffer g) -> dw_end (log_buffer g) = -1 ->
  fd (next g) <> -1 ->
  exists g1,
    cmdlog_complete_dual_write fuel true g = Ret g1 /\
    cmdlog_file_getsize g1 = 0 /\
    forall g2 g3 flush_all n,
      0 <= dw_end (log_buffer g2) < 2 ^ 31 ->
      0 <= fbgn (log_buffer g2) < 2 ^ 31 ->
      do_log_buff_flush flush_all g2 = Ret (g3, n) ->
      cmdlog_file_getsize g3 =
      if fbgn (log_buffer g2) =? dw_end (log_buffer g2)
      then fsize (curr g3) else 0.
Proof.
  intros Hwf Hd Hn.
  destruct (complete_dual_write_buffer fuel g Hwf Hn Hd)
    as (g1 & Hc & Hb & _).
  exists g1. split; [exact Hc|]. split.
  - unfold cmdlog_file_getsize. rewrite Hb. cbn [dw_end set_dw_end].
    destruct Hwf as (Hq & _ & He).
    pose proof (ring_next_range _ _ Hq He) as Hrn.
    destruct (nflush _ >? 0); cbn [fend set_fend];
      match goal with
      | |- (if ?x =? -1 then _ else _) = _ =>
          destruct (Z.eqb_spec x (-1)); [lia | reflexivity]
      end.
  - intros g2 g3 flush_all n Hdw Hfb Hf.
    unfold cmdlog_file_getsize. rewrite (dw_end_of_flush _ _ _ _ Hf).
    rewrite u32_small by lia.
    destruct (Z.eqb_spec (fbgn (log_buffer g2)) (dw_end (log_buffer g2)));
      [reflexivity|].
    destruct (Z.eqb_spec (dw_end (log_buffer g2)) (-1)); [lia | reflexivity].
Qed.

Lemma getsize_zero_until_cleanup_ends_witness :
  exists g1,
    cmdlog_complete_dual_write 0 true dual_pending = Ret g1 /\
    cmdlog_file_getsize g1 = 0.
Proof.
  destruct (getsize_zero_until_cleanup_ends 0 dual_pending)
    as (g1 & H1 & H2 & _).
  - vm_compute. intuition congruence.
  - reflexivity.
  - vm_compute. discriminate.
  - exists g1. split; [exact H1 | exact H2].
Defined.

(** ** Flushes outside a cleanup window *)

(** X18: outside a cleanup window ([dw_end = -1]) a flush that takes up a
    request writes its bytes, the [nflush] bytes of [data] from [head] on
    (from 0 when [head] had reached [last]), to [curr.fd]; when the request
    has its [dual_write] flag set and a next file is there, the same range
    is written to [next.fd] right after; nothing else is written.  Each
    file written to grows by the byte count, and [nxt_flush_lsn] moves on
    by it within the same file. *)
Theorem flush_routing_outside_window (flush_all : bool) (g g' : log_global)
        (n : Z) :
  dw_end (log_buffer g) = -1 -> 0 <= fbgn (log_buffer g) < 2 ^ 31 ->
  do_log_buff_flush flush_all g = Ret (g', n) -> 0 < n ->
  let b := log_buffer g in
  let off := if head b =? u32 (last b) then 0 else head b in
  exists r,
    selected flush_all b = Some r /\ n = nflush r /\
    io g' = io g ++ IoWrite (fd (curr g)) off n ::
            (if dual_write r && negb (fd (next g) =? -1)
             then [IoWrite (fd (next g)) off n] else []) /\
    fsize (curr g') = u64 (fsize (curr g) + n) /\
    fsize (next g') = (if dual_write r && negb (fd (next g) =? -1)
                       then u64 (fsize (next g) + n) else fsize (next g)) /\
    nxt_flush_lsn g' = add_roffset (nxt_flush_lsn g) n /\
    dw_end (log_buffer g') = -1.
Proof.
  intros Hd Hb Hf Hn. cbv zeta.
  pose proof (dw_end_of_flush _ _ _ _ Hf) as Hd'.
  apply do_log_buff_flush_inv in Hf.
  destruct Hf as (_ & _ & _ & _ & _ & _ & H).
  rewrite Hd, u32_m1 in Hd'.
  assert (E : (fbgn (log_buffer g) =? 2 ^ 32 - 1) = false)
    by (apply Z.eqb_neq; lia).
  rewrite E in Hd'.
  destruct (selected flush_all (log_buffer g)) as [r|].
  - cbv zeta in H. destruct H as (Hr & _ & _ & Hl & Hio & Hc & Hx).
    exists r.
    split; [reflexivity|]. split; [exact Hr|].
    unfold flush_writes in Hio. unfold flush_lsn_base in Hl.
    rewrite flush_offset in Hio.
    rewrite Hd in Hio, Hc, Hx, Hl. rewrite u32_m1, E in Hl.
    cbn [Z.eqb Pos.eqb negb andb] in Hio, Hc, Hx. subst n.
    repeat split; assumption.
  - destruct H as (H0 & _). lia.
Qed.

Lemma flush_routing_outside_window_witness :
  exists g',
    do_log_buff_flush true dual_at_24 = Ret (g', 24) /\
    head (log_buffer dual_at_24) = 24 /\
    io g' = io dual_at_24 ++ [IoWrite 3 24 24; IoWrite 4 24 24].
Proof.
  pose (res := fst (ret_of (dual_at_24, 0) (do_log_buff_flush true dual_at_24))).
  assert (E : do_log_buff_flush true dual_at_24 = Ret (res, 24))
    by (vm_compute; reflexivity).
  destruct (flush_routing_outside_window true dual_at_24 res 24)
    as (r & H1 & _ & H3 & _).
  - reflexivity.
  - vm_compute. split; [discriminate | reflexivity].
  - exact E.
  - lia.
  - exists res. split; [exact E|]. split; [reflexivity|].
    assert (Er : r = mkFREQ 24 true).
    { assert (Hs : selected true (log_buffer dual_at_24) = Some (mkFREQ 24 true))
        by (vm_compute; reflexivity).
      rewrite Hs in H1. inversion H1. reflexivity. }
    rewrite H3, Er. vm_compute. reflexivity.
Defined.

(** ** Flushing all that is pending *)

Lemma u64_add_l a n : u64 (u64 a + n) = u64 (a + n).
Proof. unfold u64. apply Z.add_mod_idemp_l. lia. Qed.

Lemma Inv_fbgn_range g : Inv g -> 0 <= fbgn (log_buffer g) < 2 ^ 31.
Proof.
  intros (l & d & u & Q & _).
  pose proof (qi_size _ _ Q). pose proof (qi_fbgn _ _ Q). lia.
Qed.

Lemma flush_routing_zero flush_all g g' n :
  dw_end (log_buffer g) = -1 -> 0 <= fbgn (log_buffer g) < 2 ^ 31 ->
  do_log_buff_flush flush_all g = Ret (g', n) -> 0 < n ->
  fsize (curr g') = u64 (fsize (curr g) + n) /\
  nxt_flush_lsn g' = add_roffset (nxt_flush_lsn g) n /\
  dw_end (log_buffer g') = -1.
Proof.
  intros Hd Hb Hf Hn.
  pose proof (dw_end_of_flush _ _ _ _ Hf) as Hd'.
  apply do_log_buff_flush_inv in Hf.
  destruct Hf as (_ & _ & _ & _ & _ & _ & H).
  rewrite Hd, u32_m1 in Hd'.
  assert (E : (fbgn (log_buffer g) =? 2 ^ 32 - 1) = false)
    by (apply Z.eqb_neq; lia).
  rewrite E in Hd'.
  destruct (selected flush_all (log_buffer g)) as [r|].
  - cbv zeta in H. destruct H as (Hr & _ & _ & Hl & _ & Hc & _).
    unfold flush_lsn_base in Hl.
    rewrite Hd in Hc, Hl. rewrite u32_m1, E in Hl.
    cbn [Z.eqb Pos.eqb negb andb] in Hc. subst n.
    repeat split; assumption.
  - destruct H as (H0 & _). lia.
Qed.

Lemma buffer_flush_accounts fuel :
  forall upto g g',
    log_buffer_flush fuel upto g = Ret g' ->
    Inv g -> dw_end (log_buffer g) = -1 ->
    filenum (nxt_flush_lsn g') = filenum (nxt_flush_lsn g) /\
    nxt_write_lsn g' = nxt_write_lsn g /\
    u64 (fsize (curr g')) =
      u64 (fsize (curr g) +
           (roffset (nxt_flush_lsn g') - roffset (nxt_flush_lsn g))) /\
    Inv g' /\ dw_end (log_buffer g') = -1.
Proof.
  assert (Hone : forall g g1 n,
            do_log_buff_flush true g = Ret (g1, n) -> (n >? 0) = true ->
            Inv g -> dw_end (log_buffer g) = -1 ->
            filenum (nxt_flush_lsn g1) = filenum (nxt_flush_lsn g) /\
            nxt_write_lsn g1 = nxt_write_lsn g /\
            fsize (curr g1) = u64 (fsize (curr g) + n) /\
            roffset (nxt_flush_lsn g1) = roffset (nxt_flush_lsn g) + n /\
            Inv g1 /\ dw_end (log_buffer g1) = -1).
  { intros g g1 n Hf Hn HI Hd. apply Z.gtb_lt in Hn.
    pose proof (Inv_fbgn_range g HI) as Hb.
    pose proof (flush_preserves_Inv _ _ _ _ HI Hf) as HI1.
    pose proof Hf as Hw. apply do_log_buff_flush_inv in Hw.
    destruct Hw as (Hw & _).
    destruct (flush_routing_zero true g g1 n Hd Hb Hf Hn)
      as (H1 & H2 & H3).
    rewrite H2. cbn. repeat split; auto. }
  assert (Hidem : forall a, u64 (u64 a) = u64 a).
  { intros a. unfold u64. apply Z.mod_mod. lia. }
  induction fuel as [|k IH]; intros upto g g' H HI Hd;
    cbn [log_buffer_flush] in H.
  - destruct (LOGSN_IS_LE (nxt_flush_lsn g) upto).
    + destruct (do_log_buff_flush true g) as [[g1 n]| |] eqn:Ef;
        cbn [bind] in H; try discriminate.
      destruct (n >? 0) eqn:En; cbn [assert bind] in H; try discriminate.
      destruct (LOGSN_IS_GT (nxt_flush_lsn g1) upto); [|discriminate].
      inversion H; subst.
      destruct (Hone _ _ _ Ef En HI Hd) as (A & B & C & D & E & F).
      rewrite D, C, Hidem. repeat split; auto. f_equal. lia.
    + inversion H; subst. rewrite Z.sub_diag, Z.add_0_r. repeat split; auto.
  - destruct (LOGSN_IS_LE (nxt_flush_lsn g) upto).
    + destruct (do_log_buff_flush true g) as [[g1 n]| |] eqn:Ef;
        cbn [bind] in H; try discriminate.
      destruct (n >? 0) eqn:En; cbn [assert bind] in H; try discriminate.
      destruct (Hone _ _ _ Ef En HI Hd) as (A & B & C & D & E & F).
      destruct (LOGSN_IS_GT (nxt_flush_lsn g1) upto).
      * inversion H; subst.
        rewrite D, C, Hidem. repeat split; auto. f_equal. lia.
      * destruct (IH _ _ _ H E F) as (A' & B' & C' & E' & F').
        repeat split; try congruence.
        rewrite C', C, u64_add_l. f_equal. lia.
    + inversion H; subst. rewrite Z.sub_diag, Z.add_0_r. repeat split; auto.
Qed.

(** X19: flushing up to the last byte written.  From a state of the
    invariant with no cleanup window and a current file,
    [log_buffer_flush] up to the sequence number just below
    [nxt_write_lsn] returns with nothing pending: [nxt_flush_lsn] has
    reached [nxt_write_lsn], the queue is empty with an empty request at
    [fend], and the size of the current file has grown by exactly the
    number of bytes that separated the two sequence numbers. *)
Theorem flush_to_end_leaves_nothing_pending (g : log_global) :
  Inv g -> dw_end (log_buffer g) = -1 -> fd (curr g) <> -1 ->
  let upto := mkLogSN (filenum (nxt_write_lsn g))
                      (roffset (nxt_write_lsn g) - 1) in
  exists fuel g',
    log_buffer_flush fuel upto g = Ret g' /\
    nxt_flush_lsn g' = nxt_write_lsn g /\
    nxt_write_lsn g' = nxt_write_lsn g /\
    fbgn (log_buffer g') = fend (log_buffer g') /\
    nflush (fque (log_buffer g') (fend (log_buffer g'))) = 0 /\
    u64 (fsize (curr g')) =
      u64 (fsize (curr g) +
           (roffset (nxt_write_lsn g) - roffset (nxt_flush_lsn g))).
Proof.
  intros HI Hd Hc. cbv zeta.
  set (upto := mkLogSN (filenum (nxt_write_lsn g))
                       (roffset (nxt_write_lsn g) - 1)).
  assert (Hlt : lsn_lt upto (nxt_write_lsn g)).
  { right. cbn. split; [reflexivity | lia]. }
  pose proof HI as (l & d & u & Q & L & B).
  destruct (log_buffer_flush_runs (length l) g l d u upto Q L B
              (Nat.le_refl _) Hd Hc Hlt) as (g' & Hr & HI' & Hd').
  pose proof (log_buffer_flush_returns_beyond _ _ _ _ Hr) as Hbeyond.
  destruct (buffer_flush_accounts _ _ _ _ Hr HI Hd) as (A & Bw & C & _ & _).
  destruct HI' as (l' & d' & u' & Q' & L' & B').
  pose proof (sumf_closed_nonneg _ _ Q') as Hs.
  pose proof (qi_open _ _ Q') as Ho.
  destruct L' as (_ & _ & _ & [(_ & Hfn & Hro) | (Hdw & _)]).
  2:{ pose proof (qi_size _ _ Q') as Hq.
      pose proof (Z.mod_pos_bound (fbgn (log_buffer g') + Z.of_nat d')
                    (fqsz (log_buffer g')) ltac:(lia)).
      lia. }
  rewrite Bw in Hfn, Hro.
  assert (Hro' : roffset (nxt_flush_lsn g') = roffset (nxt_write_lsn g)).
  { destruct Hbeyond as [Hb|(Hb1 & Hb2)]; cbn in *; lia. }
  assert (Hl0 : l' = []).
  { destruct l' as [|r0 l0]; [reflexivity|].
    destruct (qi_closed _ _ Q' 0%nat r0 eq_refl) as (_ & Hr0).
    assert (0 <= sumf l0).
    { apply sumf_nonneg. intros k r' E'.
      apply (qi_closed _ _ Q' (S k) r' E'). }
    cbn [sumf] in Hro. lia. }
  subst l'. cbn [sumf] in Hro.
  exists (length l), g'. split; [exact Hr|].
  split.
  { destruct (nxt_flush_lsn g'), (nxt_write_lsn g). cbn in *. congruence. }
  split; [exact Bw|].
  split; [apply (queue_inv_fbgn_fend _ _ Q'); reflexivity|].
  split; [lia|].
  rewrite C, Hro'. reflexivity.
Qed.

Lemma flush_to_end_leaves_nothing_pending_witness :
  exists fuel g',
    log_buffer_flush fuel (mkLogSN 1 79) three_records = Ret g' /\
    nxt_flush_lsn g' = mkLogSN 1 80.
Proof.
  destruct (flush_to_end_leaves_nothing_pending three_records)
    as (fuel & g' & H1 & H2 & _).
  - exact Inv_three_records.
  - reflexivity.
  - vm_compute. discriminate.
  - exists fuel, g'. split; [exact H1 | exact H2].
Defined.

(** ** [log_record_write] keeps the invariant *)

Lemma closed_count_len b l :
  queue_inv b l -> (fend b - fbgn b) mod fqsz b = Z.of_nat (length l).
Proof.
  intros Q. pose proof (qi_size _ _ Q) as Hq. pose proof (qi_len _ _ Q) as Hl.
  rewrite (qi_fend _ _ Q), Zminus_mod_idemp_l.
  replace (fbgn b + Z.of_nat (length l) - fbgn b) with (Z.of_nat (length l)) by lia.
  apply Z.mod_small. lia.
Qed.

(** Bytes added to the open request, short of filling it. *)
Lemma queue_inv_open_upd b l r :
  queue_inv b l -> 0 <= nflush r < CMDLOG_FLUSH_AUTO_SIZE ->
  queue_inv (set_fque b (upd (fque b) (fend b) r)) l.
Proof.
  intros Q Hr. pose proof (queue_inv_fend_range _ _ Q) as Hfe.
  destruct Q as [Hq Hb Hl He Hc Ho Hfr].
  constructor; cbn [fqsz fbgn fend fque set_fque]; auto.
  - intros k r' E. destruct (Hc k r' E) as (Hs & Hn). split; [|exact Hn].
    unfold slot in *. cbn [fqsz fbgn fque set_fque]. rewrite upd_other; [exact Hs|].
    assert (Hk : (k < length l)%nat) by (apply nth_error_Some; congruence).
    rewrite He. intros E'. apply mod_inj_range in E'; lia.
  - rewrite upd_same. exact Hr.
  - intros k Hk. unfold slot in *. cbn [fqsz fbgn fque set_fque].
    rewrite upd_other; [apply Hfr; exact Hk|].
    rewrite He. intros E'. apply mod_inj_range in E'; lia.
Qed.

(** The open request filled up and closed. *)
Lemma queue_inv_fill_close b l dual :
  queue_inv b l -> Z.of_nat (length l) + 1 < fqsz b ->
  let r := mkFREQ CMDLOG_FLUSH_AUTO_SIZE dual in
  let b1 := set_fque b (upd (fque b) (fend b) r) in
  let b2 := set_fend b1 (ring_next b1 (fend b1)) in
  queue_inv b2 (l ++ [r]) /\ nflush (fque b2 (fend b2)) = 0.
Proof.
  intros Q Hroom. cbv zeta.
  pose proof (queue_inv_fend_range _ _ Q) as Hfe.
  destruct Q as [Hq Hb Hl He Hc Ho Hfr].
  cbn [fend fque fqsz fbgn set_fque set_fend].
  assert (Hrn : ring_next (set_fque b (upd (fque b) (fend b)
                             (mkFREQ CMDLOG_FLUSH_AUTO_SIZE dual))) (fend b) =
                (fbgn b + (Z.of_nat (length l) + 1)) mod fqsz b).
  { rewrite ring_next_eq by (cbn [fqsz set_fque]; lia).
    cbn [fqsz set_fque]. rewrite He.
    rewrite Z.add_mod_idemp_l by lia. f_equal; lia. }
  rewrite Hrn.
  assert (Hne : (fbgn b + (Z.of_nat (length l) + 1)) mod fqsz b <> fend b).
  { rewrite He. intros E. apply mod_inj_range in E; lia. }
  assert (Hz : nflush (upd (fque b) (fend b) (mkFREQ CMDLOG_FLUSH_AUTO_SIZE dual)
                           ((fbgn b + (Z.of_nat (length l) + 1)) mod fqsz b)) = 0).
  { rewrite upd_other by exact Hne.
    apply (Hfr (Z.of_nat (length l) + 1)). lia. }
  split; [|exact Hz].
  constructor; cbn [fend fque fqsz fbgn set_fque set_fend];
    rewrite ?length_app; cbn [length];
    rewrite ?Nat2Z.inj_add; change (Z.of_nat 1) with 1.
  - exact Hq.
  - exact Hb.
  - lia.
  - reflexivity.
  - intros k r E. unfold slot. cbn [fend fque fqsz fbgn set_fque set_fend].
    destruct (Nat.lt_ge_cases k (length l)) as [Hk|Hk].
    + rewrite nth_error_app1 in E by exact Hk.
      destruct (Hc k r E) as (Hs & Hn). split; [|exact Hn].
      unfold slot in Hs. rewrite upd_other; [exact Hs|].
      rewrite He. intros E'. apply mod_inj_range in E'; lia.
    + rewrite nth_error_app2 in E by exact Hk.
      destruct (k - length l)%nat as [|j] eqn:Ej; cbn in E;
        [|destruct j; discriminate].
      inversion E; subst r. assert (k = length l) by lia. subst k.
      rewrite <- He, upd_same. split; [reflexivity|].
      cbn. unfold CMDLOG_FLUSH_AUTO_SIZE. lia.
  - rewrite Hz. unfold CMDLOG_FLUSH_AUTO_SIZE. lia.
  - intros k Hk. unfold slot. cbn [fend fque fqsz fbgn set_fque set_fend].
    rewrite upd_other; [apply Hfr; lia|].
    rewrite He. intros E'. apply mod_inj_range in E'; lia.
Qed.

Lemma firstn_app_le {A} (l1 l2 : list A) n :
  (n <= length l1)%nat -> firstn n (l1 ++ l2) = firstn n l1.
Proof.
  revert n. induction l1 as [|a l1 IH]; intros [|n] H; cbn in *; auto; try lia.
  f_equal. apply IH. lia.
Qed.

Ltac open_back :=
  unfold lsn_inv, buf_inv, back in *; cbv zeta in *;
  cbn [log_buffer set_buffer set_write_lsn set_tail nxt_write_lsn
       nxt_flush_lsn nxt_fsync_lsn fque fend fbgn fqsz dw_end size head tail
       last add_roffset roffset filenum set_fque set_fend] in *.

(** The loop that spreads a record over the requests, from a state that
    satisfies the invariant but for the [T] bytes not yet assigned. *)
Lemma enqueue_Inv fuel :
  forall T dual g l d u,
    0 <= T < 2 ^ 32 -> (Z.to_nat T <= fuel)%nat ->
    queue_inv (log_buffer g) l ->
    lsn_inv (back T g) l d -> buf_inv (log_buffer (back T g)) l u ->
    tail (log_buffer g) < size (log_buffer g) ->
    (last (log_buffer g) <> -1 -> tail (log_buffer g) < head (log_buffer g)) ->
    Z.of_nat (length l) +
      (nflush (fque (log_buffer g) (fend (log_buffer g))) + T)
        / CMDLOG_FLUSH_AUTO_SIZE + 1 < fqsz (log_buffer g) ->
    exists b', enqueue fuel T dual (log_buffer g) = Ret b' /\
               Inv (set_buffer g b').
Proof.
  assert (Hdone : forall g l d u,
            queue_inv (log_buffer g) l ->
            lsn_inv (back 0 g) l d -> buf_inv (log_buffer (back 0 g)) l u ->
            Inv (set_buffer g (log_buffer g))).
  { intros g l d u Q L B. exists l, d, u. split; [exact Q|].
    open_back. rewrite Z.add_0_r in L. rewrite Z.sub_0_r in B. auto. }
  induction fuel as [|k IH]; intros T dual g l d u HT Hfuel Q L B Hts Hth Hroom.
  - assert (T = 0) by lia. subst T. exists (log_buffer g).
    split; [reflexivity | eapply Hdone; eauto].
  - cbn [enqueue]. destruct (Z.gtb_spec T 0) as [Hpos|Hz].
    2:{ assert (T = 0) by lia. subst T. exists (log_buffer g).
        split; [reflexivity | eapply Hdone; eauto]. }
    clear Hdone.
    pose proof (qi_open _ _ Q) as Ho. pose proof (qi_size _ _ Q) as Hq.
    pose proof (qi_len _ _ Q) as Hlen.
    unfold CMDLOG_FLUSH_AUTO_SIZE in *.
    remember (nflush (fque (log_buffer g) (fend (log_buffer g)))) as o eqn:Eo.
    rewrite (u32_small (32 * 1024 - o)) by lia.
    remember (if 32 * 1024 - o >=? T then T else 32 * 1024 - o) as spare eqn:Es.
    assert (Hs : 0 < spare <= T /\ o + spare <= 32 * 1024 /\
                 (o + spare < 32 * 1024 -> spare = T)).
    { subst spare. rewrite Z.geb_leb.
      destruct (Z.leb_spec T (32 * 1024 - o)); lia. }
    clear Es. destruct Hs as (Hs1 & Hs2 & Hs3).
    rewrite (u16_small (o + spare)) by lia.
    rewrite (u32_small (T - spare)) by lia.
    cbn [nflush].
    destruct (Z.eqb_spec (o + spare) (32 * 1024)) as [Efull|Enot].
    + (* the request is full: it is closed *)
      rewrite Efull.
      assert (Hdiv : (o + T) / (32 * 1024) = (T - spare) / (32 * 1024) + 1).
      { replace (o + T) with ((T - spare) + 1 * (32 * 1024)) by lia.
        apply Z.div_add. lia. }
      assert (Hdnn : 0 <= (T - spare) / (32 * 1024))
        by (apply Z.div_pos; lia).
      destruct (queue_inv_fill_close (log_buffer g) l dual Q ltac:(lia))
        as (Q2 & Hz2).
      cbv zeta in Q2, Hz2. unfold CMDLOG_FLUSH_AUTO_SIZE in Q2, Hz2.
      match type of Q2 with
      | queue_inv ?b2 _ =>
          destruct (IH (T - spare) dual (set_buffer g b2)
                       (l ++ [mkFREQ (32 * 1024) dual]) d u)
            as (b' & Hr & HI)
      end; clear IH.
      * lia.
      * lia.
      * exact Q2.
      * cbn [log_buffer set_buffer]. open_back. rewrite Hz2.
        rewrite <- Eo in L. rewrite sumf_app. cbn [sumf nflush].
        destruct L as (L1 & L2 & Lw & [(L3 & L4 & L5) | (L3 & L4 & L5 & L6)]).
        -- split; [exact L1|]. split; [exact L2|]. split; [exact Lw|]. left.
           repeat split; auto. lia.
        -- split; [exact L1|]. split; [exact L2|]. split; [exact Lw|]. right.
           rewrite length_app, skipn_app_le, sumf_app by exact L4.
           cbn [sumf nflush length]. repeat split; auto; lia.
      * cbn [log_buffer set_buffer]. open_back. rewrite Hz2.
        rewrite <- Eo in B. rewrite sumf_app. cbn [sumf nflush].
        destruct B as (B0 & [(B1 & B2 & B3 & B4) | (B1 & B2 & B3 & B4 & B5)]).
        -- split; [exact B0|]. left. repeat split; auto; lia.
        -- split; [exact B0|]. right.
           rewrite length_app, firstn_app_le, skipn_app_le, sumf_app by exact B3.
           cbn [sumf nflush length].
           assert (tail (log_buffer g) < head (log_buffer g)) by (apply Hth; lia).
           repeat split; auto; lia.
      * exact Hts.
      * exact Hth.
      * cbn [log_buffer set_buffer fend fque fqsz set_fend set_fque].
        cbn [fend fque set_fend set_fque] in Hz2.
        rewrite Hz2, length_app, Z.add_0_l, Nat2Z.inj_add. cbn [length].
        change (Z.of_nat 1) with 1. rewrite Hdiv in Hroom. lia.
      * exists b'. split; [exact Hr | exact HI].
    + (* the request stays open: the record is assigned *)
      assert (spare = T) by (apply Hs3; lia).
      assert (Hq1 : queue_inv (set_fque (log_buffer g)
                                 (upd (fque (log_buffer g)) (fend (log_buffer g))
                                      (mkFREQ (o + spare) dual))) l).
      { apply queue_inv_open_upd; [exact Q|]. cbn.
        unfold CMDLOG_FLUSH_AUTO_SIZE. lia. }
      match type of Hq1 with
      | queue_inv ?b1 _ =>
          destruct (IH (T - spare) dual (set_buffer g b1) l d u)
            as (b' & Hr & HI)
      end; clear IH.
      * lia.
      * lia.
      * exact Hq1.
      * cbn [log_buffer set_buffer]. open_back. rewrite upd_same.
        rewrite <- Eo in L. cbn [nflush].
        destruct L as (L1 & L2 & Lw & [(L3 & L4 & L5) | (L3 & L4 & L5 & L6)]).
        -- split; [exact L1|]. split; [exact L2|]. split; [exact Lw|]. left.
           repeat split; auto. lia.
        -- split; [exact L1|]. split; [exact L2|]. split; [exact Lw|]. right.
           repeat split; auto; lia.
      * cbn [log_buffer set_buffer]. open_back. rewrite upd_same.
        rewrite <- Eo in B. cbn [nflush].
        destruct B as (B0 & [(B1 & B2 & B3 & B4) | (B1 & B2 & B3 & B4 & B5)]).
        -- split; [exact B0|]. left. repeat split; auto; lia.
        -- split; [exact B0|]. right. repeat split; auto; lia.
      * exact Hts.
      * exact Hth.
      * cbn [log_buffer set_buffer fqsz fend fque set_fque].
        rewrite upd_same. cbn [nflush].
        replace (o + spare + (T - spare)) with (o + T) by lia. exact Hroom.
      * exists b'. split; [exact Hr | exact HI].
Qed.

Lemma InvL_Inv g l d u : InvL g l d u -> Inv g.
Proof. intros H. exists l, d, u. exact H. Qed.

(** Closing the open request ahead of a record leaves room for it. *)
Lemma room_after_close b b' l T :
  queue_inv b l -> 0 <= T -> room_for b l T ->
  0 < nflush (fque b (fend b)) ->
  fqsz b' = fqsz b -> nflush (fque b' (fend b')) = 0 ->
  room_for b' (l ++ [fque b (fend b)]) T.
Proof.
  intros Q HT (R1 & R2) Ho Hq Hz. specialize (R2 Ho).
  pose proof (qi_open _ _ Q) as Hop.
  unfold room_for. cbv zeta. rewrite Hq, Hz, length_app, Nat2Z.inj_add.
  cbn [length]. change (Z.of_nat 1) with 1.
  unfold CMDLOG_FLUSH_AUTO_SIZE in *.
  assert (T / (32 * 1024) <= (nflush (fque b (fend b)) + T) / (32 * 1024))
    by (apply Z.div_le_mono; lia).
  rewrite Z.add_0_l. split; lia.
Qed.

Lemma wrap_track g l d u T :
  InvL g l d u -> 0 <= T -> room_for (log_buffer g) l T ->
  last (log_buffer g) = -1 -> 0 < head (log_buffer g) ->
  exists l' u',
    InvL (set_buffer g (wrap_ring (log_buffer g))) l' d u' /\
    room_for (wrap_ring (log_buffer g)) l' T.
Proof.
  intros (Q & L & B) HT HR Hl Hh.
  destruct B as (Hsz & [(Bl & Bh & Bt & Bs) | (Bt & Bh & _)]); [|lia].
  destruct (wrap_ring_fields (log_buffer g))
    as (W1 & W2 & W3 & W4 & W5 & W6 & W7 & W8 & W9); [lia|].
  pose proof (qi_open _ _ Q) as Hop. pose proof (qi_len _ _ Q) as Hlen.
  pose proof (qi_size _ _ Q) as Hq.
  destruct (nflush (fque (log_buffer g) (fend (log_buffer g))) >? 0) eqn:Eo.
  - apply Z.gtb_lt in Eo.
    assert (Hroom : Z.of_nat (length l) + 1 < fqsz (log_buffer g)).
    { destruct HR as (_ & R2). specialize (R2 Eo).
      unfold CMDLOG_FLUSH_AUTO_SIZE in R2.
      assert (0 <= (nflush (fque (log_buffer g) (fend (log_buffer g))) + T)
                   / (32 * 1024)) by (apply Z.div_pos; lia).
      lia. }
    destruct (queue_inv_close _ (wrap_ring (log_buffer g)) _ Q Eo Hroom
                W5 W6 W8 W9) as (Q2 & Hz).
    exists (l ++ [fque (log_buffer g) (fend (log_buffer g))]),
           (length (l ++ [fque (log_buffer g) (fend (log_buffer g))])).
    split; [split; [exact Q2|split]|].
    + apply (lsn_inv_close g); auto.
    + unfold buf_inv. cbn [log_buffer set_buffer].
      rewrite W1, W2, W3, W4, Hz, firstn_all, skipn_all, sumf_app.
      cbn [sumf]. split; [exact Hsz|]. right. repeat split; lia.
    + apply room_after_close; auto.
  - rewrite Z.gtb_ltb in Eo. apply Z.ltb_ge in Eo.
    assert (Ho0 : nflush (fque (log_buffer g) (fend (log_buffer g))) = 0) by lia.
    exists l, (length l). split; [split; [|split]|].
    + apply (queue_inv_ext _ _ _ Q); auto.
    + unfold lsn_inv in *. cbn [log_buffer set_buffer nxt_write_lsn
        nxt_flush_lsn nxt_fsync_lsn]. rewrite W5, W6, W7, W8, W9. exact L.
    + unfold buf_inv. cbn [log_buffer set_buffer].
      rewrite W1, W2, W3, W4, W8, W9, firstn_all, skipn_all, Ho0.
      cbn [sumf]. split; [exact Hsz|]. right. repeat split; lia.
    + unfold room_for in *. rewrite W5, W8, W9. exact HR.
Qed.

Lemma mismatch_track g l d u dual T :
  InvL g l d u -> 0 <= T -> room_for (log_buffer g) l T ->
  let b' := close_on_mismatch dual (log_buffer g) in
  exists l' u',
    InvL (set_buffer g b') l' d u' /\
    Z.of_nat (length l') +
      (nflush (fque b' (fend b')) + T) / CMDLOG_FLUSH_AUTO_SIZE + 1 < fqsz b'.
Proof.
  intros (Q & L & B) HT HR. cbv zeta. unfold close_on_mismatch.
  destruct ((nflush (fque (log_buffer g) (fend (log_buffer g))) >? 0) &&
            negb (Bool.eqb (dual_write (fque (log_buffer g) (fend (log_buffer g))))
                           dual)) eqn:Ec.
  - apply andb_true_iff in Ec. destruct Ec as (Eo & _). apply Z.gtb_lt in Eo.
    set (b := log_buffer g) in *.
    set (b' := set_fend b (ring_next b (fend b))).
    assert (Hroom : Z.of_nat (length l) + 1 < fqsz b).
    { destruct HR as (_ & R2). specialize (R2 Eo).
      unfold CMDLOG_FLUSH_AUTO_SIZE in R2.
      assert (0 <= (nflush (fque b (fend b)) + T) / (32 * 1024))
        by (apply Z.div_pos; lia).
      lia. }
    destruct (queue_inv_close b b' l Q Eo Hroom) as (Q2 & Hz);
      try reflexivity.
    exists (l ++ [fque b (fend b)]), u.
    split; [split; [exact Q2|split]|].
    + apply (lsn_inv_close g); auto.
    + unfold buf_inv in *. cbn [log_buffer set_buffer].
      change (size b') with (size b). change (head b') with (head b).
      change (tail b') with (tail b). change (last b') with (last b).
      rewrite Hz. fold b in B.
      destruct B as (B0 & [(B1 & B2 & B3 & B4) | (B1 & B2 & B3 & B4 & B5)]).
      * split; [exact B0|]. left. rewrite sumf_app. cbn [sumf].
        repeat split; auto; lia.
      * split; [exact B0|]. right.
        rewrite length_app, firstn_app_le, skipn_app_le, sumf_app by exact B3.
        cbn [sumf length]. repeat split; auto; lia.
    + pose proof (room_after_close b b' l T Q HT HR Eo eq_refl Hz) as (R & _).
      exact R.
  - exists l, u. split.
    + split; [exact Q|]. split; [exact L | exact B].
    + destruct HR as (R1 & _). exact R1.
Qed.

Lemma find_space_track total g l d u :
  0 < total -> InvL g l d u -> room_for (log_buffer g) l total ->
  forall ok b1,
    find_space total (log_buffer g) = Ret (ok, b1) ->
    exists l1 u1,
      InvL (set_buffer g b1) l1 d u1 /\ room_for b1 l1 total /\
      (ok = true -> space_ok total b1).
Proof.
  intros Ht HL HR ok b1 Hf.
  destruct (find_space_Inv total g Ht (InvL_Inv _ _ _ _ HL))
    as (ok' & b1' & Hf' & _ & _ & Hsp & _).
  rewrite Hf in Hf'. inversion Hf'; subst ok' b1'. clear Hf'.
  assert (Hsame : b1 = log_buffer g ->
                  exists l1 u1, InvL (set_buffer g b1) l1 d u1 /\
                                room_for b1 l1 total /\
                                (ok = true -> space_ok total b1)).
  { intros ->. exists l, u. split; [|split; [exact HR | exact Hsp]].
    destruct HL as (Q & L & B). split; [exact Q|]. split; [exact L | exact B]. }
  unfold find_space in Hf.
  destruct (head (log_buffer g) <=? tail (log_buffer g)).
  - destruct (last (log_buffer g) =? -1) eqn:El;
      cbn [assert bind] in Hf; [|discriminate].
    destruct (total <? u32 (size (log_buffer g) - tail (log_buffer g))).
    + inversion Hf; subst. apply Hsame. reflexivity.
    + destruct (head (log_buffer g) >? 0) eqn:Eh.
      * inversion Hf; subst.
        apply Z.eqb_eq in El. apply Z.gtb_lt in Eh.
        destruct (wrap_track g l d u total HL ltac:(lia) HR El Eh)
          as (l1 & u1 & HL1 & HR1).
        exists l1, u1. split; [exact HL1|]. split; [exact HR1 | exact Hsp].
      * inversion Hf; subst. apply Hsame. reflexivity.
  - destruct (negb (last (log_buffer g) =? -1));
      cbn [assert bind] in Hf; [|discriminate].
    inversion Hf; subst. apply Hsame. reflexivity.
Qed.

Lemma flush_false_track g g' n l d u T :
  InvL g l d u -> room_for (log_buffer g) l T ->
  do_log_buff_flush false g = Ret (g', n) ->
  InvL g' (List.tl l) (Nat.pred d) (Nat.pred u) /\
  room_for (log_buffer g') (List.tl l) T.
Proof.
  intros (Q & L & B) HR Hf.
  split.
  - split; [eapply flush_queue_inv; eauto|].
    split; [eapply flush_lsn_inv; eauto | eapply flush_buf_inv; eauto].
  - assert (Hopen : fque (log_buffer g') (fend (log_buffer g')) =
                    fque (log_buffer g) (fend (log_buffer g)) /\
                    fqsz (log_buffer g') = fqsz (log_buffer g)).
    { pose proof (selected_cases false _ _ Q) as SC.
      pose proof Hf as Hinv. apply do_log_buff_flush_inv in Hinv.
      destruct Hinv as (_ & _ & _ & _ & _ & _ & Hinv).
      destruct (selected false (log_buffer g)) as [r|].
      - cbv zeta in Hinv. destruct Hinv as (_ & _ & Hbuf & _).
        destruct SC as [(l' & -> & Hne & _) | (_ & _ & _ & _ & Hfa)];
          [|discriminate].
        destruct (flush_some_fields n (log_buffer g))
          as (F1 & _ & _ & F4 & _ & F6 & _).
        rewrite <- Hbuf in F1, F4, F6.
        apply Z.eqb_neq in Hne. rewrite Hne in F4.
        split; [exact (pop_keeps_open _ _ _ _ Q F4 F6) | exact F1].
      - destruct Hinv as (_ & Hbuf & _).
        destruct (close_dw_fields (log_buffer g)) as (C1 & C2 & _ & C4 & _).
        rewrite Hbuf, C1, C2, C4. split; reflexivity. }
    destruct Hopen as (Ho & Hq).
    unfold room_for in *. cbv zeta in *. rewrite Ho, Hq.
    assert (Z.of_nat (length (List.tl l)) <= Z.of_nat (length l)).
    { destruct l; cbn [List.tl length]; lia. }
    destruct HR as (R1 & R2). split; [lia|]. intros Hp. specialize (R2 Hp). lia.
Qed.

Lemma acquire_track fuel :
  forall total g l d u g1,
    0 < total -> InvL g l d u -> room_for (log_buffer g) l total ->
    acquire fuel total g = Ret g1 ->
    exists l1 d1 u1,
      InvL g1 l1 d1 u1 /\ room_for (log_buffer g1) l1 total /\
      space_ok total (log_buffer g1) /\
      nxt_write_lsn g1 = nxt_write_lsn g.
Proof.
  induction fuel as [|k IH]; intros total g l d u g1 Ht HL HR;
    cbn [acquire];
    (destruct (find_space total (log_buffer g)) as [[ok b1]| |] eqn:Ef;
     cbn [bind]; try discriminate);
    destruct (find_space_track total g l d u Ht HL HR ok b1 Ef)
      as (l1 & u1 & HL1 & HR1 & Hsp);
    (destruct ok;
     [intros H; inversion H; subst; exists l1, d, u1;
      split; [exact HL1|]; split; [exact HR1|]; split; [auto | reflexivity]|]);
    try discriminate.
  destruct (do_log_buff_flush false (set_buffer g b1)) as [[g2 n]| |] eqn:Efl;
    cbn [bind fst]; try discriminate.
  intros H.
  destruct (flush_false_track _ _ _ _ _ _ total HL1 HR1 Efl) as (HL2 & HR2).
  destruct (IH total g2 _ _ _ g1 Ht HL2 HR2 H) as (l3 & d3 & u3 & A & B & C & D).
  exists l3, d3, u3. split; [exact A|]. split; [exact B|]. split; [exact C|].
  rewrite D. apply do_log_buff_flush_inv in Efl. destruct Efl as (Hw & _).
  exact Hw.
Qed.

Lemma close_on_mismatch_set_tail dual b t :
  close_on_mismatch dual (set_tail b t) =
  set_tail (close_on_mismatch dual b) t.
Proof.
  unfold close_on_mismatch. cbn [fque fend set_tail].
  destruct (_ && _); reflexivity.
Qed.

(** Once the search for space has ended, the write goes through. *)
Lemma write_after_acquire fuel r waiter dual g g1 l d u :
  let total := sizeof_LogHdr + body_length r in
  InvL g l d u -> 0 < total < 2 ^ 32 -> total < size (log_buffer g) ->
  room_for (log_buffer g) l total ->
  acquire fuel total g = Ret g1 ->
  exists g',
    do_log_buff_write fuel r waiter dual g =
      Ret (g', if waiter then Some (nxt_write_lsn g) else None) /\
    Inv g'.
Proof.
  cbv zeta. remember (sizeof_LogHdr + body_length r) as total eqn:Etot.
  intros HL Ht Hlt HR0 Ea.
  unfold do_log_buff_write.
  rewrite <- Etot. rewrite (u32_small total) by lia.
  apply Z.ltb_lt in Hlt. rewrite Hlt. cbn [assert bind]. rewrite Ea.
  cbn [bind].
  destruct (acquire_track fuel total g l d u g1 ltac:(lia) HL HR0 Ea)
    as (l1 & d1 & u1 & HL1 & HR1 & Hsp & Hw1).
  destruct (mismatch_track g1 l1 d1 u1 dual total HL1 ltac:(lia) HR1)
    as (l2 & u2 & (Q2 & L2 & B2) & HR2).
  cbv zeta in HR2. cbn [log_buffer set_buffer] in Q2, B2.
  set (b1 := log_buffer g1) in *.
  set (bm := close_on_mismatch dual b1) in *.
  destruct (close_on_mismatch_ring dual b1)
    as (M1 & M2 & M3 & M4 & M5 & M6 & M7 & M8).
  fold bm in M1, M2, M3, M4, M5, M6, M7, M8.
  assert (Hsz : 0 < size b1 < 2 ^ 31).
  { destruct HL1 as (_ & _ & (Hs & _)). exact Hs. }
  assert (Hfit : 0 <= tail b1 /\ tail b1 + total < size b1 /\
                 (last b1 <> -1 -> tail b1 + total < head b1)).
  { destruct Hsp as [(S1 & S2 & S3) | (S1 & S2 & S3)]; repeat split; lia. }
  destruct Hfit as (Ht0 & Hts & Hth).
  cbn [log_buffer set_buffer emit set_write_lsn nxt_write_lsn].
  fold b1. rewrite (u32_small (tail b1 + total)) by lia.
  rewrite close_on_mismatch_set_tail. fold bm.
  match goal with
  | |- exists _, bind (enqueue _ _ _ ?bE)
                      (fun b5 => Ret (set_buffer ?g4 b5, _)) = _ /\ _ =>
      destruct (enqueue_Inv (Z.to_nat total) total dual (set_buffer g4 bE)
                            l2 d1 u2) as (b' & Hr & HI)
  end.
  - lia.
  - lia.
  - cbn [log_buffer set_buffer]. apply (queue_inv_ext _ _ _ Q2); reflexivity.
  - open_back. unfold lsn_inv in L2. cbv zeta in L2.
    cbn [log_buffer set_buffer nxt_write_lsn nxt_flush_lsn nxt_fsync_lsn] in L2.
    fold b1 bm in L2.
    replace (roffset (nxt_write_lsn g1) + total + - total)
      with (roffset (nxt_write_lsn g1)) by lia.
    exact L2.
  - open_back. unfold buf_inv in B2. cbv zeta in B2.
    replace (tail b1 + total - total) with (tail bm) by lia.
    exact B2.
  - cbn [log_buffer set_buffer tail size set_tail]. lia.
  - cbn [log_buffer set_buffer tail head last set_tail]. rewrite M2, M4.
    exact Hth.
  - cbn [log_buffer set_buffer fque fend fqsz set_tail]. exact HR2.
  - cbn [log_buffer set_buffer] in Hr. rewrite Hr. cbn [bind].
    eexists. split; [reflexivity | exact HI].
Qed.

(** With room at [tail] the search for space ends at its first pass. *)
Lemma acquire_at_once fuel total g :
  Inv g -> 0 < total ->
  (last (log_buffer g) = -1 /\
   total < size (log_buffer g) - tail (log_buffer g)) \/
  (last (log_buffer g) <> -1 /\
   total < head (log_buffer g) - tail (log_buffer g)) ->
  acquire fuel total g = Ret g.
Proof.
  intros (l & d & u & Q & L & (Hsz & B)) Ht Hroom.
  assert (Hf : find_space total (log_buffer g) = Ret (true, log_buffer g)).
  { unfold find_space.
    destruct B as [(Bl & Bh & Bt & Bs) | (Bt & Bh & Bu & Bf & Bs)].
    - destruct Hroom as [(_ & Hr) | (Hr & _)]; [|contradiction].
      destruct (Z.leb_spec (head (log_buffer g)) (tail (log_buffer g))); [|lia].
      rewrite Bl. cbn [Z.eqb Pos.eqb assert bind]. rewrite u32_small by lia.
      destruct (Z.ltb_spec total (size (log_buffer g) - tail (log_buffer g)));
        [reflexivity | lia].
    - destruct Hroom as [(Hr & _) | (_ & Hr)]; [lia|].
      destruct (Z.leb_spec (head (log_buffer g)) (tail (log_buffer g))); [lia|].
      destruct (Z.eqb_spec (last (log_buffer g)) (-1)); [lia|].
      cbn [negb assert bind]. rewrite u32_small by lia.
      destruct (Z.ltb_spec total (head (log_buffer g) - tail (log_buffer g)));
        [reflexivity | lia]. }
  destruct fuel; cbn [acquire]; rewrite Hf; cbn [bind];
    destruct g; reflexivity.
Qed.

(** A write that returns keeps the invariant. *)
Lemma write_keeps_Inv fuel r waiter dual g :
  Inv g -> 0 < sizeof_LogHdr + body_length r < 2 ^ 32 ->
  sizeof_LogHdr + body_length r < size (log_buffer g) ->
  room 2 (log_buffer g) (sizeof_LogHdr + body_length r) ->
  forall g' stamp,
    log_record_write fuel r waiter dual g = Ret (g', stamp) ->
    Inv g'.
Proof.
  intros HI Ht Hlt HR g' stamp H.
  pose proof HI as (l & d & u & Q & L & B).
  assert (HR0 : room_for (log_buffer g) l (sizeof_LogHdr + body_length r)).
  { unfold room in HR. rewrite (closed_count_len _ _ Q) in HR.
    unfold room_for. cbv zeta. split; [lia | intros _; exact HR]. }
  unfold log_record_write in H.
  destruct (acquire fuel (sizeof_LogHdr + body_length r) g) as [g1| |] eqn:Ea.
  - destruct (write_after_acquire fuel r waiter dual g g1 l d u
                (conj Q (conj L B)) Ht Hlt HR0 Ea) as (g2 & Hw & HI2).
    rewrite Hw in H. inversion H; subst. exact HI2.
  - exfalso. unfold do_log_buff_write in H.
    rewrite (u32_small (sizeof_LogHdr + body_length r)) in H by lia.
    rewrite Ea in H. destruct (_ <? _); discriminate.
  - exfalso. unfold do_log_buff_write in H.
    rewrite (u32_small (sizeof_LogHdr + body_length r)) in H by lia.
    rewrite Ea in H. destruct (_ <? _); discriminate.
Qed.

(** X20: [log_record_write] keeps the invariant.  From a state of the
    invariant, with places left in the queue for the requests the record
    can take up (the closed requests, the requests the record fills, and two
    more, stay below [fqsz]): a write that returns leaves a state of the
    invariant, where [nxt_fsync_lsn <= nxt_flush_lsn <= nxt_write_lsn]; the
    write returns whenever its search for space ends; and it ends at once,
    whatever the bound on its passes, when there is room at [tail]. *)
Theorem record_write_keeps_invariant (fuel : nat) (r : LogRec)
        (waiter dual : bool) (g : log_global) :
  let total := sizeof_LogHdr + body_length r in
  Inv g -> 0 < total < 2 ^ 32 -> total < size (log_buffer g) ->
  room 2 (log_buffer g) total ->
  (forall g' stamp,
     log_record_write fuel r waiter dual g = Ret (g', stamp) ->
     Inv g' /\
     lsn_le (nxt_fsync_lsn g') (nxt_flush_lsn g') /\
     lsn_le (nxt_flush_lsn g') (nxt_write_lsn g')) /\
  (forall g1,
     acquire fuel total g = Ret g1 ->
     exists g' stamp, log_record_write fuel r waiter dual g = Ret (g', stamp)) /\
  ((last (log_buffer g) = -1 /\
    total < size (log_buffer g) - tail (log_buffer g)) \/
   (last (log_buffer g) <> -1 /\
    total < head (log_buffer g) - tail (log_buffer g)) ->
   exists g' stamp, log_record_write fuel r waiter dual g = Ret (g', stamp)).
Proof.
  cbv zeta. intros HI Ht Hlt HR.
  pose proof HI as (l & d & u & Q & L & B).
  assert (HR0 : room_for (log_buffer g) l (sizeof_LogHdr + body_length r)).
  { unfold room in HR. rewrite (closed_count_len _ _ Q) in HR.
    unfold room_for. cbv zeta. split; [lia | intros _; exact HR]. }
  assert (Hcore : forall g1,
            acquire fuel (sizeof_LogHdr + body_length r) g = Ret g1 ->
            exists g',
              do_log_buff_write fuel r waiter dual g =
                Ret (g', if waiter then Some (nxt_write_lsn g) else None) /\
              Inv g').
  { intros g1 Ea.
    exact (write_after_acquire fuel r waiter dual g g1 l d u
             (conj Q (conj L B)) Ht Hlt HR0 Ea). }
  split; [|split].
  - intros g' stamp H. unfold log_record_write in H.
    destruct (acquire fuel (sizeof_LogHdr + body_length r) g) as [g1| |] eqn:Ea.
    + destruct (Hcore g1 eq_refl) as (g2 & Hw & HI2).
      rewrite Hw in H. inversion H; subst.
      split; [exact HI2 | apply Inv_flush_le_write; exact HI2].
    + exfalso. unfold do_log_buff_write in H.
      rewrite (u32_small (sizeof_LogHdr + body_length r)) in H by lia.
      rewrite Ea in H. destruct (_ <? _); discriminate.
    + exfalso. unfold do_log_buff_write in H.
      rewrite (u32_small (sizeof_LogHdr + body_length r)) in H by lia.
      rewrite Ea in H. destruct (_ <? _); discriminate.
  - intros g1 Ea. destruct (Hcore g1 Ea) as (g' & Hw & _).
    exists g', (if waiter then Some (nxt_write_lsn g) else None). exact Hw.
  - intros Hroom.
    destruct (Hcore g (acquire_at_once fuel _ g HI (proj1 Ht) Hroom))
      as (g' & Hw & _).
    exists g', (if waiter then Some (nxt_write_lsn g) else None). exact Hw.
Qed.

Lemma record_write_keeps_invariant_witness :
  exists g' stamp,
    log_record_write 0 (mkLogRec 40000) true true three_records =
      Ret (g', stamp) /\ Inv g'.
Proof.
  destruct (record_write_keeps_invariant 0 (mkLogRec 40000) true true
              three_records) as (H1 & _ & H3).
  - exact Inv_three_records.
  - vm_compute. split; reflexivity.
  - vm_compute. reflexivity.
  - vm_compute. reflexivity.
  - destruct H3 as (g' & stamp & Hw).
    + left. split; vm_compute; reflexivity.
    + exists g', stamp. split; [exact Hw|].
      destruct (H1 g' stamp Hw) as (HI & _). exact HI.
Defined.

(** ** The rotation keeps the invariant *)

Lemma lsn_inv_no_window g l d :
  queue_inv (log_buffer g) l -> lsn_inv g l d ->
  dw_end (log_buffer g) = -1 ->
  filenum (nxt_flush_lsn g) = filenum (nxt_write_lsn g).
Proof.
  intros Q (_ & _ & _ & [(_ & H & _) | (H & _)]) Hd; [exact H|].
  pose proof (qi_size _ _ Q) as Hq.
  pose proof (Z.mod_pos_bound (fbgn (log_buffer g) + Z.of_nat d)
                (fqsz (log_buffer g)) ltac:(lia)).
  lia.
Qed.

Lemma rotation_Inv fuel g g' :
  Inv g -> room 1 (log_buffer g) 0 -> fd (next g) <> -1 ->
  filenum (nxt_write_lsn g) < 2 ^ 32 - 1 ->
  cmdlog_complete_dual_write fuel true g = Ret g' ->
  Inv g'.
Proof.
  intros (l & d & u & Q & L & B) HR Hn Hmax H.
  pose proof (qi_size _ _ Q) as Hq. pose proof (qi_fbgn _ _ Q) as Hb.
  pose proof (queue_inv_fend_range _ _ Q) as He.
  pose proof (qi_open _ _ Q) as Ho. pose proof (qi_len _ _ Q) as Hlen.
  assert (Hd : dw_end (log_buffer g) = -1).
  { unfold cmdlog_complete_dual_write in H.
    apply Z.eqb_neq in Hn. rewrite Hn in H. cbv zeta in H.
    destruct (Z.eqb_spec (dw_end (log_buffer g)) (-1)) as [E|E]; [exact E|].
    exfalso.
    destruct (nflush (fque (log_buffer g) (fend (log_buffer g))) >? 0);
      cbn [dw_end set_fend] in H; apply Z.eqb_neq in E; rewrite E in H;
      discriminate. }
  destruct (complete_dual_write_buffer fuel g) as (g2 & Hc & Hbuf & Hw & Hf & Hs & _).
  { unfold queue_wf. lia. }
  { exact Hn. }
  { exact Hd. }
  rewrite Hc in H. inversion H; subst g2. clear H Hc. cbv zeta in Hbuf.
  pose proof (lsn_inv_no_window g l d Q L Hd) as Hfn.
  destruct L as (L1 & L2 & Lw & _).
  rewrite (bump_small (nxt_write_lsn g)) in Hw by lia.
  unfold room in HR. rewrite (closed_count_len _ _ Q) in HR.
  destruct (nflush (fque (log_buffer g) (fend (log_buffer g))) >? 0) eqn:Eo.
  - apply Z.gtb_lt in Eo.
    set (b := log_buffer g) in *.
    set (b1 := set_fend b (ring_next b (fend b))) in *.
    assert (0 <= (nflush (fque b (fend b)) + 0) / CMDLOG_FLUSH_AUTO_SIZE)
      by (apply Z.div_pos; unfold CMDLOG_FLUSH_AUTO_SIZE; lia).
    destruct (queue_inv_close b b1 l Q Eo ltac:(lia)) as (Q1 & Hz);
      try reflexivity.
    exists (l ++ [fque b (fend b)]), (length (l ++ [fque b (fend b)])), u.
    split; [|split].
    + rewrite Hbuf. apply (queue_inv_ext _ _ _ Q1); reflexivity.
    + unfold lsn_inv. cbv zeta. rewrite Hbuf, Hw, Hf, Hs.
      cbn [dw_end fbgn fqsz fque fend set_dw_end].
      split; [exact L1|]. split; [exact L2|].
      split; [cbn [filenum]; lia|]. right.
      rewrite skipn_all. cbn [sumf]. rewrite Hz.
      split; [exact (qi_fend _ _ Q1)|]. split; [lia|].
      cbn [filenum roffset]. split; lia.
    + unfold buf_inv in *. cbv zeta in *. rewrite Hbuf.
      cbn [size head tail last fque fend set_dw_end].
      change (size b1) with (size b). change (head b1) with (head b).
      change (tail b1) with (tail b). change (last b1) with (last b).
      rewrite Hz.
      destruct B as (B0 & [(B1 & B2 & B3 & B4) | (B1 & B2 & B3 & B4 & B5)]).
      * split; [exact B0|]. left. rewrite sumf_app. cbn [sumf].
        repeat split; auto; lia.
      * split; [exact B0|]. right.
        rewrite length_app, firstn_app_le, skipn_app_le, sumf_app by exact B3.
        cbn [sumf length]. repeat split; auto; lia.
  - rewrite Z.gtb_ltb in Eo. apply Z.ltb_ge in Eo.
    assert (Ho0 : nflush (fque (log_buffer g) (fend (log_buffer g))) = 0) by lia.
    exists l, (length l), u. split; [|split].
    + rewrite Hbuf. apply (queue_inv_ext _ _ _ Q); reflexivity.
    + unfold lsn_inv. cbv zeta. rewrite Hbuf, Hw, Hf, Hs.
      cbn [dw_end fbgn fqsz fque fend set_dw_end].
      split; [exact L1|]. split; [exact L2|].
      split; [cbn [filenum]; lia|]. right.
      rewrite skipn_all. cbn [sumf]. rewrite Ho0.
      split; [exact (qi_fend _ _ Q)|]. split; [lia|].
      cbn [filenum roffset]. split; lia.
    + unfold buf_inv in *. cbv zeta in *. rewrite Hbuf.
      cbn [size head tail last fque fend set_dw_end]. exact B.
Qed.

Lemma file_sync_lsns g g' :
  log_file_sync g = Ret g' ->
  nxt_write_lsn g' = nxt_write_lsn g /\ nxt_flush_lsn g' = nxt_flush_lsn g /\
  nxt_fsync_lsn g' = nxt_flush_lsn g.
Proof.
  unfold log_file_sync, log_file_sync_begin, log_file_sync_end.
  destruct (negb (fd (curr g) =? -1)); cbn [assert bind]; [|discriminate].
  intros H. inversion H; subst. clear H.
  repeat match goal with
         | |- context [if ?c then _ else _] => destruct c
         end; repeat split; reflexivity.
Qed.

Lemma file_sync_Inv g g' : log_file_sync g = Ret g' -> Inv g -> Inv g'.
Proof.
  intros H (l & d & u & Q & L & B).
  pose proof (file_sync_buffer _ _ H) as Hb.
  destruct (file_sync_lsns _ _ H) as (Hw & Hf & Hs).
  exists l, d, u. rewrite Hb. split; [exact Q|]. split; [|exact B].
  unfold lsn_inv in *. cbv zeta in *. rewrite Hb, Hw, Hf, Hs.
  destruct L as (_ & L2 & L3). split; [|split; [exact L2 | exact L3]].
  right. split; [reflexivity | lia].
Qed.

Lemma file_prepare_Inv newfd g :
  Inv g -> Inv (fst (cmdlog_file_prepare newfd g)).
Proof.
  intros (l & d & u & Q & L & B). exists l, d, u.
  unfold cmdlog_file_prepare.
  destruct (newfd <? 0); [cbn [fst]; auto|].
  destruct (fd (curr g) =? -1); cbn [fst]; auto.
Qed.

Lemma buffer_flush_Inv fuel :
  forall upto g g',
    log_buffer_flush fuel upto g = Ret g' -> Inv g -> Inv g'.
Proof.
  induction fuel as [|k IH]; intros upto g g' H HI;
    cbn [log_buffer_flush] in H;
    (destruct (LOGSN_IS_LE (nxt_flush_lsn g) upto);
     [|inversion H; subst; exact HI]);
    (destruct (do_log_buff_flush true g) as [[g1 n]| |] eqn:Ef;
     cbn [bind] in H; try discriminate);
    (destruct (n >? 0); cbn [assert bind] in H; try discriminate);
    pose proof (flush_preserves_Inv _ _ _ _ HI Ef) as HI1;
    (destruct (LOGSN_IS_GT (nxt_flush_lsn g1) upto);
     [inversion H; subst; exact HI1|]);
    try discriminate.
  eapply IH; eauto.
Qed.

Lemma Inv_init : Inv cmdlog_buf_init.
Proof.
  apply Inv_open_only; try (vm_compute; intuition congruence).
Qed.

Lemma reset_dual_short fuel :
  forall (n : nat) i b,
    0 < fqsz b < 2 ^ 31 -> 0 <= i < fqsz b ->
    (forall k, 0 <= k < Z.of_nat n ->
               0 < nflush (fque b ((i + k) mod fqsz b))) ->
    (fuel < n)%nat ->
    reset_dual fuel i b = OutOfFuel.
Proof.
  induction fuel as [|f IH]; intros n i b Hq Hi Hrun Hlt; cbn [reset_dual];
    (assert (H0 : 0 < nflush (fque b i));
     [specialize (Hrun 0 ltac:(lia));
      rewrite Z.add_0_r, Z.mod_small in Hrun by lia; exact Hrun|]);
    (assert (E0 : (nflush (fque b i) >? 0) = true) by (apply Z.gtb_lt; lia));
    rewrite E0; [reflexivity|].
  set (b1 := if dual_write (fque b i)
             then set_fque b (upd (fque b) i (mkFREQ (nflush (fque b i)) false))
             else b).
  assert (Hq1 : fqsz b1 = fqsz b) by (subst b1; destruct (dual_write _); reflexivity).
  assert (Hn1 : forall j, nflush (fque b1 j) = nflush (fque b j)).
  { intros j. subst b1. destruct (dual_write (fque b i)); [|reflexivity].
    cbn [fque set_fque]. unfold upd.
    destruct (Z.eqb_spec j i); [subst; reflexivity | reflexivity]. }
  destruct n as [|m]; [lia|].
  apply (IH m).
  - rewrite Hq1. exact Hq.
  - pose proof (ring_next_range b1 i) as Hrn. rewrite Hq1 in Hrn.
    rewrite Hq1. apply Hrn; assumption.
  - intros k Hk. rewrite ring_next_eq by (rewrite ?Hq1; lia).
    rewrite Hq1, Hn1, Z.add_mod_idemp_l by lia.
    replace (i + 1 + k) with (i + (k + 1)) by lia. apply Hrun. lia.
  - lia.
Qed.

Lemma sumf_map_clear l :
  sumf (map (fun r => mkFREQ (nflush r) false) l) = sumf l.
Proof. induction l as [|r l IH]; cbn; [reflexivity | rewrite IH; reflexivity]. Qed.

Lemma failure_Inv_core g g' l d u b1 (n : nat) :
  queue_inv (log_buffer g) l -> lsn_inv g l d -> buf_inv (log_buffer g) l u ->
  (length l <= n)%nat ->
  b1 = set_fque (log_buffer g) (fque b1) ->
  (forall j, nflush (fque b1 j) = nflush (fque (log_buffer g) j)) ->
  (forall k, 0 <= k < Z.of_nat n ->
     dual_write (fque b1 ((fbgn (log_buffer g) + k) mod fqsz (log_buffer g)))
     = false) ->
  log_buffer g' = b1 -> nxt_write_lsn g' = nxt_write_lsn g ->
  nxt_flush_lsn g' = nxt_flush_lsn g -> nxt_fsync_lsn g' = nxt_fsync_lsn g ->
  Inv g'.
Proof.
  intros Q L B Hle Hb1 Hn Hk Hbuf Hw Hf Hs.
  set (clr := fun r : log_FREQ => mkFREQ (nflush r) false).
  exists (map clr l), d, u.
  assert (F : fqsz b1 = fqsz (log_buffer g) /\ fbgn b1 = fbgn (log_buffer g) /\
              fend b1 = fend (log_buffer g) /\ dw_end b1 = dw_end (log_buffer g) /\
              size b1 = size (log_buffer g) /\ head b1 = head (log_buffer g) /\
              tail b1 = tail (log_buffer g) /\ last b1 = last (log_buffer g)).
  { rewrite Hb1. cbn. repeat split. }
  destruct F as (F1 & F2 & F3 & F4 & F5 & F6 & F7 & F8).
  split; [|split].
  - rewrite Hbuf. destruct Q as [Hq Hb Hl He Hc Ho Hfr].
    constructor; rewrite ?F1, ?F2, ?F3, ?length_map; auto.
    + intros k r E. rewrite nth_error_map in E.
      destruct (nth_error l k) as [r0|] eqn:E0; [|discriminate].
      cbn in E. inversion E; subst r. destruct (Hc k r0 E0) as (Hs0 & Hr0).
      assert (Hkl : (k < length l)%nat) by (apply nth_error_Some; congruence).
      unfold slot in *. rewrite F1, F2. split; [|exact Hr0].
      specialize (Hk (Z.of_nat k) ltac:(lia)). specialize (Hn ((fbgn (log_buffer g) + Z.of_nat k) mod fqsz (log_buffer g))).
      rewrite Hs0 in Hn.
      destruct (fque b1 ((fbgn (log_buffer g) + Z.of_nat k) mod fqsz (log_buffer g)))
        as [nf dw]. cbn in Hk, Hn. subst. reflexivity.
    + rewrite Hn. exact Ho.
    + intros k Hk'. unfold slot in *. rewrite F1, F2, Hn. apply Hfr. exact Hk'.
  - unfold lsn_inv in *. cbv zeta in *.
    rewrite Hbuf, Hw, Hf, Hs, F1, F2, F3, F4, Hn, length_map.
    rewrite skipn_map, !sumf_map_clear. exact L.
  - unfold buf_inv in *. cbv zeta in *.
    rewrite Hbuf, F3, F5, F6, F7, F8, Hn, length_map.
    rewrite skipn_map, firstn_map, !sumf_map_clear. exact B.
Qed.

Lemma failure_Inv fuel g g' :
  Inv g -> cmdlog_complete_dual_write fuel false g = Ret g' -> Inv g'.
Proof.
  intros HI H. pose proof HI as (l & d & u & Q & L & B).
  unfold cmdlog_complete_dual_write in H.
  destruct (fd (next g) =? -1); [inversion H; subst; exact HI|].
  pose proof (qi_size _ _ Q) as Hq. pose proof (qi_fbgn _ _ Q) as Hb.
  pose proof (qi_len _ _ Q) as Hlen. pose proof (qi_open _ _ Q) as Ho.
  rewrite s32_small in H by lia.
  destruct (reset_dual fuel (fbgn (log_buffer g)) (log_buffer g))
    as [b1| |] eqn:Er; cbn [bind] in H; try discriminate.
  assert (Hg' : log_buffer g' = b1 /\ nxt_write_lsn g' = nxt_write_lsn g /\
                nxt_flush_lsn g' = nxt_flush_lsn g /\
                nxt_fsync_lsn g' = nxt_fsync_lsn g).
  { match type of H with
    | (if ?c then _ else _) = _ => destruct c
    end; inversion H; subst; repeat split. }
  clear H. destruct Hg' as (Hbuf & Hw & Hf & Hs).
  assert (Hroom' : Z.of_nat (length l) + 1 < fqsz (log_buffer g) \/
                   nflush (fque (log_buffer g) (fend (log_buffer g))) = 0).
  { destruct (Z_lt_ge_dec (Z.of_nat (length l) + 1) (fqsz (log_buffer g)))
      as [Hroom|Hfull]; [left; exact Hroom|].
    destruct (Z.eq_dec (nflush (fque (log_buffer g) (fend (log_buffer g)))) 0)
      as [Hz|Hnz]; [right; exact Hz|].
    exfalso.
    rewrite (reset_dual_full fuel) in Er; [discriminate | lia | exact Hb |].
    intros j Hj.
    assert (Hback : j = (fbgn (log_buffer g) +
                         (j - fbgn (log_buffer g)) mod fqsz (log_buffer g))
                        mod fqsz (log_buffer g)).
    { rewrite Z.add_mod_idemp_r by lia.
      replace (fbgn (log_buffer g) + (j - fbgn (log_buffer g))) with j by lia.
      rewrite Z.mod_small by lia. reflexivity. }
    pose proof (Z.mod_pos_bound (j - fbgn (log_buffer g))
                  (fqsz (log_buffer g)) ltac:(lia)) as Hm.
    set (k := (j - fbgn (log_buffer g)) mod fqsz (log_buffer g)) in *.
    destruct (Z.eq_dec k (Z.of_nat (length l))) as [Ek|Ek].
    - rewrite Hback, Ek, <- (qi_fend _ _ Q). lia.
    - destruct (nth_error l (Z.to_nat k)) as [r|] eqn:E.
      + destruct (qi_closed _ _ Q _ _ E) as (Hsl & Hr).
        unfold slot in Hsl. rewrite Z2Nat.id in Hsl by lia.
        rewrite Hback, Hsl. lia.
      + apply nth_error_None in E. lia. }
  destruct (queue_inv_run _ _ Q Hroom') as (n & Hle & Hrun & Hend & Hall).
  destruct (le_lt_dec n fuel) as [Hfu|Hfu].
  2:{ rewrite (reset_dual_short fuel n) in Er; try discriminate; auto; lia. }
  destruct (reset_dual_run n (fbgn (log_buffer g)) (log_buffer g)
              ltac:(lia) Hb Hrun Hend fuel Hfu)
    as (b2 & Hr2 & Hb2 & Hn2 & _ & Hk2).
  rewrite Hr2 in Er. inversion Er; subst b2. clear Er Hr2.
  apply (failure_Inv_core g g' l d u b1 n); auto. lia.
Qed.

(** X21: a rotation keeps the invariant.  From a state of the invariant
    with a next file, no cleanup window open and a place left in the queue
    for the open request, [cmdlog_complete_dual_write(true)] returns, with
    [nxt_write_lsn] at the next file number (the increment of a
    [uint32_t]) and roffset 0.  While the file number is below the largest
    [uint32_t], that is (filenum + 1, 0), the state left satisfies the
    invariant, and [nxt_fsync_lsn <= nxt_flush_lsn <= nxt_write_lsn].  At
    the largest file number the increment wraps: [nxt_write_lsn] is (0, 0)
    and [nxt_flush_lsn], still in the old file, is above it. *)
Theorem rotation_keeps_invariant (fuel : nat) (g : log_global) :
  Inv g -> dw_end (log_buffer g) = -1 -> fd (next g) <> -1 ->
  room 1 (log_buffer g) 0 ->
  exists g',
    cmdlog_complete_dual_write fuel true g = Ret g' /\
    nxt_write_lsn g' = mkLogSN (u32 (filenum (nxt_write_lsn g) + 1)) 0 /\
    (filenum (nxt_write_lsn g) < 2 ^ 32 - 1 ->
     Inv g' /\
     nxt_write_lsn g' = mkLogSN (filenum (nxt_write_lsn g) + 1) 0 /\
     lsn_le (nxt_fsync_lsn g') (nxt_flush_lsn g') /\
     lsn_le (nxt_flush_lsn g') (nxt_write_lsn g')) /\
    (filenum (nxt_write_lsn g) = 2 ^ 32 - 1 ->
     nxt_write_lsn g' = mkLogSN 0 0 /\
     ~ lsn_le (nxt_flush_lsn g') (nxt_write_lsn g')).
Proof.
  intros HI Hd Hn HR. pose proof HI as (l & d & u & Q & L & _).
  pose proof (qi_size _ _ Q) as Hq. pose proof (qi_fbgn _ _ Q) as Hb.
  pose proof (queue_inv_fend_range _ _ Q) as He.
  pose proof (lsn_inv_no_window g l d Q L Hd) as Hfn.
  destruct L as (_ & _ & Lw & _).
  destruct (complete_dual_write_buffer fuel g) as (g' & Hc & _ & Hw & Hf & _).
  { unfold queue_wf. lia. }
  { exact Hn. }
  { exact Hd. }
  exists g'. split; [exact Hc|]. split; [exact Hw|]. split.
  - intros Hmax.
    pose proof (rotation_Inv fuel g g' HI HR Hn Hmax Hc) as HI'.
    split; [exact HI'|]. split; [rewrite Hw; apply bump_small; lia|].
    apply Inv_flush_le_write. exact HI'.
  - intros Hmax. rewrite Hw, Hf. unfold bump_filenum. rewrite Hmax.
    split; [reflexivity|]. unfold lsn_le. cbn [filenum roffset].
    change (u32 (2 ^ 32 - 1 + 1)) with 0. lia.
Qed.

Lemma Inv_dual_pending : Inv dual_pending.
Proof.
  apply Inv_open_only; try (vm_compute; intuition congruence).
  intros j Hj. vm_compute in Hj. vm_compute.
  destruct j; try reflexivity. contradiction.
Qed.

Lemma rotation_keeps_invariant_witness :
  exists g',
    cmdlog_complete_dual_write 0 true dual_pending = Ret g' /\ Inv g' /\
    nxt_write_lsn g' = mkLogSN 2 0.
Proof.
  destruct (rotation_keeps_invariant 0 dual_pending)
    as (g' & H1 & _ & H2 & _).
  - exact Inv_dual_pending.
  - reflexivity.
  - vm_compute. discriminate.
  - vm_compute. reflexivity.
  - destruct H2 as (H2 & H3 & _); [vm_compute; reflexivity|].
    exists g'. split; [exact H1|]. split; [exact H2 | exact H3].
Defined.

(** X22: along every run from [cmdlog_buf_init] in which each write and
    each completed rotation starts with places left in the flush-request
    queue, and each completed rotation with a file number below the
    largest [uint32_t], every state satisfies the invariant, and so
    [nxt_fsync_lsn <= nxt_flush_lsn <= nxt_write_lsn] throughout. *)
Theorem runs_with_room_keep_order (g : log_global) :
  roomy g ->
  Inv g /\
  lsn_le (nxt_fsync_lsn g) (nxt_flush_lsn g) /\
  lsn_le (nxt_flush_lsn g) (nxt_write_lsn g).
Proof.
  intros Hr.
  enough (HI : Inv g) by (split; [exact HI | apply Inv_flush_le_write; exact HI]).
  induction Hr as [| fuel r waiter dual g g' stamp _ IH Hok HR Hw
                   | g g' n _ IH Hf
                   | fuel upto g g' _ IH Hf
                   | g g' _ IH Hs
                   | fuel g g' _ IH HR Hmax Hc
                   | fuel g g' _ IH Hc
                   | newfd g _ IH].
  - exact Inv_init.
  - pose proof (Inv_size g IH) as Hsz.
    assert (Hlt : sizeof_LogHdr + body_length r < size (log_buffer g)).
    { unfold log_record_write, do_log_buff_write in Hw.
      destruct Hok as (Hlo & Hhi).
      rewrite (u32_small (sizeof_LogHdr + body_length r)) in Hw
        by (unfold CMDLOG_RECORD_MIN_SIZE in Hlo; lia).
      destruct (Z.ltb_spec (sizeof_LogHdr + body_length r) (size (log_buffer g)));
        [assumption | discriminate]. }
    destruct Hok as (Hlo & Hhi). unfold CMDLOG_RECORD_MIN_SIZE in Hlo.
    exact (write_keeps_Inv fuel r waiter dual g IH ltac:(lia) Hlt HR g' stamp Hw).
  - eapply flush_preserves_Inv; eauto.
  - eapply buffer_flush_Inv; eauto.
  - eapply file_sync_Inv; eauto.
  - destruct (Z.eq_dec (fd (next g)) (-1)) as [E|E].
    + unfold cmdlog_complete_dual_write in Hc. rewrite E in Hc.
      inversion Hc; subst. exact IH.
    + eapply rotation_Inv; eauto.
  - eapply failure_Inv; eauto.
  - apply file_prepare_Inv. exact IH.
Qed.

Lemma roomy_one_record : roomy one_record.
Proof.
  apply (roomy_write 0 (mkLogRec 8) true false one_file one_record
                     (Some (mkLogSN 1 0))).
  - apply roomy_prepare. exact roomy_init.
  - vm_compute. split; [discriminate | reflexivity].
  - vm_compute. reflexivity.
  - vm_compute. reflexivity.
Qed.

(** The run of [rotated_run], operation by operation. *)
Lemma roomy_rotated_run : roomy rotated_run.
Proof.
  pose (g1 := fst (cmdlog_file_prepare 4 one_record)).
  pose (g2 := state_of (cmdlog_complete_dual_write 0 true g1)).
  pose (g3 := fst (ret_of (g2, 0) (do_log_buff_flush false g2))).
  pose (g4 := state_of (write_rec 0 8 false g3)).
  assert (R1 : roomy g1) by (apply roomy_prepare; exact roomy_one_record).
  assert (R2 : roomy g2).
  { apply (roomy_rotation 0 g1 g2 R1); vm_compute; reflexivity. }
  assert (R3 : roomy g3).
  { apply (roomy_flush_once g2 g3 16 R2). vm_compute. reflexivity. }
  assert (R4 : roomy g4).
  { apply (roomy_write 0 (mkLogRec 8) true false g3 g4 (Some (mkLogSN 2 0)) R3).
    - vm_compute. split; [discriminate | reflexivity].
    - vm_compute. reflexivity.
    - vm_compute. reflexivity. }
  apply (roomy_file_sync g4 rotated_run R4). vm_compute. reflexivity.
Qed.

Lemma runs_with_room_keep_order_witness :
  nxt_fsync_lsn rotated_run = mkLogSN 1 16 /\
  nxt_flush_lsn rotated_run = mkLogSN 1 16 /\
  nxt_write_lsn rotated_run = mkLogSN 2 16 /\
  lsn_le (nxt_fsync_lsn rotated_run) (nxt_flush_lsn rotated_run) /\
  lsn_le (nxt_flush_lsn rotated_run) (nxt_write_lsn rotated_run).
Proof.
  destruct (runs_with_room_keep_order rotated_run roomy_rotated_run)
    as (_ & H1 & H2).
  repeat split; [exact H1 | exact H2].
Defined.

(** ** [cmdlog_buf_init] when an allocation fails *)

(** X23: [cmdlog_buf_init].  When either allocation fails it returns
    ENGINE_ENOMEM with nothing left allocated ([data] is freed when it is
    [fque] that failed) and [initialized] still false, so that
    [cmdlog_buf_final] afterwards does nothing.  When both succeed it
    returns ENGINE_SUCCESS with the module initialized: both allocations
    held, the three sequence numbers at (1, 0), no file, the ring and the
    queue empty, and no cleanup window. *)
Theorem buf_init_failure_leaves_nothing (data_ok fque_ok : bool) :
  let '(ret, m, g) := cmdlog_buf_init_alloc data_ok fque_ok in
  (data_ok && fque_ok = false ->
   ret = ENGINE_ENOMEM /\ m = mkMem false false /\ initialized g = false /\
   cmdlog_buf_final m g = Ret (m, g)) /\
  (data_ok && fque_ok = true ->
   ret = ENGINE_SUCCESS /\ m = mkMem true true /\ g = cmdlog_buf_init /\
   Inv g).
Proof.
  destruct data_ok, fque_ok; cbn; split; intros H; try discriminate;
    repeat split.
  exact Inv_init.
Qed.

(** * The write path on states of the invariant *)

(** ** Where a record is stored *)









(** ** The search for space *)


(** [near_end_pending] is [near_end] after a record of 100 bytes. *)
Lemma near_end_pending_written :
  write_rec 0 92 false near_end = Ret near_end_pending.
Proof. vm_compute. reflexivity. Qed.



(** The policy covers states outside the invariant: the state the run of
    [late_base] ends in, where [nxt_flush_lsn] has passed [nxt_write_lsn],
    has a well-formed ring. *)
Lemma ring_ok_after_overflow :
  exists g,
    reachable g /\ ~ lsn_le (nxt_flush_lsn g) (nxt_write_lsn g) /\
    ~ Inv g /\ ring_ok (log_buffer g).
Proof.
  destruct late_base as (g & Hr & HS).
  destruct HS as (Hsz & Hq & Hh & Ht & Hl & Hfb & Hfe & Hdw & HW & HF & _).
  cbv zeta in *.
  assert (Hn : ~ lsn_le (nxt_flush_lsn g) (nxt_write_lsn g)).
  { rewrite HW, HF. unfold lsn_le. cbn. lia. }
  exists g. split; [exact Hr|]. split; [exact Hn|]. split.
  - intros HI. apply Hn. apply Inv_flush_le_write. exact HI.
  - unfold ring_ok. rewrite Hsz, Hq, Hh, Ht, Hl, Hfe.
    unfold CMDLOG_BUFFER_SIZE, QSZ. lia.
Qed.

(** * [log_buffer_flush] up to a written position *)

Lemma skipn_nth_cons {A} (l : list A) j r :
  nth_error l j = Some r -> skipn j l = r :: skipn (S j) l.
Proof.
  revert j. induction l as [|a l IH]; intros [|j] H; cbn in *; try discriminate.
  - inversion H. reflexivity.
  - apply IH. exact H.
Qed.

(** The requests before [dw_end] are the first closed requests. *)
Lemma sum_slots_closed b l :
  queue_inv b l ->
  forall k j, (j + k <= length l)%nat ->
    sum_slots b ((fbgn b + Z.of_nat j) mod fqsz b) k =
    sumf (firstn k (skipn j l)).
Proof.
  intros Q. pose proof (qi_size _ _ Q) as Hq. pose proof (qi_fbgn _ _ Q) as Hb.
  induction k as [|k IH]; intros j Hj; [reflexivity|].
  cbn [sum_slots].
  destruct (nth_error l j) as [r|] eqn:E;
    [|apply nth_error_None in E; lia].
  destruct (qi_closed _ _ Q _ _ E) as (Hs & _). unfold slot in Hs.
  rewrite (skipn_nth_cons _ _ _ E). cbn [firstn sumf]. rewrite Hs.
  rewrite ring_next_eq by (try lia; apply Z.mod_pos_bound; lia).
  rewrite Z.add_mod_idemp_l by lia.
  replace (fbgn b + Z.of_nat j + 1) with (fbgn b + Z.of_nat (S j)) by lia.
  rewrite IH by lia. reflexivity.
Qed.

Lemma window_bytes_eq b l (d : nat) :
  queue_inv b l -> (d <= length l)%nat ->
  dw_end b = (fbgn b + Z.of_nat d) mod fqsz b ->
  window_bytes b = sumf (firstn d l).
Proof.
  intros Q Hd E. pose proof (qi_size _ _ Q) as Hq.
  pose proof (qi_fbgn _ _ Q) as Hb. pose proof (qi_len _ _ Q) as Hl.
  unfold window_bytes. rewrite E, Zminus_mod_idemp_l.
  replace (fbgn b + Z.of_nat d - fbgn b) with (Z.of_nat d) by lia.
  rewrite Z.mod_small, Nat2Z.id by lia.
  pose proof (sum_slots_closed b l Q d 0%nat ltac:(lia)) as H.
  cbn [Z.of_nat skipn] in H. rewrite Z.add_0_r, Z.mod_small in H by lia.
  exact H.
Qed.

(** A flush with [flush_all], asked for a written position that has not
    been flushed: it takes up a request, and the position stays a written
    one. *)
Lemma flush_all_written g l d u upto :
  queue_inv (log_buffer g) l -> lsn_inv g l d -> buf_inv (log_buffer g) l u ->
  fd (curr g) <> -1 ->
  lsn_le (nxt_flush_lsn g) upto -> written g upto ->
  exists g' n,
    do_log_buff_flush true g = Ret (g', n) /\ 0 < n /\
    lsn_lt (nxt_flush_lsn g) (nxt_flush_lsn g') /\
    queue_inv (log_buffer g') (List.tl l) /\
    lsn_inv g' (List.tl l) (Nat.pred d) /\
    buf_inv (log_buffer g') (List.tl l) (Nat.pred u) /\
    fd (curr g') = fd (curr g) /\ nxt_write_lsn g' = nxt_write_lsn g /\
    written g' upto /\
    (l = [] -> dw_end (log_buffer g') = -1 /\
               nflush (fque (log_buffer g') (fend (log_buffer g'))) = 0).
Proof.
  intros Q L B Hc Hle (Hu0 & Hlt & Hwb).
  pose proof (selected_cases true _ _ Q) as SC.
  pose proof (qi_open _ _ Q) as Hop. pose proof (qi_size _ _ Q) as Hq.
  pose proof (qi_fbgn _ _ Q) as Hfb.
  assert (Hsome : exists r, selected true (log_buffer g) = Some r /\ 0 < nflush r).
  { destruct (selected true (log_buffer g)) as [r|] eqn:Es.
    - exists r. split; [reflexivity|].
      destruct SC as [(l' & -> & _) | (_ & _ & _ & Hp & _)]; [|exact Hp].
      apply (qi_closed _ _ Q 0%nat r eq_refl).
    - exfalso. destruct SC as (-> & _ & Ho). specialize (Ho eq_refl).
      destruct L as (_ & _ & _ & [(Ld & Lfn & Lro) | (Ld & Ldl & Lfn & Lro)]).
      + cbn [sumf] in Lro. unfold lsn_le, lsn_lt in *. lia.
      + cbn [length] in Ldl. assert (d = 0%nat) by lia. subst d.
        destruct (dw_test_window _ _ 0%nat Q ltac:(cbn; lia) Ld) as (_ & Hne & _).
        rewrite (window_bytes_eq _ _ 0%nat Q ltac:(cbn; lia) Ld) in Hwb.
        cbn [skipn firstn sumf] in Lro, Hwb.
        unfold lsn_le, lsn_lt in *.
        destruct (Z.eq_dec (filenum upto) (filenum (nxt_flush_lsn g))) as [E|E].
        * specialize (Hwb Hne E). lia.
        * lia. }
  destruct Hsome as (r & Es & Hr).
  destruct (do_log_buff_flush_ok true g r Es Hr Hc) as (g' & Hf).
  exists g', (nflush r). split; [exact Hf|]. split; [exact Hr|].
  pose proof (flush_queue_inv _ _ _ _ _ Q Hf) as Q'.
  destruct (flush_lsn_inv _ _ _ _ _ _ Q L Hf) as (L' & _ & Hadv).
  pose proof (flush_buf_inv _ _ _ _ _ _ Q B Hf) as B'.
  pose proof (dw_end_of_flush _ _ _ _ Hf) as Hdw.
  pose proof Hf as Hinv. apply do_log_buff_flush_inv in Hinv.
  rewrite Es in Hinv. cbv zeta in Hinv.
  destruct Hinv as (Hw & _ & Hfc & _ & _ & _ & _ & _ & Hb & Hl & _).
  destruct (flush_some_fields (nflush r) (log_buffer g))
    as (_ & _ & _ & F4 & _ & F6 & _).
  rewrite <- Hb in F4, F6.
  split; [exact (Hadv Hr)|]. split; [exact Q'|]. split; [exact L'|].
  split; [exact B'|]. split; [exact Hfc|]. split; [exact Hw|].
  rewrite Es in SC. split.
  - split; [exact Hu0|]. split; [rewrite Hw; exact Hlt|].
    intros Hdw' Hfn'.
    destruct L as (_ & _ & _ & [(Ld & Lfn & Lro) | (Ld & Ldl & Lfn & Lro)]).
    + exfalso. apply Hdw'. rewrite Hdw, (dw_test_no_window _ _ Q Ld). exact Ld.
    + destruct (dw_test_window _ _ d Q Ldl Ld) as (Hu & Hne & Hd0).
      rewrite Hu in Hdw.
      destruct (Z.eqb_spec (fbgn (log_buffer g)) (dw_end (log_buffer g)))
        as [Et|Et]; [exfalso; apply Hdw'; exact Hdw|].
      destruct d as [|d']; [exfalso; apply Et, Hd0; reflexivity|].
      destruct SC as [(l' & -> & _ & _) | (-> & _)]; [|cbn in Ldl; lia].
      cbn [List.tl Nat.pred length] in *.
      rewrite (window_bytes_eq _ _ (S d') Q Ldl Ld) in Hwb.
      cbn [firstn sumf] in Hwb.
      destruct L' as (_ & _ & _ & [(Ld' & _) | (Ld' & Ldl' & _)]);
        [exfalso; apply Hdw'; exact Ld'|].
      rewrite (window_bytes_eq _ _ d' Q' Ldl' Ld').
      unfold flush_lsn_base in Hl. rewrite Hu in Hl.
      apply Z.eqb_neq in Et. rewrite Et in Hl.
      rewrite Hl in Hfn' |- *. unfold add_roffset in *.
      cbn [filenum roffset] in *.
      specialize (Hwb Hne Hfn'). lia.
  - intros ->. destruct SC as [(l' & El & _) | (_ & He & Er & _)];
      [discriminate|].
    apply Z.eqb_eq in He. rewrite He in F4.
    split; [|exact (pop_open_empties _ _ Q F4 F6)].
    rewrite Hdw.
    destruct L as (_ & _ & _ & [(Ld & Lfn & Lro) | (Ld & Ldl & Lfn & Lro)]).
    + rewrite (dw_test_no_window _ _ Q Ld). exact Ld.
    + cbn [length] in Ldl. assert (d = 0%nat) by lia. subst d.
      destruct (dw_test_window _ _ 0%nat Q ltac:(cbn; lia) Ld) as (Hu & _ & Hd0).
      rewrite Hu.
      assert (Et : fbgn (log_buffer g) = dw_end (log_buffer g))
        by (apply Hd0; reflexivity).
      apply Z.eqb_eq in Et. rewrite Et. reflexivity.
Qed.

Lemma buffer_flush_written_runs k :
  forall g l d u upto,
    queue_inv (log_buffer g) l -> lsn_inv g l d -> buf_inv (log_buffer g) l u ->
    (length l <= k)%nat -> fd (curr g) <> -1 -> written g upto ->
    exists g', log_buffer_flush k upto g = Ret g' /\ Inv g'.
Proof.
  induction k as [|k IH]; intros g l d u upto Q L B Hk Hc Hwr;
    cbn [log_buffer_flush];
    (destruct (LOGSN_IS_LE (nxt_flush_lsn g) upto) eqn:E;
     [| exists g; split; [reflexivity | exists l, d, u; auto]]);
    apply LOGSN_IS_LE_true in E;
    destruct (flush_all_written g l d u upto Q L B Hc E Hwr)
      as (g1 & n & Hf & Hn & _ & Q1 & L1 & B1 & Hc1 & Hw1 & Hwr1 & Hl1);
    rewrite Hf; cbn [bind];
    (assert (Hg : (n >? 0) = true) by (apply Z.gtb_lt; exact Hn));
    rewrite Hg; cbn [assert bind];
    (destruct (LOGSN_IS_GT (nxt_flush_lsn g1) upto) eqn:E1;
     [exists g1; split; [reflexivity | exists (List.tl l), (Nat.pred d), (Nat.pred u); auto]|]);
    unfold LOGSN_IS_GT in E1; apply negb_false_iff, LOGSN_IS_LE_true in E1.
  - (* no fuel left: the queue held nothing closed, and is drained *)
    exfalso. destruct l; [|cbn in Hk; lia]. cbn [List.tl] in *.
    destruct (Hl1 eq_refl) as (Hd1 & Ho1).
    destruct (window_dw_nonneg _ _ _ Q1 L1 Hd1) as (F1 & F2).
    rewrite Ho1 in F2. cbn [sumf] in F2.
    destruct Hwr1 as (_ & Hlt & _).
    unfold lsn_le, lsn_lt in *. lia.
  - apply (IH g1 (List.tl l) (Nat.pred d) (Nat.pred u)); auto.
    + destruct l; cbn in *; lia.
    + congruence.
Qed.

Lemma buffer_flush_written_no_assert k :
  forall g upto,
    Inv g -> fd (curr g) <> -1 -> written g upto ->
    log_buffer_flush k upto g <> AssertFail.
Proof.
  induction k as [|k IH]; intros g upto (l & d & u & Q & L & B) Hc Hwr;
    cbn [log_buffer_flush];
    (destruct (LOGSN_IS_LE (nxt_flush_lsn g) upto) eqn:E; [|discriminate]);
    apply LOGSN_IS_LE_true in E;
    destruct (flush_all_written g l d u upto Q L B Hc E Hwr)
      as (g1 & n & Hf & Hn & _ & Q1 & L1 & B1 & Hc1 & Hw1 & Hwr1 & _);
    rewrite Hf; cbn [bind];
    (assert (Hg : (n >? 0) = true) by (apply Z.gtb_lt; exact Hn));
    rewrite Hg; cbn [assert bind];
    (destruct (LOGSN_IS_GT (nxt_flush_lsn g1) upto); [discriminate|]).
  - discriminate.
  - apply IH; [exists (List.tl l), (Nat.pred d), (Nat.pred u); auto | congruence | exact Hwr1].
Qed.

(** C6 (as amended).  [log_buffer_flush] returns only with
    [nxt_flush_lsn > upto].  On a state of the invariant with a current
    file, and for [upto] a written position of the log (below
    [nxt_write_lsn], and below the end of the old file when it lies in the
    file a cleanup window is draining): a pass that finds
    [nxt_flush_lsn <= upto] gets a positive byte count from
    [do_log_buff_flush(true)] and a strictly larger [nxt_flush_lsn], and
    leaves [upto] a written position for the next pass; the assertion does
    not fail, whatever the number of passes; and the call returns. *)
Theorem buffer_flush_of_written (g : log_global) (upto : LogSN) :
  Inv g -> fd (curr g) <> -1 -> written g upto ->
  (forall fuel g', log_buffer_flush fuel upto g = Ret g' ->
                   lsn_lt upto (nxt_flush_lsn g')) /\
  (lsn_le (nxt_flush_lsn g) upto ->
   exists g1 n, do_log_buff_flush true g = Ret (g1, n) /\ 0 < n /\
                lsn_lt (nxt_flush_lsn g) (nxt_flush_lsn g1) /\
                Inv g1 /\ fd (curr g1) <> -1 /\ written g1 upto) /\
  (forall fuel, log_buffer_flush fuel upto g <> AssertFail) /\
  (exists fuel g', log_buffer_flush fuel upto g = Ret g' /\
                   lsn_lt upto (nxt_flush_lsn g') /\ Inv g').
Proof.
  intros HI Hc Hwr. split; [|split; [|split]].
  - intros fuel g'. apply log_buffer_flush_returns_beyond.
  - intros Hle. destruct HI as (l & d & u & Q & L & B).
    destruct (flush_all_written g l d u upto Q L B Hc Hle Hwr)
      as (g1 & n & Hf & Hn & Hadv & Q1 & L1 & B1 & Hc1 & _ & Hwr1 & _).
    exists g1, n. split; [exact Hf|]. split; [exact Hn|]. split; [exact Hadv|].
    split; [exists (List.tl l), (Nat.pred d), (Nat.pred u); auto|].
    split; [congruence | exact Hwr1].
  - intros fuel. apply buffer_flush_written_no_assert; auto.
  - destruct HI as (l & d & u & Q & L & B).
    destruct (buffer_flush_written_runs (length l) g l d u upto Q L B
                (Nat.le_refl _) Hc Hwr) as (g' & Hr & HI').
    exists (length l), g'. split; [exact Hr|]. split; [|exact HI'].
    eapply log_buffer_flush_returns_beyond; eauto.
Qed.

Lemma Inv_cleanup_dual : Inv cleanup_dual.
Proof.
  apply (rotation_Inv 0 dual_pending cleanup_dual Inv_dual_pending);
    vm_compute; try reflexivity. discriminate.
Qed.

(** In the cleanup window of [cleanup_dual], with the 24 bytes of the old
    file pending: the stamp (1, 0) of their record is a written position,
    and the flush asked for it returns with [nxt_flush_lsn] at (1, 24). *)
Lemma buffer_flush_of_written_witness :
  dw_end (log_buffer cleanup_dual) = 1 /\
  nxt_flush_lsn cleanup_dual = mkLogSN 1 0 /\
  nxt_write_lsn cleanup_dual = mkLogSN 2 0 /\
  exists fuel g',
    log_buffer_flush fuel (mkLogSN 1 0) cleanup_dual = Ret g' /\
    lsn_lt (mkLogSN 1 0) (nxt_flush_lsn g') /\
    (exists g1, log_buffer_flush 0 (mkLogSN 1 0) cleanup_dual = Ret g1 /\
                nxt_flush_lsn g1 = mkLogSN 1 24).
Proof.
  destruct (buffer_flush_of_written cleanup_dual (mkLogSN 1 0))
    as (_ & _ & _ & (fuel & g' & H1 & H2 & _)).
  - exact Inv_cleanup_dual.
  - vm_compute. discriminate.
  - split; [cbn; lia|]. split; [left; vm_compute; reflexivity|].
    intros _ _. vm_compute. reflexivity.
  - split; [reflexivity|]. split; [reflexivity|]. split; [reflexivity|].
    exists fuel, g'. split; [exact H1|]. split; [exact H2|].
    eexists. split; vm_compute; reflexivity.
Defined.

(** C6 fails as stated.  Right after a rotation with nothing pending,
    [nxt_flush_lsn] = (1, 0) <= [upto] = (1, 0) < [nxt_write_lsn] = (2, 0),
    yet [do_log_buff_flush(true)] returns 0 and the assertion of
    [log_buffer_flush] fails: no byte of file 1 was ever written, and
    (1, 0) is not a written position. *)
Lemma buffer_flush_assert_fails :
  lsn_lt (mkLogSN 1 0) (nxt_write_lsn rotated_empty) /\
  lsn_le (nxt_flush_lsn rotated_empty) (mkLogSN 1 0) /\
  (exists g', do_log_buff_flush true rotated_empty = Ret (g', 0) /\
              nxt_flush_lsn g' = mkLogSN 2 0) /\
  log_buffer_flush 8 (mkLogSN 1 0) rotated_empty = AssertFail /\
  ~ written rotated_empty (mkLogSN 1 0).
Proof.
  split; [vm_compute; left; reflexivity|].
  split; [vm_compute; right; split; [reflexivity | discriminate]|].
  split; [eexists; split; vm_compute; reflexivity|].
  split; [vm_compute; reflexivity|].
  intros (_ & _ & H).
  assert (Hd : dw_end (log_buffer rotated_empty) <> -1) by (vm_compute; discriminate).
  specialize (H Hd eq_refl). vm_compute in H. discriminate.
Qed.

Lemma write_lsn_stamp fuel r waiter dual g g' stamp :
  0 <= body_length r -> sizeof_LogHdr + body_length r < 2 ^ 32 ->
  log_record_write fuel r waiter dual g = Ret (g', stamp) ->
  nxt_write_lsn g' =
    add_roffset (nxt_write_lsn g) (sizeof_LogHdr + body_length r) /\
  stamp = (if waiter then Some (nxt_write_lsn g) else None).
Proof.
  intros Hb0 Hb1 H.
  unfold log_record_write, do_log_buff_write in H.
  rewrite (u32_small (sizeof_LogHdr + body_length r)) in H
    by (unfold sizeof_LogHdr in *; lia).
  destruct (assert _) in H; cbn [bind] in H; [|discriminate|discriminate].
  destruct (acquire fuel _ g) as [g1| |] eqn:Ea; cbn [bind] in H; try discriminate.
  apply acquire_ring in Ea. destruct Ea as (A1 & _).
  match type of H with
  | context [enqueue ?f ?t ?d ?b] =>
      destruct (enqueue f t d b) as [b5| |]; cbn [bind] in H; try discriminate
  end.
  inversion H; subst; clear H. cbn. rewrite A1. split; reflexivity.
Qed.

(** The stamp a waiter gets names a written position: the first byte of
    its record. *)
Lemma stamp_is_written fuel r dual g g' s :
  0 <= body_length r -> sizeof_LogHdr + body_length r < 2 ^ 32 ->
  Inv g -> Inv g' ->
  log_record_write fuel r true dual g = Ret (g', Some s) ->
  written g' s.
Proof.
  intros Hb0 Hb1 HI HI' H.
  destruct (write_lsn_stamp _ _ _ _ _ _ _ Hb0 Hb1 H) as (Hw & Hs).
  unfold add_roffset in Hw. inversion Hs; subst s. clear Hs.
  destruct HI as (l & d & u & Q & L & _).
  pose proof (sumf_closed_nonneg _ _ Q) as Hnn.
  pose proof (sumf_skipn_nonneg _ _ d Q) as Hsk.
  pose proof (qi_open _ _ Q) as Hop.
  assert (Hr0 : 0 <= roffset (nxt_write_lsn g)).
  { destruct L as (_ & Lr & _ & [(_ & _ & Lro) | (_ & _ & _ & Lro)]); lia. }
  split; [exact Hr0|]. split.
  - right. rewrite Hw. cbn [filenum roffset]. unfold sizeof_LogHdr in *.
    split; [reflexivity | lia].
  - intros Hd Hfn. exfalso.
    destruct HI' as (l' & d' & u' & Q' & L' & _).
    destruct L' as (_ & _ & _ & [(Ld & _) | (_ & _ & Lfn & _)]);
      [contradiction|].
    rewrite Hw in Lfn. cbn [filenum] in Lfn. lia.
Qed.

(** * Flushes in a cleanup window *)

(** ** The current file throughout a window *)

Lemma flush_curr_fd flush_all g g' n :
  do_log_buff_flush flush_all g = Ret (g', n) -> fd (curr g') = fd (curr g).
Proof.
  intros H. apply do_log_buff_flush_inv in H.
  destruct H as (_ & _ & H & _). exact H.
Qed.

Lemma acquire_curr_fd fuel :
  forall total g g1,
    acquire fuel total g = Ret g1 -> fd (curr g1) = fd (curr g).
Proof.
  induction fuel as [|k IH]; intros total g g1; cbn [acquire];
    (destruct (find_space total (log_buffer g)) as [[ok b1]| |];
     cbn [bind]; try discriminate);
    (destruct ok; [intros H; inversion H; subst; reflexivity|]);
    try discriminate.
  destruct (do_log_buff_flush false (set_buffer g b1)) as [[g2 n]| |] eqn:Efl;
    cbn [bind fst]; try discriminate.
  intros H. rewrite (IH _ _ _ H), (flush_curr_fd _ _ _ _ Efl). reflexivity.
Qed.

Lemma write_curr_fd fuel r waiter dual g g' stamp :
  log_record_write fuel r waiter dual g = Ret (g', stamp) ->
  fd (curr g') = fd (curr g).
Proof.
  unfold log_record_write, do_log_buff_write. intros H.
  destruct (assert _) in H; cbn [bind] in H; try discriminate.
  destruct (acquire fuel _ g) as [g1| |] eqn:Ea; cbn [bind] in H;
    try discriminate.
  match type of H with
  | bind ?m _ = _ => destruct m as [b5| |]; cbn [bind] in H; try discriminate
  end.
  inversion H; subst. cbn. exact (acquire_curr_fd _ _ _ _ Ea).
Qed.

Lemma buffer_flush_curr_fd fuel :
  forall upto g g',
    log_buffer_flush fuel upto g = Ret g' -> fd (curr g') = fd (curr g).
Proof.
  induction fuel as [|k IH]; intros upto g g' H;
    cbn [log_buffer_flush] in H;
    (destruct (LOGSN_IS_LE (nxt_flush_lsn g) upto);
     [|inversion H; subst; reflexivity]);
    (destruct (do_log_buff_flush true g) as [[g1 n]| |] eqn:Ef;
     cbn [bind] in H; try discriminate);
    (destruct (n >? 0); cbn [assert bind] in H; try discriminate);
    pose proof (flush_curr_fd _ _ _ _ Ef) as Hc;
    (destruct (LOGSN_IS_GT (nxt_flush_lsn g1) upto);
     [inversion H; subst; exact Hc|]);
    try discriminate.
  rewrite (IH _ _ _ H). exact Hc.
Qed.

Lemma file_sync_curr_fd g g' :
  log_file_sync g = Ret g' -> fd (curr g') = fd (curr g).
Proof.
  unfold log_file_sync, log_file_sync_begin, log_file_sync_end.
  destruct (negb (fd (curr g) =? -1)); cbn [assert bind]; [|discriminate].
  intros H. inversion H; subst. clear H.
  repeat match goal with
         | |- context [if ?c then _ else _] => destruct c
         end; reflexivity.
Qed.

(** While a cleanup window is open no operation changes [curr.fd]: a
    second rotation would fail the assertion on [dw_end]. *)
Lemma step_curr_fd g g' :
  step g g' -> fd (curr g) <> -1 -> dw_end (log_buffer g) <> -1 ->
  fd (curr g') = fd (curr g).
Proof.
  intros H Hc Hd. destruct H as [fuel r waiter dual g g' stamp _ H
                                | g g' n H | fuel upto g g' H | g g' H
                                | fuel success g g' H | newfd g].
  - eapply write_curr_fd; eauto.
  - eapply flush_curr_fd; eauto.
  - eapply buffer_flush_curr_fd; eauto.
  - eapply file_sync_curr_fd; eauto.
  - unfold cmdlog_complete_dual_write in H.
    destruct (fd (next g) =? -1); [inversion H; subst; reflexivity|].
    destruct success.
    + exfalso. cbv zeta in H. apply Z.eqb_neq in Hd.
      destruct (nflush (fque (log_buffer g) (fend (log_buffer g))) >? 0);
        cbn [dw_end set_fend] in H; rewrite Hd in H; discriminate.
    + destruct (reset_dual fuel (s32 (fbgn (log_buffer g))) (log_buffer g))
        as [b1| |]; cbn [bind] in H; try discriminate.
      match type of H with
      | (if ?c then _ else _) = _ => destruct c
      end; inversion H; subst; reflexivity.
  - unfold cmdlog_file_prepare.
    destruct (newfd <? 0); [reflexivity|].
    destruct (Z.eqb_spec (fd (curr g)) (-1)); [contradiction | reflexivity].
Qed.

Lemma in_window_inv fo fn g :
  in_window fo fn g ->
  reachable g /\ fd (curr g) = fn /\ fn <> -1 /\
  0 <= dw_end (log_buffer g) < 2 ^ 31.
Proof.
  induction 1 as [fuel g g' Hr Ho Hn Hne Hc
                 | g g' _ (Hr & Hc & Hne & Hd) Hs Hd'].
  - pose proof (reachable_bounded g Hr) as (Hq & Hb & He & Hdw & _).
    assert (Hd : dw_end (log_buffer g) = -1).
    { unfold cmdlog_complete_dual_write in Hc.
      rewrite Hn in Hc. apply Z.eqb_neq in Hne. rewrite Hne in Hc.
      cbv zeta in Hc.
      destruct (Z.eqb_spec (dw_end (log_buffer g)) (-1)) as [E|E]; [exact E|].
      exfalso. apply Z.eqb_neq in E.
      destruct (nflush (fque (log_buffer g) (fend (log_buffer g))) >? 0);
        cbn [dw_end set_fend] in Hc; rewrite E in Hc; discriminate. }
    destruct (complete_dual_write_buffer fuel g) as (g2 & Hc2 & Hbuf & _ & _ & _ & Hcf & _).
    { unfold queue_wf. lia. }
    { rewrite Hn. exact Hne. }
    { exact Hd. }
    rewrite Hc2 in Hc. inversion Hc; subst g2. clear Hc.
    split; [eapply reach_step; [exact Hr | eapply step_complete_dual_write; exact Hc2]|].
    split; [rewrite Hcf; exact Hn|]. split; [exact Hne|].
    cbv zeta in Hbuf. rewrite Hbuf. cbn [dw_end set_dw_end].
    pose proof (ring_next_range _ _ Hq He) as Hrn.
    destruct (nflush _ >? 0); cbn [fend set_fend]; lia.
  - pose proof (reach_step _ _ Hr Hs) as Hr'.
    split; [exact Hr'|].
    split; [rewrite (step_curr_fd _ _ Hs) by lia; exact Hc|].
    split; [exact Hne|].
    pose proof (reachable_bounded g' Hr') as (Hq & _ & _ & Hdw & _). lia.
Qed.

(** C2 (as amended).  In a cleanup window (from
    [cmdlog_complete_dual_write(true)] until the flush that finds
    [fbgn = dw_end]) the bytes of the request a flush takes up, the
    [nflush] bytes of [data] from [head] on (from 0 when [head] had reached
    [last]), are written only when its [dual_write] flag is set, and then
    by one [write] to [curr.fd] alone; throughout the window [curr.fd] is
    the former [next.fd], the file of the new generation.  When
    [fbgn = dw_end] at entry, [dw_end] becomes -1 and [nxt_flush_lsn] goes
    to the next file number (the increment of a [uint32_t]) with roffset 0,
    advanced by the bytes of this call; otherwise [dw_end] stays and
    [nxt_flush_lsn] moves on within its file. *)
Theorem cleanup_flush_routing (fo fn : Z) (flush_all : bool)
        (g g' : log_global) (n : Z) :
  in_window fo fn g ->
  do_log_buff_flush flush_all g = Ret (g', n) ->
  let b := log_buffer g in
  let off := if head b =? u32 (last b) then 0 else head b in
  fd (curr g) = fn /\ fn <> -1 /\ dw_end b <> -1 /\
  match selected flush_all b with
  | Some r =>
      n = nflush r /\ 0 < n /\
      io g' = io g ++ (if dual_write r then [IoWrite fn off n] else [])
  | None => n = 0 /\ io g' = io g
  end /\
  (fbgn b = dw_end b ->
   dw_end (log_buffer g') = -1 /\
   nxt_flush_lsn g' = mkLogSN (u32 (filenum (nxt_flush_lsn g) + 1)) (0 + n)) /\
  (fbgn b <> dw_end b ->
   dw_end (log_buffer g') = dw_end b /\
   nxt_flush_lsn g' =
     mkLogSN (filenum (nxt_flush_lsn g)) (roffset (nxt_flush_lsn g) + n)).
Proof.
  intros HW H. cbv zeta.
  destruct (in_window_inv _ _ _ HW) as (_ & Hc & Hne & Hd).
  pose proof (dw_end_of_flush _ _ _ _ H) as Hdw.
  apply do_log_buff_flush_inv in H.
  destruct H as (_ & _ & _ & _ & _ & _ & H).
  assert (Hne1 : (dw_end (log_buffer g) =? -1) = false) by (apply Z.eqb_neq; lia).
  assert (Hu : u32 (dw_end (log_buffer g)) = dw_end (log_buffer g))
    by (apply u32_small; lia).
  rewrite Hu in Hdw.
  split; [exact Hc|]. split; [exact Hne|]. split; [lia|].
  split; [|split].
  - destruct (selected flush_all (log_buffer g)) as [r|].
    + cbv zeta in H. destruct H as (Hn & Hpos & _ & _ & Hio & _).
      split; [exact Hn|]. split; [exact Hpos|].
      rewrite Hio. unfold flush_writes. rewrite Hne1. cbn [negb].
      rewrite flush_offset, Hc, Hn. reflexivity.
    + destruct H as (Hn & _ & _ & Hio & _). auto.
  - intros Hf. apply Z.eqb_eq in Hf. rewrite Hf in Hdw.
    split; [exact Hdw|].
    unfold flush_lsn_base in H. rewrite Hu, Hf in H.
    destruct (selected flush_all (log_buffer g)) as [r|].
    + cbv zeta in H. destruct H as (_ & _ & _ & Hl & _). rewrite Hl. reflexivity.
    + destruct H as (Hn & _ & Hl & _). rewrite Hl, Hn. reflexivity.
  - intros Hf. apply Z.eqb_neq in Hf. rewrite Hf in Hdw.
    split; [exact Hdw|].
    unfold flush_lsn_base in H. rewrite Hu, Hf in H.
    destruct (selected flush_all (log_buffer g)) as [r|].
    + cbv zeta in H. destruct H as (_ & _ & _ & Hl & _). rewrite Hl. reflexivity.
    + destruct H as (Hn & _ & Hl & _). rewrite Hl, Hn.
      destruct (nxt_flush_lsn g) as [f o]. cbn. f_equal. lia.
Qed.

Lemma in_window_cleanup_second : in_window 3 4 cleanup_second.
Proof.
  pose (g1 := state_of (write_rec 0 16 false two_files)).
  pose (g2 := state_of (write_rec 0 16 true g1)).
  pose (g3 := state_of (cmdlog_complete_dual_write 0 true g2)).
  assert (R1 : reachable g1).
  { eapply reach_step; [apply reachable_two_files|].
    eapply (step_record_write 0 (mkLogRec 16) true false _ _ (Some (mkLogSN 1 0))).
    - unfold record_ok, CMDLOG_RECORD_MIN_SIZE, sizeof_LogHdr. cbn. lia.
    - vm_compute. reflexivity. }
  assert (R2 : reachable g2).
  { eapply reach_step; [exact R1|].
    eapply (step_record_write 0 (mkLogRec 16) true true _ _ (Some (mkLogSN 1 24))).
    - unfold record_ok, CMDLOG_RECORD_MIN_SIZE, sizeof_LogHdr. cbn. lia.
    - vm_compute. reflexivity. }
  assert (W3 : in_window 3 4 g3).
  { apply (window_opened 3 4 0 g2 g3 R2);
      try (vm_compute; reflexivity). discriminate. }
  apply (window_step 3 4 g3 cleanup_second W3).
  - apply (step_flush_once g3 cleanup_second 24). vm_compute. reflexivity.
  - vm_compute. discriminate.
Qed.

Lemma cleanup_flush_routing_witness :
  exists g',
    do_log_buff_flush false cleanup_second = Ret (g', 24) /\
    head (log_buffer cleanup_second) = 24 /\
    fd (curr cleanup_second) = 4 /\
    io g' = io cleanup_second ++ [IoWrite 4 24 24].
Proof.
  pose (res := fst (ret_of (cleanup_second, 0)
                           (do_log_buff_flush false cleanup_second))).
  assert (E : do_log_buff_flush false cleanup_second = Ret (res, 24))
    by (vm_compute; reflexivity).
  destruct (cleanup_flush_routing 3 4 false cleanup_second res 24
              in_window_cleanup_second E) as (H1 & _ & _ & H4 & _).
  assert (Hs : selected false (log_buffer cleanup_second) = Some (mkFREQ 24 true))
    by (vm_compute; reflexivity).
  cbv zeta in H4. rewrite Hs in H4. destruct H4 as (_ & _ & H4).
  exists res. split; [exact E|]. split; [reflexivity|]. split; [exact H1|].
  rewrite H4. vm_compute. reflexivity.
Defined.

(** C2 fails as stated: after the handover [curr.fd] is the new file.
    With descriptor 3 the file before the rotation and 4 the one after it,
    the dual-write request left in the cleanup window is written to 4, and
    3 has been closed by the handover. *)
Lemma cleanup_writes_to_new_file :
  exists g0 g1 g2,
    write_rec 1 16 true two_files = Ret g0 /\
    fd (curr g0) = 3 /\ fd (next g0) = 4 /\
    cmdlog_complete_dual_write 0 true g0 = Ret g1 /\
    dw_end (log_buffer g1) = 1 /\
    In (IoClose 3) (io g1) /\
    do_log_buff_flush false g1 = Ret (g2, 24) /\
    io g2 = io g1 ++ [IoWrite 4 0 24] /\
    ~ In (IoWrite 3 0 24) (io g2).
Proof.
  eexists. eexists. eexists.
  split; [vm_compute; reflexivity|].
  split; [reflexivity|]. split; [reflexivity|].
  split; [vm_compute; reflexivity|].
  split; [reflexivity|].
  split; [vm_compute; auto|].
  split; [vm_compute; reflexivity|].
  split; [vm_compute; reflexivity|].
  vm_compute. intuition discriminate.
Qed.

(** ** A request over two ranges of the buffer *)

Lemma late_que_slots :
  late_que 0 3 = mkFREQ 16 true /\ late_que 0 4 = mkFREQ 16 false.
Proof. split; reflexivity. Qed.

(** C5: a request that does not cover one range of the buffer.  The run of
    C1 has left [fbgn = fend] with the requests from [fend] on still
    counting pending bytes.  A new file is prepared and the rotation
    completes; the flusher makes two passes; a record of 16 bytes is then
    written for a waiter, which is given the position (3, 0).  The record
    is stored at offset 32784 and counted in request 4, which already
    counts 16 bytes and now counts 32.  The waiter's
    [log_buffer_flush] up to (3, 0) writes the 32 bytes from offset 32815
    on, a range the record lies outside of. *)
Theorem request_spans_two_ranges :
  exists g g' g'',
    reachable g /\
    nxt_write_lsn g = mkLogSN 3 0 /\ nxt_flush_lsn g = mkLogSN 3 0 /\
    log_record_write 0 (mkLogRec 8) true false g = Ret (g', Some (mkLogSN 3 0)) /\
    io g' = io g ++ [BufStore 32784 16] /\
    fend (log_buffer g) = 4 /\ fend (log_buffer g') = 4 /\
    fque (log_buffer g) 4 = mkFREQ 16 false /\
    fque (log_buffer g') 4 = mkFREQ 32 false /\
    log_buffer_flush 0 (mkLogSN 3 0) g' = Ret g'' /\
    io g'' = io g' ++ [IoWrite 5 32815 32] /\
    nxt_flush_lsn g'' = mkLogSN 3 32.
Proof.
  destruct late_base as (g0 & Hr0 & HS).
  destruct HS as (Hsz & Hq & Hh & Ht & Hl & Hfb & Hfe & Hdw & HW & HF & Hc & Hx & Hque).
  cbv zeta in *.
  change (32799 + 16 * 0) with 32799 in Hh. change (3 + 0) with 3 in Hfb, Hfe.
  change (14 + 16 * 0) with 14 in HF.
  destruct late_que_slots as (Q3 & Q4).
  (* a new file is prepared *)
  pose (g1 := fst (cmdlog_file_prepare 5 g0)).
  assert (E1 : g1 = set_next g0 (mkFSTATE 5 false 0)).
  { subst g1. unfold cmdlog_file_prepare. rewrite Hc. reflexivity. }
  assert (Hr1 : reachable g1).
  { eapply reach_step; [exact Hr0 | apply step_file_prepare]. }
  (* the rotation completes *)
  destruct (complete_dual_write_buffer 0 g1)
    as (g2 & Hcd & Hb2 & Hw2 & Hf2 & _ & Hc2 & Hx2).
  { rewrite E1. unfold queue_wf. cbn [log_buffer set_next].
    rewrite Hq, Hfb, Hfe. unfold QSZ. lia. }
  { rewrite E1. cbn. discriminate. }
  { rewrite E1. exact Hdw. }
  assert (Hr2 : reachable g2).
  { eapply reach_step; [exact Hr1 | eapply step_complete_dual_write; exact Hcd]. }
  cbv zeta in Hb2. rewrite E1 in Hb2, Hw2, Hf2, Hc2.
  cbn [log_buffer set_next nxt_write_lsn nxt_flush_lsn next fd] in Hb2, Hw2, Hf2, Hc2.
  rewrite Hfe, Hque, Q3 in Hb2. cbn [nflush Z.gtb Z.compare] in Hb2.
  cbn [fend set_fend] in Hb2.
  assert (Hrn3 : ring_next (log_buffer g0) 3 = 4).
  { unfold ring_next. rewrite Hq. reflexivity. }
  rewrite Hrn3 in Hb2. rewrite HW in Hw2. rewrite HF in Hf2.
  change (bump_filenum (mkLogSN 2 0)) with (mkLogSN 3 0) in Hw2.
  (* first pass of the flusher: request 3, inside the cleanup window *)
  assert (Hsel2 : selected false (log_buffer g2) = Some (mkFREQ 16 true)).
  { unfold selected. rewrite Hb2. cbn [fbgn fend fque set_dw_end set_fend].
    rewrite Hfb. cbn [Z.eqb Pos.eqb negb]. rewrite Hque, Q3. reflexivity. }
  destruct (do_log_buff_flush_ok false g2 _ Hsel2) as (g3 & Hfl3).
  { cbn. lia. }
  { rewrite Hc2. discriminate. }
  cbn [nflush] in Hfl3.
  assert (Hr3 : reachable g3).
  { eapply reach_step; [exact Hr2 | eapply step_flush_once; exact Hfl3]. }
  pose proof Hfl3 as Hinv3. apply do_log_buff_flush_inv in Hinv3.
  rewrite Hsel2 in Hinv3. cbv zeta in Hinv3.
  destruct Hinv3 as (Hw3 & _ & Hc3 & Hx3 & _ & _ & _ & _ & Hb3 & Hf3 & _).
  assert (Hbase2 : flush_lsn_base g2 = mkLogSN 2 14).
  { unfold flush_lsn_base. rewrite Hb2. cbn [fbgn dw_end set_dw_end set_fend].
    rewrite Hfb. change (3 =? u32 4) with false. cbv iota. exact Hf2. }
  rewrite Hbase2 in Hf3. unfold add_roffset in Hf3. cbn in Hf3.
  destruct (flush_some_fields 16 (log_buffer g2))
    as (F1 & F2 & F3 & F4 & F5 & F6 & F7 & F8 & F9).
  rewrite <- Hb3 in F1, F2, F3, F4, F5, F6, F7, F8, F9.
  rewrite Hb2 in F1, F2, F3, F4, F5, F6, F7, F8, F9.
  cbn [size head tail last fqsz fbgn fend dw_end fque set_dw_end set_fend]
    in F1, F2, F3, F4, F5, F6, F7, F8, F9.
  rewrite Hfb in F4, F5, F6, F7. rewrite Hh, Hl in F8, F9.
  unfold ring_next in F4, F5. cbn [fqsz set_dw_end set_fend] in F4, F5.
  rewrite Hq in F4, F5.
  change (3 =? 4) with false in F4. change (3 =? u32 4) with false in F7.
  cbv iota in F4, F7.
  change (if u32 (3 + 1) =? QSZ then 0 else u32 (3 + 1)) with 4 in F5.
  rewrite ring_after_upper in F8, F9 by (unfold CMDLOG_BUFFER_SIZE; lia).
  change (32799 + 16 =? CMDLOG_BUFFER_SIZE - 1) with false in F8, F9.
  cbn [fst snd] in F8, F9. change (32799 + 16) with 32815 in F8.
  (* second pass: nothing selected, the cleanup window closes *)
  assert (Hsel3 : selected false (log_buffer g3) = None).
  { unfold selected. rewrite F4, F5. reflexivity. }
  destruct (do_log_buff_flush_none false g3 Hsel3) as (g4 & Hfl4).
  assert (Hr4 : reachable g4).
  { eapply reach_step; [exact Hr3 | eapply step_flush_once; exact Hfl4]. }
  pose proof Hfl4 as Hinv4. apply do_log_buff_flush_inv in Hinv4.
  rewrite Hsel3 in Hinv4.
  destruct Hinv4 as (Hw4 & _ & Hc4 & Hx4 & _ & _ & _ & Hb4 & Hf4 & Hio4 & _).
  assert (Hcl : close_dw (log_buffer g3) = set_dw_end (log_buffer g3) (-1)).
  { unfold close_dw. rewrite F5, F7. reflexivity. }
  rewrite Hcl in Hb4.
  assert (Hbase3 : flush_lsn_base g3 = mkLogSN 3 0).
  { unfold flush_lsn_base. rewrite F5, F7. change (4 =? u32 4) with true.
    cbv iota. rewrite Hf3. reflexivity. }
  rewrite Hbase3 in Hf4.
  assert (HW4 : nxt_write_lsn g4 = mkLogSN 3 0).
  { rewrite Hw4, Hw3. exact Hw2. }
  assert (Hq4 : fque (log_buffer g4) 4 = mkFREQ 16 false).
  { rewrite Hb4. cbn [fque set_dw_end]. rewrite F6. unfold upd.
    change (4 =? 3) with false. cbv iota. rewrite Hque. exact Q4. }
  assert (Hfe4 : fend (log_buffer g4) = 4) by (rewrite Hb4; exact F4).
  assert (Hfb4 : fbgn (log_buffer g4) = 4) by (rewrite Hb4; exact F5).
  assert (Hh4 : head (log_buffer g4) = 32815) by (rewrite Hb4; exact F8).
  assert (Hl4 : last (log_buffer g4) = CMDLOG_BUFFER_SIZE - 1)
    by (rewrite Hb4; exact F9).
  assert (Ht4 : tail (log_buffer g4) = 32784)
    by (rewrite Hb4; cbn [tail set_dw_end]; rewrite F3; exact Ht).
  assert (Hs4 : size (log_buffer g4) = CMDLOG_BUFFER_SIZE)
    by (rewrite Hb4; cbn [size set_dw_end]; rewrite F2; exact Hsz).
  assert (Hd4 : dw_end (log_buffer g4) = -1) by (rewrite Hb4; reflexivity).
  assert (HC4 : fd (curr g4) = 5) by (rewrite Hc4, Hc3; exact Hc2).
  assert (HX4 : fd (next g4) = -1) by (rewrite Hx4, Hx3; exact Hx2).
  (* a record for a waiter *)
  assert (Hfs : find_space 16 (log_buffer g4) = Ret (true, log_buffer g4)).
  { unfold find_space. rewrite Hh4, Ht4, Hl4. reflexivity. }
  pose proof (write_direct 0 (mkLogRec 8) true false g4 (log_buffer g4)) as Hw.
  cbv zeta in Hw. change (sizeof_LogHdr + body_length (mkLogRec 8)) with 16 in Hw.
  specialize (Hw ltac:(lia) ltac:(rewrite Hs4; reflexivity) Hfs
                 ltac:(rewrite Ht4; lia) ltac:(rewrite Ht4; lia)).
  rewrite Ht4 in Hw. change (32784 + 16) with 32800 in Hw.
  set (bt := set_tail (log_buffer g4) 32800) in *.
  assert (Hcm : close_on_mismatch false bt = bt).
  { unfold close_on_mismatch. subst bt. cbn [fque fend set_tail].
    rewrite Hfe4, Hq4. reflexivity. }
  rewrite Hcm in Hw.
  rewrite enqueue_fits in Hw;
    try (subst bt; cbn [fque fend set_tail]; rewrite Hfe4, Hq4;
         unfold CMDLOG_FLUSH_AUTO_SIZE; cbn; lia); [|lia].
  cbn [bind] in Hw. rewrite HW4 in Hw.
  match type of Hw with _ = Ret (?x, _) => set (g5 := x) in * end.
  assert (Hb5 : log_buffer g5 =
                set_fque bt (upd (fque bt) 4 (mkFREQ 32 false))).
  { subst g5 bt. cbn [log_buffer set_buffer fque fend set_tail].
    rewrite Hfe4, Hq4. reflexivity. }
  assert (Hq5 : fque (log_buffer g5) 4 = mkFREQ 32 false).
  { rewrite Hb5. cbn [fque set_fque]. unfold upd. reflexivity. }
  assert (HF5 : nxt_flush_lsn g5 = mkLogSN 3 0) by (subst g5; exact Hf4).
  assert (HC5 : fd (curr g5) = 5) by (subst g5; exact HC4).
  assert (HX5 : fd (next g5) = -1) by (subst g5; exact HX4).
  assert (Hd5 : dw_end (log_buffer g5) = -1) by (rewrite Hb5; subst bt; exact Hd4).
  (* the waiter asks for its flush *)
  assert (Hsel5 : selected true (log_buffer g5) = Some (mkFREQ 32 false)).
  { unfold selected. rewrite Hb5. subst bt.
    cbn [fbgn fend fque set_fque set_tail]. rewrite Hfb4, Hfe4.
    cbn [Z.eqb Pos.eqb negb andb]. unfold upd. reflexivity. }
  destruct (do_log_buff_flush_ok true g5 _ Hsel5) as (g6 & Hfl6).
  { cbn. lia. }
  { rewrite HC5. discriminate. }
  cbn [nflush] in Hfl6.
  pose proof Hfl6 as Hinv6. apply do_log_buff_flush_inv in Hinv6.
  rewrite Hsel5 in Hinv6. cbv zeta in Hinv6.
  destruct Hinv6 as (_ & _ & _ & _ & _ & _ & _ & _ & _ & Hf6 & Hio6 & _).
  assert (Hbase5 : flush_lsn_base g5 = mkLogSN 3 0).
  { unfold flush_lsn_base. rewrite Hd5. rewrite Hb5. subst bt.
    cbn [fbgn set_fque set_tail]. rewrite Hfb4. exact HF5. }
  rewrite Hbase5 in Hf6. unfold add_roffset in Hf6. cbn in Hf6.
  assert (Hrun : log_buffer_flush 0 (mkLogSN 3 0) g5 = Ret g6).
  { cbn [log_buffer_flush]. rewrite HF5.
    change (LOGSN_IS_LE (mkLogSN 3 0) (mkLogSN 3 0)) with true.
    cbv iota. rewrite Hfl6. cbn [bind nflush]. cbn [assert Z.gtb Z.compare bind].
    rewrite Hf6. reflexivity. }
  exists g4, g5, g6.
  split; [exact Hr4|]. split; [exact HW4|]. split; [exact Hf4|].
  split; [exact Hw|]. split; [reflexivity|]. split; [exact Hfe4|].
  split; [rewrite Hb5; subst bt; exact Hfe4|].
  split; [exact Hq4|]. split; [exact Hq5|]. split; [exact Hrun|].
  split; [|exact Hf6].
  rewrite Hio6. f_equal. unfold flush_writes.
  rewrite Hd5, HX5, HC5. cbn [nflush dual_write].
  change (-1 =? -1) with true. cbn [negb andb].
  rewrite flush_offset, Hb5. subst bt.
  cbn [head last set_fque set_tail]. rewrite Hh4, Hl4. reflexivity.
Qed.
